(* ===== verification/_CoqProject ===== *)
-Q . S2P
Prelude.v
JsRegExp.v
JsValue.v
JsText.v
WebUrl.v
Payment.v
WalletApi.v
PaymentSession.v
PaymentPolling.v
TopupInfo.v
Passkey.v
CallbackOrigin.v
PaymentAdmin.v
SecureVerification.v
AdminAccess.v
BillingExpr.v
TierExpr.v
TierRoundtrip.v
Navigation.v
Notifications.v
ChatLinks.v
ChannelRoutes.v
ChannelUtils.v
ChannelModels.v
PricingOptions.v
Flow.v
HttpStatusRules.v
PlaygroundMessage.v
PlaygroundStorage.v
PlaygroundChat.v
