(* ===== verification/Prelude.v ===== *)
(** * xy-api web console: a verified core

    The repository is an LLM API gateway: a Go server (src/controller,
    src/service, src/model, ...), a classic JavaScript console
    (src/web/classic) and the current TypeScript console (src/web/default).
    This library models the logic of the TypeScript console that decides
    something: what a chat session shows, which payment links are followed, which
    amounts and addresses are accepted, what a flow chart adds up to, who may open
    which page.  Components are translated from src/web/default/src; the paths
    below are relative to it.

    ** Files

    - [Prelude] (this file): JavaScript strings as lists of UTF-16 code units with
      the string operations the sources use, ordered sets and maps, stable
      sorting, sums over lists, tactics and hint databases.
    - [JsRegExp]: regular expressions, a backtracking matcher with captures (the
      ECMA-262 semantics of the constructs used), and a declarative match relation
      [M] for which the matcher is sound and complete; patterns of the sources are
      written in it, and what they accept is read off [M].
    - [JsValue]: JSON-like values and binary64 numbers ([SpecFloat] at precision
      53), with exactness of whole numbers below 2^53 and the fact that no integer
      of 2^53 or more is a safe integer.
    - [JsText]: texts of numbers and of JSON.  [JSON.parse] and [JSON.stringify]
      (objects keep JavaScript's property order), with the round trip for values
      whose numbers print back ([JSON_parse_stringify]).
    - [WebUrl]: URL objects, [encodeURIComponent]; the URL parser is the
      platform's and a class parameter ([UrlParser], without laws here;
      [ChannelRoutes] states what the URL standard says of plain addresses).
    - [Payment]: features/wallet/lib/payment.ts with its types and constants.
      Which payment URLs, order links and QR codes are accepted, which methods a
      browser is offered, public codes, minimum and preset amounts, errors.
    - [WalletApi]: the readers of features/wallet/api.ts: orders, billing records
      and quotes from arbitrary JSON, amounts and currencies.
    - [PaymentSession]: features/wallet/hooks/use-payment.ts, quoting and paying as
      handlers on one state.  The quote that is shown answers the last question,
      a payment is not sent twice, pages that are opened are safe.
    - [PaymentPolling]: features/wallet/hooks/use-payment-order.ts, waiting for an
      order: which request may change it, one report of its settlement, one
      pending timer or call, the delays.
    - [TopupInfo]: features/wallet/hooks/use-topup-info.ts, the top-up configuration
      from arbitrary JSON and the loading of it: what is offered is well formed,
      public and payable.
    - [Passkey]: lib/passkey.ts, credentials to and from base64url texts.
    - [SecureVerification]: features/auth/secure-verification (api.ts and
      use-secure-verification.ts) and lib/secure-verification.ts: a protected
      operation runs from the dialog only after the server has confirmed the
      verification that the user asked for, at most once, and never after it was
      cancelled.
    - [CallbackOrigin]: payment-callback-origin.ts of
      features/system-settings/integrations.  IPv4 and IPv6 literals are read
      back exactly; an origin is accepted exactly when it satisfies the stated
      policy, with the denied ranges as address prefixes.
    - [PaymentAdmin]: features/system-settings: payment operations requests,
      credential revocation (a whole credential or none is sent), settings
      sections, payment methods (identity, normalization, removal), errors as
      objects whose causes may form cycles.
    - [AdminAccess]: lib/admin-permissions.ts and lib/roles.ts.
    - [BillingExpr]: features/pricing/lib/billing-expr.ts: the
      billing expressions with request rules.  Rules that are built are read back
      as they were; a combined expression splits into its two parts.
    - [TierExpr], [TierRoundtrip]: features/pricing/lib/tier-expr.ts: the tiers of the
      visual price editor, the expression written for them and its reading.  The
      second file shows that what is written is read back as it was.
    - [Navigation]: lib/nav-modules.ts and hooks/use-sidebar-config.ts: the
      sidebar shows exactly what the texts of the administrators and of the user
      leave, and shows the playground only if the guard of its route lets it open.
    - [Notifications]: hooks/use-notifications.ts and stores/notification-store.ts:
      announcements that were seen stay read; the memoized counts, which may be
      stale, are never too low; the keys use a hash that wraps to 32 bits.
    - [ChatLinks]: features/chat/lib/chat-links.ts: links to chat clients, with the
      key only where a template asks for it.
    - [ChannelRoutes]: features/channels/lib/advanced-custom.ts.  The Module
      [Server] holds the rules of the Go server (dto/channel_settings.go) as the
      abstract specification: on plain upstream texts both report the same.  Of the
      two URL parsers the documented behaviour on such texts is assumed.
    - [ChannelUtils]: features/channels/lib/channel-utils.ts: keys (shown, counted,
      deduplicated), settings, the attention check, and the rows by tag, each the
      exact summary of its channels.
    - [ChannelModels]: features/channels/lib/model-mapping-validation.ts,
      upstream-update-utils.ts and hooks/use-channel-upstream-updates.ts: the checks
      of a model mapping are exact, and upstream updates are applied once, for the
      channel shown, with every staged model added or ignored.
    - [PricingOptions]: model-pricing-snapshots.ts: the pricing options as JSON
      texts, and one model's draft read from and written to all of them.
    - [Flow]: features/dashboard/lib/flow.ts: from usage rows to a flow graph.
      Stages add up to the total of the rows drawn (conservation), filters, top-N
      limit, masking, highlighting.  Metrics are integers; the doubles of the source
      add whole numbers exactly below 2^53 ([num_sum_exact] of [JsValue]).
    - [HttpStatusRules]: lib/http-status-code-rules.ts: parsing, merging and
      printing of status code ranges.
    - [PlaygroundStorage]: lib/storage, lib/state and use-playground-state.ts of
      features/playground: what is kept in local storage.  A change of the
      conversation reaches storage, what is loaded respects the limits, and a
      settled conversation within them is loaded as it was saved.  The schemas are
      written out; [parse] of the zod package is a parameter with the documented
      behaviour of each combinator as laws.
    - [PlaygroundMessage], [PlaygroundChat]: features/playground.  The first holds
      the message operations (think tags, streaming merges, versions, edits); the
      second the chat session: hooks use-stream-request.ts, use-chat-handler.ts
      and use-playground-conversation.ts as handlers on one session state, events
      (user actions, stream messages, timers, responses) as an inductive type,
      and reachability by a step relation: an invariant of every reachable
      session, what stopping does, that a streamed answer arrives whole, and that
      a generating session always waits for a source or a request, and which of
      their endings end it.

    ** How code is translated

    A pure function is a Rocq function.  State held in React refs and state hooks
    is a record, a callback a function on it; effects on the document (navigation,
    form submission) are returned as values.  Thrown errors are [None] or the left
    value of a sum.  Optional fields are options, [?.] and [??] chains matches.
    Tables of the source (labels, keys, messages) are association lists.  Objects
    used as maps are association lists in insertion order where the order can be
    seen, and finite maps ([gmap]) where it cannot.

    Translation functions [t], collation ([localeCompare]) and Unicode case
    mapping come from outside the sources: they are parameters, Unicode case with
    the law that fixes it on ASCII ([UnicodeCase]).

    ** Fuel

    Most recursion is structural.  Fuel is used in the matcher (repetitions carry
    the minimum count plus the length of the rest, enough by [rmatch_complete]),
    in the think-tag loop (the length of the text, shown enough in
    [PlaygroundMessage]), for following nested responses (the depth of the value)
    and the causes of an error (one unit per object: enough exactly when a code is
    found or the causes end, [code_runs]; the depth is enough for a tree,
    [tree_code_returns]), for numerals (their binary size), for
    [encodeURIComponent] (the length of the text), for the JSON reader (twice the
    length of the text: every second call consumes a unit), for printing a number
    (17 digits tell binary64 numbers apart) for [unwrapOuterParens] (the length
    of the text, [unwrap_go_full]) and for the lines of a stored text (its length:
    every match consumes a unit).

    ** Not modelled

    React components and their layout, chart specifications, translations, routing
    and generated route trees; API clients (they only forward a request; what the
    wallet's client makes of the answers is modelled); session storage; formatting
    through [Intl]; the classic console and the Go server, which are other programs in
    other languages (the route rules of the latter are modelled as a specification).
    The price estimate of the editor (evalExprLocally of tier-expr.ts) hands the text
    to the JavaScript engine.  The channel forms copy fields between zod schemas and
    requests, and the usage log details format them for display.  Within a modelled
    file the parts left out are named in the component's note. *)

From stdpp Require Export base tactics list list_numbers numbers option sets sorting.
From Stdlib Require Export Lia.
From Stdlib Require Import Strings.Byte.

(** Option projections are used as in the source's [??] and [?.] chains. *)

(** ** JavaScript strings

    A JavaScript string is a finite sequence of UTF-16 code units.  A code unit
    is an [N]; every operation below works on code units, as the language does.
    String literals are written ["..."%js]; a literal's UTF-8 bytes are decoded
    to code units when it is read. *)

Abbreviation jstr := (list N).

Inductive lit := LNil | LCons (c : N) (l : lit).

Fixpoint lit_parse (b : list Byte.byte) : lit :=
  let n x := Byte.to_N x in
  let cont x := N.land (n x) 63 in
  match b with
  | [] => LNil
  | b0 :: b' =>
    if (n b0 <? 128)%N then LCons (n b0) (lit_parse b') else
    match b' with
    | b1 :: b'' =>
      if (n b0 <? 224)%N then
        LCons (N.land (n b0) 31 * 64 + cont b1)%N (lit_parse b'')
      else
        match b'' with
        | b2 :: b''' =>
          if (n b0 <? 240)%N then
            LCons (N.land (n b0) 15 * 4096 + cont b1 * 64 + cont b2)%N (lit_parse b''')
          else
            match b''' with
            | b3 :: b4 =>
              let cp := (N.land (n b0) 7 * 262144 + cont b1 * 4096
                         + cont b2 * 64 + cont b3 - 65536)%N in
              LCons (55296 + cp / 1024)%N (LCons (56320 + cp mod 1024)%N (lit_parse b4))
            | [] => LNil
            end
        | [] => LNil
        end
    | [] => LNil
    end
  end.

Fixpoint lit_print (s : lit) : option (list Byte.byte) :=
  match s with
  | LNil => Some []
  | LCons c s =>
    if (c <? 128)%N then
      match Byte.of_N c, lit_print s with
      | Some c, Some s => Some (c :: s)
      | _, _ => None
      end
    else None
  end.

Declare Scope jstr_scope.
Delimit Scope jstr_scope with js.
#[warnings="-via-type-mismatch"]
String Notation list lit_parse lit_print
  (via lit mapping [[nil] => LNil, [cons] => LCons]) : jstr_scope.

(** Strict equality on strings, [a === b]. *)
Definition jeqb (a b : jstr) : bool := bool_decide (a = b).
Infix "===" := jeqb (at level 70, no associativity) : jstr_scope.
Open Scope jstr_scope.

Lemma jeqb_true a b : (a === b) = true ↔ a = b.
Proof. apply bool_decide_eq_true. Qed.
Lemma jeqb_false a b : (a === b) = false ↔ a ≠ b.
Proof. apply bool_decide_eq_false. Qed.
Lemma jeqb_refl a : (a === a) = true.
Proof. by apply jeqb_true. Qed.
Lemma jeqb_spec a b : reflect (a = b) (a === b).
Proof. unfold jeqb. apply bool_decide_reflect. Qed.
Lemma jeqb_sym a b : (a === b) = (b === a).
Proof. destruct (jeqb_spec a b), (jeqb_spec b a); congruence. Qed.

(** [Boolean(s)] for a string: only the empty string is falsy. *)
Definition truthy (s : jstr) : bool := match s with [] => false | _ => true end.

Lemma truthy_true s : truthy s = true ↔ s ≠ [].
Proof. destruct s; naive_solver. Qed.
Lemma truthy_false s : truthy s = false ↔ s = [].
Proof. destruct s; naive_solver. Qed.

(** [a || b] on strings: [b] when [a] is empty. *)
Definition jor (a b : jstr) : jstr := if truthy a then a else b.

(** [x ?? d] *)
Abbreviation nullish := (default).

(** *** White space and trimming

    The WhiteSpace and LineTerminator code units of ECMA-262, which are also
    what [\s] matches in a regular expression. *)
Definition is_ws (c : N) : bool :=
  ((9 <=? c) && (c <=? 13) || (c =? 32) || (c =? 160) || (c =? 5760)
   || (8192 <=? c) && (c <=? 8202) || (c =? 8232) || (c =? 8233) || (c =? 8239)
   || (c =? 8287) || (c =? 12288) || (c =? 65279))%N.

Fixpoint trimStart (s : jstr) : jstr :=
  match s with
  | [] => []
  | c :: s' => if is_ws c then trimStart s' else s
  end.

Definition trimEnd (s : jstr) : jstr := reverse (trimStart (reverse s)).

Definition trim (s : jstr) : jstr := trimEnd (trimStart s).

(** A string that [trim] leaves alone. *)
Definition trimmed (s : jstr) : Prop := trim s = s.

(** *** Searching and slicing *)

(** [s.startsWith(p)] *)
Fixpoint startsWith (p s : jstr) : bool :=
  match p, s with
  | [], _ => true
  | _, [] => false
  | c :: p', d :: s' => (c =? d)%N && startsWith p' s'
  end.

Definition endsWith (p s : jstr) : bool := startsWith (reverse p) (reverse s).

(** [s.indexOf(p, from)] without the offset: the first position at which [p]
    occurs. *)
Fixpoint indexOf (p s : jstr) : option nat :=
  if startsWith p s then Some 0 else
  match s with
  | [] => None
  | _ :: s' => S <$> indexOf p s'
  end.

(** [s.indexOf(p, from)]; [None] is the source's [-1]. *)
Definition indexOfFrom (p s : jstr) (from : nat) : option nat :=
  (fun i => from + i) <$> indexOf p (drop from s).

Definition includes (p s : jstr) : bool :=
  match indexOf p s with Some _ => true | None => false end.

(** [s.lastIndexOf(c)] for a one-unit string. *)
Fixpoint lastIndexOf (c : N) (s : jstr) : option nat :=
  match s with
  | [] => None
  | d :: s' =>
    match lastIndexOf c s' with
    | Some i => Some (S i)
    | None => if (c =? d)%N then Some 0 else None
    end
  end.

(** [s.slice(a, b)] with [0 <= a] and [0 <= b]. *)
Definition slice (a b : nat) (s : jstr) : jstr := take (b - a) (drop a s).

(** *** Splitting and joining *)

(** [s.split(c)] for a one-unit separator. *)
Fixpoint split_char (c : N) (s : jstr) : list jstr :=
  match s with
  | [] => [[]]
  | d :: s' =>
    if (d =? c)%N then [] :: split_char c s'
    else match split_char c s' with
         | [] => [[d]]
         | w :: ws => (d :: w) :: ws
         end
  end.

(** [s.split(sep)] for a non-empty separator: [cur] is the current piece,
    reversed, and [skip] the units of a separator still to be passed over. *)
Fixpoint split_str_go (sep cur : jstr) (skip : nat) (s : jstr) : list jstr :=
  match s with
  | [] => [reverse cur]
  | c :: s' =>
    match skip with
    | S k => split_str_go sep cur k s'
    | O => if startsWith sep s
           then reverse cur :: split_str_go sep [] (length sep - 1) s'
           else split_str_go sep (c :: cur) 0 s'
    end
  end.

Definition split_str (sep s : jstr) : list jstr := split_str_go sep [] 0 s.

(** [ws.join(sep)] *)
Fixpoint join (sep : jstr) (ws : list jstr) : jstr :=
  match ws with
  | [] => []
  | [w] => w
  | w :: ws' => w ++ sep ++ join sep ws'
  end.

(** *** Character classes and ASCII case *)

Definition in_range (a b c : N) : bool := (a <=? c)%N && (c <=? b)%N.
Definition is_digit : N → bool := in_range 48 57.
Definition is_lower : N → bool := in_range 97 122.
Definition is_upper : N → bool := in_range 65 90.
Definition is_alpha (c : N) : bool := is_lower c || is_upper c.
Definition is_alnum (c : N) : bool := is_alpha c || is_digit c.
Definition is_hex (c : N) : bool :=
  is_digit c || in_range 97 102 c || in_range 65 70 c.

Definition ascii_lower (c : N) : N := if is_upper c then (c + 32)%N else c.
Definition ascii_upper (c : N) : N := if is_lower c then (c - 32)%N else c.
Definition is_ascii (c : N) : bool := (c <? 128)%N.

(** [toLowerCase] and [toUpperCase] outside ASCII follow the Unicode character
    database, which is not part of the source.  The models take it as an
    instance of this class; its law is what ECMA-262 fixes for ASCII text. *)
Class UnicodeCase := {
  toLowerCase : jstr → jstr;
  toUpperCase : jstr → jstr;
  toLowerCase_ascii s : forallb is_ascii s = true → toLowerCase s = map ascii_lower s;
  toUpperCase_ascii s : forallb is_ascii s = true → toUpperCase s = map ascii_upper s;
}.

(** A concrete instance, for evaluation: only ASCII letters have a case. *)
Definition ascii_case : UnicodeCase := {|
  toLowerCase := map ascii_lower;
  toUpperCase := map ascii_upper;
  toLowerCase_ascii s _ := eq_refl;
  toUpperCase_ascii s _ := eq_refl;
|}.

(** *** Decimal numerals *)

Fixpoint dec_go (fuel : nat) (n : N) (acc : jstr) : jstr :=
  match fuel with
  | O => acc
  | S f =>
    let acc' := (48 + n mod 10)%N :: acc in
    if (n <? 10)%N then acc' else dec_go f (n / 10)%N acc'
  end.

(** [String(n)] for a non-negative integer (below 1e21, where JavaScript
    switches to exponent notation). *)
Definition js_of_N (n : N) : jstr := dec_go (S (N.size_nat n)) n [].

Definition js_of_Z (z : Z) : jstr :=
  match z with
  | Z0 => "0"
  | Zpos p => js_of_N (Npos p)
  | Zneg p => 45%N :: js_of_N (Npos p)
  end.

(** [Number.parseInt(s, base)] on a string of digits of that base. *)
Definition hex_digit (c : N) : N :=
  (if is_digit c then c - 48 else if in_range 97 102 c then c - 87 else c - 55)%N.

Definition parse_digits (base : N) (s : jstr) : N :=
  foldl (fun a c => a * base + hex_digit c)%N 0%N s.

Definition hex_lower (d : N) : N := (if d <? 10 then 48 + d else 87 + d)%N.
Fixpoint hex_go (fuel : nat) (n : N) (acc : jstr) : jstr :=
  match fuel with
  | O => acc
  | S f =>
    let acc' := hex_lower (n mod 16) :: acc in
    if (n <? 16)%N then acc' else hex_go f (n / 16)%N acc'
  end.

(** [n.toString(16)] *)
Definition toString16 (n : N) : jstr := hex_go (S (N.size_nat n)) n [].
Definition padStart (n : nat) (c : N) (s : jstr) : jstr := replicate (n - length s) c ++ s.

(** [l.findIndex(p)]; [None] is the source's [-1]. *)
Fixpoint findIndex {A} (p : A → bool) (l : list A) : option nat :=
  match l with
  | [] => None
  | x :: l' => if p x then Some 0 else S <$> findIndex p l'
  end.

(** ** Ordered sets and maps

    [Set] and [Map] iterate in insertion order. *)

Section dedup.
Context {A : Type} `{EqDecision A}.

Fixpoint dedup_go (seen : list A) (l : list A) : list A :=
  match l with
  | [] => []
  | x :: l' => if decide (x ∈ seen) then dedup_go seen l'
               else x :: dedup_go (x :: seen) l'
  end.

(** [[...new Set(l)]] *)
Definition dedup (l : list A) : list A := dedup_go [] l.

(** [new Set(l).has(x)] *)
Definition has (x : A) (l : list A) : bool := bool_decide (x ∈ l).
End dedup.

Section assoc.
Context {K V : Type} `{EqDecision K}.

(** A [Map] as an association list in insertion order. *)
Fixpoint map_get (k : K) (m : list (K * V)) : option V :=
  match m with
  | [] => None
  | (k', v) :: m' => if decide (k = k') then Some v else map_get k m'
  end.

(** [m.set(k, v)]: replaces the value in place, or appends. *)
Fixpoint map_set (k : K) (v : V) (m : list (K * V)) : list (K * V) :=
  match m with
  | [] => [(k, v)]
  | (k', v') :: m' => if decide (k = k') then (k', v) :: m' else (k', v') :: map_set k v m'
  end.
End assoc.

(** ** Sorting

    [Array.prototype.sort] is stable; with a consistent comparator its result
    is determined, and insertion sort computes it.  [le a b] stands for
    [compare(a, b) <= 0]. *)
Section sort.
Context {A : Type} (le : A → A → bool).

Fixpoint insert_sorted (x : A) (l : list A) : list A :=
  match l with
  | [] => [x]
  | y :: l' => if le x y then x :: l else y :: insert_sorted x l'
  end.

Definition js_sort (l : list A) : list A := foldr insert_sorted [] l.
End sort.

(** ** Tactics *)

(** Splits boolean conjunctions and turns boolean tests into propositions. *)
Ltac bool_hyps :=
  repeat match goal with
  | H : _ && _ = true |- _ => apply andb_true_iff in H; destruct H
  | H : _ || _ = false |- _ => apply orb_false_iff in H; destruct H
  | H : negb _ = true |- _ => apply negb_true_iff in H
  | H : negb _ = false |- _ => apply negb_false_iff in H
  | H : jeqb _ _ = true |- _ => apply jeqb_true in H
  | H : jeqb _ _ = false |- _ => apply jeqb_false in H
  | H : truthy _ = true |- _ => apply truthy_true in H
  | H : truthy _ = false |- _ => apply truthy_false in H
  | H : (_ <=? _)%N = true |- _ => apply N.leb_le in H
  | H : (_ <? _)%N = true |- _ => apply N.ltb_lt in H
  | H : (_ =? _)%N = true |- _ => apply N.eqb_eq in H
  | H : (_ <=? _)%Z = true |- _ => apply Z.leb_le in H
  | H : (_ <? _)%Z = true |- _ => apply Z.ltb_lt in H
  | H : (_ =? _)%Z = true |- _ => apply Z.eqb_eq in H
  | H : (_ <=? _)%Z = false |- _ => apply Z.leb_gt in H
  | H : (_ <? _)%Z = false |- _ => apply Z.ltb_ge in H
  | H : (_ =? _)%Z = false |- _ => apply Z.eqb_neq in H
  | H : (_ <=? _)%nat = true |- _ => apply Nat.leb_le in H
  | H : (_ <? _)%nat = true |- _ => apply Nat.ltb_lt in H
  | H : (_ =? _)%nat = true |- _ => apply Nat.eqb_eq in H
  | H : (_ <=? _)%nat = false |- _ => apply Nat.leb_gt in H
  | H : (_ <? _)%nat = false |- _ => apply Nat.ltb_ge in H
  end.

(** Case analysis on the condition of the first [if] or [match] in sight. *)
Ltac case_if :=
  match goal with
  | |- context [if ?b then _ else _] => let E := fresh "E" in destruct b eqn:E
  | H : context [if ?b then _ else _] |- _ => let E := fresh "E" in destruct b eqn:E
  end.

Create HintDb js.

(** ** Lemmas on strings *)

Lemma startsWith_app p s : startsWith p (p ++ s) = true.
Proof. induction p as [|c p IH]; [done|]. simpl. by rewrite N.eqb_refl. Qed.

Lemma startsWith_true p s : startsWith p s = true ↔ ∃ r, s = p ++ r.
Proof.
  split; [|intros [r ->]; apply startsWith_app].
  revert s. induction p as [|c p IH]; intros s; [by exists s|].
  destruct s as [|d s]; [done|]. simpl. intros H. bool_hyps. subst.
  destruct (IH s) as [r ->]; [done|]. by exists r.
Qed.

Lemma startsWith_nil s : startsWith [] s = true.
Proof. by destruct s. Qed.

Lemma startsWith_length p s : startsWith p s = true → length p ≤ length s.
Proof. intros [r ->]%startsWith_true. rewrite length_app. lia. Qed.

Lemma startsWith_refl s : startsWith s s = true.
Proof. apply startsWith_true. exists []. by rewrite app_nil_r. Qed.

Lemma startsWith_app_inv p q s :
  startsWith (p ++ q) s = true → startsWith p s = true.
Proof.
  intros [r ->]%startsWith_true. apply startsWith_true.
  exists (q ++ r). by rewrite app_assoc.
Qed.

Lemma endsWith_true p s : endsWith p s = true ↔ ∃ r, s = r ++ p.
Proof.
  unfold endsWith. rewrite startsWith_true. split; intros [r H].
  - exists (reverse r). apply (f_equal reverse) in H.
    by rewrite reverse_involutive, reverse_app, reverse_involutive in H.
  - subst s. exists (reverse r). by rewrite reverse_app.
Qed.

Lemma indexOf_Some p s i :
  indexOf p s = Some i → ∃ a r, s = a ++ p ++ r ∧ length a = i.
Proof.
  revert i. induction s as [|c s IH]; intros i; simpl.
  - destruct (startsWith p []) eqn:E; intros ?; simplify_eq.
    apply startsWith_true in E as [r E]. by exists [], r.
  - destruct (startsWith p (c :: s)) eqn:E; intros H; simplify_eq.
    + apply startsWith_true in E as [r ->]. by exists [], r.
    + apply fmap_Some in H as (j & Hj & ->).
      destruct (IH j Hj) as (a & r & -> & <-). by exists (c :: a), r.
Qed.

Lemma includes_true p s : includes p s = true ↔ ∃ a r, s = a ++ p ++ r.
Proof.
  unfold includes. split.
  - destruct (indexOf p s) as [i|] eqn:E; [|done].
    destruct (indexOf_Some _ _ _ E) as (a & r & -> & _). eauto.
  - intros (a & r & ->).
    assert (∃ i, indexOf p (a ++ p ++ r) = Some i) as [i ->]; [|done].
    induction a as [|c a [i IH]]; simpl.
    + exists 0. destruct (p ++ r) eqn:E; simpl.
      * apply app_nil in E as [-> ->]. by rewrite startsWith_nil.
      * by rewrite <- E, startsWith_app.
    + destruct (startsWith p (c :: a ++ p ++ r)); [by exists 0|].
      rewrite IH. by exists (S i).
Qed.

Lemma includes_false p s : includes p s = false ↔ ¬ ∃ a r, s = a ++ p ++ r.
Proof. rewrite <- includes_true. by destruct (includes p s); split; intros; [|exfalso| |]; auto. Qed.

Lemma indexOf_None p s : indexOf p s = None → includes p s = false.
Proof. unfold includes. by intros ->. Qed.

(** [indexOf] is the leftmost occurrence: no occurrence starts earlier. *)
Lemma indexOf_min p s i j :
  indexOf p s = Some i → j < i → startsWith p (drop j s) = false.
Proof.
  revert i j. induction s as [|c s IH]; intros i j; simpl.
  - destruct (startsWith p []); intros ?; simplify_eq; lia.
  - destruct (startsWith p (c :: s)) eqn:E; intros H Hj; simplify_eq; [lia|].
    apply fmap_Some in H as (k & Hk & ->).
    destruct j as [|j]; [done|]. apply (IH k); [done|lia].
Qed.

(** *** Trimming *)

Lemma trimStart_decomp s :
  ∃ p, s = p ++ trimStart s ∧ Forall (fun c => is_ws c = true) p.
Proof.
  induction s as [|c s (p & E & Hp)]; [by exists []|]. simpl.
  destruct (is_ws c) eqn:Ec.
  - exists (c :: p). split; [by rewrite E at 1|by constructor].
  - by exists [].
Qed.

Lemma trimStart_head c s s' : trimStart s = c :: s' → is_ws c = false.
Proof.
  induction s as [|d s IH]; [done|]. simpl. destruct (is_ws d) eqn:E; [done|].
  intros ?. by simplify_eq.
Qed.

Lemma trimStart_id s : (∀ c, head s = Some c → is_ws c = false) → trimStart s = s.
Proof. destruct s as [|c s]; [done|]. simpl. intros H. by rewrite (H c eq_refl). Qed.

Lemma trimStart_idemp s : trimStart (trimStart s) = trimStart s.
Proof.
  apply trimStart_id. intros c Hc.
  destruct (trimStart s) as [|d s'] eqn:E; [done|]. simplify_eq/=.
  eapply trimStart_head; eauto.
Qed.

Lemma trimEnd_decomp s :
  ∃ p, s = trimEnd s ++ p ∧ Forall (fun c => is_ws c = true) p.
Proof.
  unfold trimEnd. destruct (trimStart_decomp (reverse s)) as (p & E & Hp).
  exists (reverse p). split; [|by apply Forall_reverse].
  rewrite <- reverse_app, <- E. by rewrite reverse_involutive.
Qed.

Lemma trimEnd_idemp s : trimEnd (trimEnd s) = trimEnd s.
Proof. unfold trimEnd. by rewrite reverse_involutive, trimStart_idemp. Qed.

Lemma trimEnd_id s : (∀ c, last s = Some c → is_ws c = false) → trimEnd s = s.
Proof.
  intros H. unfold trimEnd. rewrite trimStart_id; [apply reverse_involutive|].
  intros c. rewrite head_reverse. apply H.
Qed.

(** Trimming the end does not expose white space at the front. *)
Lemma trimEnd_head s c : head (trimEnd s) = Some c → head s = Some c.
Proof.
  destruct (trimEnd_decomp s) as (p & E & _). rewrite E at 2.
  by destruct (trimEnd s).
Qed.

Lemma trim_trimmed s : trimmed (trim s).
Proof.
  unfold trimmed, trim.
  rewrite (trimStart_id (trimEnd (trimStart s))); [apply trimEnd_idemp|].
  intros c Hc%trimEnd_head.
  destruct (trimStart s) eqn:E; [done|]. simplify_eq/=. eapply trimStart_head; eauto.
Qed.

Lemma trim_id s :
  (∀ c, head s = Some c → is_ws c = false) →
  (∀ c, last s = Some c → is_ws c = false) → trim s = s.
Proof. intros Hh Hl. unfold trim. by rewrite trimStart_id, trimEnd_id. Qed.

Lemma trim_no_ws s : Forall (fun c => is_ws c = false) s → trim s = s.
Proof.
  intros H. rewrite Forall_forall in H.
  apply trim_id; intros c Hc; apply H.
  - by apply head_Some_elem_of.
  - by apply last_Some_elem_of.
Qed.

(** [trim] returns a contiguous part of its argument. *)
Lemma trim_infix s : ∃ a b, s = a ++ trim s ++ b.
Proof.
  destruct (trimStart_decomp s) as (a & E & _).
  destruct (trimEnd_decomp (trimStart s)) as (b & E' & _).
  exists a, b. unfold trim. by rewrite <- E'.
Qed.

Lemma trim_elem_of c s : c ∈ trim s → c ∈ s.
Proof. destruct (trim_infix s) as (a & b & E). intros. rewrite E. set_solver. Qed.

Lemma trim_length s : length (trim s) ≤ length s.
Proof. destruct (trim_infix s) as (a & b & E). rewrite E at 2. rewrite !length_app. lia. Qed.

#[export] Hint Resolve trim_trimmed trim_elem_of : js.

(** *** Splitting and joining *)

Lemma split_char_nonempty c s : split_char c s ≠ [].
Proof. destruct s as [|d s]; simpl; repeat case_match; done. Qed.

Lemma split_char_cons_neq c d s :
  d ≠ c → split_char c (d :: s) =
  match split_char c s with [] => [[d]] | w :: ws => (d :: w) :: ws end.
Proof. intros. simpl. by rewrite (proj2 (N.eqb_neq d c)). Qed.

Lemma split_char_no_sep c s : c ∉ s → split_char c s = [s].
Proof.
  induction s as [|d s IH]; [done|]. intros H. apply not_elem_of_cons in H as [].
  rewrite split_char_cons_neq by done. by rewrite IH.
Qed.

Lemma split_char_app_sep c w s :
  c ∉ w → split_char c (w ++ c :: s) = w :: split_char c s.
Proof.
  induction w as [|d w IH]; intros H; simpl.
  - by rewrite N.eqb_refl.
  - apply not_elem_of_cons in H as [Hd H]. rewrite IH by done.
    by rewrite (proj2 (N.eqb_neq d c)).
Qed.

Lemma split_char_app c a b : split_char c (a ++ c :: b) = split_char c a ++ split_char c b.
Proof.
  induction a as [|d a IH]; simpl; [by rewrite N.eqb_refl|]. rewrite IH.
  destruct (d =? c)%N; [done|]. pose proof (split_char_nonempty c a).
  by destruct (split_char c a).
Qed.

Lemma join_cons2 sep a b l : join sep (a :: b :: l) = a ++ sep ++ join sep (b :: l).
Proof. done. Qed.

(** [split] undoes [join] on pieces that do not contain the separator. *)
Lemma split_char_join c ws :
  ws ≠ [] → Forall (fun w => c ∉ w) ws → split_char c (join [c] ws) = ws.
Proof.
  induction ws as [|w ws IH]; [done|]. intros _ [Hw Hws]%Forall_cons.
  destruct ws as [|w' ws]; [by apply split_char_no_sep|].
  change (join [c] (w :: w' :: ws)) with (w ++ c :: join [c] (w' :: ws)).
  rewrite split_char_app_sep by done. by rewrite IH.
Qed.

Lemma split_char_pieces c s : Forall (fun w => c ∉ w) (split_char c s).
Proof.
  induction s as [|d s IH]; simpl; [repeat constructor; set_solver|].
  destruct (d =? c)%N eqn:E.
  - constructor; [set_solver|done].
  - apply N.eqb_neq in E. destruct (split_char c s) as [|w ws].
    + repeat constructor. set_solver.
    + apply Forall_cons in IH as []. constructor; [set_solver|done].
Qed.

(** [join] undoes [split]. *)
Lemma join_split_char c s : join [c] (split_char c s) = s.
Proof.
  induction s as [|d s IH]; [done|]. simpl.
  destruct (d =? c)%N eqn:E; bool_hyps; subst.
  - pose proof (split_char_nonempty c s). destruct (split_char c s) eqn:E; [done|].
    change (join [c] ([] :: l :: l0)) with (c :: join [c] (l :: l0)). by rewrite IH.
  - destruct (split_char c s) as [|w ws] eqn:E'; simpl in *; [by subst|].
    destruct ws; simpl in *; by subst.
Qed.

(** The pieces are the infixes without separators that are bounded by them. *)
Lemma elem_of_split_char c w s :
  w ∈ split_char c s ↔ (c ∉ w) ∧ ∃ a b, s = a ++ w ++ b ∧
    (a = [] ∨ ∃ a', a = a' ++ [c]) ∧ (b = [] ∨ ∃ b', b = c :: b').
Proof.
  split.
  - intros Hw. split; [by apply (proj1 (Forall_forall _ _) (split_char_pieces c s))|].
    rewrite <- (join_split_char c s).
    apply list_elem_of_split in Hw as (l1 & l2 & ->).
    exists (concat (map (fun x => x ++ [c]) l1)), (concat (map (fun x => c :: x) l2)).
    split; [|split].
    + assert (∀ x, join [c] (x :: l2) = x ++ concat (map (fun x => c :: x) l2)) as Hl2.
      { induction l2 as [|y l2 IH]; intros x; simpl; [by rewrite app_nil_r|].
        simpl in IH. by rewrite (IH y). }
      induction l1 as [|x l1 IH]; [apply Hl2|].
      change (join [c] ((x :: l1) ++ w :: l2)) with
        (match l1 ++ w :: l2 with [] => x | _ => x ++ [c] ++ join [c] (l1 ++ w :: l2) end).
      cbn [map concat]. rewrite IH, <- !app_assoc. by destruct l1.
    + destruct l1 as [|x l1 _] using rev_ind; [by left|right].
      rewrite map_app, concat_app. simpl. rewrite app_nil_r, app_assoc. eauto.
    + destruct l2 as [|y l2]; [by left|right]. simpl. eauto.
  - intros (Hc & a & b & -> & Ha & Hb).
    assert (Hwb : w ∈ split_char c (w ++ b)).
    { destruct Hb as [->|[b' ->]]; [rewrite app_nil_r, split_char_no_sep by done|
        rewrite split_char_app_sep by done]; left. }
    destruct Ha as [->|[a' ->]]; [done|]. rewrite <- app_assoc. simpl.
    rewrite split_char_app. apply elem_of_app. by right.
Qed.

Lemma split_char_covers c s x : x ∈ s → x = c ∨ ∃ w, w ∈ split_char c s ∧ x ∈ w.
Proof.
  induction s as [|d s IH]; [by intros ?%elem_of_nil|]. intros Hx. cbn [split_char]. destruct (d =? c)%N eqn:E.
  - apply N.eqb_eq in E as ->. apply elem_of_cons in Hx as [->|Hx]; [by left|].
    destruct (IH Hx) as [->|(w & Hw & Hxw)]; [by left|]. right. exists w. split; [by right|done].
  - destruct (split_char c s) as [|v vs] eqn:Ev; [by apply split_char_nonempty in Ev|].
    apply elem_of_cons in Hx as [->|Hx]; [right; exists (d :: v); split; [by left|by left]|].
    destruct (IH Hx) as [->|(w & Hw & Hxw)]; [by left|]. right. apply elem_of_cons in Hw as [->|Hw].
    + exists (d :: v). split; [by left|by right].
    + exists w. split; [by right|done].
Qed.

Lemma split_char_elem c s w x : w ∈ split_char c s → x ∈ w → x ∈ s.
Proof.
  revert w. induction s as [|d s IH]; intros w; simpl.
  { by intros ->%list_elem_of_singleton. }
  destruct (d =? c)%N.
  - intros [->|Hw]%elem_of_cons Hx; [by apply not_elem_of_nil in Hx|]. right. eauto.
  - destruct (split_char c s) as [|w' ws].
    { intros ->%list_elem_of_singleton ->%list_elem_of_singleton. left. }
    intros [->|Hw]%elem_of_cons Hx.
    + apply elem_of_cons in Hx as [->|Hx]; [left|right; eapply IH; [left|done]].
    + right. eapply IH; [right; exact Hw|done].
Qed.

Lemma indexOf_split_str sep s i :
  sep ≠ [] → indexOf sep s = Some i → split_str sep s = take i s :: split_str sep (drop (i + length sep) s).
Proof.
  intros Hsep. assert (Hskip : ∀ k s cur, split_str_go sep cur k s = split_str_go sep cur 0 (drop k s)).
  { intros k. induction k as [|k IH]; intros t cur; [by rewrite drop_0|]. destruct t; [done|]. simpl. apply IH. }
  assert (Hgo : ∀ s i cur, indexOf sep s = Some i →
    split_str_go sep cur 0 s = (reverse cur ++ take i s) :: split_str sep (drop (i + length sep) s)).
  { clear s i. intros s. induction s as [|c s IH]; intros i cur; simpl.
    - destruct sep; [done|]. done.
    - destruct (startsWith sep (c :: s)) eqn:E.
      + intros [= <-]. rewrite take_0, app_nil_r. f_equal. rewrite Hskip. unfold split_str.
        destruct sep as [|x sep]; [done|]. simpl. by rewrite Nat.sub_0_r.
      + destruct (indexOf sep s) as [j|] eqn:Ej; [|done]. intros [= <-]. rewrite (IH j) by done. simpl.
        by rewrite reverse_cons, <- app_assoc. }
  intros H. unfold split_str at 1. by rewrite (Hgo s i).
Qed.

Lemma indexOf_None_split_str sep s : indexOf sep s = None → split_str sep s = [s].
Proof.
  assert (Hgo : ∀ s cur, indexOf sep s = None → split_str_go sep cur 0 s = [reverse cur ++ s]).
  { clear s. intros s. induction s as [|c s IH]; intros cur H; simpl in *; [by rewrite app_nil_r|].
    destruct (startsWith sep (c :: s)); [done|]. destruct (indexOf sep s); [done|].
    rewrite IH by done. by rewrite reverse_cons, <- app_assoc. }
  apply (Hgo s []).
Qed.

(** *** Decimal numerals *)

Lemma parse_digits_app base a b :
  parse_digits base (a ++ b) =
  (parse_digits base a * base ^ N.of_nat (length b) + parse_digits base b)%N.
Proof.
  unfold parse_digits. rewrite foldl_app.
  generalize (foldl (fun a c => a * base + hex_digit c)%N 0%N a) as x.
  induction b as [|c b IH] using rev_ind; intros x; simpl.
  - rewrite N.pow_0_r. lia.
  - rewrite !foldl_app. simpl. rewrite IH.
    rewrite length_app. simpl. rewrite Nat2N.inj_add, N.pow_add_r, N.pow_1_r.
    lia.
Qed.

Lemma dec_digit_hex d : (d < 10)%N → hex_digit (48 + d) = d ∧ is_digit (48 + d) = true.
Proof.
  intros H. unfold hex_digit. assert (is_digit (48 + d) = true) as ->.
  { unfold is_digit, in_range. apply andb_true_iff. rewrite !N.leb_le. lia. }
  split; [lia|done].
Qed.

Lemma dec_go_spec fuel n acc :
  (N.to_nat n < 10 ^ fuel)%nat →
  ∃ ds, dec_go fuel n acc = ds ++ acc ∧ parse_digits 10 ds = n ∧
        forallb is_digit ds = true ∧ (fuel ≠ 0 → ds ≠ []).
Proof.
  revert n acc. induction fuel as [|f IH]; intros n acc Hn.
  { exists []. simpl in *. split; [done|]. split; [|done].
    assert (n = 0%N) by lia. by subst. }
  simpl. destruct (dec_digit_hex (n mod 10)) as [Hh Hd];
    [apply N.mod_lt; lia|].
  destruct (n <? 10)%N eqn:E; bool_hyps.
  - exists [(48 + n mod 10)%N]. split; [done|]. split.
    + unfold parse_digits. simpl foldl. rewrite Hh. rewrite N.mod_small by done. lia.
    + split; [simpl; by rewrite Hd|done].
  - destruct (IH (n / 10)%N ((48 + n mod 10)%N :: acc)) as (ds & -> & Hp & Ha & _).
    { rewrite Nat.pow_succ_r' in Hn. revert Hn. generalize (10 ^ f)%nat. intros k Hn.
      pose proof (N.Div0.mul_div_le n 10). lia. }
    exists (ds ++ [(48 + n mod 10)%N]). split; [by rewrite <- app_assoc|]. split.
    + rewrite parse_digits_app, Hp. unfold parse_digits. simpl foldl. rewrite Hh.
      change (10 ^ N.of_nat (length [_]))%N with 10%N.
      rewrite (N.div_mod n 10) at 3 by lia. lia.
    + rewrite forallb_app, Ha. simpl. rewrite Hd. split; [done|by destruct ds].
Qed.

Lemma N_size_bound n : (N.to_nat n < 10 ^ S (N.size_nat n))%nat.
Proof.
  assert (N.to_nat n < 2 ^ N.size_nat n)%nat as H.
  { destruct n as [|p]; [simpl; lia|]. simpl N.size_nat. simpl N.to_nat.
    induction p as [p IH|p IH|]; simpl Pos.size_nat;
      rewrite ?Nat.pow_succ_r'; [revert IH; generalize (2 ^ Pos.size_nat p); lia..|simpl; lia]. }
  eapply Nat.lt_le_trans; [exact H|].
  etrans; [apply (Nat.pow_le_mono_l 2 10); lia|].
  apply Nat.pow_le_mono_r; lia.
Qed.

Lemma js_of_N_spec n :
  parse_digits 10 (js_of_N n) = n ∧ forallb is_digit (js_of_N n) = true ∧ js_of_N n ≠ [].
Proof.
  unfold js_of_N. destruct (dec_go_spec (S (N.size_nat n)) n []) as (ds & -> & ? & ? & ?);
    [apply N_size_bound|].
  rewrite app_nil_r. auto.
Qed.

(** Numerals have no leading zero, so printing is canonical. *)
(** A positive number starts with a digit other than zero. *)
Lemma dec_go_head f n acc :
  (N.to_nat n < 10 ^ f)%nat → (0 < n)%N → ∃ c s, dec_go f n acc = c :: s ∧ in_range 49 57 c = true.
Proof.
  revert n acc. induction f as [|f IH]; intros n acc Hn Hpos; [simpl in Hn; lia|]. cbn [dec_go].
  destruct (N.ltb_spec n 10) as [H|H].
  - exists (48 + n)%N, acc. rewrite N.mod_small by lia. split; [done|]. unfold in_range.
    apply andb_true_iff. split; apply N.leb_le; lia.
  - apply IH; [|apply N.div_str_pos; lia]. rewrite Nat.pow_succ_r' in Hn.
    pose proof (N.Div0.mul_div_le n 10). lia.
Qed.

Lemma js_of_N_head n : (0 < n)%N → ∃ c s, js_of_N n = c :: s ∧ in_range 49 57 c = true.
Proof. apply dec_go_head, N_size_bound. Qed.

Lemma js_of_N_inj n m : js_of_N n = js_of_N m → n = m.
Proof.
  intros H. destruct (js_of_N_spec n) as [<- _], (js_of_N_spec m) as [<- _]. by rewrite H.
Qed.

(** *** Hexadecimal numerals *)

Lemma forallb_elem {A} (p : A → bool) l x : forallb p l = true → x ∈ l → p x = true.
Proof. intros H Hx. by apply (proj1 (forallb_forall p l) H), list_elem_of_In. Qed.

Lemma hex_lower_spec d : (d < 16)%N → hex_digit (hex_lower d) = d ∧ is_hex (hex_lower d) = true.
Proof.
  intros Hd. apply (bool_decide_eq_true_1 _).
  apply (forallb_elem (fun d => bool_decide (hex_digit (hex_lower d) = d ∧ is_hex (hex_lower d) = true))
    (map N.of_nat (seq 0 16)) d); [by vm_compute|].
  apply list_elem_of_fmap. exists (N.to_nat d). rewrite elem_of_seq. lia.
Qed.

Lemma hex_go_spec fuel k n acc :
  fuel ≠ 0 → k ≠ 0 → (n < 16 ^ N.of_nat fuel)%N → (n < 16 ^ N.of_nat k)%N →
  ∃ ds, hex_go fuel n acc = ds ++ acc ∧ parse_digits 16 ds = n ∧ forallb is_hex ds = true ∧
        1 <= length ds <= k.
Proof.
  revert k n acc. induction fuel as [|f IH]; intros k n acc Hf0 Hk0 Hf Hk; [done|]. simpl.
  destruct (hex_lower_spec (n mod 16)) as [Hh Hd]; [apply N.mod_lt; lia|].
  destruct (N.ltb_spec n 16) as [E|E].
  - exists [hex_lower (n mod 16)]. split; [done|]. unfold parse_digits. simpl. rewrite Hh, Hd.
    split; [by apply N.mod_small|]. split; [done|lia].
  - destruct k as [|k]; [done|]. rewrite Nat2N.inj_succ, N.pow_succ_r' in Hf, Hk.
    destruct (decide (f = 0)) as [->|Hf']; [change (16 ^ N.of_nat 0)%N with 1%N in Hf; lia|].
    destruct (decide (k = 0)) as [->|Hk']; [change (16 ^ N.of_nat 0)%N with 1%N in Hk; lia|].
    destruct (IH k (n / 16)%N (hex_lower (n mod 16) :: acc) Hf' Hk') as (ds & -> & Hp & Ha & Hl);
      [apply N.Div0.div_lt_upper_bound; lia..|].
    exists (ds ++ [hex_lower (n mod 16)]). split; [by rewrite <- app_assoc|]. split.
    + rewrite parse_digits_app, Hp. unfold parse_digits. simpl foldl. rewrite Hh.
      change (16 ^ N.of_nat (length [_]))%N with 16%N. pose proof (N.Div0.div_mod n 16). lia.
    + rewrite forallb_app, Ha. simpl. rewrite Hd. split; [done|]. rewrite length_app. simpl. lia.
Qed.

Lemma size_nat_size n : N.of_nat (N.size_nat n) = N.size n.
Proof.
  destruct n as [|p]; [done|]. simpl. induction p as [p IH|p IH|]; [..|done];
    cbn [Pos.size_nat Pos.size]; rewrite Nat2N.inj_succ, IH; lia.
Qed.

Lemma size_pow16 n : (n < 16 ^ N.of_nat (S (N.size_nat n)))%N.
Proof.
  pose proof (N.size_gt n) as H. rewrite Nat2N.inj_succ, size_nat_size, N.pow_succ_r'.
  pose proof (N.pow_le_mono_l 2 16 (N.size n) ltac:(lia)) as H'. revert H H'.
  generalize (2 ^ N.size n)%N (16 ^ N.size n)%N. lia.
Qed.

(** A 16-bit number is printed as one to four hexadecimal digits. *)
Lemma toString16_spec n :
  (n < 65536)%N → parse_digits 16 (toString16 n) = n ∧ forallb is_hex (toString16 n) = true ∧
  1 <= length (toString16 n) <= 4.
Proof.
  intros Hn. unfold toString16.
  destruct (hex_go_spec (S (N.size_nat n)) 4 n []) as (ds & -> & Hp & Ha & Hl);
    [done|done|apply size_pow16|exact Hn|]. rewrite app_nil_r. auto.
Qed.

(** Leading zeros do not change the value. *)
Lemma padStart_spec k s :
  length s <= k → parse_digits 16 (padStart k 48 s) = parse_digits 16 s ∧ length (padStart k 48 s) = k ∧
  (forallb is_hex s = true → forallb is_hex (padStart k 48 s) = true).
Proof.
  intros Hl. unfold padStart. rewrite parse_digits_app, length_app, length_replicate, forallb_app. split; [|split].
  - assert (parse_digits 16 (replicate (k - length s) 48%N) = 0%N) as ->; [|lia].
    generalize (k - length s). intros n. induction n as [|n IH]; [done|].
    change (replicate (S n) 48%N) with ([48%N] ++ replicate n 48%N). by rewrite parse_digits_app, IH.
  - lia.
  - intros ->. generalize (k - length s). intros n. by induction n.
Qed.

Lemma is_digit_not_ws c : is_digit c = true → is_ws c = false.
Proof.
  unfold is_digit, in_range, is_ws. intros H. bool_hyps.
  repeat (apply orb_false_iff; split); try apply andb_false_iff;
    rewrite ?N.leb_gt, ?N.eqb_neq; lia.
Qed.

(** ** Lemmas on ordered sets, maps and sorting *)

Section dedup_lemmas.
Context {A : Type} `{EqDecision A}.
Implicit Types (l seen : list A).

Lemma elem_of_dedup_go seen l x : x ∈ dedup_go seen l ↔ x ∈ l ∧ x ∉ seen.
Proof.
  revert seen. induction l as [|y l IH]; intros seen; simpl; [set_solver|].
  case_decide; rewrite ?elem_of_cons, IH, ?not_elem_of_cons; [naive_solver|].
  destruct (decide (x = y)); naive_solver.
Qed.

Lemma elem_of_dedup l x : x ∈ dedup l ↔ x ∈ l.
Proof. unfold dedup. rewrite elem_of_dedup_go. set_solver. Qed.

Lemma NoDup_dedup_go seen l : NoDup (dedup_go seen l).
Proof.
  revert seen. induction l as [|y l IH]; intros seen; simpl; [constructor|].
  case_decide; [apply IH|]. constructor; [|apply IH].
  rewrite elem_of_dedup_go. set_solver.
Qed.

Lemma NoDup_dedup l : NoDup (dedup l).
Proof. apply NoDup_dedup_go. Qed.

Lemma dedup_go_id seen l : NoDup l → (∀ x, x ∈ l → x ∉ seen) → dedup_go seen l = l.
Proof.
  revert seen. induction l as [|y l IH]; intros seen; [done|].
  intros [Hy Hl]%NoDup_cons Hs. simpl. rewrite decide_False by set_solver.
  f_equal. apply IH; [done|]. set_solver.
Qed.

Lemma dedup_id l : NoDup l → dedup l = l.
Proof. intros. apply dedup_go_id; set_solver. Qed.

Lemma dedup_idemp l : dedup (dedup l) = dedup l.
Proof. apply dedup_id, NoDup_dedup. Qed.

Lemma has_true x l : has x l = true ↔ x ∈ l.
Proof. apply bool_decide_eq_true. Qed.
Lemma has_false x l : has x l = false ↔ x ∉ l.
Proof. apply bool_decide_eq_false. Qed.
End dedup_lemmas.

Section assoc_lemmas.
Context {K V : Type} `{EqDecision K}.
Implicit Types (m : list (K * V)).

Lemma map_get_set_eq k v m : map_get k (map_set k v m) = Some v.
Proof. induction m as [|[k' v'] m IH]; simpl; repeat (case_decide; simpl); naive_solver. Qed.

Lemma map_get_set_ne k k' v m : k ≠ k' → map_get k (map_set k' v m) = map_get k m.
Proof.
  intros Hk. induction m as [|[k'' v'] m IH]; simpl; [by rewrite decide_False|].
  repeat (case_decide; simpl); naive_solver.
Qed.

Lemma map_get_elem k v m : map_get k m = Some v → (k, v) ∈ m.
Proof.
  induction m as [|[k' v'] m IH]; simpl; [done|]. case_decide; intros; simplify_eq; [left|].
  right. auto.
Qed.

Lemma elem_map_get k v m : NoDup (map fst m) → (k, v) ∈ m → map_get k m = Some v.
Proof.
  induction m as [|[k' v'] m IH]; simpl; [by intros _ ?%not_elem_of_nil|].
  intros [Hk Hm]%NoDup_cons [[= -> ->]|Hin]%elem_of_cons; [by rewrite decide_True|].
  rewrite decide_False; [by apply IH|]. intros ->. apply Hk, list_elem_of_fmap. by exists (k', v).
Qed.

Lemma map_set_keys k v m :
  map fst (map_set k v m) = if decide (k ∈ map fst m) then map fst m else map fst m ++ [k].
Proof.
  induction m as [|[k' v'] m IH]; simpl.
  { by destruct (decide (k ∈ [])) as [?%not_elem_of_nil|]. }
  destruct (decide (k = k')) as [->|Hk]; simpl.
  - destruct (decide (k' ∈ k' :: _)) as [|[]]; [done|left].
  - rewrite IH. destruct (decide (k ∈ map fst m)), (decide (k ∈ k' :: map fst m)) as [[]%elem_of_cons|[]%not_elem_of_cons]; set_solver.
Qed.

Lemma map_set_NoDup k v m : NoDup (map fst m) → NoDup (map fst (map_set k v m)).
Proof.
  intros Hm. rewrite map_set_keys. case_decide; [done|].
  apply NoDup_app. repeat split; [done| |apply NoDup_singleton]. set_solver.
Qed.
End assoc_lemmas.

Section sort_lemmas.
Context {A : Type} (le : A → A → bool).

Lemma insert_sorted_Permutation x l : insert_sorted le x l ≡ₚ x :: l.
Proof.
  induction l as [|y l IH]; simpl; [done|]. destruct (le x y); [done|].
  rewrite IH. constructor.
Qed.

Lemma js_sort_Permutation l : js_sort le l ≡ₚ l.
Proof.
  induction l as [|x l IH]; simpl; [done|]. by rewrite insert_sorted_Permutation, IH.
Qed.

Hypothesis le_total : ∀ x y, le x y = true ∨ le y x = true.
Hypothesis le_trans : ∀ x y z, le x y = true → le y z = true → le x z = true.

Lemma insert_sorted_StronglySorted x l :
  StronglySorted (fun a b => le a b = true) l →
  StronglySorted (fun a b => le a b = true) (insert_sorted le x l).
Proof.
  induction 1 as [|y l Hl IH Hy]; simpl; [repeat constructor|].
  destruct (le x y) eqn:E.
  - constructor; [by constructor|]. constructor; [done|].
    eapply Forall_impl; [exact Hy|]. intros z Hz. by eapply le_trans.
  - constructor; [done|].
    rewrite insert_sorted_Permutation. constructor; [|done].
    destruct (le_total x y); congruence.
Qed.

Lemma js_sort_StronglySorted l : StronglySorted (fun a b => le a b = true) (js_sort le l).
Proof.
  induction l as [|x l IH]; simpl; [constructor|]. by apply insert_sorted_StronglySorted.
Qed.
End sort_lemmas.

(** A sorted list is left alone. *)
Lemma js_sort_id {A} (le : A → A → bool) l :
  StronglySorted (fun a b => le a b = true) l → js_sort le l = l.
Proof.
  induction 1 as [|x l Hl IH Hx]; simpl; [done|]. rewrite IH.
  destruct Hx as [|y l Hy _]; simpl; [done|]. by rewrite Hy.
Qed.

Lemma elem_of_filterb {A} (p : A → bool) l x : x ∈ List.filter p l ↔ x ∈ l ∧ p x = true.
Proof. by rewrite !list_elem_of_In, filter_In. Qed.

Lemma elem_of_concat {A} (x : A) ls : x ∈ concat ls ↔ ∃ l, x ∈ l ∧ l ∈ ls.
Proof.
  rewrite list_elem_of_In, in_concat. setoid_rewrite <- list_elem_of_In. naive_solver.
Qed.

(** ** Sums *)

Definition zsum {A} (f : A → Z) (l : list A) : Z := foldr (fun x s => f x + s)%Z 0%Z l.

Section zsum.
Context {A : Type}.
Implicit Types (f g : A → Z) (l : list A).

Lemma zsum_app f l l' : zsum f (l ++ l') = (zsum f l + zsum f l')%Z.
Proof. induction l as [|x l IH]; simpl; [done|]. rewrite IH. lia. Qed.

Lemma zsum_ext f g l : (∀ x, x ∈ l → f x = g x) → zsum f l = zsum g l.
Proof.
  induction l as [|x l IH]; simpl; intros H; [done|].
  rewrite (H x) by left. rewrite IH; [done|]. intros y Hy. apply H. by right.
Qed.

Lemma zsum_map {B} (h : B → A) f (l : list B) : zsum f (map h l) = zsum (fun x => f (h x)) l.
Proof. induction l as [|x l IH]; simpl; [done|]. by rewrite IH. Qed.

Lemma zsum_concat f ls : zsum f (concat ls) = zsum (zsum f) ls.
Proof. induction ls as [|l ls IH]; simpl; [done|]. by rewrite zsum_app, IH. Qed.

Lemma zsum_zero f l : (∀ x, x ∈ l → f x = 0%Z) → zsum f l = 0%Z.
Proof.
  intros H. rewrite (zsum_ext _ (fun _ => 0%Z)) by done. clear H.
  induction l as [|x l IH]; simpl; [done|]. by rewrite IH.
Qed.

Lemma zsum_filter (P : A → Prop) `{∀ x, Decision (P x)} f l :
  zsum f (filter P l) = zsum (fun x => if decide (P x) then f x else 0)%Z l.
Proof.
  induction l as [|x l IH]; simpl; [done|].
  destruct (decide (P x)); [rewrite filter_cons_True by done|rewrite filter_cons_False by done];
    simpl; rewrite IH; lia.
Qed.

Lemma foldl_zsum f l a : foldl (fun s x => s + f x)%Z a l = (a + zsum f l)%Z.
Proof. revert a. induction l as [|x l IH]; intros a; simpl; [lia|]. rewrite IH. lia. Qed.

#[global] Instance zsum_Proper f : Proper ((≡ₚ) ==> eq) (zsum f).
Proof.
  induction 1 as [|x l l' _ IH|x y l|l1 l2 l3 _ IH1 _ IH2]; simpl; [done|lia|lia|congruence].
Qed.
End zsum.

(** *** Accumulating in a map

    The sources total values in a [Map] by reading the entry of a key, or a fresh
    one, and writing it back updated. *)
Section accum.
Context {A K V : Type} `{EqDecision K}.
Context (key : A → K) (init : A → V) (upd : A → V → V).

Definition accum_step (m : list (K * V)) (a : A) : list (K * V) :=
  map_set (key a) (upd a (default (init a) (map_get (key a) m))) m.

Definition accum (m : list (K * V)) (l : list A) : list (K * V) := foldl accum_step m l.

Lemma map_set_sum (f : K → V → Z) k v m :
  zsum (fun '(k, v) => f k v) (map_set k v m) =
  (zsum (fun '(k, v) => f k v) m + f k v - from_option (f k) 0 (map_get k m))%Z.
Proof.
  induction m as [|[k' v'] m IH]; simpl; [lia|].
  destruct (decide (k = k')) as [->|Hk]; simpl; [lia|]. rewrite IH. lia.
Qed.

(** The accumulated total of a selection of keys is the total of the added
    values with such keys. *)
Lemma accum_sum (P : K → bool) (val : V → Z) (w : A → Z) m l :
  (∀ a, val (init a) = 0%Z) → (∀ a v, val (upd a v) = (val v + w a)%Z) →
  zsum (fun '(k, v) => if P k then val v else 0)%Z (accum m l) =
  (zsum (fun '(k, v) => if P k then val v else 0)%Z m
   + zsum (fun a => if P (key a) then w a else 0)%Z l)%Z.
Proof.
  intros Hi Hu. revert m. induction l as [|a l IH]; intros m; simpl; [lia|].
  unfold accum in *. simpl. rewrite IH. unfold accum_step.
  rewrite (map_set_sum (fun k v => if P k then val v else 0)%Z).
  destruct (P (key a)) eqn:E; [|destruct (map_get (key a) m); simpl; rewrite ?E; lia].
  rewrite Hu. destruct (map_get (key a) m); simpl; rewrite ?E, ?Hi; lia.
Qed.

Lemma map_set_Forall (I : K * V → Prop) k v m :
  Forall I m → I (k, v) → Forall I (map_set k v m).
Proof.
  induction 1 as [|[k' v'] m Hm Hm' IH]; simpl; [by repeat constructor|]. intros Hv.
  case_decide as Hd; [subst; by constructor|constructor; auto].
Qed.

Lemma accum_Forall (I : K * V → Prop) m l :
  Forall I m → (∀ a, a ∈ l → ∀ v, v = init a ∨ I (key a, v) → I (key a, upd a v)) →
  Forall I (accum m l).
Proof.
  revert m. induction l as [|a l IH]; intros m Hm Hl; [done|]. simpl. apply IH.
  - apply map_set_Forall; [done|]. apply Hl; [left|].
    destruct (map_get (key a) m) as [v|] eqn:E; simpl; [right|by left].
    apply map_get_elem in E. rewrite Forall_forall in Hm. by apply Hm.
  - intros b Hb. apply Hl. by right.
Qed.

(** The entry of one key only depends on the items with that key. *)
Lemma accum_get m l k :
  map_get k (accum m l) =
  foldl (fun o a => if decide (key a = k) then Some (upd a (default (init a) o)) else o)
    (map_get k m) l.
Proof.
  revert m. induction l as [|a l IH]; intros m; [done|]. unfold accum in *. simpl. rewrite IH.
  f_equal. unfold accum_step. destruct (decide (key a = k)) as [<-|Hk].
  - by rewrite map_get_set_eq.
  - by rewrite map_get_set_ne by congruence.
Qed.

Lemma accum_NoDup m l : NoDup (map fst m) → NoDup (map fst (accum m l)).
Proof. revert m. induction l as [|a l IH]; intros m Hm; [done|]. apply IH, map_set_NoDup, Hm. Qed.

Lemma accum_keys m l k : k ∈ map fst (accum m l) ↔ k ∈ map fst m ∨ k ∈ map key l.
Proof.
  revert m. induction l as [|a l IH]; intros m; simpl; [set_solver|].
  unfold accum in *. simpl. rewrite IH. unfold accum_step. rewrite map_set_keys.
  case_decide; set_solver.
Qed.
End accum.

(** *** Entries with distinct keys *)

Lemma drop_permutation {A} (f : A → nat) l x :
  NoDup (map f l) → x ∈ l → l ≡ₚ x :: filter (fun y => f y ≠ f x) l.
Proof.
  intros Hn Hx. induction l as [|y l IH]; [by apply not_elem_of_nil in Hx|].
  cbn in Hn. apply NoDup_cons in Hn as [Hy Hn]. rewrite filter_cons.
  apply elem_of_cons in Hx as [->|Hx].
  - rewrite decide_False by (intros E; by apply E). f_equiv. clear IH Hn.
    induction l as [|z l IH]; [done|]. cbn in Hy. apply not_elem_of_cons in Hy as [Hz Hy].
    rewrite filter_cons, decide_True by congruence. f_equiv. by apply IH.
  - rewrite decide_True.
    + rewrite (IH Hn Hx) at 1. apply Permutation_swap.
    + intros E. apply Hy. rewrite E. by apply list_elem_of_fmap_2.
Qed.

Lemma NoDup_sub {A} (l k : list A) : l ⊆+ k → NoDup k → NoDup l.
Proof. intros [k' ->]%submseteq_Permutation Hk. by apply NoDup_app in Hk as [? _]. Qed.
