(* ===== verification/JsRegExp.v ===== *)
(** * JavaScript regular expressions

    The matcher of ECMA-262 (21.2.2, "Pattern Semantics"): backtracking in
    continuation-passing style over greedy quantifiers, capture groups, back
    references and assertions, as far as the modelled sources use them.  A
    pattern of the source is written as its syntax tree; its text stands in a
    comment beside the definition.

    The lemmas at the end describe the matcher on the shapes the sources use:
    literals, repetitions of one character class, and patterns anchored with
    [^] and [$]. *)

From S2P Require Import Prelude.

(** ** Syntax *)

Inductive regex :=
  | REps
  | RUnit (p : N → bool)                           (* one code unit in a class *)
  | RSeq (a b : regex)                             (* ab *)
  | RAlt (a b : regex)                             (* a|b *)
  | RRep (r : regex) (min : nat) (max : option nat) (* r{min,max}, greedy *)
  | RGroup (i : nat) (r : regex)                   (* the i-th capture group *)
  | RBackref (i : nat)                             (* \i *)
  | RBol                                           (* ^ *)
  | REol                                           (* $ *)
  | RWordB.                                        (* \b *)

Fixpoint groups (r : regex) : list nat :=
  match r with
  | RSeq a b | RAlt a b => groups a ++ groups b
  | RRep r _ _ => groups r
  | RGroup i r => i :: groups r
  | _ => []
  end.

Declare Scope regex_scope.
Delimit Scope regex_scope with re.
Bind Scope regex_scope with regex.
Infix "·" := RSeq (at level 62, right associativity) : regex_scope.
Infix "<+>" := RAlt (at level 63, right associativity) : regex_scope.

Abbreviation rstar r := (RRep r 0 None).
Abbreviation rplus r := (RRep r 1 None).
Abbreviation ropt r := (RRep r 0 (Some 1)).

(** A literal string. *)
Fixpoint rlit (s : jstr) : regex :=
  match s with
  | [] => REps
  | c :: s' => RSeq (RUnit (N.eqb c)) (rlit s')
  end.

(** [(?:a|b|...)] *)
Fixpoint ralts (ws : list jstr) : regex :=
  match ws with
  | [] => RUnit (fun _ => false)
  | [w] => rlit w
  | w :: ws' => RAlt (rlit w) (ralts ws')
  end.

(** The class of an [i]-flagged pattern: without the [u] flag only ASCII
    letters of an ASCII class have a case variant. *)
Definition ci (p : N → bool) (c : N) : bool := p c || p (ascii_lower c) || p (ascii_upper c).

Definition rlit_ci (s : jstr) : regex :=
  foldr (fun c r => RSeq (RUnit (ci (N.eqb c))) r) REps s.

Definition is_word (c : N) : bool := is_alnum c || (c =? 95)%N.

(** A class given by the characters it lists. *)
Definition one_of (s : jstr) (c : N) : bool := existsb (N.eqb c) s.
Definition none_of (s : jstr) (c : N) : bool := negb (one_of s c).

(** ** Matching *)

(** The text before the current position (nearest unit first), the text after
    it, and the captures so far. *)
Record mstate := MState {
  before : jstr;
  rest : jstr;
  caps : list (nat * jstr);
}.

#[global] Instance mstate_eq_dec : EqDecision mstate.
Proof. solve_decision. Defined.

Definition advance (n : nat) (st : mstate) : mstate :=
  MState (reverse (take n (rest st)) ++ before st) (drop n (rest st)) (caps st).

Definition reset (gs : list nat) (st : mstate) : mstate :=
  MState (before st) (rest st) (filter (fun c => c.1 ∉ gs) (caps st)).

Definition capture (i : nat) (st st' : mstate) : mstate :=
  MState (before st') (rest st')
    ((i, take (length (rest st) - length (rest st')) (rest st))
       :: filter (fun c => c.1 ≠ i) (caps st')).

Abbreviation cont := (mstate → option mstate).

Section repeat.
Context (m : mstate → cont → option mstate) (gs : list nat).

(** RepeatMatcher.  An iteration past the minimum that consumes nothing fails,
    so [S (min + length rest)] units of fuel are never used up. *)
Fixpoint rep (fuel min : nat) (max : option nat) (st : mstate) (k : cont) : option mstate :=
  match max with
  | Some 0 => k st
  | _ =>
    match fuel with
    | O => None
    | S f =>
      let d st' :=
        if (min =? 0) && (length (rest st') =? length (rest st)) then None
        else rep f (pred min) (pred <$> max) st' k in
      match min with
      | S _ => m (reset gs st) d
      | O => match m (reset gs st) d with
             | Some r => Some r
             | None => k st
             end
      end
    end
  end.
End repeat.

Definition word_at (o : option N) : bool := match o with Some c => is_word c | None => false end.

Fixpoint rmatch (r : regex) (st : mstate) (k : cont) : option mstate :=
  match r with
  | REps => k st
  | RUnit p =>
    match rest st with
    | c :: _ => if p c then k (advance 1 st) else None
    | [] => None
    end
  | RSeq a b => rmatch a st (fun st' => rmatch b st' k)
  | RAlt a b =>
    match rmatch a st k with
    | Some x => Some x
    | None => rmatch b st k
    end
  | RRep r min max =>
    rep (rmatch r) (groups r) (S (min + length (rest st))) min max st k
  | RGroup i r => rmatch r st (fun st' => k (capture i st st'))
  | RBackref i =>
    let s := default [] (map_get i (caps st)) in
    if startsWith s (rest st) then k (advance (length s) st) else None
  | RBol => match before st with [] => k st | _ => None end
  | REol => match rest st with [] => k st | _ => None end
  | RWordB =>
    if xorb (word_at (head (before st))) (word_at (head (rest st))) then k st else None
  end.

(** ** The [RegExp] methods *)

(** A match: the position it starts at, its text, and the final state. *)
Record rmatched := RMatched {
  m_index : nat;
  m_text : jstr;
  m_end : mstate;
}.

(** [m[i]] of a match result. *)
Definition cap (i : nat) (m : rmatched) : option jstr := map_get i (caps (m_end m)).

Fixpoint search (r : regex) (bef s : jstr) : option rmatched :=
  match rmatch r (MState bef s []) Some with
  | Some st => Some (RMatched (length bef) (take (length s - length (rest st)) s) st)
  | None =>
    match s with
    | [] => None
    | c :: s' => search r (c :: bef) s'
    end
  end.

(** [r.exec(s)] and [s.match(r)] of a pattern without the [g] flag. *)
Definition exec (r : regex) (s : jstr) : option rmatched := search r [] s.

(** [r.test(s)] *)
Definition test (r : regex) (s : jstr) : bool :=
  match exec r s with Some _ => true | None => false end.

(** The matches of a [g]-flagged pattern, left to right.  After an empty match
    the search goes on one unit later (AdvanceStringIndex). *)
Fixpoint exec_all (fuel : nat) (r : regex) (bef s : jstr) : list rmatched :=
  match fuel with
  | O => []
  | S f =>
    match search r bef s with
    | None => []
    | Some m =>
      let st := m_end m in
      m :: match m_text m, rest st with
           | [], [] => []
           | [], c :: s' => exec_all f r (c :: before st) s'
           | _, s' => exec_all f r (before st) s'
           end
    end
  end.

Definition matchAll (r : regex) (s : jstr) : list rmatched := exec_all (S (length s)) r [] s.

(** [s.replaceAll(/[p]/g, by)] for a class of single units. *)
Definition replace_units (p : N → bool) (by_ : jstr) (s : jstr) : jstr :=
  concat (map (fun c => if p c then by_ else [c]) s).

(** ** Lemmas *)

Lemma advance_0 st : advance 0 st = st.
Proof. by destruct st. Qed.

Lemma advance_add a b st : a ≤ length (rest st) → advance b (advance a st) = advance (a + b) st.
Proof.
  intros Ha. unfold advance. destruct st as [bef s cs]. simpl in *.
  rewrite drop_drop. f_equal. rewrite <- (take_take_drop s a b).
  by rewrite reverse_app, <- app_assoc.
Qed.

Lemma advance_app s w bef cs :
  advance (length w) (MState bef (w ++ s) cs) = MState (reverse w ++ bef) s cs.
Proof. unfold advance. simpl. by rewrite take_app_length, drop_app_length. Qed.

Lemma reset_nil st : reset [] st = st.
Proof.
  destruct st as [bef s cs]. unfold reset. simpl. f_equal.
  induction cs as [|c cs IH]; [done|]. rewrite filter_cons_True by set_solver. by rewrite IH.
Qed.

(** A literal matches exactly its own text. *)
Lemma rmatch_lit s st k :
  rmatch (rlit s) st k =
  if startsWith s (rest st) then k (advance (length s) st) else None.
Proof.
  revert st. induction s as [|c s IH]; intros st; simpl.
  - by rewrite advance_0.
  - destruct (rest st) as [|d t] eqn:E; [done|]. simpl.
    destruct (c =? d)%N; [|done]. simpl. rewrite IH.
    replace (rest (advance 1 st)) with t by (unfold advance; simpl; by rewrite E).
    by rewrite advance_add by (rewrite E; simpl; lia).
Qed.

(** Anchored patterns are only tried at the start of the text. *)
Lemma search_bol r s bef :
  (∀ st k, before st ≠ [] → rmatch r st k = None) → bef ≠ [] → search r bef s = None.
Proof.
  intros Hr. revert bef. induction s as [|c s IH]; intros bef Hb; simpl; rewrite Hr; auto.
Qed.

Lemma exec_bol r s :
  exec (RBol · r) s =
  (fun st => RMatched 0 (take (length s - length (rest st)) s) st)
    <$> rmatch r (MState [] s []) Some.
Proof.
  unfold exec. destruct s as [|c s].
  - simpl. by destruct (rmatch r _ _).
  - simpl. destruct (rmatch r _ _); [done|].
    apply search_bol; [|done]. intros [bef ? ?] k. simpl. by destruct bef.
Qed.

Lemma test_bol r s :
  test (RBol · r) s = match rmatch r (MState [] s []) Some with Some _ => true | None => false end.
Proof. unfold test. rewrite exec_bol. by destruct (rmatch r _ _). Qed.

(** *** Repetition of a character class *)

Section rep_unit.
Context (p : N → bool).
Abbreviation mu := (rmatch (RUnit p)).

Definition within (j : nat) (max : option nat) : Prop :=
  match max with Some b => j ≤ b | None => True end.

(** A successful repetition consumed a run of the class of a permitted length
    and handed over to its continuation. *)
Lemma rep_unit_sound fuel min max st k r :
  rep mu [] fuel min max st k = Some r →
  ∃ j, j ≤ length (rest st) ∧ forallb p (take j (rest st)) = true ∧
       k (advance j st) = Some r ∧ (within min max → min ≤ j ∧ within j max).
Proof.
  revert min max st. induction fuel as [|f IH]; intros min max st H; simpl in H.
  { destruct max as [[|b]|]; [|done..]. exists 0. rewrite advance_0.
    repeat split; [lia|done..|simpl in *; lia|simpl; lia]. }
  assert (Hstop : k st = Some r → min = 0 → ∃ j, j ≤ length (rest st) ∧
    forallb p (take j (rest st)) = true ∧
    k (advance j st) = Some r ∧ (within min max → min ≤ j ∧ within j max)).
  { intros Hk ->. exists 0. rewrite advance_0. repeat split; [lia|done..|].
    destruct max; simpl; [lia|done]. }
  rewrite reset_nil in H.
  assert (Hmain : match rest st with
      | c :: _ => if p c then
          (if (min =? 0) && (length (rest (advance 1 st)) =? length (rest st)) then None
           else rep mu [] f (pred min) (pred <$> max) (advance 1 st) k)
          else None
      | [] => None end = Some r → max ≠ Some 0 →
     ∃ j, j ≤ length (rest st) ∧ forallb p (take j (rest st)) = true ∧
       k (advance j st) = Some r ∧ (within min max → min ≤ j ∧ within j max)).
  { intros Hm Hmax. destruct (rest st) as [|c s] eqn:Es; [done|].
    destruct (p c) eqn:Ec; [|done].
    case_match; [done|].
    apply IH in Hm as (j & Hj & Hall & Hk & Hw).
    assert (Hr : rest (advance 1 st) = s) by (unfold advance; simpl; by rewrite Es).
    rewrite Hr in Hj, Hall. exists (S j).
    rewrite advance_add in Hk by (rewrite Es; simpl; lia).
    split; [simpl; lia|]. split; [simpl; by rewrite Ec, Hall|]. split; [done|].
    intros Hm. destruct max as [[|b]|]; simpl in *; [done|..];
      (destruct Hw; [by try lia|]; split; [lia|by try lia]). }
  destruct max as [[|b]|]; [|destruct min..].
  - exists 0. rewrite advance_0. repeat split; [lia|done..|simpl in *; lia|simpl; lia].
  - by destruct (match rest st with [] => _ | _ => _ end) eqn:E in H; simplify_eq; auto.
  - by apply Hmain.
  - by destruct (match rest st with [] => _ | _ => _ end) eqn:E in H; simplify_eq; auto.
  - by apply Hmain.
Qed.

(** A maximal run of the class, of a permitted length, that the continuation
    accepts is the match: greedy matching takes it without backtracking. *)
Lemma rep_unit_greedy fuel min max w s bef cs k r :
  forallb p w = true → (max = Some (length w) ∨ match s with [] => True | c :: _ => p c = false end) →
  min ≤ length w → within (length w) max → length w < fuel →
  k (MState (reverse w ++ bef) s cs) = Some r →
  rep mu [] fuel min max (MState bef (w ++ s) cs) k = Some r.
Proof.
  revert min max w bef. induction fuel as [|f IH]; intros min max w bef Hw Hs Hmin Hmax Hf Hk; [lia|].
  destruct w as [|c w]; simpl in *.
  - assert (min = 0) as -> by lia.
    destruct max as [[|b]|]; simpl; [done|..]; rewrite reset_nil; simpl;
      (destruct s as [|d s]; [done|]); destruct Hs as [|Hs]; simplify_eq; by rewrite Hs.
  - bool_hyps.
    destruct max as [[|b]|]; simpl in Hmax; [lia|..]; cbn [rep]; rewrite reset_nil;
      cbn [rmatch rest]; rewrite H;
      unfold advance; cbn [rest before caps take drop reverse]; rewrite take_0, drop_0;
      change (reverse [c]) with [c]; cbn [app];
      (assert ((length (w ++ s) =? S (length (w ++ s))) = false) as -> by (apply Nat.eqb_neq; lia));
      rewrite andb_false_r.
    + erewrite IH; [by destruct min|done|..|lia|simpl; lia|lia|].
      * destruct Hs; [left; simpl; f_equal; naive_solver|by right].
      * by rewrite reverse_cons, <- app_assoc in Hk.
    + erewrite IH; [by destruct min|done|..|lia|done|lia|].
      * destruct Hs; [done|by right].
      * by rewrite reverse_cons, <- app_assoc in Hk.
Qed.
End rep_unit.

(** [[p]{min,max}$] succeeds exactly when the rest of the text is of that class
    and length. *)
Lemma rmatch_class_eol p min max bef s :
  within min max →
  match rmatch (RRep (RUnit p) min max · REol) (MState bef s []) Some with
  | Some _ => true | None => false end =
  forallb p s && (min <=? length s) && match max with Some b => length s <=? b | None => true end.
Proof.
  intros Hwf.
  set (k := fun st' => rmatch REol st' Some).
  change (rmatch (RRep (RUnit p) min max · REol) (MState bef s []) Some)
    with (rep (rmatch (RUnit p)) [] (S (min + length s)) min max (MState bef s []) k).
  destruct (forallb p s && (min <=? length s) && _) eqn:E.
  - bool_hyps.
    assert (within (length s) max) by (destruct max; simpl; [by apply Nat.leb_le|done]).
    pose proof (rep_unit_greedy p (S (min + length s)) min max s [] bef [] k
      (MState (reverse s ++ bef) [] [])) as Hg.
    rewrite (app_nil_r s) in Hg. rewrite Hg; [done..|by right|done|done|lia|done].
  - destruct (rep _ _ _ _ _ _ _) as [r|] eqn:Er; [|done].
    apply rep_unit_sound in Er as (j & Hj & Hall & Hk & Hw). unfold k in Hk. simpl in *.
    destruct (drop j s) as [|] eqn:Ed; [|done].
    assert (j = length s) as ->.
    { apply (f_equal length) in Ed. rewrite length_drop in Ed. simpl in Ed. lia. }
    rewrite take_ge in Hall by lia. destruct (Hw Hwf) as [Hmin Hmax].
    rewrite Hall, (proj2 (Nat.leb_le _ _) Hmin) in E. simpl in E.
    destruct max; simpl in *; [by rewrite (proj2 (Nat.leb_le _ _) Hmax) in E|done].
Qed.

(** [/^[p]{min,max}$/.test(s)] holds exactly for the strings of that class and
    length. *)
Lemma test_class p min max s :
  within min max →
  test (RBol · RRep (RUnit p) min max · REol)%re s =
  forallb p s && (min <=? length s) && match max with Some b => length s <=? b | None => true end.
Proof. intros. rewrite test_bol. by apply rmatch_class_eol. Qed.

(** [/^p[q]{min,max}$/.test(s)]: a first unit, then a class. *)
Lemma test_head_class p q min max s :
  within min max →
  test (RBol · RUnit p · RRep (RUnit q) min max · REol)%re s =
  match s with
  | c :: s' => p c && (forallb q s' && (min <=? length s')
                       && match max with Some b => length s' <=? b | None => true end)
  | [] => false
  end.
Proof.
  intros. rewrite test_bol. destruct s as [|c s]; [done|].
  change (rmatch _ _ _) with
    (if p c then rmatch (RRep (RUnit q) min max · REol) (MState [c] s []) Some else None).
  destruct (p c); [|done]. by apply rmatch_class_eol.
Qed.

(** [/^lit[q]{min,max}$/.test(s)]: a literal prefix, then a class. *)
Lemma test_lit_class w q min max s :
  within min max →
  test (RBol · rlit w · RRep (RUnit q) min max · REol)%re s =
  startsWith w s && (forallb q (drop (length w) s) && (min <=? length (drop (length w) s))
    && match max with Some b => length (drop (length w) s) <=? b | None => true end).
Proof.
  intros. rewrite test_bol.
  change (rmatch _ _ _) with (rmatch (rlit w) (MState [] s []) (fun st =>
    rmatch (RRep (RUnit q) min max · REol) st Some)).
  rewrite rmatch_lit. cbn [rest]. destruct (startsWith w s); [|done].
  unfold advance. cbn [rest before caps]. by apply rmatch_class_eol.
Qed.

Lemma replace_units_app p b s t :
  replace_units p b (s ++ t) = replace_units p b s ++ replace_units p b t.
Proof. unfold replace_units. by rewrite map_app, concat_app. Qed.

(** Deleting a class leaves a string without it, and such a string is kept. *)
Lemma replace_units_delete_forall p s :
  Forall (fun c => p c = false) (replace_units p [] s).
Proof.
  induction s as [|c s IH]; [constructor|]. unfold replace_units in *. simpl.
  destruct (p c) eqn:E; [done|by constructor].
Qed.

Lemma replace_units_id p b s :
  Forall (fun c => p c = false) s → replace_units p b s = s.
Proof.
  unfold replace_units. induction 1 as [|c s Hc _ IH]; [done|]. simpl. rewrite Hc. simpl. by rewrite IH.
Qed.

(** ** A declarative reading

    [M r st st'] says that [r] can match from [st] and end in [st'].  The
    backtracking matcher finds a match exactly when there is one
    ([rmatch_sound], [rmatch_complete]), so that what a pattern accepts can be
    read off by inversion, without following the search. *)

Inductive M : regex → mstate → mstate → Prop :=
  | M_eps st : M REps st st
  | M_unit p st c s : rest st = c :: s → p c = true → M (RUnit p) st (advance 1 st)
  | M_seq a b st st1 st2 : M a st st1 → M b st1 st2 → M (RSeq a b) st st2
  | M_alt_l a b st st' : M a st st' → M (RAlt a b) st st'
  | M_alt_r a b st st' : M b st st' → M (RAlt a b) st st'
  | M_rep_max r min st : M (RRep r min (Some 0)) st st
  | M_rep_stop r max st : M (RRep r 0 max) st st
  | M_rep_step r min max st st1 st2 :
      max ≠ Some 0 → M r (reset (groups r) st) st1 →
      (min = 0 → length (rest st1) ≠ length (rest st)) →
      M (RRep r (pred min) (pred <$> max)) st1 st2 → M (RRep r min max) st st2
  | M_group i r st st' : M r st st' → M (RGroup i r) st (capture i st st')
  | M_backref i st : startsWith (default [] (map_get i (caps st))) (rest st) = true →
      M (RBackref i) st (advance (length (default [] (map_get i (caps st)))) st)
  | M_bol st : before st = [] → M RBol st st
  | M_eol st : rest st = [] → M REol st st
  | M_wordb st : xorb (word_at (head (before st))) (word_at (head (rest st))) = true →
      M RWordB st st.

Lemma rep_sound r min max fuel st k x :
  (∀ st k x, rmatch r st k = Some x → ∃ st', M r st st' ∧ k st' = Some x) →
  rep (rmatch r) (groups r) fuel min max st k = Some x →
  ∃ st', M (RRep r min max) st st' ∧ k st' = Some x.
Proof.
  intros Hr. revert min max st. induction fuel as [|f IH]; intros min max st H; simpl in H.
  { destruct max as [[|b]|]; [|done..]. exists st. split; [constructor|done]. }
  assert (Hstep : ∀ d, max ≠ Some 0 →
    d = (fun st' => if (min =? 0) && (length (rest st') =? length (rest st)) then None
                    else rep (rmatch r) (groups r) f (pred min) (pred <$> max) st' k) →
    rmatch r (reset (groups r) st) d = Some x →
    ∃ st', M (RRep r min max) st st' ∧ k st' = Some x).
  { intros d Hmax -> (st1 & H1 & H2)%Hr.
    destruct ((min =? 0) && (length (rest st1) =? length (rest st))) eqn:E; [done|].
    apply IH in H2 as (st' & H2 & Hk). exists st'. split; [|done].
    eapply M_rep_step; [done|exact H1| |exact H2].
    intros -> Hl. simpl in E. by rewrite Hl, Nat.eqb_refl in E. }
  destruct max as [[|b]|]; [exists st; split; [constructor|done]|destruct min..];
    try (eapply Hstep; [done|reflexivity|]; exact H);
    (destruct (rmatch r _ _) eqn:E in H; [simplify_eq; eapply Hstep; [done|reflexivity|]; exact E|]);
    exists st; (split; [apply M_rep_stop|done]).
Qed.

(** What the matcher finds is a match. *)
Lemma rmatch_sound r st k x :
  rmatch r st k = Some x → ∃ st', M r st st' ∧ k st' = Some x.
Proof.
  revert st k x. induction r as [|p|a IHa b IHb|a IHa b IHb|r IH min max|i r IH|i| | |];
    intros st k x H; simpl in H.
  - eexists. split; [constructor|done].
  - destruct (rest st) as [|c s] eqn:E; [done|]. destruct (p c) eqn:Ep; [|done].
    eexists. split; [by econstructor|done].
  - apply IHa in H as (st1 & H1 & (st2 & H2 & Hk)%IHb). eexists. split; [by econstructor|done].
  - destruct (rmatch a st k) eqn:E; simplify_eq.
    + apply IHa in E as (st' & ? & ?). eexists. split; [by apply M_alt_l|done].
    + apply IHb in H as (st' & ? & ?). eexists. split; [by apply M_alt_r|done].
  - change (rep (rmatch r) (groups r) (S (min + length (rest st))) min max st k = Some x) in H.
    eapply rep_sound; [exact IH|exact H].
  - apply IH in H as (st' & ? & ?). eexists. split; [by constructor|done].
  - case_if; [|done]. eexists. split; [by constructor|done].
  - destruct (before st) eqn:E; [|done]. eexists. split; [by constructor|done].
  - destruct (rest st) eqn:E; [|done]. eexists. split; [by constructor|done].
  - case_if; [|done]. eexists. split; [by constructor|done].
Qed.

Lemma M_consumes r st st' :
  M r st st' → ∃ w, rest st = w ++ rest st' ∧ before st' = reverse w ++ before st.
Proof.
  induction 1 as [|p st c s E _|a b st st1 st2 _ (w1 & E1 & B1) _ (w2 & E2 & B2)| | | | |
    r min max st st1 st2 _ _ (w1 & E1 & B1) _ _ (w2 & E2 & B2)| |i st E| | |]; try (by exists []); eauto.
  - exists [c]. unfold advance. rewrite E. done.
  - exists (w1 ++ w2). rewrite E1, E2, B2, B1, <- app_assoc, reverse_app, <- app_assoc. done.
  - simpl in E1, B1. exists (w1 ++ w2). rewrite E1, E2, B2, B1, <- app_assoc, reverse_app, <- app_assoc. done.
  - apply startsWith_true in E as [s E]. eexists. unfold advance. simpl.
    rewrite E, drop_app_length, take_app_length. done.
Qed.

Lemma M_length r st st' : M r st st' → length (rest st') ≤ length (rest st).
Proof. intros (w & -> & _)%M_consumes. rewrite length_app. lia. Qed.

(** Whenever there is a match that the continuation accepts, the matcher finds
    one, and the fuel of repetitions is enough. *)
Lemma M_found r st st' :
  M r st st' →
  (∀ k, is_Some (k st') → is_Some (rmatch r st k)) ∧
  match r with
  | RRep r0 min max => ∀ fuel k, min + length (rest st) < fuel → is_Some (k st') →
      is_Some (rep (rmatch r0) (groups r0) fuel min max st k)
  | _ => True
  end.
Proof.
  assert (Hrep : ∀ r0 min max st st', (∀ fuel k, min + length (rest st) < fuel → is_Some (k st') →
      is_Some (rep (rmatch r0) (groups r0) fuel min max st k)) →
      (∀ k, is_Some (k st') → is_Some (rmatch (RRep r0 min max) st k)) ∧
      ∀ fuel k, min + length (rest st) < fuel → is_Some (k st') →
      is_Some (rep (rmatch r0) (groups r0) fuel min max st k)).
  { intros r0 min max st1 st2 H. split; [|done]. intros k Hk. cbn [rmatch]. apply H; [lia|done]. }
  induction 1 as [st|p st c s E Ep|a b st st1 st2 _ [IH1 _] _ [IH2 _]|a b st st1 _ [IH _]|
    a b st st1 _ [IH _]|r min st|r max st|r min max st st1 st2 Hmax HM [IH1 _] Hne _ [_ IH2]|
    i r st st1 _ [IH _]|i st E|st E|st E|st E];
    try (split; [|done]; intros k Hk; simpl; rewrite ?E, ?Ep; auto; fail).
  - split; [|done]. intros k Hk. simpl. apply IH in Hk as [x ->]. by eexists.
  - split; [|done]. intros k Hk. simpl. destruct (rmatch a st k); [by eexists|by apply IH].
  - apply Hrep. intros [|f] k Hf Hk; done.
  - apply Hrep. intros [|f] k Hf Hk; [lia|]. simpl.
    destruct max as [[|b]|]; [done|..]; by destruct (rmatch r _ _).
  - apply Hrep. intros [|f] k Hf Hk; [lia|].
    set (d := fun st' => if (min =? 0) && (length (rest st') =? length (rest st)) then None
                else rep (rmatch r) (groups r) f (pred min) (pred <$> max) st' k).
    assert (is_Some (rmatch r (reset (groups r) st) d)) as [x Hx].
    { apply IH1. unfold d. pose proof (M_length _ _ _ HM) as Hl. simpl in Hl.
      assert ((min =? 0) && (length (rest st1) =? length (rest st)) = false) as ->.
      { destruct min; [|done]. simpl. apply Nat.eqb_neq. by apply Hne. }
      apply IH2; [|done]. destruct min; simpl; [|lia]. specialize (Hne eq_refl). lia. }
    simpl. fold d. destruct max as [[|b]|]; [done|..]; destruct min; rewrite Hx; by eexists.
Qed.

Lemma rmatch_complete r st st' k :
  M r st st' → is_Some (k st') → is_Some (rmatch r st k).
Proof. intros [H _]%M_found. apply H. Qed.

(** [/^r/.test(s)] *)
Lemma test_bol_M r s : test (RBol · r) s = true ↔ ∃ st, M r (MState [] s []) st.
Proof.
  rewrite test_bol. split.
  - destruct (rmatch _ _ _) eqn:E; [|done]. apply rmatch_sound in E as (st & ? & _). eauto.
  - intros [st H]. by destruct (rmatch_complete _ _ _ Some H) as [x ->].
Qed.

(** [/r/.test(s)]: a match somewhere. *)
Lemma search_M r bef s :
  is_Some (search r bef s) ↔ ∃ a b st, s = a ++ b ∧ M r (MState (reverse a ++ bef) b []) st.
Proof.
  revert bef. induction s as [|c s IH]; intros bef; simpl.
  - split.
    + destruct (rmatch _ _ _) eqn:E; [|by intros []]. apply rmatch_sound in E as (st & ? & _).
      intros _. by exists [], [], st.
    + intros (a & b & st & [-> ->]%eq_sym%app_nil & HM).
      destruct (rmatch_complete _ _ _ Some HM) as [x Hx]; [done|]. simpl in Hx. by rewrite Hx.
  - destruct (rmatch _ _ _) eqn:E.
    + split; [|done]. intros _. apply rmatch_sound in E as (st & ? & _). by exists [], (c :: s), st.
    + rewrite IH. split.
      * intros (a & b & st & -> & HM). exists (c :: a), b, st. split; [done|].
        by rewrite reverse_cons, <- app_assoc.
      * intros ([|c' a] & b & st & Hs & HM).
        { simpl in Hs, HM. subst b. destruct (rmatch_complete _ _ _ Some HM) as [x Hx]; [done|].
          by rewrite Hx in E. }
        injection Hs as <- ->. exists a, b, st. split; [done|].
        by rewrite reverse_cons, <- app_assoc in HM.
Qed.

Lemma test_M r s :
  test r s = true ↔ ∃ a b st, s = a ++ b ∧ M r (MState (reverse a) b []) st.
Proof.
  unfold test, exec. transitivity (is_Some (search r [] s)).
  - destruct (search r [] s); split; [done|done|done|by intros []].
  - rewrite search_M. setoid_rewrite app_nil_r. done.
Qed.

(** What [M] says of the basic shapes, as equivalences that [M_inv] uses. *)
Lemma M_lit w st st' :
  M (rlit w) st st' ↔ ∃ s, rest st = w ++ s ∧ st' = MState (reverse w ++ before st) s (caps st).
Proof.
  revert st. induction w as [|c w IH]; intros st; simpl.
  - split; [inversion 1; subst; eexists; split; [done|]; by destruct st'|]. intros (s & <- & ->).
    destruct st. constructor.
  - split.
    + inversion 1 as [| |? ? ? st1 ? H1 H2| | | | | | | | | |]; subst.
      inversion H1 as [|? ? d s E Ep| | | | | | | | | | |]; subst. apply N.eqb_eq in Ep as <-.
      apply IH in H2 as (s' & E' & ->). unfold advance in E'. simpl in E'. rewrite E in E'.
      simpl in E'. rewrite drop_0 in E'. subst s. exists s'. split; [done|]. simpl. rewrite E. simpl.
      by rewrite ?take_0, reverse_cons, <- app_assoc.
    + intros (s & E & ->). econstructor; [by eapply M_unit; [|apply N.eqb_refl]|].
      apply IH. exists s. unfold advance. rewrite E. simpl. rewrite ?drop_0, ?take_0. split; [done|].
      by rewrite reverse_cons, <- app_assoc.
Qed.

Lemma M_class p min max st st' :
  within min max →
  M (RRep (RUnit p) min max) st st' ↔
  ∃ w s, rest st = w ++ s ∧ forallb p w = true ∧ min ≤ length w ∧ within (length w) max ∧
    st' = MState (reverse w ++ before st) s (caps st).
Proof.
  intros Hwf. split.
  - intros HM. destruct (rmatch_complete _ _ _ (fun st1 => if decide (st1 = st') then Some st1 else None) HM)
      as [x Hx]; [by rewrite decide_True|].
    cbn [rmatch groups] in Hx. apply rep_unit_sound in Hx as (j & Hj & Hp & Hk & Hw).
    case_decide as Heq; [|done]. destruct (Hw Hwf).
    exists (take j (rest st)), (drop j (rest st)). rewrite take_drop, length_take_le by done.
    by rewrite <- Heq.
  - intros (w & s & E & Hp & Hmin & Hmax & ->).
    revert min max st E Hwf Hmin Hmax. induction w as [|c w IH]; intros min max st E Hwf Hmin Hmax.
    + simpl in *. destruct min; [|lia]. subst s. destruct st. apply M_rep_stop.
    + simpl in *. bool_hyps. eapply M_rep_step.
      * destruct max as [[]|]; [simpl in *; lia|done..].
      * eapply M_unit; [simpl; exact E|done].
      * intros _. unfold advance. simpl. rewrite E. simpl. rewrite ?drop_0. lia.
      * rewrite reset_nil.
        replace (MState (reverse (c :: w) ++ before st) s (caps st))
          with (MState (reverse w ++ before (advance 1 st)) s (caps (advance 1 st))).
        2:{ unfold advance. simpl. rewrite E. simpl. by rewrite ?take_0, reverse_cons, <- app_assoc. }
        apply IH; [done|unfold advance; simpl; rewrite E; simpl; by rewrite ?drop_0|..].
        -- destruct max as [[]|]; simpl in *; [lia..|done].
        -- lia.
        -- destruct max as [[]|]; simpl in *; [lia..|done].
Qed.

Lemma M_unit_iff p st st' :
  M (RUnit p) st st' ↔
  ∃ c s, rest st = c :: s ∧ p c = true ∧ st' = MState (c :: before st) s (caps st).
Proof.
  split.
  - inversion 1 as [|? ? c s E Ep| | | | | | | | | | |]; subst. exists c, s.
    unfold advance. by rewrite E.
  - intros (c & s & E & Ep & ->). replace (MState _ _ _) with (advance 1 st); [by econstructor|].
    unfold advance. by rewrite E.
Qed.

Lemma M_seq_iff a b st st' : M (RSeq a b) st st' ↔ ∃ st1, M a st st1 ∧ M b st1 st'.
Proof. split; [inversion 1; subst; eauto|]. intros (? & ? & ?). by econstructor. Qed.
Lemma M_alt_iff a b st st' : M (RAlt a b) st st' ↔ M a st st' ∨ M b st st'.
Proof. split; [inversion 1; subst; eauto|]. intros []; [by apply M_alt_l|by apply M_alt_r]. Qed.
Lemma M_group_iff i r st st' : M (RGroup i r) st st' ↔ ∃ st1, M r st st1 ∧ st' = capture i st st1.
Proof. split; [inversion 1; subst; eauto|]. intros (? & ? & ->). by constructor. Qed.
Lemma M_eps_iff st st' : M REps st st' ↔ st' = st.
Proof. split; [by inversion 1|intros ->; constructor]. Qed.
Lemma M_bol_iff st st' : M RBol st st' ↔ before st = [] ∧ st' = st.
Proof. split; [by inversion 1|intros [? ->]; by constructor]. Qed.
Lemma M_eol_iff st st' : M REol st st' ↔ rest st = [] ∧ st' = st.
Proof. split; [by inversion 1|intros [? ->]; by constructor]. Qed.

Lemma M_opt_lit w st st' :
  w ≠ [] → M (ropt (rlit w)) st st' ↔ st' = st ∨ M (rlit w) st st'.
Proof.
  assert (groups (rlit w) = []) as Hg by (by induction w).
  intros Hw. split.
  - inversion 1 as [| | | | | | |? ? ? ? ? ? _ H1 _ H2| | | | |]; subst; [by left|right].
    rewrite Hg, reset_nil in H1. by inversion H2; subst.
  - intros [->|HM]; [apply M_rep_stop|]. eapply M_rep_step; [done|by rewrite Hg, reset_nil| |constructor].
    intros _. apply M_lit in HM as (s & -> & ->). simpl. rewrite length_app. destruct w; [done|]. simpl. lia.
Qed.

Lemma M_opt_inv r st st' : groups r = [] → M (ropt r) st st' → st' = st ∨ M r st st'.
Proof.
  intros Hg. inversion 1 as [| | | | | | |? ? ? ? ? ? _ H1 _ H2| | | | |]; subst; [by left|right].
  rewrite Hg, reset_nil in H1. by inversion H2; subst.
Qed.

(** Reads off what a match of a concrete pattern says. *)
Ltac M_inv :=
  repeat match goal with
  | H : M (RSeq _ _) _ _ |- _ => apply M_seq_iff in H; destruct H as (? & H & ?)
  | H : M (RGroup _ _) _ _ |- _ => apply M_group_iff in H; destruct H as (? & H & ->)
  | H : M REps _ _ |- _ => apply M_eps_iff in H; subst
  | H : M RBol _ _ |- _ => apply M_bol_iff in H; destruct H as [? ->]
  | H : M REol _ _ |- _ => apply M_eol_iff in H; destruct H as [? ->]
  | H : M (RUnit _) _ _ |- _ => apply M_unit_iff in H; destruct H as (? & ? & ? & ? & ->)
  | H : M (rlit _) _ _ |- _ => apply M_lit in H; destruct H as (? & ? & ->)
  | H : M (ropt (rlit _)) _ _ |- _ => apply M_opt_lit in H; [destruct H as [->|H]|done]
  | H : M (RRep (RUnit _) _ _) _ _ |- _ =>
    apply M_class in H; [destruct H as (? & ? & ? & ? & ? & ? & ->)|simpl; auto; lia]
  | H : M (RAlt _ _) _ _ |- _ => apply M_alt_iff in H; destruct H as [H|H]
  end; cbn [rest before caps] in *.

(** ** Reading a match

    What an anchored pattern captured, from the shape of the text. *)

Lemma exec_bol_sound r s m :
  exec (RBol · r) s = Some m → ∃ st, M r (MState [] s []) st ∧ caps st = caps (m_end m).
Proof.
  rewrite exec_bol. intros (st & H & ->)%fmap_Some. apply rmatch_sound in H as (st' & HM & [= ->]). eauto.
Qed.

Lemma exec_bol_complete r s st : M r (MState [] s []) st → ∃ m, exec (RBol · r) s = Some m.
Proof.
  intros HM. destruct (rmatch_complete _ _ _ Some HM) as [x Hx]; [done|]. rewrite exec_bol, Hx. eauto.
Qed.

Lemma exec_bol_none r s : (∀ st, ¬ M r (MState [] s []) st) → exec (RBol · r) s = None.
Proof. intros H. destruct (exec (RBol · r) s) eqn:E; [|done].
  apply exec_bol_sound in E as (st & HM & _). by apply H in HM. Qed.

(** The captures after group [i] has matched [w]. *)
Definition set_cap (i : nat) (w : jstr) (cs : list (nat * jstr)) : list (nat * jstr) :=
  (i, w) :: filter (fun c => c.1 ≠ i) cs.

Lemma set_cap_eq i w cs : map_get i (set_cap i w cs) = Some w.
Proof. unfold set_cap. simpl. by rewrite decide_True. Qed.

Lemma set_cap_ne i j w cs : j ≠ i → map_get j (set_cap i w cs) = map_get j cs.
Proof.
  intros Hj. unfold set_cap. simpl. rewrite decide_False by done.
  induction cs as [|[k v] cs IH]; [done|]. destruct (decide (k = i)) as [->|Hk].
  - rewrite filter_cons_False by (simpl; congruence). simpl. by rewrite decide_False.
  - rewrite filter_cons_True by done. simpl. case_decide; done.
Qed.

Lemma capture_text i w s b b' cs cs' :
  capture i (MState b (w ++ s) cs) (MState b' s cs') = MState b' s (set_cap i w cs').
Proof.
  unfold capture, set_cap. simpl. rewrite length_app, Nat.add_sub, take_app_length. done.
Qed.

Lemma M_group_text i r st st' :
  M (RGroup i r) st st' ↔ ∃ w st1, M r st st1 ∧ rest st = w ++ rest st1 ∧
    st' = MState (before st1) (rest st1) (set_cap i w (caps st1)).
Proof.
  rewrite M_group_iff. split.
  - intros (st1 & HM & ->). destruct (M_consumes _ _ _ HM) as (w & E & _). exists w, st1.
    split; [done|]. split; [done|]. destruct st as [b s c], st1 as [b1 s1 c1]. simpl in *. subst s.
    apply capture_text.
  - intros (w & st1 & HM & E & ->). exists st1. split; [done|].
    destruct st as [b s c], st1 as [b1 s1 c1]. simpl in *. subst s. symmetry. apply capture_text.
Qed.

Lemma M_ralts ws st st' :
  M (ralts ws) st st' ↔ ∃ w s, w ∈ ws ∧ rest st = w ++ s ∧ st' = MState (reverse w ++ before st) s (caps st).
Proof.
  induction ws as [|w ws IH]; simpl.
  - rewrite M_unit_iff. set_solver.
  - destruct ws as [|w' ws].
    + rewrite M_lit. set_solver.
    + rewrite M_alt_iff, M_lit, IH. set_solver.
Qed.

Lemma M_backref_iff i st st' :
  M (RBackref i) st st' ↔ ∃ s, rest st = default [] (map_get i (caps st)) ++ s ∧
    st' = MState (reverse (default [] (map_get i (caps st))) ++ before st) s (caps st).
Proof.
  split.
  - inversion 1 as [| | | | | | | | |? ? Hs| | |]; subst. apply startsWith_true in Hs as [s Hs]. exists s.
    split; [done|]. unfold advance. by rewrite Hs, take_app_length, drop_app_length.
  - intros (s & E & ->).
    assert (Hs : startsWith (default [] (map_get i (caps st))) (rest st) = true)
      by (apply startsWith_true; by exists s).
    pose proof (M_backref i st Hs) as HM. unfold advance in HM.
    by rewrite E, take_app_length, drop_app_length in HM.
Qed.

(** Two readings of a text as a run of a class and a rest that does not continue
    the run are the same. *)
Lemma unique_run (p : N → bool) (a w x y : jstr) :
  forallb p a = true → forallb p w = true →
  (∀ c r, x = c :: r → p c = false) → (∀ c r, y = c :: r → p c = false) →
  a ++ x = w ++ y → a = w ∧ x = y.
Proof.
  revert w. induction a as [|c a IH]; intros [|d w] Ha Hw Hx Hy E; simpl in *.
  - done.
  - apply andb_true_iff in Hw as [Hd _]. subst x. by rewrite (Hx d (w ++ y) eq_refl) in Hd.
  - apply andb_true_iff in Ha as [Hc _]. subst y. by rewrite (Hy c (a ++ x) eq_refl) in Hc.
  - apply andb_true_iff in Ha as [_ Ha]. apply andb_true_iff in Hw as [_ Hw].
    injection E as <- E. by destruct (IH w Ha Hw Hx Hy E) as [-> ->].
Qed.

(** *** Matches as transformations of the rest and the captures

    For patterns that do not look behind; [reads] composes. *)
Definition reads (r : regex) (s : jstr) (cs : list (nat * jstr)) (s' : jstr) (cs' : list (nat * jstr)) : Prop :=
  ∀ b, ∃ b', M r (MState b s cs) (MState b' s' cs').

Lemma reads_seq a b s cs s1 cs1 s2 cs2 :
  reads a s cs s1 cs1 → reads b s1 cs1 s2 cs2 → reads (a · b) s cs s2 cs2.
Proof.
  intros Ha Hb b0. destruct (Ha b0) as [b1 H1], (Hb b1) as [b2 H2]. exists b2. by econstructor.
Qed.

Lemma reads_lit w s cs : reads (rlit w) (w ++ s) cs s cs.
Proof. intros b. eexists. apply M_lit. by exists s. Qed.

Lemma reads_class p min max w s cs :
  within min max → forallb p w = true → min <= length w → within (length w) max →
  reads (RRep (RUnit p) min max) (w ++ s) cs s cs.
Proof. intros H1 H2 H3 H4 b. eexists. apply M_class; [done|]. by exists w, s. Qed.

Lemma reads_group i r w s cs cs' :
  reads r (w ++ s) cs s cs' → reads (RGroup i r) (w ++ s) cs s (set_cap i w cs').
Proof.
  intros H b. destruct (H b) as [b' HM]. exists b'. apply M_group_text. by exists w, (MState b' s cs').
Qed.

Lemma reads_alts ws w s cs : w ∈ ws → reads (ralts ws) (w ++ s) cs s cs.
Proof. intros Hw b. eexists. apply M_ralts. by exists w, s. Qed.

Lemma reads_backref i w s cs : map_get i cs = Some w → reads (RBackref i) (w ++ s) cs s cs.
Proof. intros Hi b. eexists. apply M_backref_iff. exists s. simpl. by rewrite Hi. Qed.

(** A repetition that reads one unit at a time. *)
Lemma reads_star r w s cs :
  groups r = [] → (∀ c t, c ∈ w → reads r (c :: t) cs t cs) → reads (rstar r) (w ++ s) cs s cs.
Proof.
  intros Hg Hr. induction w as [|c w IH]; intros b; [exists b; apply M_rep_stop|].
  destruct (Hr c (w ++ s)) with (b := b) as [b1 H1]; [left|].
  destruct (IH (fun d t Hd => Hr d t (list_elem_of_further _ _ _ Hd)) b1) as [b2 H2].
  exists b2. eapply M_rep_step; [done|rewrite Hg, reset_nil; exact H1|simpl; lia|exact H2].
Qed.

Lemma reads_unit p c t cs : p c = true → reads (RUnit p) (c :: t) cs t cs.
Proof. intros Hp b. eexists. apply M_unit_iff. by exists c, t. Qed.

Lemma reads_alt_l a b s cs s' cs' : reads a s cs s' cs' → reads (a <+> b) s cs s' cs'.
Proof. intros Ha b0. destruct (Ha b0) as [b1 H1]. exists b1. by apply M_alt_l. Qed.

Lemma reads_eol cs : reads REol [] cs [] cs.
Proof. intros b. exists b. by constructor. Qed.

Lemma exec_reads r s cs : reads r s [] [] cs → ∃ m, exec (RBol · r) s = Some m.
Proof. intros H. destruct (H []) as [b HM]. by apply exec_bol_complete in HM. Qed.

(** The converse reading of a match, without the text before it. *)
Definition MR (r : regex) (s : jstr) (cs : list (nat * jstr)) (s' : jstr) (cs' : list (nat * jstr)) : Prop :=
  ∃ b b', M r (MState b s cs) (MState b' s' cs').

Lemma exec_MR r s m : exec (RBol · r) s = Some m → ∃ s', MR r s [] s' (caps (m_end m)).
Proof. intros ([b s' cs] & HM & <-)%exec_bol_sound. by exists s', [], b. Qed.

Lemma MR_seq a b s cs s' cs' : MR (a · b) s cs s' cs' → ∃ s1 cs1, MR a s cs s1 cs1 ∧ MR b s1 cs1 s' cs'.
Proof.
  intros (b0 & b1 & ([b2 s1 cs1] & H1 & H2)%M_seq_iff). exists s1, cs1. split; [by exists b0, b2|by exists b2, b1].
Qed.

Lemma MR_alt a b s cs s' cs' : MR (RAlt a b) s cs s' cs' → MR a s cs s' cs' ∨ MR b s cs s' cs'.
Proof. intros (b0 & b1 & [H|H]%M_alt_iff); [left|right]; by exists b0, b1. Qed.

Lemma MR_lit w s cs s' cs' : MR (rlit w) s cs s' cs' → s = w ++ s' ∧ cs' = cs.
Proof. intros (b & b' & (x & E & [= -> -> ->])%M_lit). done. Qed.

Lemma MR_class p min max s cs s' cs' :
  within min max → MR (RRep (RUnit p) min max) s cs s' cs' →
  ∃ w, s = w ++ s' ∧ forallb p w = true ∧ min <= length w ∧ within (length w) max ∧ cs' = cs.
Proof. intros Hw (b & b' & HM). apply M_class in HM as (w & x & ? & ? & ? & ? & [= -> -> ->]); [|done]. by exists w. Qed.

Lemma MR_group i r s cs s' cs' :
  MR (RGroup i r) s cs s' cs' → ∃ w cs1, s = w ++ s' ∧ cs' = set_cap i w cs1 ∧ MR r s cs s' cs1.
Proof.
  intros (b & b' & (w & [b1 s1 c1] & HM & E & [= -> -> ->])%M_group_text). exists w, c1. split; [done|].
  split; [done|]. by exists b, b1.
Qed.

Lemma MR_group_class i p min max s cs s' cs' :
  within min max → MR (RGroup i (RRep (RUnit p) min max)) s cs s' cs' →
  ∃ w, s = w ++ s' ∧ forallb p w = true ∧ min <= length w ∧ within (length w) max ∧ cs' = set_cap i w cs.
Proof.
  intros Hw (w & c1 & E & -> & HM)%MR_group. apply MR_class in HM as (w' & E' & ? & ? & ? & ->); [|done].
  rewrite E in E'. apply app_inv_tail in E' as <-. by exists w.
Qed.

Lemma MR_group_alts i ws s cs s' cs' :
  MR (RGroup i (ralts ws)) s cs s' cs' → ∃ w, s = w ++ s' ∧ w ∈ ws ∧ cs' = set_cap i w cs.
Proof.
  intros (w & c1 & E & -> & (b & b' & (w' & x & ? & E' & [= -> -> ->])%M_ralts))%MR_group. simpl in E'.
  rewrite E in E'. apply app_inv_tail in E' as <-. by exists w.
Qed.

Lemma MR_backref i s cs s' cs' :
  MR (RBackref i) s cs s' cs' → s = default [] (map_get i cs) ++ s' ∧ cs' = cs.
Proof. intros (b & b' & (x & E & [= -> -> ->])%M_backref_iff). done. Qed.

Lemma MR_eol s cs s' cs' : MR REol s cs s' cs' → s = [] ∧ s' = [] ∧ cs' = cs.
Proof. intros (b & b' & [E [= -> -> ->]]%M_eol_iff). simpl in E. by subst. Qed.

(** A pattern without groups captures nothing. *)
Lemma M_no_groups r st st' : M r st st' → groups r = [] → caps st' = caps st.
Proof.
  induction 1 as [| |a b st st1 st2 _ IH1 _ IH2|a b st st1 _ IH|a b st st1 _ IH| | |
    r min max st st1 st2 _ _ IH1 _ _ IH2| | | | |]; simpl; intros Hg; try done.
  - apply app_nil in Hg as [Ha Hb]. by rewrite IH2, IH1.
  - apply app_nil in Hg as [Ha Hb]. by apply IH.
  - apply app_nil in Hg as [Ha Hb]. by apply IH.
  - rewrite IH2 by done. rewrite IH1 by done. by rewrite Hg, reset_nil.
Qed.

Lemma MR_no_groups r s cs s' cs' : groups r = [] → MR r s cs s' cs' → cs' = cs.
Proof. intros Hg (b & b' & HM). by apply M_no_groups in HM. Qed.

(** Reads off what a match found by [exec] says of the text and the captures. *)
Ltac MR_read :=
  repeat match goal with
  | H : MR (RSeq _ _) _ _ _ _ |- _ => apply MR_seq in H; destruct H as (? & ? & H & ?)
  | H : MR (rlit _) _ _ _ _ |- _ => apply MR_lit in H; destruct H as [H ?]
  | H : MR (RGroup _ (RRep (RUnit _) _ _)) _ _ _ _ |- _ =>
    apply MR_group_class in H; [destruct H as (? & H & ? & ? & _ & ?)|simpl; auto; lia]
  | H : MR (RGroup _ (ralts _)) _ _ _ _ |- _ => apply MR_group_alts in H; destruct H as (? & H & ? & ?)
  | H : MR (RGroup _ _) _ _ _ _ |- _ => apply MR_group in H; destruct H as (? & ? & ? & ? & H)
  | H : MR (RRep (RUnit _) _ _) _ _ _ _ |- _ =>
    apply MR_class in H; [destruct H as (? & H & ? & ? & _ & ?)|simpl; auto; lia]
  | H : MR (RBackref _) _ _ _ _ |- _ => apply MR_backref in H; destruct H as [H ?]
  | H : MR REol _ _ _ _ |- _ => apply MR_eol in H; destruct H as (? & ? & ?)
  end.

Ltac exec_read H :=
  let s' := fresh "s'" in let cs := fresh "cs" in let Hcaps := fresh "Hcaps" in
  apply exec_MR in H; destruct H as [s' H];
  match type of H with MR _ _ _ _ ?c => remember c as cs eqn:Hcaps end; MR_read; subst.

(** The units a pattern can consume. *)
Fixpoint units_in (p : N → bool) (r : regex) : Prop :=
  match r with
  | RUnit q => ∀ c, q c = true → p c = true
  | RSeq a b | RAlt a b => units_in p a ∧ units_in p b
  | RRep r _ _ | RGroup _ r => units_in p r
  | RBackref _ => False
  | REps | RBol | REol | RWordB => True
  end.

Lemma M_units p r st st' :
  M r st st' → units_in p r → ∃ w, rest st = w ++ rest st' ∧ forallb p w = true.
Proof.
  induction 1 as [|q st c s E Hc|a b st st1 st2 _ IH1 _ IH2|a b st st1 _ IH|a b st st1 _ IH| | |
    r min max st st1 st2 _ _ IH1 _ _ IH2| | | | |]; simpl; intros Hu; try (by exists []).
  - exists [c]. unfold advance. rewrite E. simpl. by rewrite (Hu c Hc).
  - destruct Hu as [Ha Hb]. destruct (IH1 Ha) as (w1 & -> & H1), (IH2 Hb) as (w2 & -> & H2).
    exists (w1 ++ w2). by rewrite <- app_assoc, forallb_app, H1, H2.
  - apply IH, Hu.
  - apply IH, Hu.
  - destruct (IH1 Hu) as (w1 & E1 & H1), (IH2 Hu) as (w2 & E2 & H2). simpl in E1.
    exists (w1 ++ w2). by rewrite E1, E2, <- app_assoc, forallb_app, H1, H2.
  - by apply IHM.
Qed.

Lemma units_lit p w : forallb p w = true → units_in p (rlit w).
Proof.
  induction w as [|c w IH]; [done|]. simpl. intros [Hc Hw]%andb_true_iff. split; [|auto].
  by intros d <-%N.eqb_eq.
Qed.

(** The pattern ends with [$]. *)
Fixpoint ends_eol (r : regex) : bool :=
  match r with RSeq _ b => ends_eol b | REol => true | _ => false end.

Lemma M_ends r st st' : M r st st' → ends_eol r = true → rest st' = [].
Proof. induction 1; simpl; intros; auto; done. Qed.

Lemma test_units p r s :
  test (RBol · r) s = true → ends_eol r = true → units_in p r → forallb p s = true.
Proof.
  intros (st & HM)%test_bol_M He Hu. pose proof (M_ends _ _ _ HM He) as Hr.
  apply M_units with (p := p) in HM as (w & Ew & Hw); [|done]. simpl in Ew. rewrite Hr, app_nil_r in Ew.
  by rewrite Ew.
Qed.
