(* ===== verification/JsValue.v ===== *)
(** * JavaScript values and numbers

    The values that cross the boundaries of the modelled code (JSON documents,
    API responses, untyped fields), and the [Number] operations the sources use.
    A number is an IEEE 754 binary64 value: the operations are those of
    [SpecFloat] at precision 53 and maximal exponent 1024, which round to
    nearest, ties to even, as ECMA-262 prescribes. *)

From S2P Require Import Prelude.
From Stdlib Require Export Floats.SpecFloat.

(** ** Numbers *)

Abbreviation num := spec_float.

#[global] Instance num_eq_dec : EqDecision num.
Proof. solve_decision. Defined.

Definition num_of_Z (z : Z) : num := binary_normalize 53 1024 z 0 false.
Definition num_add : num → num → num := SFadd 53 1024.
Definition num_sub : num → num → num := SFsub 53 1024.
Definition num_mul : num → num → num := SFmul 53 1024.
Definition num_div : num → num → num := SFdiv 53 1024.
Definition num_ltb : num → num → bool := SFltb.
Definition num_leb : num → num → bool := SFleb.
(** [===]: a NaN differs from itself, the two zeros are equal. *)
Definition num_eqb : num → num → bool := SFeqb.

Definition isNaN (x : num) : bool := match x with S754_nan => true | _ => false end.
Definition isFinite (x : num) : bool :=
  match x with S754_nan | S754_infinity _ => false | _ => true end.

(** [Boolean(x)] *)
Definition num_truthy (x : num) : bool :=
  match x with S754_nan | S754_zero _ => false | _ => true end.

(** The integer part of a finite number, towards zero. *)
Definition num_trunc (x : num) : Z :=
  match x with
  | S754_finite s m e =>
    let a := (if 0 <=? e then Zpos m * 2 ^ e else Zpos m / 2 ^ (- e))%Z in
    if s then (- a)%Z else a
  | _ => 0%Z
  end.

Definition isInteger (x : num) : bool :=
  match x with
  | S754_zero _ => true
  | S754_finite _ m e => ((0 <=? e) || (Zpos m mod 2 ^ (- e) =? 0))%Z
  | _ => false
  end.

Definition isSafeInteger (x : num) : bool :=
  isInteger x && (Z.abs (num_trunc x) <=? 9007199254740991)%Z.

(** [Math.min(...xs)] *)
Definition math_min2 (a b : num) : num :=
  match a, b with
  | S754_nan, _ | _, S754_nan => S754_nan
  | S754_zero s, S754_zero s' => S754_zero (s || s')
  | _, _ => if num_ltb b a then b else a
  end.

Definition math_min (xs : list num) : num := foldl math_min2 (S754_infinity false) xs.

(** [Math.max(a, b)] *)
Definition math_max2 (a b : num) : num :=
  match a, b with
  | S754_nan, _ | _, S754_nan => S754_nan
  | S754_zero s, S754_zero s' => S754_zero (s && s')
  | _, _ => if num_ltb a b then b else a
  end.

(** ** Calls that may throw *)

Inductive outcome (A : Type) := Throws | Ret (a : A).
Arguments Throws {A}.
Arguments Ret {A} a.

Definition obind {A B} (o : outcome A) (k : A → outcome B) : outcome B :=
  match o with Throws => Throws | Ret a => k a end.
Notation "x ⇐ o ; k" := (obind o (fun x => k)) (at level 100, o at next level, k at level 200, right associativity).

(** [l.map(f)] for a function that may throw *)
Fixpoint omapM {A B} (f : A → outcome B) (l : list A) : outcome (list B) :=
  match l with
  | [] => Ret []
  | x :: l' => y ⇐ f x; ys ⇐ omapM f l'; Ret (y :: ys)
  end.

(** ** Values *)

#[warnings="-register-all"]
Inductive jsval :=
  | JUndefined
  | JNull
  | JBool (b : bool)
  | JNum (n : num)
  | JStr (s : jstr)
  | JArr (l : list jsval)
  | JObj (fields : list (jstr * jsval)).   (* own enumerable properties, in order *)

Section jsval_ind.
Context (P : jsval → Prop).
Hypothesis HU : P JUndefined.
Hypothesis HN : P JNull.
Hypothesis HB : ∀ b, P (JBool b).
Hypothesis Hnum : ∀ n, P (JNum n).
Hypothesis HS : ∀ s, P (JStr s).
Hypothesis HA : ∀ l, Forall P l → P (JArr l).
Hypothesis HO : ∀ l, Forall (fun kv => P kv.2) l → P (JObj l).

Fixpoint jsval_ind' (v : jsval) : P v :=
  match v with
  | JUndefined => HU
  | JNull => HN
  | JBool b => HB b
  | JNum n => Hnum n
  | JStr s => HS s
  | JArr l => HA l ((fix go l := match l return Forall P l with
                     | [] => Forall_nil_2 _
                     | x :: l' => Forall_cons_2 _ _ _ (jsval_ind' x) (go l')
                     end) l)
  | JObj l => HO l ((fix go l := match l return Forall (fun kv => P kv.2) l with
                     | [] => Forall_nil_2 _
                     | x :: l' => Forall_cons_2 _ _ _ (jsval_ind' x.2) (go l')
                     end) l)
  end.
End jsval_ind.

(** [Boolean(v)] *)
Definition val_truthy (v : jsval) : bool :=
  match v with
  | JUndefined | JNull => false
  | JBool b => b
  | JNum n => num_truthy n
  | JStr s => truthy s
  | JArr _ | JObj _ => true
  end.

(** [typeof v === 'object'] for a non-null value *)
Definition is_objectlike (v : jsval) : bool :=
  match v with JArr _ | JObj _ => true | _ => false end.

(** [v[k]] for a named own property; arrays and primitives have none of the
    names the sources ask for. *)
Definition get (k : jstr) (v : jsval) : jsval :=
  match v with
  | JObj fs => default JUndefined (map_get k fs)
  | _ => JUndefined
  end.

(** The members that every object inherits. *)
Definition OBJECT_PROTOTYPE : list jstr :=
  ["constructor"; "__defineGetter__"; "__defineSetter__"; "hasOwnProperty"; "__lookupGetter__"; "__lookupSetter__";
   "isPrototypeOf"; "propertyIsEnumerable"; "toString"; "valueOf"; "__proto__"; "toLocaleString"].

(** Nesting depth of a value: the fuel that following properties can use. *)
Fixpoint depth (v : jsval) : nat :=
  match v with
  | JArr l => S (foldr (fun x n => depth x `max` n) 0 l)
  | JObj l => S (foldr (fun kv n => depth kv.2 `max` n) 0 l)
  | _ => 0
  end.

(** [a ?? b] *)
Definition coalesce (a b : jsval) : jsval := match a with JUndefined | JNull => b | _ => a end.

Definition as_string (v : jsval) : option jstr := match v with JStr s => Some s | _ => None end.
Definition as_number (v : jsval) : option num := match v with JNum n => Some n | _ => None end.

(** [ToInt32]: the value of [z | 0]. *)
Definition to_int32 (z : Z) : Z :=
  let m := (z mod 2 ^ 32)%Z in if (m <? 2 ^ 31)%Z then m else (m - 2 ^ 32)%Z.

(** ** Lemmas *)

Lemma get_depth k v : depth (get k v) < depth v ∨ get k v = JUndefined.
Proof.
  destruct v as [| | | | | |fs]; auto. simpl.
  induction fs as [|[k' v] fs IH]; simpl; [auto|].
  case_decide; simpl; [left; lia|]. destruct IH as [IH|IH]; [left; lia|auto].
Qed.

Lemma math_min2_pick a b :
  isNaN a = false → isNaN b = false → num_truthy a = true ∨ num_truthy b = true →
  math_min2 a b = a ∨ math_min2 a b = b.
Proof.
  intros. unfold math_min2. destruct a, b; simpl in *; try done; try (case_match; auto); naive_solver.
Qed.

(** A safe integer denotes an integer of magnitude below 2^53. *)
Lemma isSafeInteger_bound x : isSafeInteger x = true → (Z.abs (num_trunc x) < 2 ^ 53)%Z.
Proof. unfold isSafeInteger. intros H. bool_hyps. change (2 ^ 53)%Z with 9007199254740992%Z. lia. Qed.

(** *** Whole numbers are exact

    A positive integer below 2^53 is represented with a mantissa of 53 digits,
    without rounding; products that stay below 2^53 are exact too. *)

Lemma digits2_log2 m : Zpos (digits2_pos m) = (Z.log2 (Zpos m) + 1)%Z.
Proof.
  assert (∀ p, digits2_pos p = Pos.size p) as H.
  { induction p as [p IH|p IH|]; simpl; by rewrite ?IH. }
  destruct m; simpl; rewrite ?H, ?Pos2Z.inj_succ; lia.
Qed.

Lemma iter_xO m d : Zpos (Pos.iter xO m d) = (Zpos m * 2 ^ Zpos d)%Z.
Proof.
  induction d as [|d IH] using Pos.peano_ind; [simpl Pos.iter; lia|].
  rewrite Pos.iter_succ, Pos2Z.inj_succ, Z.pow_succ_r by lia.
  change (Zpos (Pos.iter xO m d)~0) with (2 * Zpos (Pos.iter xO m d))%Z. lia.
Qed.

Lemma iter_pos_iter {A} (f : A → A) n x : iter_pos f n x = Pos.iter f x n.
Proof.
  revert x. induction n as [n IH|n IH|]; intros x; simpl; rewrite ?IH; [|done..].
  rewrite <- !Pos.iter_swap. done.
Qed.

(** Shifting out zero bits loses nothing. *)
Lemma shr_zeros n M m :
  Zpos M = (Zpos m * 2 ^ Zpos n)%Z →
  iter_pos shr_1 n (Build_shr_record (Zpos M) false false) = Build_shr_record (Zpos m) false false.
Proof.
  rewrite iter_pos_iter. revert M. induction n as [|n IH] using Pos.peano_ind; intros M HM.
  - assert (M = m~0)%positive as -> by (apply Pos2Z.inj; rewrite HM; lia). done.
  - rewrite Pos2Z.inj_succ, Z.pow_succ_r in HM by lia.
    assert (∃ M', M = (M'~0)%positive ∧ Zpos M' = (Zpos m * 2 ^ Zpos n)%Z) as (M' & -> & HM').
    { assert (0 < Zpos m * 2 ^ Zpos n)%Z by (apply Z.mul_pos_pos; lia).
      exists (Z.to_pos (Zpos m * 2 ^ Zpos n)). rewrite Z2Pos.id by done. split; [|done].
      apply Pos2Z.inj. rewrite HM, (Pos2Z.inj_xO (Z.to_pos _)), Z2Pos.id by done. lia. }
    rewrite Pos.iter_succ_r. simpl. by apply IH.
Qed.

(** A value with an exact 53-digit representation is not rounded. *)
Lemma round_exact s M E m e :
  Zpos M = (Zpos m * 2 ^ (e - E))%Z → (E ≤ e)%Z → Zpos (digits2_pos m) = 53%Z →
  (-1074 ≤ e ≤ 971)%Z →
  binary_round_aux 53 1024 s (Zpos M) E loc_Exact = S754_finite s m e.
Proof.
  intros HM HE Hd He.
  assert (Hfe : fexp 53 1024 (53 + e) = e) by (unfold fexp, emin; lia).
  assert (Hdig : (Zpos (digits2_pos M) + E = 53 + e)%Z).
  { rewrite digits2_log2, HM in *. rewrite Z.log2_mul_pow2 by lia. lia. }
  assert (Hshr : shr_fexp 53 1024 (Zpos M) E loc_Exact =
    (Build_shr_record (Zpos m) false false, e)).
  { unfold shr_fexp. cbn [Zdigits2 shr_record_of_loc]. rewrite Hdig, Hfe.
    destruct (e - E)%Z as [|n|n] eqn:En; [|simpl|lia].
    - assert (E = e) as -> by lia. simpl in HM. assert (M = m) as -> by lia. done.
    - rewrite (shr_zeros n M m) by done. f_equal. lia. }
  unfold binary_round_aux. rewrite Hshr. cbn [loc_of_shr_record round_nearest_even shr_m].
  assert (Hshr2 : shr_fexp 53 1024 (Zpos m) e loc_Exact =
    (Build_shr_record (Zpos m) false false, e)).
  { unfold shr_fexp. cbn [Zdigits2 shr_record_of_loc]. by rewrite Hd, Hfe, Z.sub_diag. }
  rewrite Hshr2. cbn [shr_m]. by rewrite (proj2 (Z.leb_le _ _)) by lia.
Qed.

(** The representation of a positive integer below 2^53. *)
Definition int_digits (z : Z) : Z := (Z.log2 z + 1)%Z.
Definition int_mantissa (z : Z) : positive := Z.to_pos (z * 2 ^ (53 - int_digits z)).

Lemma int_bounds z : (0 < z < 2 ^ 53)%Z → (1 ≤ int_digits z ≤ 53)%Z.
Proof.
  intros Hz. unfold int_digits. pose proof (Z.log2_nonneg z).
  assert (Z.log2 z < 53)%Z by (apply Z.log2_lt_pow2; lia). lia.
Qed.

Lemma int_mantissa_spec z :
  (0 < z < 2 ^ 53)%Z → Zpos (int_mantissa z) = (z * 2 ^ (53 - int_digits z))%Z ∧
  Zpos (digits2_pos (int_mantissa z)) = 53%Z.
Proof.
  intros Hz. pose proof (int_bounds z Hz).
  assert (0 < z * 2 ^ (53 - int_digits z))%Z by (apply Z.mul_pos_pos; [lia|]; apply Z.pow_pos_nonneg; lia).
  assert (Zpos (int_mantissa z) = z * 2 ^ (53 - int_digits z))%Z as Hm by (by apply Z2Pos.id).
  split; [done|]. rewrite digits2_log2, Hm, Z.log2_mul_pow2 by lia. unfold int_digits. lia.
Qed.

Lemma num_of_Z_rep z :
  (0 < z < 2 ^ 53)%Z → num_of_Z z = S754_finite false (int_mantissa z) (int_digits z - 53).
Proof.
  intros Hz. pose proof (int_bounds z Hz). destruct (int_mantissa_spec z Hz) as [Hm Hd].
  destruct z as [|p|p]; [lia| |lia]. unfold num_of_Z, binary_normalize, binary_round.
  rewrite digits2_log2. fold (int_digits (Zpos p)).
  assert (fexp 53 1024 (int_digits (Zpos p) + 0) = int_digits (Zpos p) - 53)%Z as Hf
    by (unfold fexp, emin; lia).
  rewrite Hf. unfold shl_align. rewrite Z.sub_0_r.
  destruct (int_digits (Zpos p) - 53)%Z as [|n|n] eqn:En; [|lia|].
  - apply round_exact; [|lia|done|lia]. rewrite Hm.
    replace (53 - int_digits (Zpos p))%Z with 0%Z by lia. simpl. lia.
  - apply round_exact; [|lia|done|lia]. rewrite iter_xO, Hm, Z.sub_diag, Z.mul_1_r.
    f_equal. f_equal. lia.
Qed.

Lemma num_mul_exact a b :
  (0 < a)%Z → (0 < b)%Z → (a * b < 2 ^ 53)%Z → num_mul (num_of_Z a) (num_of_Z b) = num_of_Z (a * b).
Proof.
  intros Ha Hb Hab. assert (0 < a * b)%Z by lia.
  assert (a < 2 ^ 53 ∧ b < 2 ^ 53)%Z as [Ha' Hb'] by nia.
  rewrite !num_of_Z_rep by lia. cbn [num_mul SFmul xorb].
  destruct (int_mantissa_spec a) as [Ma _]; [lia|]. destruct (int_mantissa_spec b) as [Mb _]; [lia|].
  destruct (int_mantissa_spec (a * b)) as [Mab Dab]; [lia|].
  pose proof (int_bounds a ltac:(lia)). pose proof (int_bounds b ltac:(lia)).
  pose proof (int_bounds (a * b) ltac:(lia)).
  assert (int_digits a + int_digits b - 1 ≤ int_digits (a * b))%Z.
  { unfold int_digits. pose proof (Z.log2_mul_below a b ltac:(lia) ltac:(lia)). lia. }
  apply round_exact; [|lia|done|lia].
  rewrite Pos2Z.inj_mul, Ma, Mb, Mab.
  transitivity (a * b * (2 ^ (53 - int_digits a) * 2 ^ (53 - int_digits b)))%Z; [ring|].
  rewrite <- (Z.mul_assoc (a * b)), <- !Z.pow_add_r by lia. f_equal. f_equal. lia.
Qed.

Lemma num_of_Z_leb a b :
  (0 < a < 2 ^ 53)%Z → (0 < b < 2 ^ 53)%Z → num_leb (num_of_Z a) (num_of_Z b) = (a <=? b)%Z.
Proof.
  intros Ha Hb. rewrite !num_of_Z_rep by done. unfold num_leb, SFleb, SFcompare.
  change (PosDef.Pos.compare_cont Eq) with Pos.compare.
  destruct (int_mantissa_spec a Ha) as [Ma _], (int_mantissa_spec b Hb) as [Mb _].
  pose proof (int_bounds a Ha). pose proof (int_bounds b Hb).
  destruct (Z.log2_spec a ltac:(lia)) as [La Ua], (Z.log2_spec b ltac:(lia)) as [Lb Ub].
  destruct (Z.compare_spec (int_digits a - 53) (int_digits b - 53)) as [E|E|E].
  - assert (E' : int_digits a = int_digits b) by lia.
    assert (0 < 2 ^ (53 - int_digits b))%Z by (apply Z.pow_pos_nonneg; lia).
    rewrite E' in Ma.
    destruct (Pos.compare_spec (int_mantissa a) (int_mantissa b)) as [E2|E2|E2];
      [apply (f_equal Zpos) in E2|apply Pos2Z.pos_lt_pos in E2|apply Pos2Z.pos_lt_pos in E2];
      rewrite Ma, Mb in E2; symmetry; rewrite ?Z.leb_le, ?Z.leb_gt; nia.
  - symmetry. apply Z.leb_le. unfold int_digits in E.
    assert (2 ^ Z.succ (Z.log2 a) ≤ 2 ^ Z.log2 b)%Z by (apply Z.pow_le_mono_r; lia). lia.
  - symmetry. apply Z.leb_gt. unfold int_digits in E.
    assert (2 ^ Z.succ (Z.log2 b) ≤ 2 ^ Z.log2 a)%Z by (apply Z.pow_le_mono_r; lia). lia.
Qed.

Lemma num_of_Z_safe z :
  (0 < z < 2 ^ 53)%Z → isSafeInteger (num_of_Z z) = true ∧ num_trunc (num_of_Z z) = z.
Proof.
  intros Hz. rewrite num_of_Z_rep by done. pose proof (int_bounds z Hz).
  destruct (int_mantissa_spec z Hz) as [Hm _].
  assert (Htr : num_trunc (S754_finite false (int_mantissa z) (int_digits z - 53)) = z).
  { cbn [num_trunc]. rewrite Hm. destruct (0 <=? int_digits z - 53)%Z eqn:E; bool_hyps.
    - assert (int_digits z = 53)%Z as -> by lia. simpl. lia.
    - replace (- (int_digits z - 53))%Z with (53 - int_digits z)%Z by lia.
      apply Z.div_mul. apply Z.pow_nonzero; lia. }
  split; [|done]. unfold isSafeInteger. rewrite Htr. apply andb_true_iff. split.
  - cbn [isInteger]. apply orb_true_iff. right. rewrite Hm.
    replace (- (int_digits z - 53))%Z with (53 - int_digits z)%Z by lia.
    by rewrite Z_mod_mult.
  - apply Z.leb_le. lia.
Qed.

(** *** Zero and the order of whole numbers *)

Lemma num_of_Z_0 : num_of_Z 0 = S754_zero false.
Proof. done. Qed.

Lemma num_of_Z_leb_nonneg a b :
  (0 ≤ a < 2 ^ 53)%Z → (0 ≤ b < 2 ^ 53)%Z → num_leb (num_of_Z a) (num_of_Z b) = (a <=? b)%Z.
Proof.
  intros Ha Hb. destruct (decide (a = 0)%Z) as [->|], (decide (b = 0)%Z) as [->|].
  - done.
  - rewrite (num_of_Z_rep b), num_of_Z_0 by lia. symmetry. apply Z.leb_le. lia.
  - rewrite (num_of_Z_rep a), num_of_Z_0 by lia. symmetry. apply Z.leb_gt. lia.
  - apply num_of_Z_leb; lia.
Qed.

Lemma num_ltb_leb a b : isNaN a = false → isNaN b = false → num_ltb a b = negb (num_leb b a).
Proof.
  intros Ha Hb. unfold num_ltb, num_leb, SFltb, SFleb.
  destruct a as [[]|[]| |[] m e], b as [[]|[]| |[] m' e']; try done; simpl;
    change (PosDef.Pos.compare_cont Eq) with Pos.compare;
    rewrite (Z.compare_antisym e' e), ?(Pos.compare_antisym m' m);
    destruct (e' ?= e)%Z; simpl; try done; by destruct (m' ?= m)%positive.
Qed.

Lemma num_leb_trans a b c : num_leb a b = true → num_leb b c = true → num_leb a c = true.
Proof.
  unfold num_leb, SFleb, SFcompare.
  destruct a as [|[]| |[] m1 e1], b as [|[]| |[] m2 e2], c as [|[]| |[] m3 e3]; try done.
  all: destruct (Z.compare_spec e1 e2), (Z.compare_spec e2 e3), (Z.compare_spec e1 e3); try done; try lia.
  all: change (Pos.compare_cont Eq) with Pos.compare.
  all: destruct (Pos.compare_spec m1 m2), (Pos.compare_spec m2 m3), (Pos.compare_spec m1 m3); try done; lia.
Qed.

Lemma num_of_Z_not_nan z : (0 ≤ z < 2 ^ 53)%Z → isNaN (num_of_Z z) = false.
Proof. intros Hz. destruct (decide (z = 0)%Z) as [->|]; [done|]. by rewrite num_of_Z_rep by lia. Qed.

Lemma num_of_Z_ltb a b :
  (0 ≤ a < 2 ^ 53)%Z → (0 ≤ b < 2 ^ 53)%Z → num_ltb (num_of_Z a) (num_of_Z b) = (a <? b)%Z.
Proof.
  intros Ha Hb. rewrite num_ltb_leb, num_of_Z_leb_nonneg by auto using num_of_Z_not_nan.
  by rewrite Z.leb_antisym, negb_involutive.
Qed.

Lemma num_eqb_leb a b : num_eqb a b = num_leb a b && num_leb b a.
Proof.
  unfold num_eqb, num_leb, SFeqb, SFleb.
  destruct a as [[]|[]| |[] m e], b as [[]|[]| |[] m' e']; try done; simpl;
    change (PosDef.Pos.compare_cont Eq) with Pos.compare;
    rewrite (Z.compare_antisym e' e), ?(Pos.compare_antisym m' m);
    destruct (e' ?= e)%Z; simpl; try done; by destruct (m' ?= m)%positive.
Qed.

Lemma num_of_Z_eqb a b :
  (0 ≤ a < 2 ^ 53)%Z → (0 ≤ b < 2 ^ 53)%Z → num_eqb (num_of_Z a) (num_of_Z b) = (a =? b)%Z.
Proof.
  intros Ha Hb. rewrite num_eqb_leb, !num_of_Z_leb_nonneg by done. apply eq_iff_eq_true.
  rewrite andb_true_iff, !Z.leb_le, Z.eqb_eq. lia.
Qed.

(** *** Large integers are not safe

    An integer of 2^53 or more is rounded to a multiple of two of at least
    2^53, or to infinity. *)

Lemma shr_1_half r : (0 ≤ shr_m r)%Z → shr_m (shr_1 r) = (shr_m r / 2)%Z.
Proof.
  destruct r as [[|[p|p|]|p] r s]; simpl; intros; try done; try lia.
  - apply (Z.div_unique _ 2 _ 1); lia.
  - apply (Z.div_unique _ 2 _ 0); lia.
Qed.

Lemma shr_iter_div n r : (0 ≤ shr_m r)%Z → shr_m (iter_pos shr_1 n r) = (shr_m r / 2 ^ Zpos n)%Z.
Proof.
  rewrite iter_pos_iter. intros Hr. induction n as [|n IH] using Pos.peano_ind; [by apply shr_1_half|].
  assert (0 < 2 ^ Zpos n)%Z by (apply Z.pow_pos_nonneg; lia).
  rewrite Pos.iter_succ, shr_1_half, IH by (rewrite IH; apply Z.div_pos; lia).
  rewrite Pos2Z.inj_succ, Z.pow_succ_r, Z.div_div by lia. f_equal. lia.
Qed.

Lemma shr_m_of_loc m l : shr_m (shr_record_of_loc m l) = m.
Proof. by destruct l as [|[]]. Qed.

Lemma shr_fexp_large M E l :
  (2 ^ 52 ≤ Zpos M)%Z → (-1074 ≤ E)%Z →
  let '(r, e) := shr_fexp 53 1024 (Zpos M) E l in
  (2 ^ 52 ≤ shr_m r ∧ E ≤ e ∧ (2 ^ 53 ≤ Zpos M → E < e))%Z.
Proof.
  intros HM HE. unfold shr_fexp. cbn [Zdigits2]. rewrite digits2_log2.
  assert (Hlog : (52 ≤ Z.log2 (Zpos M))%Z) by (apply Z.log2_le_pow2; lia).
  assert (Hf : (fexp 53 1024 (Z.log2 (Zpos M) + 1 + E) - E = Z.log2 (Zpos M) - 52)%Z)
    by (unfold fexp, emin; lia).
  rewrite Hf. destruct (Z.log2_spec (Zpos M) ltac:(lia)) as [Hlo Hhi].
  destruct (Z.log2 (Zpos M) - 52)%Z as [|n|n] eqn:En; [| |lia]; unfold shr.
  - rewrite shr_m_of_loc. assert (Z.log2 (Zpos M) = 52)%Z as Hl by lia. rewrite Hl in Hhi. simpl in *. lia.
  - rewrite shr_iter_div, shr_m_of_loc by (rewrite shr_m_of_loc; lia). split; [|lia].
    apply Z.div_le_lower_bound; [apply Z.pow_pos_nonneg; lia|]. rewrite <- Z.pow_add_r by lia.
    by replace (Zpos n + 52)%Z with (Z.log2 (Zpos M)) by lia.
Qed.

Lemma round_nearest_even_ge m l : (m ≤ round_nearest_even m l)%Z.
Proof. destruct l as [|[]]; simpl; [lia|destruct (Z.even m); lia|lia|lia]. Qed.

Lemma round_large M E l :
  (2 ^ 53 ≤ Zpos M)%Z → (0 ≤ E)%Z →
  match binary_round_aux 53 1024 false (Zpos M) E l with
  | S754_infinity _ => True
  | S754_finite _ m e => (2 ^ 52 ≤ Zpos m ∧ 1 ≤ e)%Z
  | _ => False
  end.
Proof.
  intros HM HE. unfold binary_round_aux.
  pose proof (shr_fexp_large M E l ltac:(lia) ltac:(lia)) as H1.
  destruct (shr_fexp 53 1024 (Zpos M) E l) as [r1 e1]. destruct H1 as (H1 & _ & He1). specialize (He1 HM).
  pose proof (round_nearest_even_ge (shr_m r1) (loc_of_shr_record r1)) as H2.
  destruct (round_nearest_even (shr_m r1) (loc_of_shr_record r1)) as [|q|q]; [lia| |lia].
  pose proof (shr_fexp_large q e1 loc_Exact ltac:(lia) ltac:(lia)) as H3.
  destruct (shr_fexp 53 1024 (Zpos q) e1 loc_Exact) as [r2 e2]. destruct H3 as (H3 & He2 & _).
  destruct (shr_m r2) as [|m|m]; [lia| |lia]. destruct (e2 <=? 1024 - 53)%Z; [|done]. lia.
Qed.

Lemma num_of_Z_large z : (2 ^ 53 ≤ z)%Z → isSafeInteger (num_of_Z z) = false.
Proof.
  intros Hz. destruct z as [|p|p]; [lia| |lia]. unfold num_of_Z, binary_normalize, binary_round.
  rewrite digits2_log2. assert (Hl : (53 ≤ Z.log2 (Zpos p))%Z) by (apply Z.log2_le_pow2; lia).
  assert (Hf : (fexp 53 1024 (Z.log2 (Zpos p) + 1 + 0) = Z.log2 (Zpos p) - 52)%Z)
    by (unfold fexp, emin; lia).
  rewrite Hf. unfold shl_align. rewrite Z.sub_0_r.
  destruct (Z.log2 (Zpos p) - 52)%Z as [|n|n] eqn:En; [lia| |lia].
  pose proof (round_large p 0 loc_Exact Hz ltac:(lia)) as H.
  destruct (binary_round_aux 53 1024 false (Zpos p) 0 loc_Exact) as [| | |s m e]; [done..|].
  destruct H as [Hm He]. unfold isSafeInteger. cbn [isInteger num_trunc].
  rewrite (proj2 (Z.leb_le 0 e)) by lia. simpl. apply Z.leb_gt.
  assert (2 ^ 1 ≤ 2 ^ e)%Z by (apply Z.pow_le_mono_r; lia).
  destruct s; rewrite ?Z.abs_opp, Z.abs_eq by lia; nia.
Qed.

(** *** Quotients are close

    The quotient of two integers below 2^53 differs from the true one by at most
    one part in 2^52. *)

(** Rounding a mantissa of 53 or 54 digits keeps it or takes the next one. *)
Lemma round_close q E l :
  (2 ^ 52 ≤ q < 2 ^ 54)%Z → (-1000 ≤ E ≤ 900)%Z →
  ∃ m e k, binary_round_aux 53 1024 false q E l = S754_finite false m e ∧ (E ≤ e)%Z ∧ (0 ≤ k ≤ 1)%Z ∧
    (2 ^ 52 ≤ q / 2 ^ k)%Z ∧
    (q / 2 ^ k * 2 ^ k ≤ Zpos m * 2 ^ (e - E) ≤ (q / 2 ^ k + 1) * 2 ^ k)%Z.
Proof.
  intros Hq HE.
  (* one normalisation step *)
  assert (Hshr : ∀ z E' l', (2 ^ 52 ≤ z < 2 ^ 54)%Z → (-1000 ≤ E' ≤ 901)%Z →
    ∃ k, (0 ≤ k ≤ 1)%Z ∧ (shr_fexp 53 1024 z E' l').2 = (E' + k)%Z ∧
      shr_m (shr_fexp 53 1024 z E' l').1 = (z / 2 ^ k)%Z ∧ (2 ^ 52 ≤ z / 2 ^ k < 2 ^ 53)%Z).
  { intros z E' l' Hz HE'. destruct z as [|p|p]; [lia| |lia].
    unfold shr_fexp. cbn [Zdigits2]. rewrite digits2_log2.
    assert (Hlog : (52 ≤ Z.log2 (Zpos p) ≤ 53)%Z).
    { split; [apply Z.log2_le_pow2; lia|]. apply Z.lt_succ_r, Z.log2_lt_pow2; lia. }
    replace (fexp 53 1024 (Z.log2 (Zpos p) + 1 + E') - E')%Z with (Z.log2 (Zpos p) - 52)%Z
      by (unfold fexp, emin; lia).
    destruct (Z.log2_spec (Zpos p) ltac:(lia)) as [Hlo Hhi].
    assert (Z.log2 (Zpos p) = 52 ∨ Z.log2 (Zpos p) = 53)%Z as [El|El] by lia; rewrite El in *.
    - exists 0%Z. change (52 - 52)%Z with 0%Z. cbn [shr fst snd]. rewrite Z.pow_0_r, Z.div_1_r, shr_m_of_loc. repeat split; lia.
    - exists 1%Z. change (53 - 52)%Z with 1%Z. cbn [shr fst snd].
      assert (Hh : shr_m (iter_pos shr_1 1 (shr_record_of_loc (Zpos p) l')) = (Zpos p / 2 ^ 1)%Z).
      { rewrite shr_iter_div; rewrite shr_m_of_loc; [done|lia]. }
      rewrite Hh. split; [lia|]. split; [done|]. split; [done|]. change (2 ^ 1)%Z with 2%Z.
      split; [apply Z.div_le_lower_bound; lia|apply Z.div_lt_upper_bound; lia]. }
  unfold binary_round_aux. destruct (Hshr q E l Hq ltac:(lia)) as (k & Hk & He & Hm & Hr).
  destruct (shr_fexp 53 1024 q E l) as [r1 e1]. cbn [fst snd] in *. subst e1. rewrite Hm.
  set (m1 := (q / 2 ^ k)%Z) in *.
  assert (H2 : (m1 ≤ round_nearest_even m1 (loc_of_shr_record r1) ≤ m1 + 1)%Z).
  { split; [apply round_nearest_even_ge|]. destruct (loc_of_shr_record r1) as [|[]]; cbn; [lia| |lia..].
    destruct (Z.even m1); lia. }
  set (m2 := round_nearest_even m1 (loc_of_shr_record r1)) in *.
  destruct (Hshr m2 (E + k)%Z loc_Exact ltac:(lia) ltac:(lia)) as (k2 & Hk2 & He2 & Hm2 & Hr2).
  assert (Hexact : (m2 / 2 ^ k2 * 2 ^ k2 = m2)%Z).
  { assert (k2 = 0 ∨ k2 = 1)%Z as [->| ->] by lia; [rewrite Z.pow_0_r, Z.div_1_r; lia|].
    change (2 ^ 1)%Z with 2%Z in *. pose proof (Z.mul_div_le m2 2 ltac:(lia)).
    assert (m2 = 2 ^ 53)%Z as -> by lia. done. }
  destruct (shr_fexp 53 1024 m2 (E + k) loc_Exact) as [r2 e2]. cbn [fst snd] in *. subst e2. rewrite Hm2.
  destruct (m2 / 2 ^ k2)%Z as [|m|m] eqn:Em; [lia| |lia].
  exists m, (E + k + k2)%Z, k. rewrite (proj2 (Z.leb_le (E + k + k2) (1024 - 53))) by lia.
  split; [done|]. split; [lia|]. split; [lia|]. split; [lia|].
  replace (E + k + k2 - E)%Z with (k2 + k)%Z by lia. rewrite Z.pow_add_r, Z.mul_assoc, Hexact by lia.
  assert (0 < 2 ^ k)%Z by (apply Z.pow_pos_nonneg; lia). nia.
Qed.

Lemma num_div_close x y :
  (0 < x < 2 ^ 53)%Z → (0 < y < 2 ^ 53)%Z →
  ∃ m e, num_div (num_of_Z x) (num_of_Z y) = S754_finite false m e ∧ (-110 ≤ e)%Z ∧
    (Z.abs (Zpos m * 2 ^ (e + 110) * y - x * 2 ^ 110) * 2 ^ 52 ≤ x * 2 ^ 110)%Z.
Proof.
  intros Hx Hy. rewrite !num_of_Z_rep by lia. pose proof (int_bounds x Hx) as Bx. pose proof (int_bounds y Hy) as By.
  destruct (int_mantissa_spec x Hx) as [Mx Dx]. destruct (int_mantissa_spec y Hy) as [My Dy].
  assert (Rx : (2 ^ 52 ≤ Zpos (int_mantissa x) < 2 ^ 53)%Z).
  { rewrite digits2_log2 in Dx. destruct (Z.log2_spec (Zpos (int_mantissa x)) ltac:(lia)).
    replace (Z.log2 (Zpos (int_mantissa x))) with 52%Z in * by lia. done. }
  assert (Ry : (2 ^ 52 ≤ Zpos (int_mantissa y) < 2 ^ 53)%Z).
  { rewrite digits2_log2 in Dy. destruct (Z.log2_spec (Zpos (int_mantissa y)) ltac:(lia)).
    replace (Z.log2 (Zpos (int_mantissa y))) with 52%Z in * by lia. done. }
  set (mx := int_mantissa x) in *. set (my := int_mantissa y) in *.
  set (dx := int_digits x) in *. set (dy := int_digits y) in *.
  unfold num_div, SFdiv, SFdiv_core_binary. cbn [Zdigits2 xorb]. rewrite Dx, Dy.
  replace (Z.min (fexp 53 1024 (53 + (dx - 53) - (53 + (dy - 53)))) (dx - 53 - (dy - 53)))%Z
    with (dx - dy - 53)%Z by (unfold fexp, emin; lia).
  replace (dx - 53 - (dy - 53) - (dx - dy - 53))%Z with 53%Z by lia.
  rewrite Z.shiftl_mul_pow2 by lia. set (A := (Zpos mx * 2 ^ 53)%Z).
  pose proof (Z_div_mod_eq_full A (Zpos my)) as Hdm. pose proof (Z.mod_pos_bound A (Zpos my) ltac:(lia)) as Hmod.
  unfold Z.div, Z.modulo in Hdm, Hmod. destruct (Z.div_eucl A (Zpos my)) as [q r]. cbn iota in Hdm, Hmod.
  assert (Hq : (2 ^ 52 ≤ q < 2 ^ 54)%Z).
  { assert (Zpos my * 2 ^ 52 ≤ A ∧ A < Zpos my * 2 ^ 54)%Z as [? ?] by (unfold A; lia).
    split; [apply Z.lt_succ_r|]; apply (Z.mul_lt_mono_pos_l (Zpos my)); lia. }
  destruct (round_close q (dx - dy - 53) (new_location (Zpos my) r) Hq ltac:(lia))
    as (m & e & k & -> & He & Hk & Hq1 & HW).
  exists m, e. split; [done|]. split; [lia|].
  set (u := (2 ^ k)%Z) in *. assert (Hu : (0 < u)%Z) by (apply Z.pow_pos_nonneg; lia).
  set (q1 := (q / u)%Z) in *. assert (Hqu : (q1 * u ≤ q < (q1 + 1) * u)%Z).
  { pose proof (Z_div_mod_eq_full q u). pose proof (Z.mod_pos_bound q u Hu). unfold q1. lia. }
  set (W := (Zpos m * 2 ^ (e - (dx - dy - 53)))%Z) in *.
  assert (HA : (Zpos my * (q1 * u) ≤ A < Zpos my * ((q1 + 1) * u))%Z).
  { split; [etrans; [apply (Z.mul_le_mono_nonneg_l _ q); lia|lia]|].
    apply (Z.lt_le_trans _ (Zpos my * (q + 1))); [lia|]. apply Z.mul_le_mono_nonneg_l; lia. }
  assert (HmW : (Zpos my * (q1 * u) ≤ Zpos my * W ≤ Zpos my * ((q1 + 1) * u))%Z)
    by (split; apply Z.mul_le_mono_nonneg_l; lia).
  assert (Hstep : (Zpos my * ((q1 + 1) * u) = Zpos my * (q1 * u) + Zpos my * u)%Z) by ring.
  assert (Hfar : (Zpos my * u * 2 ^ 52 ≤ Zpos my * (q1 * u))%Z).
  { rewrite <- Z.mul_assoc, (Z.mul_comm q1). apply Z.mul_le_mono_nonneg_l; [lia|].
    apply Z.mul_le_mono_nonneg_l; lia. }
  assert (Hclose : (Z.abs (Zpos my * W - A) * 2 ^ 52 ≤ A)%Z).
  { assert (Z.abs (Zpos my * W - A) ≤ Zpos my * u)%Z by lia. lia. }
  assert (HP : (Zpos m * 2 ^ (e + 110) = W * 2 ^ (dx - dy + 57))%Z).
  { unfold W. rewrite <- Z.mul_assoc, <- Z.pow_add_r by lia. do 2 f_equal. lia. }
  rewrite HP. set (P := (2 ^ (dx - dy + 57))%Z). set (T := (2 ^ (53 - dy))%Z) in *.
  assert (0 < P)%Z by (apply Z.pow_pos_nonneg; lia). assert (0 < T)%Z by (apply Z.pow_pos_nonneg; lia).
  assert (HAP : (A * P = x * 2 ^ 110 * T)%Z).
  { unfold A, P, T. rewrite Mx. rewrite <- !Z.mul_assoc, <- !Z.pow_add_r by lia. do 2 f_equal. lia. }
  apply (Z.mul_le_mono_pos_r _ _ T); [done|]. rewrite <- HAP.
  assert (Hd : ((W * P * y - x * 2 ^ 110) * T = P * (Zpos my * W - A))%Z) by (rewrite My; lia).
  transitivity (P * (Z.abs (Zpos my * W - A) * 2 ^ 52))%Z.
  - apply Z.eq_le_incl.
    assert (Habs : (P * Z.abs (Zpos my * W - A) = Z.abs (W * P * y - x * 2 ^ 110) * T)%Z).
    { apply (f_equal Z.abs) in Hd. rewrite !Z.abs_mul, (Z.abs_eq T), (Z.abs_eq P) in Hd by lia. by rewrite Hd. }
    rewrite Z.mul_assoc, Habs. ring.
  - rewrite (Z.mul_comm A P). apply Z.mul_le_mono_nonneg_l; [lia|exact Hclose].
Qed.

(** *** Sums of whole numbers *)

Lemma shl_align_value m e e' : (e' ≤ e)%Z → Zpos (fst (shl_align m e e')) = (Zpos m * 2 ^ (e - e'))%Z.
Proof.
  intros He. unfold shl_align. destruct (e' - e)%Z as [|d|d] eqn:E; [|lia|].
  - replace (e - e')%Z with 0%Z by lia. cbn [fst]. lia.
  - cbn [fst]. rewrite iter_xO. by replace (e - e')%Z with (Zpos d) by lia.
Qed.

Lemma num_add_exact a b :
  (0 ≤ a)%Z → (0 ≤ b)%Z → (a + b < 2 ^ 53)%Z → num_add (num_of_Z a) (num_of_Z b) = num_of_Z (a + b).
Proof.
  intros Ha Hb Hab. destruct (decide (a = 0)%Z) as [->|Ha0].
  { rewrite num_of_Z_0, Z.add_0_l. destruct (decide (b = 0)%Z) as [->|]; [done|]. by rewrite num_of_Z_rep by lia. }
  destruct (decide (b = 0)%Z) as [->|Hb0]; [rewrite num_of_Z_0, Z.add_0_r; by rewrite num_of_Z_rep by lia|].
  assert (Hlog : ∀ x, (0 < x ≤ a + b)%Z → (int_digits x ≤ int_digits (a + b))%Z).
  { intros x Hx. unfold int_digits. pose proof (Z.log2_le_mono x (a + b) ltac:(lia)). lia. }
  pose proof (Hlog a ltac:(lia)). pose proof (Hlog b ltac:(lia)).
  pose proof (int_bounds a ltac:(lia)). pose proof (int_bounds b ltac:(lia)). pose proof (int_bounds (a + b) ltac:(lia)).
  destruct (int_mantissa_spec a) as [Ma _]; [lia|]. destruct (int_mantissa_spec b) as [Mb _]; [lia|].
  destruct (int_mantissa_spec (a + b)) as [Mab Dab]; [lia|].
  rewrite !num_of_Z_rep by lia. cbn [num_add SFadd cond_Zopp].
  set (ez := Z.min (int_digits a - 53) (int_digits b - 53)).
  assert (Hsum : (Zpos (fst (shl_align (int_mantissa a) (int_digits a - 53) ez)) +
                  Zpos (fst (shl_align (int_mantissa b) (int_digits b - 53) ez)) = (a + b) * 2 ^ (- ez))%Z).
  { rewrite !shl_align_value, Ma, Mb by lia. rewrite <- !Z.mul_assoc, <- !Z.pow_add_r by lia.
    rewrite Z.mul_add_distr_r. f_equal; f_equal; f_equal; lia. }
  assert (0 < (a + b) * 2 ^ (- ez))%Z by (apply Z.mul_pos_pos; [lia|]; apply Z.pow_pos_nonneg; lia).
  unfold num_add, SFadd. cbn [cond_Zopp]. fold ez. rewrite Hsum.
  destruct ((a + b) * 2 ^ (- ez))%Z as [|M|M] eqn:EM; [lia| |lia]. cbn [binary_normalize]. unfold binary_round.
  assert (Hd : (Zpos (digits2_pos M) + ez = int_digits (a + b))%Z).
  { rewrite digits2_log2, <- EM, Z.log2_mul_pow2 by lia. unfold int_digits. lia. }
  assert (Hf : fexp 53 1024 (Zpos (digits2_pos M) + ez) = (int_digits (a + b) - 53)%Z) by (rewrite Hd; unfold fexp, emin; lia).
  rewrite Hf. unfold shl_align. assert (Hr : binary_round_aux 53 1024 false (Zpos M) ez loc_Exact =
    S754_finite false (int_mantissa (a + b)) (int_digits (a + b) - 53)).
  { apply round_exact; [|lia|done|lia]. rewrite <- EM, Mab, <- Z.mul_assoc, <- Z.pow_add_r by lia. f_equal. f_equal. lia. }
  destruct (int_digits (a + b) - 53 - ez)%Z eqn:En; [exact Hr|exact Hr|lia].
Qed.

(** Whole numbers that are not negative are added exactly while the sum is below 2^53. *)
Lemma num_sum_exact zs : ∀ a,
  (0 ≤ a)%Z → Forall (fun z => 0 ≤ z)%Z zs → (a + zsum (fun z => z) zs < 2 ^ 53)%Z →
  foldl num_add (num_of_Z a) (map num_of_Z zs) = num_of_Z (a + zsum (fun z => z) zs).
Proof.
  induction zs as [|z zs IH]; intros a Ha Hz Hs; [cbn; by rewrite Z.add_0_r|].
  apply Forall_cons in Hz as [Hz Hzs]. cbn [map foldl zsum foldr] in *. fold (zsum (fun z => z) zs) in *.
  assert (0 ≤ zsum (fun z => z) zs)%Z by (clear -Hzs; induction Hzs; cbn; [lia|unfold zsum in *; lia]).
  rewrite num_add_exact, IH by (done || lia). f_equal. lia.
Qed.

(** *** 32-bit wrap-around *)

Lemma to_int32_spec z : ∃ k, to_int32 z = (z + k * 2 ^ 32)%Z ∧ (- 2 ^ 31 ≤ to_int32 z < 2 ^ 31)%Z.
Proof.
  unfold to_int32. pose proof (Z.mod_pos_bound z (2 ^ 32) ltac:(lia)). pose proof (Z.div_mod z (2 ^ 32) ltac:(lia)).
  destruct (Z.ltb_spec (z mod 2 ^ 32) (2 ^ 31)).
  - exists (- (z / 2 ^ 32))%Z. lia.
  - exists (- (z / 2 ^ 32) - 1)%Z. lia.
Qed.

Lemma to_int32_eq a b : to_int32 a = to_int32 b ↔ (a mod 2 ^ 32 = b mod 2 ^ 32)%Z.
Proof.
  split; [|unfold to_int32; by intros ->]. destruct (to_int32_spec a) as (i & -> & _), (to_int32_spec b) as (j & -> & _).
  intros E%(f_equal (fun x => x mod 2 ^ 32)%Z). by rewrite !Z_mod_plus_full in E.
Qed.
