(* ===== verification/JsText.v ===== *)
(** * Numbers and JSON as text

    The conversions between numbers, values and text that ECMA-262 prescribes and
    the sources use: [Number(s)], [String(x)], [JSON.parse] and the quoting of
    strings by [JSON.stringify]. *)

From S2P Require Import Prelude JsValue.

(** ** Decimal numerals *)

Fixpoint span (p : N → bool) (s : jstr) : jstr * jstr :=
  match s with
  | [] => ([], [])
  | c :: s' => if p c then let '(a, b) := span p s' in (c :: a, b) else ([], s)
  end.

(** The number nearest to [±m * 10^e], ties to even.  Beyond 10^309 every value
    is infinite and below 10^-324 it is zero, so the powers stay small. *)
Definition num_of_decimal (neg : bool) (m : N) (e : Z) : num :=
  match m with
  | N0 => S754_zero neg
  | Npos p =>
    let digits := Z.of_nat (length (js_of_N m)) in
    if (309 <=? digits - 1 + e)%Z then S754_infinity neg
    else if (digits + e <=? -324)%Z then S754_zero neg
    else if (0 <=? e)%Z then
      match (Zpos p * 10 ^ e)%Z with
      | Zpos q => binary_round 53 1024 neg q 0
      | _ => S754_zero neg
      end
    else
      let '(q, e', l) := SFdiv_core_binary 53 1024 (Zpos p) 0 (10 ^ (- e)) 0 in
      binary_round_aux 53 1024 neg q e' l
  end.

(** An optional exponent part, which must end the text. *)
Definition exponent_part (s : jstr) : option Z :=
  match s with
  | [] => Some 0%Z
  | c :: s' =>
    if (c =? 101)%N || (c =? 69)%N then
      let '(neg, ds) := match s' with
                        | 43%N :: r => (false, r)
                        | 45%N :: r => (true, r)
                        | _ => (false, s')
                        end in
      if truthy ds && forallb is_digit ds
      then Some ((if neg then -1 else 1) * Z.of_N (parse_digits 10 ds))%Z else None
    else None
  end.

(** StrUnsignedDecimalLiteral without [Infinity]: mantissa and exponent. *)
Definition unsigned_decimal (s : jstr) : option (N * Z) :=
  let '(ip, r) := span is_digit s in
  let '(fp, r) := match r with
                  | 46%N :: r' => span is_digit r'
                  | _ => ([], r)
                  end in
  if truthy (ip ++ fp)
  then (fun e => (parse_digits 10 (ip ++ fp), (e - Z.of_nat (length fp))%Z)) <$> exponent_part r
  else None.

Definition in_base (base : N) (c : N) : bool :=
  (if base =? 16 then is_hex c else in_range 48 (47 + base) c)%N.

(** [Number(s)] for a string *)
Definition string_to_number (s : jstr) : num :=
  let t := trim s in
  let prefixed base r := if truthy r && forallb (in_base base) r
                         then num_of_Z (Z.of_N (parse_digits base r)) else S754_nan in
  let signed neg r :=
    if r === "Infinity" then S754_infinity neg
    else match unsigned_decimal r with
         | Some (m, e) => num_of_decimal neg m e
         | None => S754_nan
         end in
  match t with
  | [] => S754_zero false
  | 48%N :: 120%N :: r | 48%N :: 88%N :: r => prefixed 16%N r
  | 48%N :: 111%N :: r | 48%N :: 79%N :: r => prefixed 8%N r
  | 48%N :: 98%N :: r | 48%N :: 66%N :: r => prefixed 2%N r
  | 43%N :: r => signed false r
  | 45%N :: r => signed true r
  | _ => signed false t
  end.

(** ** Printing numbers

    Number::toString: the shortest digits [s] with [s * 10^(n-k)] rounding to the
    number, and among those the closest. *)

(** A positive finite number as a fraction. *)
Definition fraction (m : positive) (e : Z) : Z * Z :=
  if (0 <=? e)%Z then (Zpos m * 2 ^ e, 1)%Z else (Zpos m, 2 ^ (- e))%Z.

(** [n] with [10^(n-1) <= a/b < 10^n], from a first guess below it. *)
Fixpoint decimal_point (fuel : nat) (a b n : Z) : Z :=
  match fuel with
  | O => n
  | S f =>
    let above := if (0 <=? n)%Z then (b * 10 ^ n <=? a)%Z else (b <=? a * 10 ^ (- n))%Z in
    if above then decimal_point f a b (n + 1) else n
  end.

(** The candidates with [k] digits: the quotient and its successor, the closer
    first. *)
Definition digit_candidates (a b n k : Z) : list Z :=
  let '(a, b) := if (0 <=? k - n)%Z then (a * 10 ^ (k - n), b)%Z else (a, b * 10 ^ (n - k))%Z in
  let q := (a / b)%Z in
  let r := (a mod b)%Z in
  if (2 * r <? b)%Z then [q; (q + 1)%Z]
  else if (2 * r =? b)%Z then (if Z.even q then [q; (q + 1)%Z] else [(q + 1)%Z; q])
  else [(q + 1)%Z; q].

Fixpoint shortest (fuel : nat) (x : num) (a b n k : Z) : Z * Z :=
  let good s := bool_decide (num_of_decimal false (Z.to_N s) (n - k) = x) in
  match List.find good (digit_candidates a b n k), fuel with
  | Some s, _ => (s, k)
  | None, O => (hd 0%Z (digit_candidates a b n k), k)
  | None, S f => shortest f x a b n (k + 1)
  end.

(** Digits [s] (without trailing zeros) with the point after [n] of them. *)
Definition format_digits (s : jstr) (n : Z) : jstr :=
  let k := Z.of_nat (length s) in
  if (k <=? n)%Z && (n <=? 21)%Z then s ++ replicate (Z.to_nat (n - k)) 48%N
  else if (0 <? n)%Z && (n <=? 21)%Z then take (Z.to_nat n) s ++ "." ++ drop (Z.to_nat n) s
  else if (-6 <? n)%Z && (n <=? 0)%Z then "0." ++ replicate (Z.to_nat (- n)) 48%N ++ s
  else
    let e := (n - 1)%Z in
    let etext := (if (e <? 0)%Z then "e-" else "e+") ++ js_of_N (Z.to_N (Z.abs e)) in
    match s with
    | [c] => c :: etext
    | c :: s' => c :: "." ++ s' ++ etext
    | [] => etext
    end.

Definition strip_zeros (s : jstr) : jstr :=
  reverse ((fix go s := match s with 48%N :: s' => go s' | _ => s end) (reverse s)).

(** [String(x)] for a number *)
Definition number_to_string (x : num) : jstr :=
  match x with
  | S754_nan => "NaN"
  | S754_zero _ => "0"
  | S754_infinity s => if s then "-Infinity" else "Infinity"
  | S754_finite s m e =>
    let '(a, b) := fraction m e in
    let guess := ((Z.log2 a - Z.log2 b) * 30103 / 100000 - 1)%Z in
    let n := decimal_point 5 a b guess in
    let '(ds, k) := shortest 16 (S754_finite false m e) a b n 1 in
    let digits := js_of_N (Z.to_N ds) in
    (* a successor with one digit more moves the point *)
    let n := (n + (Z.of_nat (length digits) - k))%Z in
    (if s then "-" else []) ++ format_digits (strip_zeros digits) n
  end.

Example print_numbers :
  map number_to_string [num_of_decimal false 15 (-1); num_of_decimal false 1 21; num_of_decimal false 1 (-7);
    num_of_decimal true 3 0; num_of_decimal false 123456789 (-3); num_of_decimal false 5 (-324);
    num_of_decimal false 17976931348623157 292; num_of_decimal false 100 0; num_of_decimal false 1 (-1)]
  = ["1.5"; "1e+21"; "1e-7"; "-3"; "123456.789"; "5e-324"; "1.7976931348623157e+308"; "100"; "0.1"].
Proof. by vm_compute. Qed.

Example add_prints : number_to_string (num_add (num_of_decimal false 1 (-1)) (num_of_decimal false 2 (-1)))
  = "0.30000000000000004".
Proof. by vm_compute. Qed.

(** [x.toFixed(f)] for [f <= 100]: the integer [n] for which [n / 10^f] is closest
    to the number, the larger of two; its digits with a point before the last [f]. *)
Definition fixed_digits (n : N) (f : nat) : jstr :=
  let m := js_of_N n in
  if f =? 0 then m
  else
    let m := if length m <=? f then replicate (f + 1 - length m) 48%N ++ m else m in
    take (length m - f) m ++ "." ++ drop (length m - f) m.

Definition to_fixed (x : num) (f : nat) : jstr :=
  match x with
  | S754_nan => "NaN"
  | S754_zero _ => fixed_digits 0 f
  | S754_infinity s => if s then "-Infinity" else "Infinity"
  | S754_finite s m e =>
    let '(a, b) := fraction m e in
    (if s then "-" else []) ++
    (if (10 ^ 21 * b <=? a)%Z then number_to_string (S754_finite false m e)
     else fixed_digits (Z.to_N ((2 * a * 10 ^ Z.of_nat f + b) / (2 * b))) f)
  end.

Example fixed_numbers :
  [to_fixed (num_of_decimal false 1005 (-3)) 2; to_fixed (num_of_decimal false 25 (-1)) 0;
   to_fixed (num_of_decimal true 15 (-1)) 0; to_fixed (num_of_decimal false 123 (-2)) 3; to_fixed (num_of_Z 0) 2;
   to_fixed (num_of_decimal false 1 21) 2]
  = ["1.00"; "3"; "-2"; "1.230"; "0.00"; "1e+21"]%js.
Proof. by vm_compute. Qed.

Example read_numbers :
  map string_to_number [" 0x1F "; "1e3"; ".5"; "5."; "."; "1-2"; ""; "-Infinity"; "1e999"; "1e-999"]
  = [num_of_Z 31; num_of_Z 1000; num_of_decimal false 5 (-1); num_of_Z 5; S754_nan; S754_nan; num_of_Z 0;
     S754_infinity true; S754_infinity false; S754_zero false].
Proof. by vm_compute. Qed.

(** ** JSON *)

Definition json_ws (c : N) : bool := existsb (N.eqb c) [32; 9; 10; 13]%N.

Definition skip_ws (s : jstr) : jstr := (span json_ws s).2.

Definition hex4 (s : jstr) : option (N * jstr) :=
  match s with
  | a :: b :: c :: d :: r =>
    if forallb is_hex [a; b; c; d] then Some (parse_digits 16 [a; b; c; d], r) else None
  | _ => None
  end.

(** The rest of a string literal, after its opening quote. *)
Fixpoint json_string (s : jstr) : option (jstr * jstr) :=
  let cons_ c (o : option (jstr * jstr)) := (fun tr => (c :: tr.1, tr.2)) <$> o in
  match s with
  | [] => None
  | c :: r =>
    if (c =? 34)%N then Some ([], r)
    else if (c =? 92)%N then
      match r with
      | 34%N :: r' => cons_ 34%N (json_string r')
      | 92%N :: r' => cons_ 92%N (json_string r')
      | 47%N :: r' => cons_ 47%N (json_string r')
      | 98%N :: r' => cons_ 8%N (json_string r')
      | 102%N :: r' => cons_ 12%N (json_string r')
      | 110%N :: r' => cons_ 10%N (json_string r')
      | 114%N :: r' => cons_ 13%N (json_string r')
      | 116%N :: r' => cons_ 9%N (json_string r')
      | 117%N :: a :: b :: c :: d :: r' =>
        if forallb is_hex [a; b; c; d] then cons_ (parse_digits 16 [a; b; c; d]) (json_string r') else None
      | _ => None
      end
    else if (c <? 32)%N then None
    else cons_ c (json_string r)
  end.

(** The rest after the unit [k]. *)
Definition take_unit (k : N) (s : jstr) : option jstr :=
  match s with c :: r => if (c =? k)%N then Some r else None | [] => None end.

(** A JSON number: no leading zero, digits after a point or an exponent. *)
Definition json_number (s : jstr) : option (num * jstr) :=
  let '(neg, s) := match take_unit 45 s with Some r => (true, r) | None => (false, s) end in
  let '(ip, r) := span is_digit s in
  let int_ok := match ip with [] => false | [_] => true | c :: _ => negb (c =? 48)%N end in
  let '(frac_ok, (fp, r)) := match take_unit 46 r with
                             | Some r' => let fr := span is_digit r' in (truthy fr.1, fr)
                             | None => (true, ([], r))
                             end in
  let value e := num_of_decimal neg (parse_digits 10 (ip ++ fp)) (e - Z.of_nat (length fp)) in
  if negb int_ok || negb frac_ok then None
  else
    match (match take_unit 101 r with Some r' => Some r' | None => take_unit 69 r end) with
    | Some r' =>
      let '(eneg, r') := match take_unit 43 r' with
                         | Some r'' => (false, r'')
                         | None => match take_unit 45 r' with Some r'' => (true, r'') | None => (false, r') end
                         end in
      let '(ds, r') := span is_digit r' in
      if truthy ds
      then Some (value ((if eneg then -1 else 1) * Z.of_N (parse_digits 10 ds))%Z, r')
      else None
    | None => Some (value 0%Z, r)
    end.

(** [Number.parseFloat(s)]: the longest prefix that is a decimal literal. *)
Definition parseFloat (s : jstr) : num :=
  let s := trimStart s in
  let '(neg, s) := match take_unit 45 s with
                   | Some r => (true, r)
                   | None => match take_unit 43 s with Some r => (false, r) | None => (false, s) end
                   end in
  if startsWith "Infinity" s then S754_infinity neg
  else
    let '(ip, r) := span is_digit s in
    let '(fp, r) := match take_unit 46 r with Some r' => span is_digit r' | None => ([], r) end in
    if negb (truthy (ip ++ fp)) then S754_nan
    else
      let e :=
        match (match take_unit 101 r with Some r' => Some r' | None => take_unit 69 r end) with
        | Some r' =>
          let '(eneg, r') := match take_unit 43 r' with
                             | Some r'' => (false, r'')
                             | None => match take_unit 45 r' with Some r'' => (true, r'') | None => (false, r') end
                             end in
          ((if eneg then -1 else 1) * Z.of_N (parse_digits 10 (span is_digit r').1))%Z
        | None => 0%Z
        end in
      num_of_decimal neg (parse_digits 10 (ip ++ fp)) (e - Z.of_nat (length fp)).

Example parse_floats :
  map parseFloat [" 1.5x"; "-.5e2"; "1e"; "e1"; "3."; "Infinityx"; "1.2.3"]
  = [num_of_decimal false 15 (-1); num_of_Z (-50); num_of_Z 1; S754_nan; num_of_Z 3; S754_infinity false;
     num_of_decimal false 12 (-1)].
Proof. by vm_compute. Qed.

(** Own properties in their order: array indices first, ascending, then the other
    keys in the order of their creation. *)
Definition array_index (k : jstr) : option N :=
  let n := parse_digits 10 k in
  if forallb is_digit k && (js_of_N n === k) && (n <? 4294967295)%N then Some n else None.

(** [o[k] = v] for an own property *)
Fixpoint obj_set {V} (k : jstr) (v : V) (fs : list (jstr * V)) : list (jstr * V) :=
  match fs with
  | [] => [(k, v)]
  | (k', v') :: fs' =>
    if k === k' then (k', v) :: fs'
    else match array_index k, array_index k' with
         | Some n, Some m => if (n <? m)%N then (k, v) :: fs else (k', v') :: obj_set k v fs'
         | Some _, None => (k, v) :: fs
         | None, _ => (k', v') :: obj_set k v fs'
         end
  end.

(** A value, the rest of an array and the rest of an object.  Every second call
    consumes a unit, so twice the length of the text is fuel enough. *)
Fixpoint json_value (fuel : nat) (s : jstr) : option (jsval * jstr) :=
  match fuel with
  | O => None
  | S f =>
    match skip_ws s with
    | 34%N :: r => (fun tr => (JStr tr.1, tr.2)) <$> json_string r
    | 91%N :: r => match skip_ws r with
                   | 93%N :: r' => Some (JArr [], r')
                   | _ => json_elements f [] r
                   end
    | 123%N :: r => match skip_ws r with
                    | 125%N :: r' => Some (JObj [], r')
                    | _ => json_members f [] r
                    end
    | s' =>
      if startsWith "null" s' then Some (JNull, drop 4 s')
      else if startsWith "true" s' then Some (JBool true, drop 4 s')
      else if startsWith "false" s' then Some (JBool false, drop 5 s')
      else (fun nr => (JNum nr.1, nr.2)) <$> json_number s'
    end
  end
with json_elements (fuel : nat) (acc : list jsval) (s : jstr) : option (jsval * jstr) :=
  match fuel with
  | O => None
  | S f =>
    match json_value f s with
    | None => None
    | Some (v, r) =>
      match skip_ws r with
      | 44%N :: r' => json_elements f (acc ++ [v]) r'
      | 93%N :: r' => Some (JArr (acc ++ [v]), r')
      | _ => None
      end
    end
  end
with json_members (fuel : nat) (acc : list (jstr * jsval)) (s : jstr) : option (jsval * jstr) :=
  match fuel with
  | O => None
  | S f =>
    match skip_ws s with
    | 34%N :: r =>
      match json_string r with
      | None => None
      | Some (k, r) =>
        match skip_ws r with
        | 58%N :: r =>
          match json_value f r with
          | None => None
          | Some (v, r) =>
            match skip_ws r with
            | 44%N :: r' => json_members f (obj_set k v acc) r'
            | 125%N :: r' => Some (JObj (obj_set k v acc), r')
            | _ => None
            end
          end
        | _ => None
        end
      end
    | _ => None
    end
  end.

(** [JSON.parse(s)]; [None] is the thrown [SyntaxError]. *)
Definition JSON_parse (s : jstr) : option jsval :=
  match json_value (2 * S (length s)) s with
  | Some (v, r) => if truthy (skip_ws r) then None else Some v
  | None => None
  end.

(** *** Quoting *)

Definition unicode_escape (c : N) : jstr := "\u" ++ padStart 4 48 (toString16 c).

(** QuoteJSONString without the quotes: lone surrogates are escaped. *)
Fixpoint quote_body (s : jstr) : jstr :=
  match s with
  | [] => []
  | c :: s' =>
    if (c =? 34)%N then "\" ++ 34%N :: quote_body s'
    else if (c =? 92)%N then "\\" ++ quote_body s'
    else if (c =? 8)%N then "\b" ++ quote_body s'
    else if (c =? 12)%N then "\f" ++ quote_body s'
    else if (c =? 10)%N then "\n" ++ quote_body s'
    else if (c =? 13)%N then "\r" ++ quote_body s'
    else if (c =? 9)%N then "\t" ++ quote_body s'
    else if (c <? 32)%N then unicode_escape c ++ quote_body s'
    else if in_range 0xD800 0xDBFF c then
      match s' with
      | d :: s'' =>
        if in_range 0xDC00 0xDFFF d then c :: d :: quote_body s''
        else unicode_escape c ++ quote_body s'
      | [] => unicode_escape c
      end
    else if in_range 0xDC00 0xDFFF c then unicode_escape c ++ quote_body s'
    else c :: quote_body s'
  end.

(** [JSON.stringify(s)] for a string *)
Definition JSON_quote (s : jstr) : jstr := 34%N :: quote_body s ++ [34%N].

(** [JSON.stringify(v, null, gap)] at the indentation [ind]; [None] is [undefined].
    Members without a value are left out and elements without one are [null]. *)
Definition newline (gap ind : jstr) : jstr := if truthy gap then 10%N :: ind else [].
Definition colon (gap : jstr) : jstr := if truthy gap then ": " else ":".

Definition block (gap ind open close : jstr) (items : list jstr) : jstr :=
  match items with
  | [] => open ++ close
  | _ => open ++ newline gap (ind ++ gap) ++ join ("," ++ newline gap (ind ++ gap)) items ++ newline gap ind ++ close
  end.

Fixpoint stringify (gap ind : jstr) (v : jsval) : option jstr :=
  match v with
  | JUndefined => None
  | JNull => Some "null"
  | JBool b => Some (if b then "true" else "false")
  | JNum n => Some (if isFinite n then number_to_string n else "null")
  | JStr s => Some (JSON_quote s)
  | JArr l => Some (block gap ind "[" "]" (map (fun x => default "null" (stringify gap (ind ++ gap) x)) l))
  | JObj fs =>
    Some (block gap ind "{" "}" (concat (map (fun kv =>
      match stringify gap (ind ++ gap) kv.2 with
      | Some t => [JSON_quote kv.1 ++ colon gap ++ t]
      | None => []
      end) fs)))
  end.

(** [JSON.stringify(v, null, 2)] and [JSON.stringify(v)] *)
Definition JSON_stringify : jsval → option jstr := stringify "  " [].
Definition JSON_compact : jsval → option jstr := stringify [] [].

(** [String(v)] *)
Fixpoint value_to_string (v : jsval) : jstr :=
  match v with
  | JUndefined => "undefined"
  | JNull => "null"
  | JBool b => if b then "true" else "false"
  | JNum n => number_to_string n
  | JStr s => s
  | JArr l => join "," (map (fun x => match x with JNull | JUndefined => [] | _ => value_to_string x end) l)
  | JObj _ => "[object Object]"
  end.

(** [Number(v)]: an array is read through its text, an object gives [NaN]. *)
Definition to_number (v : jsval) : num :=
  match v with
  | JUndefined | JObj _ => S754_nan
  | JNull => S754_zero false
  | JBool b => num_of_Z (if b then 1 else 0)
  | JNum n => n
  | JStr s => string_to_number s
  | JArr _ => string_to_number (value_to_string v)
  end.

Definition v_example : jsval :=
  JObj [([97%N], JArr [JNum (num_of_decimal false 15 (-1)); JNull; JBool true; JStr [34; 10; 20013]%N])].

Example parse_json :
  let q := [34%N] in
  JSON_parse ("{ " ++ q ++ "a" ++ q ++ " : [1.5, null,true, " ++ q ++ "\" ++ q ++ "\n\u4e2d" ++ q ++ "] } ")
  = Some v_example ∧
  JSON_parse "[1,]" = None ∧ JSON_parse "01" = None ∧ JSON_parse "-0" = Some (JNum (S754_zero true)).
Proof. by vm_compute. Qed.

(** *** Lemmas *)

Lemma span_app p a s :
  forallb p a = true → (∀ c s', s = c :: s' → p c = false) → span p (a ++ s) = (a, s).
Proof.
  intros Ha Hs. induction a as [|c a IH]; simpl in *.
  - destruct s as [|c s]; [done|]. simpl. by rewrite (Hs c s eq_refl).
  - apply andb_true_iff in Ha as [-> Ha]. by rewrite IH.
Qed.

Lemma json_string_plain c r :
  c ≠ 34%N → c ≠ 92%N → (32 <= c)%N →
  json_string (c :: r) = (fun tr => (c :: tr.1, tr.2)) <$> json_string r.
Proof.
  intros H1 H2 H3. cbn [json_string].
  by rewrite (proj2 (N.ltb_ge c 32)), (proj2 (N.eqb_neq c 34)), (proj2 (N.eqb_neq c 92)).
Qed.

Lemma json_string_escape c r :
  (c < 65536)%N →
  json_string (unicode_escape c ++ r) = (fun tr => (c :: tr.1, tr.2)) <$> json_string r.
Proof.
  intros Hc. destruct (toString16_spec c Hc) as (Hp & Hh & Hl).
  destruct (padStart_spec 4 (toString16 c)) as (Pp & Pl & Ph); [lia|]. specialize (Ph Hh).
  rewrite Hp in Pp. unfold unicode_escape. revert Pp Pl Ph. generalize (padStart 4 48 (toString16 c)).
  intros [|a [|b [|d [|e [|? ?]]]]] Pp Pl Ph; try done.
  change (("\u" ++ [a; b; d; e]) ++ r) with (92%N :: 117%N :: a :: b :: d :: e :: r).
  cbn [json_string]. rewrite Ph, Pp. done.
Qed.

Lemma quote_body_cons c s :
  quote_body (c :: s) =
    if (c =? 34)%N then 92%N :: 34%N :: quote_body s
    else if (c =? 92)%N then 92%N :: 92%N :: quote_body s
    else if (c =? 8)%N then 92%N :: 98%N :: quote_body s
    else if (c =? 12)%N then 92%N :: 102%N :: quote_body s
    else if (c =? 10)%N then 92%N :: 110%N :: quote_body s
    else if (c =? 13)%N then 92%N :: 114%N :: quote_body s
    else if (c =? 9)%N then 92%N :: 116%N :: quote_body s
    else if (c <? 32)%N then unicode_escape c ++ quote_body s
    else if in_range 0xD800 0xDBFF c then
      match s with
      | d :: s'' =>
        if in_range 0xDC00 0xDFFF d then c :: d :: quote_body s''
        else unicode_escape c ++ quote_body s
      | [] => unicode_escape c
      end
    else if in_range 0xDC00 0xDFFF c then unicode_escape c ++ quote_body s
    else c :: quote_body s.
Proof. done. Qed.

(** Reading a quoted string gives the string back, whatever its units. *)
Lemma json_string_quote s r :
  Forall (fun u => u < 65536)%N s → json_string (quote_body s ++ 34%N :: r) = Some (s, r).
Proof.
  remember (length s) as n eqn:Hn. revert s Hn. induction n as [n IH] using lt_wf_ind. intros s -> Hs.
  destruct s as [|c s]; [done|]. apply Forall_cons in Hs as [Hc Hs].
  assert (IHs : json_string (quote_body s ++ 34%N :: r) = Some (s, r)) by (eapply IH; [|done|done]; simpl; lia).
  rewrite quote_body_cons.
  repeat match goal with |- context [if (c =? ?k)%N then _ else _] =>
    destruct (N.eqb_spec c k); [subst; cbn [app json_string]; by rewrite IHs|] end.
  destruct (N.ltb_spec c 32) as [Hlt|Hge];
    [rewrite <- app_assoc, json_string_escape, IHs by done; done|].
  destruct (in_range 0xD800 0xDBFF c) eqn:Eh.
  - destruct s as [|d s].
    + rewrite <- (app_nil_r (unicode_escape c)), <- app_assoc, json_string_escape by done. done.
    + destruct (in_range 0xDC00 0xDFFF d) eqn:El.
      * apply Forall_cons in Hs as [Hd Hs]. unfold in_range in El. bool_hyps.
        cbn [app]. rewrite !json_string_plain by lia. rewrite (IH (length s)); [done|simpl; lia|done|done].
      * rewrite <- app_assoc, json_string_escape, IHs by done. done.
  - destruct (in_range 0xDC00 0xDFFF c) eqn:El;
      [rewrite <- app_assoc, json_string_escape, IHs by done; done|].
    cbn [app]. rewrite json_string_plain, IHs by done. done.
Qed.

(** [JSON.parse(JSON.stringify(s)) === s] *)
Lemma JSON_parse_quote s :
  Forall (fun u => u < 65536)%N s → JSON_parse (JSON_quote s) = Some (JStr s).
Proof.
  intros Hs. unfold JSON_parse, JSON_quote.
  assert (H : json_value (2 * S (length (34%N :: quote_body s ++ [34%N]))) (34%N :: quote_body s ++ [34%N])
    = (fun tr => (JStr tr.1, tr.2)) <$> json_string (quote_body s ++ [34%N])) by done.
  rewrite H, json_string_quote by done. done.
Qed.

(** ** What [JSON.parse] reads from the text of [JSON.stringify] *)

(** *** Numbers before other text *)

Definition num_char (c : N) : bool := is_digit c || existsb (N.eqb c) ".eE+-".

(** Text that does not continue a number. *)
Definition stops (r : jstr) : Prop := ∀ c r', r = c :: r' → num_char c = false.

Lemma span_stop p s r :
  (∀ c r', r = c :: r' → p c = false) → span p (s ++ r) = ((span p s).1, (span p s).2 ++ r).
Proof.
  intros Hr. induction s as [|c s IH]; cbn [span app].
  - destruct r as [|d r]; [done|]. cbn [span]. by rewrite (Hr d r).
  - destruct (p c); [|done]. rewrite IH. by destruct (span p s).
Qed.

Lemma take_unit_stop k s r : stops r → num_char k = true → take_unit k (s ++ r) = (fun x => x ++ r) <$> take_unit k s.
Proof.
  intros Hr Hk. destruct s as [|c s]; cbn [take_unit app].
  - destruct r as [|d r]; [done|]. cbn [take_unit]. destruct (N.eqb_spec d k) as [->|]; [|done].
    by rewrite (Hr k r) in Hk.
  - by destruct (c =? k)%N.
Qed.

Lemma json_number_stop s r n s' : stops r → json_number s = Some (n, s') → json_number (s ++ r) = Some (n, s' ++ r).
Proof.
  intros Hr. assert (Hd : ∀ c r', r = c :: r' → is_digit c = false).
  { intros c r' E. pose proof (Hr c r' E) as H. unfold num_char in H. by bool_hyps. }
  assert (Hs : ∀ x, span is_digit (x ++ r) = ((span is_digit x).1, (span is_digit x).2 ++ r)) by (intros; by apply span_stop).
  assert (Ht : ∀ k x, num_char k = true → take_unit k (x ++ r) = (fun y => y ++ r) <$> take_unit k x)
    by (intros; by apply take_unit_stop).
  unfold json_number. rewrite (Ht 45%N) by done.
  destruct (take_unit 45 s) as [s0|]; cbn [fmap option_fmap option_map];
    [set (x := s0) | set (x := s)]; rewrite (Hs x); destruct (span is_digit x) as [ip r1]; cbn [fst snd];
    rewrite (Ht 46%N) by done; (destruct (take_unit 46 r1) as [r2|]; cbn [fmap option_fmap option_map];
      [rewrite (Hs r2); destruct (span is_digit r2) as [fp r3]; cbn [fst snd]; set (y := r3) | set (y := r1)]);
    (destruct (negb _ || negb _); [done|]); rewrite (Ht 101%N) by done; rewrite (Ht 69%N) by done;
    (destruct (take_unit 101 y) as [z|]; cbn [fmap option_fmap option_map];
      [|destruct (take_unit 69 y) as [z|]; cbn [fmap option_fmap option_map]; [|by intros [= <- <-]]]);
    rewrite (Ht 43%N), (Ht 45%N) by done;
    (destruct (take_unit 43 z) as [z1|]; cbn [fmap option_fmap option_map];
      [|destruct (take_unit 45 z) as [z1|]; cbn [fmap option_fmap option_map]; [|set (z1 := z)]]);
    rewrite (Hs z1); destruct (span is_digit z1) as [ds r4]; cbn [fst snd]; (destruct (truthy ds); [by intros [= <- <-]|done]).
Qed.

(** *** Values that are read back *)

(** A number whose text is read as the number. *)
Definition prints_back (n : num) : bool :=
  let t := number_to_string n in
  isFinite n && match t with c :: _ => is_digit c || (c =? 45)%N | [] => false end &&
  match json_number t with Some (m, r) => bool_decide (m = n) && negb (truthy r) | None => false end.

(** A key that comes last after the keys [ks]. *)
Definition comes_last (ks : list jstr) (k : jstr) : bool :=
  negb (has k ks) &&
  match array_index k with
  | Some n => forallb (fun j => match array_index j with Some m => negb (n <? m)%N | None => false end) ks
  | None => true
  end.

Fixpoint in_order (ks : list jstr) (rest : list jstr) : bool :=
  match rest with
  | [] => true
  | k :: rest' => comes_last ks k && in_order (ks ++ [k]) rest'
  end.

Definition units (s : jstr) : bool := forallb (fun u => u <? 65536)%N s.

(** Texts, truth values, numbers that print back, arrays, and objects with their
    properties in order. *)
Fixpoint textual (v : jsval) : bool :=
  match v with
  | JUndefined => false
  | JNum n => prints_back n
  | JNull | JBool _ => true
  | JStr s => units s
  | JArr l => forallb textual l
  | JObj fs => forallb (fun kv => units kv.1 && textual kv.2) fs && in_order [] (map fst fs)
  end.

Definition blank (s : jstr) : Prop := forallb json_ws s = true.

Lemma skip_ws_blank w s : blank w → skip_ws (w ++ s) = skip_ws s.
Proof.
  unfold skip_ws, blank. induction w as [|c w IH]; [done|]. cbn [forallb span app]. intros H. bool_hyps.
  match goal with H : json_ws c = true |- _ => rewrite H end. rewrite <- IH by done. by destruct (span json_ws (w ++ s)).
Qed.

Lemma skip_ws_unit c s : json_ws c = false → skip_ws (c :: s) = c :: s.
Proof. intros H. unfold skip_ws. cbn [span]. by rewrite H. Qed.

Lemma newline_blank gap ind : blank ind → blank (newline gap ind).
Proof. intros H. unfold blank, newline in *. by destruct (truthy gap). Qed.

Lemma indent_blank gap ind : blank gap → blank ind → blank (ind ++ gap).
Proof. unfold blank. intros Hg H. by rewrite forallb_app, H, Hg. Qed.

Lemma blank_stops w r : blank w → stops r → stops (w ++ r).
Proof.
  intros Hw Hr. destruct w as [|c w]; [done|]. intros d r' [= <- _]. unfold blank in Hw. cbn in Hw. bool_hyps.
  match goal with H : _ || _ = true |- _ => unfold json_ws in H; rewrite !orb_true_iff, !N.eqb_eq in H end.
  destruct_or? ; subst; done.
Qed.

Lemma stops_unit c r : num_char c = false → stops (c :: r).
Proof. by intros H d r' [= <- _]. Qed.

(** One pass of the parser over the text [t] of a value. *)
Record reads_value (v : jsval) (t : jstr) : Prop := {
  rv_head : ∃ c t', t = c :: t' ∧ json_ws c = false ∧ c ≠ 93%N;
  rv_value : ∀ fuel w r, blank w → stops r → 2 * length t <= fuel → json_value fuel (w ++ t ++ r) = Some (v, r);
}.

Lemma skip_to w c s : blank w → json_ws c = false → skip_ws (w ++ c :: s) = c :: s.
Proof. intros. rewrite skip_ws_blank by done. by apply skip_ws_unit. Qed.

Lemma match_not_93 {A} (c : N) (x y : A) : c ≠ 93%N → match c with 93%N => x | _ => y end = y.
Proof. destruct c as [|p]; [done|]. do 7 (destruct p as [p|p|]; try done). Qed.

Lemma elements_read vs ts w w' acc fuel r :
  Forall2 reads_value vs ts → ts ≠ [] → blank w → blank w' → 2 * length (join ("," ++ w) ts) < fuel →
  json_elements fuel acc (w ++ join ("," ++ w) ts ++ w' ++ "]" ++ r) = Some (JArr (acc ++ vs), r).
Proof.
  intros Hvs Hne Hw Hw'. revert acc fuel. induction Hvs as [|v t vs ts Hv Hvs IH]; [done|]. intros acc fuel Hf.
  assert (Hend : stops (w' ++ "]" ++ r)) by (apply blank_stops; [done|by apply stops_unit]).
  destruct fuel as [|f]; [lia|]. cbn [json_elements]. destruct Hvs as [|v' t' vs ts Hv' Hvs].
  - cbn [join] in *. rewrite (rv_value v t Hv) by (done || lia). cbn [app]. rewrite (skip_to w' 93%N) by done. done.
  - rewrite join_cons2 in Hf |- *.
    rewrite !length_app in Hf. cbn [length] in Hf. rewrite <- !app_assoc.
    rewrite (rv_value v t Hv) by (done || lia || by apply stops_unit). cbn [app]. rewrite (skip_ws_unit 44%N) by done.
    rewrite IH by (done || lia). by rewrite <- app_assoc.
Qed.

(** A member of an object. *)
Definition reads_member (kv : jstr * jsval) (t : jstr) : Prop :=
  ∃ w t', t = JSON_quote kv.1 ++ ":" ++ w ++ t' ∧ blank w ∧ Forall (fun u => u < 65536)%N kv.1 ∧ reads_value kv.2 t'.

Lemma members_read fs ts w w' acc fuel r :
  Forall2 reads_member fs ts → ts ≠ [] → blank w → blank w' → 2 * length (join ("," ++ w) ts) < fuel →
  json_members fuel acc (w ++ join ("," ++ w) ts ++ w' ++ "}" ++ r)
  = Some (JObj (foldl (fun a kv => obj_set kv.1 kv.2 a) acc fs), r).
Proof.
  intros Hfs Hne Hw Hw'. revert acc fuel.
  induction Hfs as [|[k v] t fs ts (b & t0 & -> & Hb & Hk & Hv) Hfs IH]; [done|]. intros acc fuel Hf. cbn [fst snd] in *.
  assert (Hend : stops (w' ++ "}" ++ r)) by (apply blank_stops; [done|by apply stops_unit]).
  destruct fuel as [|f]; [lia|]. cbn [json_members]. unfold JSON_quote in Hf |- *.
  destruct Hfs as [|fv' t' fs ts Hv' Hfs].
  - cbn [join app] in *. cbn [length] in Hf. rewrite !length_app in Hf. cbn [length] in Hf.
    rewrite length_app in Hf.
    rewrite (skip_to w 34%N) by done. rewrite <- !app_assoc. cbn [app]. rewrite json_string_quote by done.
    rewrite (skip_ws_unit 58%N) by done. rewrite <- ?app_assoc.
    rewrite (rv_value v t0 Hv) by (done || lia). rewrite (skip_to w' 125%N) by done. done.
  - rewrite join_cons2 in Hf |- *.
    rewrite !length_app in Hf. cbn [length] in Hf. rewrite !length_app in Hf. cbn [length] in Hf. cbn [app].
    rewrite (skip_to w 34%N) by done. rewrite <- !app_assoc. cbn [app]. rewrite json_string_quote by done.
    rewrite (skip_ws_unit 58%N) by done. rewrite <- ?app_assoc.
    rewrite (rv_value v t0 Hv) by (done || lia || by apply stops_unit). cbn [app]. rewrite (skip_ws_unit 44%N) by done.
    rewrite IH by (done || lia). done.
Qed.

Lemma obj_set_last {V} (k : jstr) (v : V) m : comes_last (map fst m) k = true → obj_set k v m = m ++ [(k, v)].
Proof.
  unfold comes_last. intros H. apply andb_true_iff in H as [Hk Hi]. apply negb_true_iff, has_false in Hk.
  induction m as [|[k' v'] m IH]; [done|]. cbn [map fst] in *. apply not_elem_of_cons in Hk as [Hk Hm].
  cbn [obj_set app]. rewrite (proj2 (jeqb_false k k')) by done.
  destruct (array_index k) as [n|]; [|by rewrite IH].
  cbn [forallb] in Hi. apply andb_true_iff in Hi as [Hn Hi]. destruct (array_index k') as [n'|]; [|done].
  apply negb_true_iff in Hn. rewrite Hn. by rewrite IH.
Qed.

Lemma obj_set_all {V} (acc fs : list (jstr * V)) :
  in_order (map fst acc) (map fst fs) = true → foldl (fun a kv => obj_set kv.1 kv.2 a) acc fs = acc ++ fs.
Proof.
  revert acc. induction fs as [|[k v] fs IH]; intros acc Hn; [by rewrite app_nil_r|].
  cbn [foldl fst snd map in_order] in *. apply andb_true_iff in Hn as [Hk Hn].
  rewrite obj_set_last by done. rewrite IH by by rewrite map_app. by rewrite <- app_assoc.
Qed.

Lemma quote_reads s : Forall (fun u => u < 65536)%N s → reads_value (JStr s) (JSON_quote s).
Proof.
  intros Hs. constructor; [by exists 34%N, (quote_body s ++ [34%N])|]. intros fuel w r Hw _ Hf.
  destruct fuel as [|f]; [simpl in Hf; lia|]. cbn [json_value]. unfold JSON_quote. cbn [app].
  rewrite (skip_to w 34%N) by done. rewrite <- app_assoc. cbn [app]. by rewrite json_string_quote.
Qed.

(** A text that starts like a number is read as one. *)
Lemma number_value f w c s :
  blank w → is_digit c || (c =? 45)%N = true →
  json_value (S f) (w ++ c :: s) = (fun nr => (JNum nr.1, nr.2)) <$> json_number (c :: s).
Proof.
  intros Hw Hc. assert (Hin : c ∈ [45; 48; 49; 50; 51; 52; 53; 54; 55; 56; 57]%N).
  { apply orb_true_iff in Hc as [Hc|Hc]; [unfold is_digit, in_range in Hc; bool_hyps|bool_hyps; subst; by left].
    assert (E : c = 48%N ∨ c = 49%N ∨ c = 50%N ∨ c = 51%N ∨ c = 52%N ∨ c = 53%N ∨ c = 54%N ∨ c = 55%N ∨ c = 56%N ∨ c = 57%N)
      by lia.
    set_solver. }
  cbn [json_value]. rewrite skip_to; [|done|clear -Hin; rewrite !elem_of_cons in Hin; destruct_or? Hin; subst; try done; set_solver].
  rewrite !elem_of_cons, elem_of_nil in Hin. clear Hc. destruct_or? Hin; subst; done.
Qed.

Lemma number_reads n : prints_back n = true → isFinite n = true ∧ reads_value (JNum n) (number_to_string n).
Proof.
  unfold prints_back. intros H. apply andb_true_iff in H as [H Hn]. apply andb_true_iff in H as [Hf Hh].
  split; [done|]. destruct (number_to_string n) as [|c t] eqn:Et; [done|].
  destruct (json_number (c :: t)) as [[m r]|] eqn:Ej; [|done]. bool_hyps. subst r.
  match goal with H : bool_decide _ = true |- _ => apply bool_decide_eq_true in H as -> end.
  constructor.
  - exists c, t. split; [done|]. apply orb_true_iff in Hh as [Hh|Hh].
    + unfold is_digit, in_range in Hh. bool_hyps. split; [|lia]. unfold json_ws. cbn.
      repeat rewrite (proj2 (N.eqb_neq c _)) by lia. done.
    + by apply N.eqb_eq in Hh as ->.
  - intros fuel w r Hw Hr Hl. destruct fuel as [|f]; [simpl in Hl; lia|].
    rewrite <- app_comm_cons, number_value by done. change (c :: t ++ r) with ((c :: t) ++ r).
    by rewrite (json_number_stop (c :: t) r n []).
Qed.

Lemma array_reads gap ind vs ts :
  blank gap → blank ind → Forall2 reads_value vs ts → reads_value (JArr vs) (block gap ind "[" "]" ts).
Proof.
  intros Hg Hi Hvs. constructor.
  { destruct Hvs; [by exists 91%N, [93%N]|]. unfold block. by eexists 91%N, _. }
  intros fuel w r Hw _ Hf. destruct Hvs as [|v t vs ts Hv Hvs].
  { destruct fuel as [|f]; [simpl in Hf; lia|]. unfold block. cbn [json_value app]. by rewrite (skip_to w 91%N). }
  set (b := newline gap (ind ++ gap)). assert (Hb : blank b) by by apply newline_blank, indent_blank.
  unfold block in *. fold b in Hf |- *. rewrite !length_app in Hf. destruct fuel as [|f]; [simpl in Hf; lia|].
  cbn [json_value]. rewrite <- !app_assoc. change ("["%js) with [91%N]. cbn [app]. rewrite (skip_to w 91%N) by done.
  destruct (rv_head v t Hv) as (c & t' & Et & Hc & Hc').
  match goal with |- context [skip_ws ?x] => assert (Hskip : ∃ j, skip_ws x = c :: j) end.
  { rewrite skip_ws_blank, Et by done. destruct ts; cbn [join app]; rewrite skip_ws_unit; eauto. }
  destruct Hskip as [j ->]. cbn match. rewrite match_not_93 by done.
  apply (elements_read (v :: vs) (t :: ts) b (newline gap ind) [] f r);
    [by constructor|done|done|by apply newline_blank|simpl in Hf |- *; lia].
Qed.

Lemma object_reads gap ind fs ts :
  blank gap → blank ind → in_order [] (map fst fs) = true → Forall2 reads_member fs ts →
  reads_value (JObj fs) (block gap ind "{" "}" ts).
Proof.
  intros Hg Hi Hn Hfs. constructor.
  { destruct Hfs; [by exists 123%N, [125%N]|]. unfold block. by eexists 123%N, _. }
  intros fuel w r Hw _ Hf. destruct Hfs as [|f0 t fs ts Hm Hfs].
  { destruct fuel as [|f]; [simpl in Hf; lia|]. unfold block. cbn [json_value app]. by rewrite (skip_to w 123%N). }
  set (b := newline gap (ind ++ gap)). assert (Hb : blank b) by by apply newline_blank, indent_blank.
  unfold block in *. fold b in Hf |- *. rewrite !length_app in Hf. destruct fuel as [|f]; [simpl in Hf; lia|].
  cbn [json_value app]. rewrite (skip_to w 123%N) by done. rewrite <- !app_assoc.
  assert (Et : ∃ t0, t = 34%N :: t0) by (destruct Hm as (? & ? & -> & _); by eexists). destruct Et as [t0 Et].
  match goal with |- context [skip_ws ?x] => assert (Hskip : ∃ j, skip_ws x = 34%N :: j) end.
  { rewrite skip_ws_blank, Et by done. destruct ts; cbn [join app]; rewrite skip_ws_unit; eauto. }
  destruct Hskip as [j ->]. cbn match.
  etransitivity; [apply (members_read (f0 :: fs) (t :: ts) b (newline gap ind) [] f r)|];
    [by constructor|done|done|by apply newline_blank|simpl in Hf |- *; lia|].
  by rewrite (obj_set_all [] (f0 :: fs)).
Qed.

Lemma units_Forall s : units s = true → Forall (fun u => u < 65536)%N s.
Proof. intros H. apply Forall_forall. intros u Hu. by apply (forallb_elem _ _ _ H), N.ltb_lt in Hu. Qed.

Definition member_text (gap ind : jstr) (kv : jstr * jsval) : list jstr :=
  match stringify gap (ind ++ gap) kv.2 with Some t => [JSON_quote kv.1 ++ colon gap ++ t] | None => [] end.

Lemma stringify_arr gap ind l :
  stringify gap ind (JArr l)
  = Some (block gap ind "[" "]" (map (fun x => default "null"%js (stringify gap (ind ++ gap) x)) l)).
Proof. done. Qed.
Lemma stringify_obj gap ind fs :
  stringify gap ind (JObj fs) = Some (block gap ind "{" "}" (concat (map (member_text gap ind) fs))).
Proof. done. Qed.

Lemma stringify_reads gap v :
  blank gap → textual v = true → ∀ ind, blank ind → ∃ t, stringify gap ind v = Some t ∧ reads_value v t.
Proof.
  intros Hg. induction v as [| |b|n|s|l IH|fs IH] using jsval_ind'; intros Ht ind Hi; try done.
  - eexists. split; [done|]. constructor; [by eexists _, _|]. intros fuel w r Hw _ Hf. destruct fuel; [simpl in Hf; lia|].
    cbn [json_value app]. by rewrite skip_to.
  - eexists. split; [done|]. constructor; [destruct b; by eexists _, _|]. intros fuel w r Hw _ Hf.
    destruct fuel; [destruct b; simpl in Hf; lia|]. destruct b; cbn [json_value app]; by rewrite skip_to.
  - destruct (number_reads n Ht) as [Hf Hr]. cbn [stringify]. rewrite Hf. by eexists.
  - eexists. split; [done|]. by apply quote_reads, units_Forall.
  - rewrite stringify_arr. eexists. split; [reflexivity|]. apply array_reads; [done..|].
    cbn [textual] in Ht. clear -IH Ht Hi Hg.
    induction IH as [|v l Hv _ IHl]; [constructor|]. cbn [forallb map] in *. bool_hyps. constructor; [|by apply IHl].
    destruct (Hv ltac:(done) (ind ++ gap)) as (t & -> & Hr); [by apply indent_blank|done].
  - rewrite stringify_obj. eexists. split; [reflexivity|]. cbn [textual] in Ht. apply andb_true_iff in Ht as [Ht Hn].
    apply object_reads; [done..|]. clear -IH Ht Hi Hg.
    induction IH as [|[k v] fs Hv _ IHl]; [constructor|]. cbn [forallb map concat] in *. cbn [fst snd] in *. bool_hyps.
    unfold member_text at 1. cbn [fst snd].
    destruct (Hv ltac:(done) (ind ++ gap)) as (t & -> & Hr); [by apply indent_blank|].
    constructor; [|by apply IHl]. exists (if truthy gap then " "%js else []), t.
    split; [unfold colon; by destruct (truthy gap)|]. split; [by destruct (truthy gap)|].
    split; [by apply units_Forall|done].
Qed.

(** [JSON.parse(JSON.stringify(v, null, gap))] is [v]. *)
Lemma parse_stringify gap v :
  blank gap → textual v = true → ∃ t, stringify gap [] v = Some t ∧ t ≠ [] ∧ JSON_parse t = Some v.
Proof.
  intros Hg Hv. destruct (stringify_reads gap v Hg Hv [] eq_refl) as (t & Ht & Hr). exists t. split; [done|].
  destruct (rv_head v t Hr) as (c & t' & Ec & _). split; [by rewrite Ec|]. unfold JSON_parse.
  pose proof (rv_value v t Hr (2 * S (length t)) [] [] eq_refl ltac:(done) ltac:(lia)) as H. rewrite app_nil_r in H.
  cbn [app] in H. by rewrite H.
Qed.

Lemma JSON_parse_stringify v : textual v = true → ∃ t, JSON_stringify v = Some t ∧ t ≠ [] ∧ JSON_parse t = Some v.
Proof. by apply parse_stringify. Qed.
Lemma JSON_parse_compact v : textual v = true → ∃ t, JSON_compact v = Some t ∧ t ≠ [] ∧ JSON_parse t = Some v.
Proof. by apply parse_stringify. Qed.

(** Members without a value leave no trace in the text. *)
Definition undefined (v : jsval) : bool := match v with JUndefined => true | _ => false end.

Fixpoint strip (v : jsval) : jsval :=
  match v with
  | JArr l => JArr (map strip l)
  | JObj fs => JObj (concat (map (fun kv => if undefined kv.2 then [] else [(kv.1, strip kv.2)]) fs))
  | _ => v
  end.

Lemma stringify_strip gap v : ∀ ind, stringify gap ind (strip v) = stringify gap ind v.
Proof.
  induction v as [| |b|n|s|l IH|fs IH] using jsval_ind'; intros ind; try done; cbn [strip].
  - rewrite !stringify_arr. do 2 f_equal. rewrite map_map. apply map_ext_in. intros x Hx%list_elem_of_In.
    rewrite Forall_forall in IH. by rewrite IH.
  - rewrite !stringify_obj. do 2 f_equal. induction IH as [|[k v] fs Hv _ IHl]; [done|]. cbn [map concat].
    rewrite map_app, concat_app, IHl. f_equal. unfold member_text at 2. cbn [fst snd] in *.
    destruct (undefined v) eqn:E; [by destruct v|]. cbn [map concat]. unfold member_text. cbn [fst snd].
    by rewrite Hv, app_nil_r.
Qed.

Lemma trim_head c s : is_ws c = false → trim (c :: s) ≠ [].
Proof.
  intros Hc E. unfold trim in E. rewrite trimStart_id in E by by intros ? [= <-].
  destruct (trimEnd_decomp (c :: s)) as (w & Hw & Hws). rewrite E in Hw. cbn in Hw. subst w.
  apply Forall_cons in Hws as [Hws _]. congruence.
Qed.

(** *** The order of own properties *)

Lemma array_index_text k n : array_index k = Some n → js_of_N n = k.
Proof. unfold array_index. case_match; [|done]. bool_hyps. by intros [= <-]. Qed.

Definition before (j k : jstr) : Prop :=
  j ≠ k ∧ match array_index j, array_index k with
          | Some n, Some m => (n < m)%N
          | None, Some _ => False
          | _, None => True
          end.

Lemma comes_last_before ks k : comes_last ks k = true ↔ ∀ j, j ∈ ks → before j k.
Proof.
  unfold comes_last, before. split.
  - intros [Hk Hi]%andb_true_iff j Hj. apply negb_true_iff, has_false in Hk.
    assert (Hne : j ≠ k) by (by intros ->). split; [done|].
    destruct (array_index k) as [n|] eqn:En; [|by destruct (array_index j)].
    apply (forallb_elem _ _ _ Hi) in Hj. destruct (array_index j) as [m|] eqn:Em; [|done].
    apply negb_true_iff, N.ltb_ge in Hj. destruct (decide (m = n)) as [->|]; [|lia].
    apply array_index_text in En, Em. congruence.
  - intros H. apply andb_true_iff. split; [apply negb_true_iff, has_false; intros Hk; by destruct (H k Hk)|].
    destruct (array_index k) as [n|]; [|done]. apply forallb_forall. intros j Hj%list_elem_of_In.
    destruct (H j Hj) as [_ Hb]. destruct (array_index j) as [m|]; [|done]. apply negb_true_iff, N.ltb_ge. lia.
Qed.

Lemma in_order_sorted acc ks :
  in_order acc ks = true ↔ (∀ j k, j ∈ acc → k ∈ ks → before j k) ∧ StronglySorted before ks.
Proof.
  revert acc. induction ks as [|k ks IH]; intros acc; cbn [in_order].
  { split; [|done]. intros _. split; [set_solver|constructor]. }
  rewrite andb_true_iff, comes_last_before, IH. split.
  - intros [Hk [Hall Hs]]. split; [set_solver|]. constructor; [done|]. apply Forall_forall. set_solver.
  - intros [Hall Hs]. apply StronglySorted_inv in Hs as [Hs Hk]. rewrite Forall_forall in Hk. set_solver.
Qed.

Lemma obj_set_keys {V} (k : jstr) (v : V) m j : j ∈ map fst (obj_set k v m) → j = k ∨ j ∈ map fst m.
Proof.
  induction m as [|[k' v'] m IH]; cbn [obj_set map fst]; [set_solver|].
  repeat case_match; cbn [map fst]; set_solver.
Qed.

Lemma obj_set_sorted {V} (k : jstr) (v : V) m :
  StronglySorted before (map fst m) → StronglySorted before (map fst (obj_set k v m)).
Proof.
  induction m as [|[k' v'] m IH]; intros Hs; [repeat constructor|].
  cbn [map fst] in Hs. apply StronglySorted_inv in Hs as [Hs Hk]. cbn [obj_set]. rewrite Forall_forall in Hk.
  destruct (jeqb_spec k k') as [->|Hne]; [constructor; [done|by apply Forall_forall]|].
  assert (Hnext : before k' k → StronglySorted before (map fst ((k', v') :: obj_set k v m))).
  { intros Hb. constructor; [by apply IH|]. apply Forall_forall. intros j [->|Hj]%obj_set_keys; auto. }
  assert (Hfirst : before k k' → (∀ n j, array_index k = Some n → before k' j → before k j) → is_Some (array_index k) →
    StronglySorted before (map fst ((k, v) :: (k', v') :: m))).
  { intros Hb Htr [n En]. constructor; [constructor; [done|by apply Forall_forall]|].
    constructor; [done|]. apply Forall_forall. eauto. }
  unfold before in Hnext, Hfirst. destruct (array_index k) as [n|] eqn:En, (array_index k') as [n'|] eqn:En'.
  - destruct (N.ltb_spec n n').
    + apply Hfirst; [done| |done]. intros ? j _ [_ Hb]. split.
      * intros <-. rewrite En in Hb. lia.
      * destruct (array_index j); [lia|done].
    + apply Hnext. split; [done|]. destruct (decide (n = n')) as [->|]; [|lia].
      apply array_index_text in En, En'. congruence.
  - apply Hfirst; [done| |done]. intros ? j _ [_ Hb]. split.
    + intros <-. by rewrite En in Hb.
    + by destruct (array_index j).
  - by apply Hnext.
  - by apply Hnext.
Qed.

Lemma map_get_obj_set {V} (k j : jstr) (v : V) m :
  map_get j (obj_set k v m) = if decide (j = k) then Some v else map_get j m.
Proof.
  induction m as [|[k' v'] m IH]; cbn [obj_set map_get].
  { repeat case_decide; congruence. }
  destruct (jeqb_spec k k') as [->|Hne]; cbn [map_get]; [repeat case_decide; congruence|].
  repeat case_match; cbn [map_get]; rewrite ?IH; repeat case_decide; congruence.
Qed.

(** [delete o[k]] *)
Definition delete_prop {V} (name : jstr) (m : list (jstr * V)) : list (jstr * V) :=
  List.filter (fun kv => negb (kv.1 === name)) m.

Lemma map_get_delete {V} (k j : jstr) (m : list (jstr * V)) :
  map_get j (delete_prop k m) = if decide (j = k) then None else map_get j m.
Proof.
  induction m as [|[k' v'] m IH]; [by case_decide|]. cbn [delete_prop List.filter fst map_get].
  destruct (jeqb_spec k' k) as [->|Hne]; cbn [negb map_get]; fold (delete_prop k m); rewrite IH;
    repeat case_decide; congruence.
Qed.

(** Setting a property to the value it has, and deleting one that is absent, change
    nothing. *)
Lemma obj_set_same {V} (k : jstr) (v : V) m :
  array_index k = None → map_get k m = Some v → obj_set k v m = m.
Proof.
  intros Hk. induction m as [|[k' v'] m IH]; cbn [obj_set map_get]; [done|].
  destruct (jeqb_spec k k') as [->|Hne]; case_decide; try congruence. rewrite Hk. intros ?. by rewrite IH.
Qed.

Lemma delete_absent {V} (k : jstr) (m : list (jstr * V)) : map_get k m = None → delete_prop k m = m.
Proof.
  induction m as [|[k' v'] m IH]; cbn [delete_prop List.filter map_get fst]; [done|].
  destruct (jeqb_spec k' k) as [->|Hne]; case_decide; try congruence. intros ?. cbn [negb].
  fold (delete_prop k m). by rewrite IH.
Qed.

(** ** Decimal amounts

    Dividing a whole number of minor units by a power of ten and printing the
    quotient with as many decimals loses nothing. *)

Lemma fraction_pos m e : (0 < (fraction m e).1)%Z ∧ (0 < (fraction m e).2)%Z.
Proof.
  unfold fraction. destruct (Z.leb_spec 0 e); cbn [fst snd]; split; lia.
Qed.

Lemma fraction_scaled m e :
  (-110 ≤ e)%Z → (Zpos m * 2 ^ (e + 110) * (fraction m e).2 = (fraction m e).1 * 2 ^ 110)%Z.
Proof.
  intros He. unfold fraction. destruct (Z.leb_spec 0 e); cbn [fst snd].
  - rewrite Z.pow_add_r by lia. lia.
  - rewrite <- Z.mul_assoc, <- Z.pow_add_r by lia. do 2 f_equal. lia.
Qed.

Lemma to_fixed_quotient n d :
  (0 ≤ n < 2 ^ 51)%Z → d <= 15 →
  to_fixed (num_div (num_of_Z n) (num_of_Z (10 ^ Z.of_nat d))) d = fixed_digits (Z.to_N n) d.
Proof.
  intros Hn Hd.
  assert (Hy : (0 < 10 ^ Z.of_nat d < 2 ^ 53)%Z).
  { split; [apply Z.pow_pos_nonneg; lia|].
    apply (Z.le_lt_trans _ (10 ^ 15)); [apply Z.pow_le_mono_r; lia|by vm_compute]. }
  set (y := (10 ^ Z.of_nat d)%Z) in *.
  destruct (decide (n = 0)%Z) as [->|Hn0]; [by rewrite num_of_Z_0, (num_of_Z_rep y Hy)|].
  destruct (num_div_close n y ltac:(lia) Hy) as (m & e & -> & He & Hc).
  unfold to_fixed. pose proof (fraction_pos m e) as [Ha Hb]. pose proof (fraction_scaled m e He) as Hs.
  destruct (fraction m e) as [a b]. cbn [fst snd] in *. fold y.
  assert (Hclose : (Z.abs (a * y - n * b) * 2 ^ 52 ≤ n * b)%Z).
  { apply (Z.mul_le_mono_pos_r _ _ (2 ^ 110)); [lia|].
    apply (Z.mul_le_mono_nonneg_r _ _ b) in Hc; [|lia].
    assert (Hd' : ((Zpos m * 2 ^ (e + 110) * y - n * 2 ^ 110) * b = (a * y - n * b) * 2 ^ 110)%Z) by nia.
    apply (f_equal Z.abs) in Hd'. rewrite !Z.abs_mul, (Z.abs_eq b), (Z.abs_eq (2 ^ 110)) in Hd' by lia. lia. }
  assert (Hhalf : (2 * Z.abs (a * y - n * b) < b)%Z) by nia.
  assert (Hay : (a ≤ a * y)%Z) by nia.
  rewrite (proj2 (Z.leb_gt (10 ^ 21 * b) a)) by nia. cbn [app]. f_equal. f_equal.
  symmetry. apply (Z.div_unique _ _ _ (2 * a * y + b - 2 * b * n)); [|lia]. left. lia.
Qed.

(** *** What [JSON.parse] gives

    No value is undefined, and the keys of an object are distinct and in order. *)
Fixpoint proper (v : jsval) : Prop :=
  match v with
  | JUndefined => False
  | JArr l => foldr (fun x P => proper x ∧ P) True l
  | JObj fs => StronglySorted before (map fst fs) ∧ foldr (fun kv P => proper kv.2 ∧ P) True fs
  | _ => True
  end.

Lemma proper_arr l : proper (JArr l) ↔ Forall proper l.
Proof. cbn [proper]. induction l as [|x l IH]; cbn [foldr]; [by rewrite Forall_nil|]. by rewrite IH, Forall_cons. Qed.

Lemma proper_obj fs : proper (JObj fs) ↔ StronglySorted before (map fst fs) ∧ Forall (fun kv => proper kv.2) fs.
Proof.
  cbn [proper]. assert (Hf : foldr (fun kv P => proper kv.2 ∧ P) True fs ↔ Forall (fun kv => proper kv.2) fs); [|by rewrite Hf].
  induction fs as [|x fs IH]; cbn [foldr]; [by rewrite Forall_nil|]. by rewrite IH, Forall_cons.
Qed.

Lemma before_NoDup ks : StronglySorted before ks → NoDup ks.
Proof.
  induction 1 as [|k ks _ IH Hk]; [constructor|]. apply NoDup_cons. split; [|done].
  intros Hin. rewrite Forall_forall in Hk. by destruct (Hk k Hin).
Qed.

Lemma obj_set_Forall {V} (P : jstr * V → Prop) k v m : Forall P m → P (k, v) → (∀ k' v', P (k', v') → P (k', v)) → Forall P (obj_set k v m).
Proof.
  intros Hm Hkv Hany. induction Hm as [|[k' v'] m Hx Hm IH]; cbn [obj_set]; [by apply Forall_singleton|].
  destruct (k === k'); [constructor; eauto|]. repeat case_match; repeat constructor; done.
Qed.

Lemma proper_set k v fs : proper (JObj fs) → proper v → proper (JObj (obj_set k v fs)).
Proof.
  rewrite !proper_obj. intros [Hs Hf] Hv. split; [by apply obj_set_sorted|]. by apply obj_set_Forall.
Qed.

Lemma json_value_proper fuel :
  (∀ s v r, json_value fuel s = Some (v, r) → proper v) ∧
  (∀ acc s v r, Forall proper acc → json_elements fuel acc s = Some (v, r) → proper v) ∧
  (∀ acc s v r, proper (JObj acc) → json_members fuel acc s = Some (v, r) → proper v).
Proof.
  induction fuel as [|f (IHv & IHe & IHm)]; [done|]. split; [|split].
  - intros s v r. cbn [json_value]. set (s' := skip_ws s). clearbody s'. intros E.
    assert (Hd : (if startsWith "null" s' then Some (JNull, drop 4 s')
      else if startsWith "true" s' then Some (JBool true, drop 4 s')
      else if startsWith "false" s' then Some (JBool false, drop 5 s')
      else (fun nr => (JNum nr.1, nr.2)) <$> json_number s') = Some (v, r) → proper v).
    { repeat (case_if; [intros Hs; by simplify_eq|]). intros Hs. apply fmap_Some in Hs as (? & _ & Hs). by simplify_eq. }
    assert (Hempty : proper (JObj [])) by (apply proper_obj; split; constructor).
    repeat (case_match; try exact (Hd E); try (by eapply IHe; [constructor|exact E]); try (by eapply IHm; [exact Hempty|exact E])).
    all: try (by simplify_eq). all: apply fmap_Some in E as (? & _ & E); by simplify_eq.
  - intros acc s v r Hacc. cbn [json_elements]. destruct (json_value f s) as [[x r']|] eqn:Ex; [|done]. apply IHv in Ex.
    assert (Hx : Forall proper (acc ++ [x])) by (apply Forall_app; split; [done|by apply Forall_singleton]).
    intros E. repeat (case_match; simplify_eq; try done); solve [by eapply IHe|by apply proper_arr].
  - intros acc s v r Hacc. cbn [json_members]. intros E. repeat (case_match; simplify_eq; try done);
      solve [eapply IHm; [|done]; apply proper_set; eauto|apply proper_set; eauto].
Qed.

Lemma JSON_parse_proper s v : JSON_parse s = Some v → proper v.
Proof.
  unfold JSON_parse. destruct (json_value _ s) as [[x r]|] eqn:E; [|done]. case_if; [done|]. intros [= ->].
  by apply (proj1 (json_value_proper _) _ _ _ E).
Qed.
