(* ===== verification/WebUrl.v ===== *)
(** * URLs

    The [URL] objects of the platform and [encodeURIComponent].  The URL parser
    is platform code; the models take it as an instance of [UrlParser], and
    nothing is assumed of it.
    [encodeURIComponent] is part of ECMA-262 and is defined here. *)

From S2P Require Import Prelude.

Record URL := MkURL {
  protocol : jstr; username : jstr; password : jstr; hostname : jstr; port : jstr;
  pathname : jstr; u_search : jstr; u_hash : jstr;
  searchParams : list (jstr * jstr);   (* the entries, in order *)
}.

Definition host (u : URL) : jstr :=
  if truthy (port u) then hostname u ++ ":" ++ port u else hostname u.

(** [url.origin] of the schemes the sources accept; other schemes have an opaque
    origin, which is serialized as [null]. *)
Definition origin (u : URL) : jstr :=
  if (protocol u === "http:") || (protocol u === "https:")
  then protocol u ++ "//" ++ host u else "null".

(** [url.href]: the URL serializer, for a URL with a host. *)
Definition href (u : URL) : jstr :=
  protocol u ++ "//" ++
  (if truthy (username u) || truthy (password u)
   then username u ++ (if truthy (password u) then ":" ++ password u else []) ++ "@" else []) ++
  host u ++ pathname u ++ u_search u ++ u_hash u.

(** [new URL(value, base)]; [None] is the thrown [TypeError]. *)
Class UrlParser := new_URL : jstr → option jstr → option URL.

(** The page's location, when there is one ([typeof window !== 'undefined']). *)
Record Location := MkLocation { l_origin : jstr; l_hostname : jstr }.

(** ** encodeURIComponent *)

(** The code point at the head of a string; [None] for a lone surrogate. *)
Definition next_code_point (s : jstr) : option (N * jstr) :=
  match s with
  | [] => None
  | c :: s' =>
    if in_range 0xD800 0xDBFF c then
      match s' with
      | d :: s'' =>
        if in_range 0xDC00 0xDFFF d
        then Some (65536 + (c - 0xD800) * 1024 + (d - 0xDC00), s'')%N else None
      | [] => None
      end
    else if in_range 0xDC00 0xDFFF c then None
    else Some (c, s')
  end.

Definition utf8 (c : N) : list N :=
  (if c <? 128 then [c]
   else if c <? 2048 then [192 + c / 64; 128 + c mod 64]
   else if c <? 65536 then [224 + c / 4096; 128 + (c / 64) mod 64; 128 + c mod 64]
   else [240 + c / 262144; 128 + (c / 4096) mod 64; 128 + (c / 64) mod 64; 128 + c mod 64])%N.

Definition hex_upper (d : N) : N := (if d <? 10 then 48 + d else 55 + d)%N.
Definition percent (b : N) : jstr := [37; hex_upper (b / 16); hex_upper (b mod 16)]%N.

(** The characters that are not escaped. *)
Definition uri_unescaped (c : N) : bool := is_alnum c || existsb (N.eqb c) "-_.!~*'()".

Fixpoint encode_go (fuel : nat) (s : jstr) : option jstr :=
  match fuel with
  | O => None
  | S f =>
    match s with
    | [] => Some []
    | _ =>
      match next_code_point s with
      | None => None
      | Some (c, s') =>
        (fun r => (if uri_unescaped c then [c] else concat (map percent (utf8 c))) ++ r)
          <$> encode_go f s'
      end
    end
  end.

(** [None] is the thrown [URIError]. *)
Definition encodeURIComponent (s : jstr) : option jstr := encode_go (S (length s)) s.

(** ** Lemmas *)

(** A URL without credentials, query and fragment is its origin and its path. *)
Lemma href_plain u :
  (protocol u === "http:") || (protocol u === "https:") = true →
  username u = [] → password u = [] → u_search u = [] → u_hash u = [] →
  href u = origin u ++ pathname u.
Proof.
  intros Hp Hu Hw Hs Hh. unfold href, origin. rewrite Hp, Hu, Hw, Hs, Hh. simpl.
  by rewrite !app_nil_r, <- !app_assoc.
Qed.

Definition uri_safe (c : N) : bool := uri_unescaped c || (c =? 37)%N.

Lemma percent_safe b : (b < 256)%N → forallb uri_safe (percent b) = true.
Proof.
  intros Hb. unfold percent. simpl.
  assert (∀ d, (d < 16)%N → uri_safe (hex_upper d) = true) as H.
  { intros d Hd. unfold hex_upper. destruct (d <? 10)%N eqn:E; bool_hyps;
      unfold uri_safe, uri_unescaped, is_alnum, is_alpha, is_digit, is_upper, is_lower, in_range.
    - rewrite (proj2 (N.leb_le 48 _)), (proj2 (N.leb_le _ 57)) by lia. by rewrite !orb_true_r.
    - apply N.ltb_ge in E.
      rewrite (proj2 (N.leb_le 65 _)), (proj2 (N.leb_le _ 90)) by lia. by rewrite !orb_true_r. }
  rewrite !H; [done|by apply N.mod_lt|apply N.Div0.div_lt_upper_bound; lia].
Qed.

Lemma utf8_bytes c : (c < 1114112)%N → Forall (fun b => b < 256)%N (utf8 c).
Proof.
  intros Hc. unfold utf8. repeat case_if; bool_hyps; repeat constructor;
    repeat match goal with
    | |- context [(?a mod 64)%N] => pose proof (N.mod_lt a 64 ltac:(lia)); generalize dependent (a mod 64)%N; intros
    | |- context [(?a / ?b)%N] => pose proof (N.Div0.mul_div_le a b); generalize dependent (a / b)%N; intros
    end; lia.
Qed.

Lemma next_code_point_bound s c s' :
  Forall (fun u => u < 65536)%N s → next_code_point s = Some (c, s') →
  (c < 1114112)%N ∧ Forall (fun u => u < 65536)%N s'.
Proof.
  destruct s as [|x s]; [done|]. intros [Hx Hs]%Forall_cons. simpl. unfold in_range.
  destruct ((55296 <=? x)%N && (x <=? 56319)%N) eqn:E.
  - destruct s as [|d s]; [done|]. apply Forall_cons in Hs as [Hd Hs].
    case_if; [|done]. bool_hyps. intros [= <- <-]. split; [lia|done].
  - case_if; [done|]. intros [= <- <-]. split; [lia|done].
Qed.

(** The result contains only unreserved characters and percent escapes: no
    slash, no question mark, no hash, no dot segment of its own. *)
Lemma encodeURIComponent_safe s e :
  Forall (fun u => u < 65536)%N s → encodeURIComponent s = Some e → forallb uri_safe e = true.
Proof.
  unfold encodeURIComponent. generalize (S (length s)) as f. intros f. revert s e.
  induction f as [|f IH]; intros s e Hs; [done|]. cbn [encode_go].
  destruct s as [|x s]; [by intros [= <-]|].
  destruct (next_code_point (x :: s)) as [[c s']|] eqn:En; [|done].
  destruct (next_code_point_bound _ _ _ Hs En) as [Hc Hs'].
  intros (r & Hr & ->)%fmap_Some. rewrite forallb_app, (IH _ _ Hs' Hr), andb_true_r.
  destruct (uri_unescaped c) eqn:Eu; [simpl; unfold uri_safe; by rewrite Eu|].
  pose proof (utf8_bytes c Hc) as Hb. induction Hb as [|b bs Hb _ IHb]; [done|].
  cbn [map concat]. by rewrite forallb_app, percent_safe, IHb.
Qed.

Lemma uri_safe_not_slash e : forallb uri_safe e = true → (47%N ∉ e) ∧ (63%N ∉ e) ∧ (35%N ∉ e).
Proof.
  rewrite forallb_forall. intros H. repeat split; intros Hin%list_elem_of_In%H; done.
Qed.
