(* ===== verification/Payment.v ===== *)
(** * Wallet payments

    Model of [features/wallet/lib/payment.ts] with the types and constants it
    uses: the checks on payment URLs, QR codes and JSAPI parameters, the choice
    of payment routes for a browser, the normalization of the codes shown to
    users, payment errors and preset amounts.

    The URL parser ([WebUrl.UrlParser]), case conversion outside ASCII
    ([Prelude.UnicodeCase]), the query parser and the translation function are
    parameters. *)

From S2P Require Import Prelude JsRegExp JsValue WebUrl.

(** ** types.ts and constants.ts *)

Inductive PublicPaymentStatusCode :=
  | preparing | awaiting_payment | confirming | succeeded | expired | temporarily_unavailable.

Inductive PaymentMethodProvider :=
  | epay | stripe | xorpay | creem | waffo | waffo_pancake.

Definition provider_string (p : PaymentMethodProvider) : jstr :=
  match p with
  | epay => "epay" | stripe => "stripe" | xorpay => "xorpay"
  | creem => "creem" | waffo => "waffo" | waffo_pancake => "waffo_pancake"
  end.

Inductive PaymentCheckoutMode := mode_quote | mode_product | mode_option | mode_direct.

Record PaymentMethod := MkPaymentMethod {
  route_id : jstr; public_method : jstr; channel_alias : option jstr;
  checkout_mode : PaymentCheckoutMode; min_topup : option num;
  m_color : option jstr; m_icon : option jstr; m_currency : option jstr;
}.

Record PaymentProduct := MkProduct {
  product_id : jstr; p_route_id : jstr; p_name : jstr; p_payment_amount : jstr; p_top_up_amount : num;
  p_currency : jstr;
}.

Record PaymentRouteOption := MkRouteOption { option_id : jstr; r_route_id : jstr; public_label : jstr }.

Record PaymentJSAPIParameters := MkJSAPI {
  app_id : jstr; timestamp : jstr; nonce_str : jstr; package : jstr;
  sign_type : jstr; pay_sign : jstr;
}.

Record TopupInfo := MkTopupInfo {
  online_payment_available : bool; payment_routes : list PaymentMethod;
  subscription_payment_routes : list PaymentMethod; payment_products : list PaymentProduct;
  payment_route_options : list PaymentRouteOption; info_min_topup : num; amount_options : list num;
  info_discount : list (jstr * num);                (* by the numeral of the amount *)
  affiliate_continuous_percent : option num; affiliate_first_topup_percent : option num;
  topup_link : option jstr; enable_redemption : bool; payment_compliance_confirmed : bool;
  payment_compliance_terms_version : option jstr;
}.
Record PresetAmount := MkPreset { value : num; discount : option num }.

Definition PT_ALIPAY : jstr := "alipay".
Definition PT_WECHAT : jstr := "wxpay".
Definition PT_STRIPE : jstr := "stripe".
Definition PT_XORPAY_NATIVE : jstr := "xorpay_native".
Definition PT_XORPAY_ALIPAY : jstr := "xorpay_alipay".
Definition PT_CREEM : jstr := "creem".
Definition PT_WAFFO : jstr := "waffo".
Definition PT_WAFFO_PANCAKE : jstr := "waffo_pancake".

Definition DEFAULT_PRESET_MULTIPLIERS : list num := map num_of_Z [1; 5; 10; 30; 50; 100; 300; 500]%Z.
Definition DEFAULT_MIN_TOPUP : num := num_of_Z 1.
Definition MAX_TOPUP_AMOUNT : num := num_of_Z 10000.

#[global] Instance status_eq_dec : EqDecision PublicPaymentStatusCode.
Proof. solve_decision. Defined.
#[global] Instance provider_eq_dec : EqDecision PaymentMethodProvider.
Proof. solve_decision. Defined.
#[global] Instance mode_eq_dec : EqDecision PaymentCheckoutMode.
Proof. solve_decision. Defined.

(** ** Status *)

(** [expiresAt] is in seconds, [nowMs] in milliseconds. *)
Definition getEffectivePaymentStatus (status : PublicPaymentStatusCode) (expiresAt nowMs : Z) :
    PublicPaymentStatusCode :=
  if (0 <? expiresAt)%Z && (expiresAt * 1000 <=? nowMs)%Z
     && (bool_decide (status = preparing) || bool_decide (status = awaiting_payment))
  then expired else status.

(** [parseQuery] is [URLSearchParams]: the entries of a query string. *)
Definition isPaymentReturnCancelled (parseQuery : jstr → list (jstr * jstr)) (search : jstr) : bool :=
  bool_decide (map_get "payment_result" (parseQuery search) = Some "cancelled").

(** ** URLs *)

Definition isLoopbackHostname (h : jstr) : bool :=
  (h === "localhost") || (h === "127.0.0.1") || (h === "[::1]").

Section urls.
Context `{UrlParser} (window : option Location).

Definition getSafePaymentUrl (v : jstr) : option URL :=
  match window with
  | None => None
  | Some w =>
    match new_URL v (Some (l_origin w)) with
    | None => None
    | Some url =>
      if truthy (username url) || truthy (password url) then None
      else if protocol url === "https:" then Some url
      else if (protocol url === "http:") && isLoopbackHostname (hostname url)
              && isLoopbackHostname (l_hostname w)
      then Some url else None
    end
  end.

(** The page it navigates to, if it does. *)
Definition navigateToPaymentUrl (v : jstr) : option jstr := href <$> getSafePaymentUrl v.

(** The check that [getSafePaymentContinueUrl] and
    [getSafeWeChatAuthorizationUrl] share: a URL of this origin whose path is
    that of the order and which carries nothing else. *)
Definition is_order_url (w : Location) (expectedPath : jstr) (url : URL) : bool :=
  negb (negb (origin url === l_origin w) || negb (pathname url === expectedPath)
        || truthy (username url) || truthy (password url)
        || truthy (u_search url) || truthy (u_hash url)).

Definition getSafePaymentContinueUrl (v tradeNo : jstr) : option URL :=
  match window with
  | None => None
  | Some w =>
    if negb (truthy tradeNo) || (128 <? length tradeNo) then None
    else
      match new_URL v (Some (l_origin w)), encodeURIComponent tradeNo with
      | Some url, Some enc =>
        if is_order_url w ("/api/user/payment/orders/" ++ enc ++ "/continue") url
        then Some url else None
      | _, _ => None
      end
  end.

Definition getSafeWeChatAuthorizationUrl (v : option jstr) (tradeNo : jstr) : option URL :=
  match window, v with
  | Some w, Some v =>
    if negb (truthy v) || negb (truthy tradeNo) || (128 <? length tradeNo) then None
    else
      match new_URL v (Some (l_origin w)), encodeURIComponent tradeNo with
      | Some url, Some enc =>
        if is_order_url w ("/api/user/payment/orders/" ++ enc ++ "/wechat-authorize") url
        then Some url else None
      | _, _ => None
      end
  | _, _ => None
  end.

(** The form it submits, if it does: the action and the hidden fields. *)
Definition submitPaymentForm (url : jstr) (params : list (jstr * jstr)) :
    option (jstr * list (jstr * jstr)) :=
  (fun u => (href u, params)) <$> getSafePaymentUrl url.
End urls.

(** ** Browsers *)

Inductive PaymentBrowserEnvironment := desktop | mobile | wechat.

#[global] Instance env_eq_dec : EqDecision PaymentBrowserEnvironment.
Proof. solve_decision. Defined.

Definition re_wechat : regex := rlit_ci "MicroMessenger".
Definition re_mobile : regex :=
  (rlit_ci "Android" <+> rlit_ci "iPhone" <+> rlit_ci "iPad" <+> rlit_ci "iPod" <+> rlit_ci "Mobile")%re.

Definition detectPaymentBrowserEnvironment (userAgent : jstr) : PaymentBrowserEnvironment :=
  if test re_wechat userAgent then wechat
  else if test re_mobile userAgent then mobile else desktop.

Definition alias_in (l : list jstr) (m : PaymentMethod) : bool :=
  match channel_alias m with Some a => has a l | None => false end.
Definition is_jsapi : PaymentMethod → bool := alias_in ["wechat_browser"; "jsapi"].
Definition is_native : PaymentMethod → bool := alias_in ["qr"; "native"].

Definition wechatJSAPIGroups (methods : list PaymentMethod) : list jstr :=
  map public_method
    (filter (fun m => (public_method m === "wechat_pay") && is_jsapi m = true) methods).

Definition in_environment (methods : list PaymentMethod) (environment : PaymentBrowserEnvironment)
    (m : PaymentMethod) : bool :=
  if negb (public_method m === "wechat_pay") then true
  else if negb (bool_decide (environment = wechat)) then negb (is_jsapi m)
  else negb (is_native m && has (public_method m) (wechatJSAPIGroups methods)).

Definition is_brand (m : PaymentMethod) : bool :=
  (public_method m === "alipay") || (public_method m === "wechat_pay").

(** The second filter: the first route of each brand, in order. *)
Fixpoint select_brands (selected : list jstr) (ms : list PaymentMethod) : list PaymentMethod :=
  match ms with
  | [] => []
  | m :: ms' =>
    if negb (is_brand m) then m :: select_brands selected ms'
    else if has (public_method m) selected then select_brands selected ms'
    else m :: select_brands (public_method m :: selected) ms'
  end.

Definition filterPaymentMethodsForBrowser (methods : list PaymentMethod)
    (environment : PaymentBrowserEnvironment) : list PaymentMethod :=
  select_brands [] (filter (fun m => in_environment methods environment m = true) methods).

(** ** QR codes and JSAPI parameters *)

(** [for (const character of value)]: code points; an unpaired surrogate stands
    for itself. *)
Fixpoint code_points (s : jstr) : list N :=
  match s with
  | [] => []
  | c :: s' =>
    match s' with
    | d :: s'' =>
      if in_range 0xD800 0xDBFF c && in_range 0xDC00 0xDFFF d
      then (65536 + (c - 0xD800) * 1024 + (d - 0xDC00))%N :: code_points s''
      else c :: code_points s'
    | [] => [c]
    end
  end.

Definition hasForbiddenPaymentControlCharacters (s : jstr) : bool :=
  existsb (fun c => (c <=? 0x1f)%N || (c =? 0x7f)%N) (code_points s).

Definition pr_char (c : N) : bool := is_alnum c || one_of "_-" c.
Definition hosted_char (c : N) : bool := is_alnum c || one_of "._~/-" c.
Definition alipay_char (c : N) : bool := is_alnum c || one_of "._~-" c.

(** [/^[A-Za-z0-9_-]{1,512}$/] *)
Definition re_pr : regex := (RBol · RRep (RUnit pr_char) 1 (Some 512) · REol)%re.
(** [/^(https?):\/\/([^/?#]+)(\/[^?#]* )$/] (without the space) *)
Definition re_hosted : regex :=
  (RBol · RGroup 1 (rlit "http" · ropt (rlit "s")) · rlit "://" ·
   RGroup 2 (rplus (RUnit (none_of "/?#"))) ·
   RGroup 3 (rlit "/" · rstar (RUnit (none_of "?#"))) · REol)%re.
(** [/^\/[A-Za-z0-9._~/-]+$/] *)
Definition re_hosted_path : regex := (RBol · rlit "/" · rplus (RUnit hosted_char) · REol)%re.
(** [/^https:\/\/([^/?#]+)(\/[^?#]+)$/] *)
Definition re_alipay : regex :=
  (RBol · rlit "https://" · RGroup 1 (rplus (RUnit (none_of "/?#"))) ·
   RGroup 2 (rlit "/" · rplus (RUnit (none_of "?#"))) · REol)%re.
(** [/^\/[A-Za-z0-9._~-]+$/] *)
Definition re_alipay_path : regex := (RBol · rlit "/" · rplus (RUnit alipay_char) · REol)%re.

Section qr.
Context `{UrlParser} `{UnicodeCase}.

Definition is_safe_weixin (trimmed : jstr) : bool :=
  match new_URL trimmed None with
  | None => false
  | Some url =>
    startsWith "weixin://wxpay/bizpayurl?" trimmed &&
    (protocol url === "weixin:") && (host url === "wxpay") &&
    negb (truthy (username url)) && negb (truthy (password url)) && negb (truthy (port url)) &&
    negb (truthy (u_hash url)) && (pathname url === "/bizpayurl") &&
    match searchParams url with
    | [(k, v)] => (k === "pr") && test re_pr v
    | _ => false
    end
  end.

Definition is_safe_hosted_path (path : jstr) : bool :=
  (2 <=? length path) && (length path <=? 2049) && test re_hosted_path path &&
  negb (startsWith "//" path) && negb (includes "/../" path) && negb (endsWith "/.." path).

Definition is_safe_alipay_path (path : jstr) : bool :=
  (2 <=? length path) && (length path <=? 2049) && test re_alipay_path path.

Definition isSafePaymentQrContent (v : jstr) : bool :=
  let trimmed := trim v in
  if negb (truthy trimmed) || negb (v === trimmed) || (4096 <? length trimmed) then false
  else if hasForbiddenPaymentControlCharacters trimmed || includes "\" trimmed || includes "#" trimmed
  then false
  else if startsWith "weixin://" trimmed then is_safe_weixin trimmed
  else
    let alipay :=
      match exec re_alipay trimmed with
      | Some m => (toLowerCase (default [] (cap 1 m)) === "qr.alipay.com") &&
                  is_safe_alipay_path (default [] (cap 2 m))
      | None => false
      end in
    match exec re_hosted trimmed with
    | Some m =>
      if toLowerCase (default [] (cap 2 m)) === "ipay.yltg.com.cn"
      then is_safe_hosted_path (default [] (cap 3 m)) else alipay
    | None => alipay
    end.
End qr.

(** [/^wx[A-Za-z0-9]{16}$/] and [/^\d{1,16}$/] *)
Definition re_app_id : regex := (RBol · rlit "wx" · RRep (RUnit is_alnum) 16 (Some 16) · REol)%re.
Definition re_timestamp : regex := (RBol · RRep (RUnit is_digit) 1 (Some 16) · REol)%re.

Definition isSafePaymentJSAPIParameters (parameters : option PaymentJSAPIParameters) : bool :=
  match parameters with
  | None => false
  | Some p =>
    test re_app_id (app_id p) && test re_timestamp (timestamp p) &&
    (0 <? length (nonce_str p)) && (length (nonce_str p) <=? 128) &&
    negb (hasForbiddenPaymentControlCharacters (nonce_str p)) &&
    startsWith "prepay_id=" (package p) && (length (package p) <=? 256) &&
    negb (hasForbiddenPaymentControlCharacters (package p)) &&
    has (sign_type p) ["MD5"; "HMAC-SHA256"] &&
    (16 <=? length (pay_sign p)) && (length (pay_sign p) <=? 256) &&
    negb (hasForbiddenPaymentControlCharacters (pay_sign p))
  end.

(** ** Providers *)

Definition isPaymentProvider (v : jstr) : option PaymentMethodProvider :=
  if v === "epay" then Some epay else if v === "stripe" then Some stripe
  else if v === "xorpay" then Some xorpay else None.

Definition getPaymentMethodProvider (type : jstr) (configuredProvider : jsval) :
    PaymentMethodProvider :=
  let by_type :=
    if type === PT_STRIPE then stripe
    else if (type === PT_XORPAY_NATIVE) || (type === PT_XORPAY_ALIPAY) then xorpay
    else if type === PT_CREEM then creem
    else if type === PT_WAFFO then waffo
    else if type === PT_WAFFO_PANCAKE then waffo_pancake
    else epay in
  match configuredProvider with
  | JStr c =>
    match isPaymentProvider c with
    | Some p => p
    | None => if c === "creem" then creem else if c === "waffo" then waffo
              else if c === "waffo_pancake" then waffo_pancake else by_type
    end
  | _ => by_type
  end.

(** ** Errors *)

Definition PAYMENT_ERROR_MESSAGES : list (jstr * jstr) := [
  ("PAYMENT_INVALID_REQUEST",
   "Payment details are invalid. Review them and try again.");
  ("PAYMENT_REQUEST_INVALID",
   "Payment details are invalid. Review them and try again.");
  ("PAYMENT_METHOD_UNAVAILABLE",
   "This payment method is temporarily unavailable");
  ("PAYMENT_AMOUNT_INVALID",
   "Enter a valid payment amount.");
  ("PAYMENT_AMOUNT_BELOW_MINIMUM",
   "The payment amount is below the minimum.");
  ("PAYMENT_SINGLE_LIMIT_EXCEEDED",
   "This amount exceeds the single payment limit.");
  ("PAYMENT_DAILY_LIMIT_EXCEEDED",
   "The daily limit for this payment method has been reached.");
  ("PAYMENT_QUOTE_LIMIT_REACHED",
   "Too many payment quotes are active. Wait for one to expire and try again.");
  ("PAYMENT_QUOTE_EXPIRED",
   "Payment quote expired. Please request a new quote.");
  ("PAYMENT_QUOTE_CONSUMED",
   "This payment quote has already been used. Request a new quote.");
  ("PAYMENT_QUOTE_NOT_FOUND",
   "This payment quote is no longer available. Request a new quote.");
  ("PAYMENT_ORDER_LIMIT_REACHED",
   "Too many payment orders are active. Complete an existing order or wait for it to expire.");
  ("PAYMENT_IDEMPOTENCY_CONFLICT",
   "This payment conflicts with an earlier request. Refresh and try again.");
  ("PAYMENT_REQUEST_CONFLICT",
   "This payment conflicts with an earlier request. Refresh and try again.");
  ("PAYMENT_CONFIGURATION_CHANGED",
   "Payment settings changed. Request a new quote and try again.");
  ("PAYMENT_REVIEW_REQUIRED",
   "This payment needs review. Keep the order number and contact support.");
  ("PAYMENT_REQUIRES_SUPPORT",
   "This payment needs review. Keep the order number and contact support.");
  ("PAYMENT_ACCOUNT_UNAVAILABLE",
   "This payment method is temporarily unavailable");
  ("PAYMENT_REDIRECT_INVALID",
   "Payment is temporarily unavailable. Try again.");
  ("PAYMENT_PRODUCT_UNAVAILABLE",
   "This payment method is temporarily unavailable");
  ("PAYMENT_COMPLIANCE_REQUIRED",
   "Payment is temporarily unavailable. Try again later or contact support.");
  ("SUBSCRIPTION_PURCHASE_LIMIT_REACHED",
   "The purchase limit for this access plan has been reached.");
  ("PAYMENT_CONFIRMATION_PENDING",
   "Payment confirmation is pending");
  ("PAYMENT_ORDER_EXPIRED",
   "Payment expired");
  ("PAYMENT_NOT_READY",
   "Preparing your payment");
  ("PAYMENT_ORDER_NOT_FOUND",
   "This payment order could not be found.");
  ("PAYMENT_TEMPORARILY_UNAVAILABLE",
   "Payment is temporarily unavailable. Try again.")
].

Record PaymentErrorDetails := MkErrorDetails { code : option jstr; params : option jsval }.

Fixpoint details_go (fuel : nat) (source : jsval) : PaymentErrorDetails :=
  match fuel with
  | O => MkErrorDetails None None
  | S f =>
    if negb (is_objectlike source) then MkErrorDetails None None
    else
      match get "code" source with
      | JStr c =>
        let p := get "params" source in
        MkErrorDetails (Some c) (if is_objectlike p then Some p else None)
      | _ =>
        let data := get "data" (get "response" source) in
        if val_truthy data then details_go f data else MkErrorDetails None None
      end
  end.

Definition getPaymentErrorDetails (source : jsval) : PaymentErrorDetails :=
  details_go (S (depth source)) source.

(** The properties of the [Error] object that is created; [undefined] is kept. *)
Definition createPaymentError (source : jsval) : jsval :=
  let details := getPaymentErrorDetails source in
  JObj [("message" : jstr, JStr "payment_error");
        ("code" : jstr, match code details with Some c => JStr c | None => JUndefined end);
        ("params" : jstr, default JUndefined (params details))].

Section messages.
Context `{UnicodeCase}.
(** [t key options]; the options are the interpolated numbers. *)
Context (t : jstr → list (jstr * num) → jstr).

Definition unavailable_message : jstr := "Payment is temporarily unavailable. Try again.".

Definition getPaymentErrorMessage (source : jsval) : jstr :=
  if negb (is_objectlike source) then t unavailable_message []
  else
    let details := getPaymentErrorDetails source in
    let fallback := t unavailable_message [] in
    match code details with
    | None => fallback
    | Some c =>
      if negb (truthy c) then fallback
      else
        let normalizedCode := toUpperCase c in
        let known :=
          match map_get normalizedCode PAYMENT_ERROR_MESSAGES with
          | Some message => if truthy message then t message [] else fallback
          | None => fallback
          end in
        let field k := as_number (get k (default JUndefined (params details))) in
        match normalizedCode === "PAYMENT_AMOUNT_INVALID", field "min", field "max" with
        | true, Some mn, Some mx =>
          t "Enter an amount between {{min}} and {{max}}." [("min", mn); ("max", mx)]
        | _, _, _ => known
        end
    end.

(** ** Public codes *)

(** [/^[A-Za-z0-9][A-Za-z0-9_-]{0,127}$/], [/^[a-z][a-z0-9_]{0,63}$/] (twice) and
    [/(?:^|_)(?:epay|xorpay|stripe|waffo|creem)(?:_|$)/] *)
Definition PUBLIC_ROUTE_ID_PATTERN : regex :=
  (RBol · RUnit is_alnum · RRep (RUnit pr_char) 0 (Some 127) · REol)%re.
Definition code_char (c : N) : bool := is_lower c || is_digit c || (c =? 95)%N.
Definition PUBLIC_METHOD_PATTERN : regex :=
  (RBol · RUnit is_lower · RRep (RUnit code_char) 0 (Some 63) · REol)%re.
Definition PUBLIC_CHANNEL_ALIAS_PATTERN : regex := PUBLIC_METHOD_PATTERN.
Definition INTERNAL_PAYMENT_TERMS : regex :=
  ((RBol <+> rlit "_") ·
   (rlit "epay" <+> rlit "xorpay" <+> rlit "stripe" <+> rlit "waffo" <+> rlit "creem") ·
   (rlit "_" <+> REol))%re.

Definition isPublicPaymentRouteId (v : jsval) : option jstr :=
  match v with
  | JStr s => if test PUBLIC_ROUTE_ID_PATTERN s then Some s else None
  | _ => None
  end.

(** *** 32-bit arithmetic: [^], [Math.imul] and [>>> 0] *)
Definition int32_xor (a b : Z) : Z := to_int32 (Z.lxor (to_int32 a) (to_int32 b)).
Definition imul (a b : Z) : Z := to_int32 (to_int32 a * to_int32 b).
Definition to_uint32 (z : Z) : Z := (z mod 2 ^ 32)%Z.

Definition fnv_step (hash : Z) (c : N) : Z := imul (int32_xor hash (Z.of_N c)) 0x01000193.

Definition createLegacyPaymentRouteId (provider : PaymentMethodProvider)
    (paymentMethod displayName : jstr) : jstr :=
  let source := provider_string provider ++ [0%N] ++ paymentMethod ++ [0%N] ++ displayName in
  let hash := foldl fnv_step 0x811c9dc5%Z source in
  "route_" ++ padStart 8 48%N (toString16 (Z.to_N (to_uint32 hash))).

Definition normalizePaymentRouteId (v : jsval) (provider : PaymentMethodProvider)
    (paymentMethod displayName : jstr) : jstr :=
  default (createLegacyPaymentRouteId provider paymentMethod displayName) (isPublicPaymentRouteId v).

Definition is_public_code (s : jstr) : bool :=
  test PUBLIC_METHOD_PATTERN s && negb (test INTERNAL_PAYMENT_TERMS s).

Definition normalizePublicPaymentMethod (v : jsval) (legacyPaymentMethod legacyDisplayName : jstr) :
    jstr :=
  let legacy :=
    let legacyValue := toLowerCase (legacyPaymentMethod ++ " " ++ legacyDisplayName) in
    if includes "alipay" legacyValue then "alipay"
    else if includes "wxpay" legacyValue || includes "wechat" legacyValue
            || (legacyPaymentMethod === PT_XORPAY_NATIVE) then "wechat_pay"
    else if includes "stripe" legacyValue || includes "card" legacyValue then "card"
    else "online_payment" in
  match v with
  | JStr s =>
    let normalized := toLowerCase (trim s) in
    if is_public_code normalized then normalized else legacy
  | _ => legacy
  end.

Definition normalizePaymentChannelAlias (v : jsval) : option jstr :=
  match v with
  | JStr s =>
    let normalized := toLowerCase (trim s) in
    if negb (test PUBLIC_CHANNEL_ALIAS_PATTERN normalized) || test INTERNAL_PAYMENT_TERMS normalized
    then None else Some normalized
  | _ => None
  end.

(** *** Labels *)

Definition getPublicPaymentMethodLabel (publicMethod : jstr) : jstr :=
  if publicMethod === "alipay" then t "Alipay" []
  else if publicMethod === "wechat_pay" then t "WeChat Pay" []
  else if publicMethod === "card" then t "Card payment" []
  else t "Online payment" [].

Definition getPublicPaymentChannelAliasLabel (channelAlias : option jstr) : option jstr :=
  match channelAlias with
  | None => None
  | Some a =>
    if has a ["qr"; "native"] then Some (t "QR payment" [])
    else if has a ["redirect"; "checkout"] then Some (t "Secure checkout" [])
    else if has a ["jsapi"; "wechat_browser"] then Some (t "WeChat in-app payment" [])
    else if a === "payment" then None
    else Some (t "Online payment" [])
  end.

Definition getPublicPaymentChannelLabel (method : PaymentMethod) (methods : list PaymentMethod) :
    option jstr :=
  let matchingMethods := filter (fun c => public_method c = public_method method) methods in
  let aliasLabel := getPublicPaymentChannelAliasLabel (channel_alias method) in
  if 1 <? length matchingMethods then
    let sameAliasCount :=
      length (filter (fun c => channel_alias c = channel_alias method) matchingMethods) in
    let numbered :=
      match findIndex (fun c => route_id c === route_id method) matchingMethods with
      | Some (S i) => Some (t "Backup channel {{number}}" [("number", num_of_Z (Z.of_nat (S i)))])
      | _ => Some (t "Recommended channel" [])
      end in
    match aliasLabel with
    | Some l => if truthy l && (sameAliasCount =? 1) then Some l else numbered
    | None => numbered
    end
  else aliasLabel.

Definition getPublicPaymentMethodIconType (m : PaymentMethod) : option jstr :=
  if public_method m === "alipay" then Some PT_ALIPAY
  else if public_method m === "wechat_pay" then Some PT_WECHAT
  else None.

Definition getPublicPaymentRecordMethodName (publicMethod : jsval) : jstr :=
  getPublicPaymentMethodLabel (normalizePublicPaymentMethod publicMethod [] []).
End messages.

(** ** Routes and amounts *)

Definition isStripePayment (paymentType : jstr) : bool := paymentType === PT_STRIPE.
Definition isWaffoPancakePayment (paymentType : jstr) : bool := paymentType === PT_WAFFO_PANCAKE.

Definition isUnifiedPaymentMethod (m : PaymentMethod) : bool :=
  bool_decide (checkout_mode m = mode_quote) || bool_decide (checkout_mode m = mode_direct).
Definition isWaffoPancakeMethod (m : PaymentMethod) : bool :=
  bool_decide (checkout_mode m = mode_direct).

Definition filterEligibleSubscriptionQuoteMethods (methods : list PaymentMethod)
    (eligibleRouteIDs : option (list jstr)) : list PaymentMethod :=
  filter (fun m => bool_decide (checkout_mode m = mode_quote)
                   && has (route_id m) (default [] eligibleRouteIDs) = true) methods.

Definition getDefaultPaymentMethod (topupInfo : option TopupInfo) : option PaymentMethod :=
  match topupInfo with
  | None => None
  | Some info => head (filter (fun m => isUnifiedPaymentMethod m = true) (payment_routes info))
  end.

(** [Number(undefined)] is NaN. *)
Definition route_minimums (routes : list PaymentMethod) : list num :=
  filter (fun x => isFinite x && num_ltb (S754_zero false) x = true)
    (map (fun r => default S754_nan (min_topup r))
       (filter (fun r => checkout_mode r ≠ mode_product) routes)).

Definition getMinTopupAmount (topupInfo : option TopupInfo) : num :=
  match topupInfo with
  | None => DEFAULT_MIN_TOPUP
  | Some info =>
    let routeMinimums := route_minimums (payment_routes info) in
    if 0 <? length routeMinimums then math_min routeMinimums
    else if num_truthy (info_min_topup info) then info_min_topup info else DEFAULT_MIN_TOPUP
  end.

Definition generatePresetAmounts (minAmount : num) : list PresetAmount :=
  filter (fun p => isSafeInteger (value p) && num_leb minAmount (value p)
                   && num_leb (value p) MAX_TOPUP_AMOUNT = true)
    (map (fun multiplier => MkPreset (num_mul minAmount multiplier) None)
       DEFAULT_PRESET_MULTIPLIERS).

(** [discounts] is keyed by the decimal numeral of the amount, as the keys of a
    JavaScript object are. *)
Definition mergePresetAmounts (amountOptions : list num) (discounts : list (jstr * num)) :
    list PresetAmount :=
  if length amountOptions =? 0 then []
  else
    map (fun amount =>
           let d := default S754_nan (map_get (js_of_Z (num_trunc amount)) discounts) in
           MkPreset amount (Some (if num_truthy d then d else num_of_Z 1)))
      (filter (fun amount => isSafeInteger amount && num_leb (num_of_Z 1) amount
                             && num_leb amount MAX_TOPUP_AMOUNT = true) amountOptions).

(** ** Lemmas *)

(** The captures of the two URL patterns, read off a match. *)
Lemma exec_bol_M r s m :
  exec (RBol · r)%re s = Some m → M r (MState [] s []) (m_end m).
Proof.
  rewrite exec_bol. intros (st & Hst & ->)%fmap_Some.
  apply rmatch_sound in Hst as (st' & HM & [= ->]). done.
Qed.

Lemma take_consumed (w s : jstr) : take (length (w ++ s) - length s) (w ++ s) = w.
Proof. rewrite length_app, Nat.add_sub. apply take_app_length. Qed.

Ltac use_rest :=
  repeat match goal with
  | H : _ = _ ++ _ |- _ => first [rewrite H in *; clear H | progress subst]
  end.

Lemma re_alipay_captures s m :
  exec re_alipay s = Some m →
  ∃ h p, s = "https://" ++ h ++ "/" ++ p ∧ cap 1 m = Some h ∧ cap 2 m = Some ("/" ++ p) ∧
    forallb (none_of "/?#") h = true ∧ h ≠ [].
Proof.
  intros HM%exec_bol_M. unfold cap. M_inv. subst. simpl in *. M_inv. simpl in *. subst.
  rewrite app_nil_r in *. do 2 eexists. split; [done|].
  split; [f_equal; apply take_consumed|].
  split; [f_equal; by rewrite Nat.sub_0_r, firstn_all|].
  split; [done|]. intros ->. simpl in *. lia.
Qed.

Lemma re_hosted_captures s m :
  exec re_hosted s = Some m →
  ∃ sch h p, (sch = "http" ∨ sch = "https") ∧ s = sch ++ "://" ++ h ++ "/" ++ p ∧
    cap 2 m = Some h ∧ cap 3 m = Some ("/" ++ p) ∧ forallb (none_of "/?#") h = true ∧ h ≠ [].
Proof.
  intros HM%exec_bol_M. unfold cap. M_inv; subst; simpl in *; M_inv; simpl in *; subst;
    rewrite ?app_nil_r in *.
  - exists "http". do 2 eexists. split; [by left|]. split; [done|].
    split; [f_equal; apply take_consumed|].
    split; [f_equal; by rewrite Nat.sub_0_r, firstn_all|]. split; [done|]. intros ->. simpl in *. lia.
  - exists "https". do 2 eexists. split; [by right|]. split; [done|].
    split; [f_equal; apply take_consumed|].
    split; [f_equal; by rewrite Nat.sub_0_r, firstn_all|]. split; [done|]. intros ->. simpl in *. lia.
Qed.

(** Looking at code points or at code units makes no difference for control
    characters. *)
Lemma control_units s :
  hasForbiddenPaymentControlCharacters s = existsb (fun c => (c <=? 0x1f)%N || (c =? 0x7f)%N) s.
Proof.
  unfold hasForbiddenPaymentControlCharacters.
  set (bad := fun c => (c <=? 0x1f)%N || (c =? 0x7f)%N).
  assert (Hbig : ∀ c, (128 <= c)%N → bad c = false).
  { intros c Hc. unfold bad. apply orb_false_iff. rewrite N.leb_gt, N.eqb_neq. lia. }
  induction s as [s IH] using (induction_ltof1 _ (@length N)). unfold ltof in IH.
  destruct s as [|c [|d s]]; [done..|].
  change (code_points (c :: d :: s)) with
    (if in_range 0xD800 0xDBFF c && in_range 0xDC00 0xDFFF d
     then (65536 + (c - 0xD800) * 1024 + (d - 0xDC00))%N :: code_points s
     else c :: code_points (d :: s)).
  destruct (in_range 0xD800 0xDBFF c && in_range 0xDC00 0xDFFF d) eqn:E.
  - unfold in_range in E. bool_hyps. cbn [existsb]. rewrite IH by (simpl; lia). rewrite !Hbig by lia. done.
  - cbn [existsb]. f_equal. apply (IH (d :: s)). simpl. lia.
Qed.

Lemma no_control s :
  hasForbiddenPaymentControlCharacters s = false → ∀ c, c ∈ s → (31 < c)%N ∧ c ≠ 127%N.
Proof.
  rewrite control_units. intros H c Hc.
  destruct ((c <=? 31)%N || (c =? 127)%N) eqn:E.
  - exfalso. apply not_true_iff_false in H. apply H, existsb_exists. exists c.
    by rewrite <- list_elem_of_In.
  - apply orb_false_iff in E as [E1%N.leb_gt E2%N.eqb_neq]. done.
Qed.

Lemma includes_unit_false c s : includes [c] s = false → c ∉ s.
Proof.
  intros H [a [r ->]]%list_elem_of_split. apply includes_false in H. apply H. by exists a, r.
Qed.

Lemma hosted_path_spec p :
  is_safe_hosted_path ("/" ++ p) = true →
  p ≠ [] ∧ forallb hosted_char p = true ∧ startsWith "/" p = false ∧
  includes "/../" ("/" ++ p) = false ∧ endsWith "/.." ("/" ++ p) = false.
Proof.
  unfold is_safe_hosted_path, re_hosted_path. rewrite test_lit_class by done. intros H.
  bool_hyps. simpl in *. rewrite drop_0 in *. split; [intros ->; simpl in *; lia|done].
Qed.

Lemma alipay_path_spec p :
  is_safe_alipay_path ("/" ++ p) = true → p ≠ [] ∧ forallb alipay_char p = true.
Proof.
  unfold is_safe_alipay_path, re_alipay_path. rewrite test_lit_class by done. intros H.
  bool_hyps. simpl in *. rewrite drop_0 in *. split; [intros ->; simpl in *; lia|done].
Qed.

(** *** Internal names *)

Definition internal_terms : list jstr := ["epay"; "xorpay"; "stripe"; "waffo"; "creem"].

Lemma M_terms st st' :
  M (rlit "epay" <+> rlit "xorpay" <+> rlit "stripe" <+> rlit "waffo" <+> rlit "creem")%re st st' ↔
  ∃ w s, w ∈ internal_terms ∧ rest st = w ++ s ∧ st' = MState (reverse w ++ before st) s (caps st).
Proof.
  rewrite !M_alt_iff, !M_lit. unfold internal_terms. split.
  - intros H. repeat destruct H as [H|H]; destruct H as (s & ? & ?); do 2 eexists;
      (split; [|split; [eassumption|eassumption]]); set_solver.
  - intros (w & s & Hw & ? & ?). rewrite !elem_of_cons in Hw.
    repeat destruct Hw as [->|Hw]; [eauto 10..|by apply not_elem_of_nil in Hw].
Qed.

(** The pattern finds exactly the underscore-separated words that name a
    gateway. *)
Lemma test_internal s :
  test INTERNAL_PAYMENT_TERMS s = existsb (fun w => has w internal_terms) (split_char 95 s).
Proof.
  apply eq_iff_eq_true. rewrite test_M, existsb_exists. setoid_rewrite has_true.
  setoid_rewrite <- list_elem_of_In. setoid_rewrite elem_of_split_char.
  assert (Hno : ∀ w, w ∈ internal_terms → 95%N ∉ w).
  { intros w Hw%list_elem_of_In. revert w Hw. apply List.Forall_forall.
    repeat constructor; rewrite !not_elem_of_cons; repeat split; try done; apply not_elem_of_nil. }
  split.
  - intros (a & b & st & -> & HM). unfold INTERNAL_PAYMENT_TERMS in HM.
    apply M_seq_iff in HM as (st1 & H1 & (st2 & H2 & H3)%M_seq_iff).
    apply M_terms in H2 as (w & s & Hw & E & ->). exists w. split; [|done]. split; [auto|].
    assert (Hs : s = [] ∨ ∃ b', s = 95%N :: b').
    { clear H1. apply M_alt_iff in H3 as [H3|H3]; M_inv; simpl in *; [right|left]; eauto. }
    clear H3. apply M_alt_iff in H1 as [H1|H1]; M_inv; simpl in *.
    + destruct a as [|x a] using rev_ind; [|by rewrite reverse_snoc in *]. subst b.
      exists [], s. auto.
    + subst b. subst. exists (a ++ [95%N]), s. rewrite <- app_assoc. split; [done|]. eauto.
  - intros (w & (Hc & a & b & -> & Ha & Hb) & Hw).
    assert (Hend : ∀ bef cs, ∃ st, M (rlit "_" <+> REol)%re (MState bef b cs) st).
    { intros bef cs. destruct Hb as [->|[b' ->]]; eexists; apply M_alt_iff.
      - right. by apply M_eol_iff.
      - left. apply M_lit. by exists b'. }
    destruct Ha as [->|[a' ->]].
    + destruct (Hend (reverse w) []) as [st Hst]. exists [], (w ++ b), st. split; [done|].
      eapply M_seq; [apply M_alt_l; by constructor|].
      eapply M_seq; [apply M_terms; exists w, b; eauto|]. simpl. by rewrite app_nil_r.
    + destruct (Hend (reverse w ++ 95%N :: reverse a') []) as [st Hst].
      exists a', ([95%N] ++ w ++ b), st. split; [by rewrite <- app_assoc|].
      eapply M_seq; [apply M_alt_r, M_lit; by exists (w ++ b)|].
      eapply M_seq; [apply M_terms; exists w, b; eauto|]. done.
Qed.

(** *** Route identifiers *)

Lemma hex_go_digits fuel n acc :
  forallb pr_char acc = true → forallb pr_char (hex_go fuel n acc) = true.
Proof.
  revert n acc. induction fuel as [|f IH]; intros n acc Ha; [done|]. simpl.
  assert (∀ d, (d < 16)%N → pr_char (hex_lower d) = true) as Hd.
  { intros d Hd. assert (N.to_nat d ∈ seq 0 16) as Hin by (apply elem_of_seq; lia).
    rewrite <- (N2Nat.id d). revert Hin.
    apply (Forall_forall (fun k => pr_char (hex_lower (N.of_nat k)) = true)).
    vm_compute. repeat constructor. }
  assert (forallb pr_char (hex_lower (n mod 16) :: acc) = true) as Hacc.
  { simpl. rewrite Hd by (by apply N.mod_lt). done. }
  case_if; [done|]. by apply IH.
Qed.

Lemma hex_go_length fuel n acc k :
  (n < 16 ^ N.of_nat (S k))%N → length (hex_go fuel n acc) ≤ S k + length acc.
Proof.
  revert n acc k. induction fuel as [|f IH]; intros n acc k Hn; simpl; [lia|].
  destruct (n <? 16)%N eqn:E; simpl; [lia|]. apply N.ltb_ge in E.
  destruct k as [|k]; [change (16 ^ N.of_nat 1)%N with 16%N in Hn; lia|].
  etrans; [apply (IH _ _ k)|simpl; lia].
  rewrite Nat2N.inj_succ, N.pow_succ_r in Hn by lia.
  apply N.Div0.div_lt_upper_bound. lia.
Qed.

Lemma legacy_route_id_shape p m d :
  ∃ h, createLegacyPaymentRouteId p m d = "route_" ++ h ∧ length h = 8 ∧ forallb pr_char h = true.
Proof.
  unfold createLegacyPaymentRouteId.
  generalize (foldl fnv_step 0x811c9dc5%Z (provider_string p ++ [0%N] ++ m ++ [0%N] ++ d)). intros z.
  set (n := Z.to_N (to_uint32 z)). eexists. split; [done|].
  assert (n < 16 ^ N.of_nat 8)%N as Hn.
  { unfold n, to_uint32. pose proof (Z.mod_pos_bound z (2 ^ 32) ltac:(lia)).
    change (16 ^ N.of_nat 8)%N with (Z.to_N (2 ^ 32)). lia. }
  unfold padStart. split.
  - rewrite length_app, length_replicate.
    assert (length (toString16 n) ≤ 8) by (by apply (hex_go_length _ n [] 7)). lia.
  - rewrite forallb_app. apply andb_true_iff. split; [|by apply hex_go_digits].
    generalize (8 - length (toString16 n)). by intros k; induction k.
Qed.

Lemma route_id_test s :
  test PUBLIC_ROUTE_ID_PATTERN s =
  match s with
  | c :: s' => is_alnum c && (forallb pr_char s' && (0 <=? length s') && (length s' <=? 127))
  | [] => false
  end.
Proof. unfold PUBLIC_ROUTE_ID_PATTERN. rewrite test_head_class by (simpl; lia). done. Qed.

Lemma legacy_route_id_public p m d :
  isPublicPaymentRouteId (JStr (createLegacyPaymentRouteId p m d))
  = Some (createLegacyPaymentRouteId p m d).
Proof.
  destruct (legacy_route_id_shape p m d) as (h & -> & Hl & Hh).
  unfold isPublicPaymentRouteId. rewrite route_id_test. simpl. rewrite Hh, Hl. done.
Qed.

(** *** Amounts *)

(** The order on positive finite numbers: the exponent first, then the
    mantissa. *)
Lemma num_ltb_pos_finite m e m' e' :
  num_ltb (S754_finite false m e) (S754_finite false m' e') = true ↔
  (e < e')%Z ∨ e = e' ∧ (m < m')%positive.
Proof.
  unfold num_ltb, SFltb, SFcompare.
  destruct (Z.compare_spec e e') as [->|He|He]; [|split; [auto|done]|split; [done|lia]].
  change (PosDef.Pos.compare_cont Eq m m') with (m ?= m')%positive.
  destruct (Pos.compare_spec m m') as [->|Hm|Hm]; split; intros; try done; try lia; auto.
Qed.

Definition pos_finite (x : num) : bool := isFinite x && num_ltb (S754_zero false) x.

Lemma pos_finite_inv x : pos_finite x = true → ∃ m e, x = S754_finite false m e.
Proof. destruct x as [| | |[] m e]; try done. eauto. Qed.

Lemma num_ltb_trans_neg x y z :
  pos_finite x = true → pos_finite y = true → pos_finite z = true →
  num_ltb y x = false → num_ltb z y = false → num_ltb z x = false.
Proof.
  intros (m1 & e1 & ->)%pos_finite_inv (m2 & e2 & ->)%pos_finite_inv (m3 & e3 & ->)%pos_finite_inv.
  rewrite <- !not_true_iff_false, !num_ltb_pos_finite. lia.
Qed.

Lemma num_ltb_asym x y : pos_finite x = true → pos_finite y = true →
  num_ltb x y = true → num_ltb y x = false.
Proof.
  intros (m1 & e1 & ->)%pos_finite_inv (m2 & e2 & ->)%pos_finite_inv.
  rewrite <- not_true_iff_false, !num_ltb_pos_finite. lia.
Qed.

Lemma num_ltb_irrefl x : pos_finite x = true → num_ltb x x = false.
Proof.
  intros (m1 & e1 & ->)%pos_finite_inv. rewrite <- not_true_iff_false, num_ltb_pos_finite. lia.
Qed.

Lemma math_min2_pos x y : pos_finite x = true → pos_finite y = true →
  math_min2 x y = if num_ltb y x then y else x.
Proof. by intros (m1 & e1 & ->)%pos_finite_inv (m2 & e2 & ->)%pos_finite_inv. Qed.

(** [Math.min] of positive finite numbers is one of them, and none is smaller. *)
Lemma math_min_pos xs :
  xs ≠ [] → Forall (fun x => pos_finite x = true) xs →
  math_min xs ∈ xs ∧ ∀ x, x ∈ xs → num_ltb x (math_min xs) = false.
Proof.
  destruct xs as [|y xs]; [done|]. intros _ [Hy Hxs]%Forall_cons.
  unfold math_min. cbn [foldl].
  replace (math_min2 (S754_infinity false) y) with y
    by (by apply pos_finite_inv in Hy as (? & ? & ->)).
  assert (H : ∀ acc, pos_finite acc = true → Forall (fun x => pos_finite x = true) xs →
    let r := foldl math_min2 acc xs in
    pos_finite r = true ∧ (r = acc ∨ r ∈ xs) ∧ num_ltb acc r = false ∧
    ∀ x, x ∈ xs → num_ltb x r = false).
  { clear. induction xs as [|z xs IH]; intros acc Ha H; simpl.
    - repeat split; auto using num_ltb_irrefl. by intros ? ?%not_elem_of_nil.
    - apply Forall_cons in H as [Hz Hxs]. rewrite math_min2_pos by done.
      assert (∃ a', a' = (if num_ltb z acc then z else acc) ∧ pos_finite a' = true ∧
        (a' = acc ∨ a' = z) ∧ num_ltb acc a' = false ∧ num_ltb z a' = false)
        as (a' & <- & Ha' & Hor & H1 & H2).
      { eexists. split; [done|]. destruct (num_ltb z acc) eqn:E;
          repeat split; auto using num_ltb_irrefl, num_ltb_asym. }
      destruct (IH a' Ha' Hxs) as (Hr & Hin & Hacc & Hall).
      split; [done|]. split; [|split].
      + destruct Hin as [->|?]; [destruct Hor as [->| ->]; set_solver|set_solver].
      + by eapply (num_ltb_trans_neg _ a').
      + intros x [->|Hx]%elem_of_cons; [by eapply (num_ltb_trans_neg _ a')|auto]. }
  destruct (H y Hy Hxs) as (_ & Hin & Hlt & Hall).
  split; [set_solver|]. intros x [->|Hx]%elem_of_cons; auto.
Qed.

(** *** Browser routes *)

Lemma select_brands_sublist sel ms : sublist (select_brands sel ms) ms.
Proof.
  revert sel. induction ms as [|m ms IH]; intros sel; simpl; [constructor|].
  repeat case_if; by constructor.
Qed.

Lemma select_brands_other sel ms :
  filter (fun m => is_brand m = false) (select_brands sel ms) =
  filter (fun m => is_brand m = false) ms.
Proof.
  revert sel. induction ms as [|m ms IH]; intros sel; [done|]. simpl.
  destruct (is_brand m) eqn:E; simpl.
  - rewrite (filter_cons_False _ m ms) by congruence. case_if; [apply IH|].
    rewrite filter_cons_False by congruence. apply IH.
  - rewrite !filter_cons_True by done. by rewrite IH.
Qed.

(** Of each brand the first route is kept. *)
Lemma select_brands_first b sel ms :
  has b ["alipay"; "wechat_pay"] = true →
  filter (fun m => public_method m = b) (select_brands sel ms) =
  if has b sel then [] else take 1 (filter (fun m => public_method m = b) ms).
Proof.
  intros Hb. revert sel. induction ms as [|m ms IH]; intros sel; simpl.
  { by destruct (has b sel). }
  destruct (decide (public_method m = b)) as [E|E].
  - assert (is_brand m = true) as ->.
    { unfold is_brand. rewrite E. revert Hb. unfold has, jeqb.
      rewrite bool_decide_eq_true, !elem_of_cons. intros [->|[->|?%not_elem_of_nil]]; done. }
    simpl. rewrite E. destruct (has b sel) eqn:Es.
    + by rewrite IH, Es.
    + rewrite (filter_cons_True _ m ms), filter_cons_True by done. rewrite IH.
      assert (has b (b :: sel) = true) as -> by (apply has_true; left). done.
  - rewrite (filter_cons_False _ m ms) by done.
    destruct (is_brand m); simpl; [|by rewrite filter_cons_False, IH].
    destruct (has (public_method m) sel); [apply IH|].
    rewrite filter_cons_False by done. rewrite IH.
    destruct (has b sel) eqn:Es.
    + assert (has b (public_method m :: sel) = true) as ->; [|done].
      apply has_true. right. by apply has_true.
    + assert (has b (public_method m :: sel) = false) as ->; [|done].
      apply has_false. apply has_false in Es. apply not_elem_of_cons. auto.
Qed.

Lemma elem_of_jsapi_groups ms g :
  g ∈ wechatJSAPIGroups ms ↔ g = "wechat_pay" ∧ ∃ m, m ∈ ms ∧ public_method m = "wechat_pay" ∧ is_jsapi m = true.
Proof.
  unfold wechatJSAPIGroups. rewrite list_elem_of_fmap. setoid_rewrite list_elem_of_filter.
  split.
  - intros (m & -> & [H Hm]). bool_hyps. eauto.
  - intros (-> & m & Hm & Hp & Hj). exists m. rewrite Hp. split; [done|]. by rewrite jeqb_refl, Hj.
Qed.

(** A route cannot be both. *)
Lemma jsapi_not_native m : is_jsapi m = true → is_native m = false.
Proof.
  unfold is_jsapi, is_native, alias_in. destruct (channel_alias m) as [a|]; [|done].
  rewrite has_true, has_false, !elem_of_cons.
  intros [->|[->|?%not_elem_of_nil]]; [..|done]; by intros [?|[?|?%not_elem_of_nil]].
Qed.

(** *** Errors *)

Lemma details_go_enough f f' v :
  depth v < f → depth v < f' → details_go f v = details_go f' v.
Proof.
  revert f' v. induction f as [|f IH]; intros f' v Hf Hf'; [lia|]. destruct f' as [|f']; [lia|].
  simpl. destruct (is_objectlike v); simpl; [|done].
  destruct (get "code" v); try done.
  all: destruct (val_truthy (get "data" (get "response" v))) eqn:Et; [|done].
  all: apply IH.
  all: destruct (get_depth "data" (get "response" v)) as [H|H]; [|by rewrite H in Et].
  all: destruct (get_depth "response" v) as [H'|H']; [|by rewrite H' in Et].
  all: lia.
Qed.

(** ** Properties *)

(** A parser for evaluation: it knows the URLs of the examples below. *)
Definition demo_page : Location := MkLocation "https://pay.example" "pay.example".
Definition demo_parser : UrlParser := fun v b =>
  if v === "/api/user/payment/orders/T%2F1/continue"
  then Some (MkURL "https:" [] [] "pay.example" [] "/api/user/payment/orders/T%2F1/continue" [] [] [])
  else if v === "/api/user/payment/orders/T%2F1/wechat-authorize"
  then Some (MkURL "https:" [] [] "pay.example" [] "/api/user/payment/orders/T%2F1/wechat-authorize" [] [] [])
  else None.

Lemma safe_url_iff `{UrlParser} window v u :
  getSafePaymentUrl window v = Some u ↔
  ∃ w, window = Some w ∧ new_URL v (Some (l_origin w)) = Some u ∧
    username u = [] ∧ password u = [] ∧
    (protocol u = "https:" ∨
     protocol u = "http:" ∧ isLoopbackHostname (hostname u) = true ∧
     isLoopbackHostname (l_hostname w) = true).
Proof.
  unfold getSafePaymentUrl. destruct window as [w|]; [|naive_solver].
  destruct (new_URL v (Some (l_origin w))) as [url|] eqn:E.
  2:{ split; [done|]. intros (w' & [= <-] & ? & _). congruence. }
  split.
  - intros Hc. exists w. split; [done|].
    assert (url = u) as <- by (repeat case_if; congruence). split; [done|].
    destruct (truthy (username url) || truthy (password url)) eqn:Eu; [done|]. bool_hyps.
    do 2 (split; [done|]). destruct (protocol url === "https:") eqn:Ep; bool_hyps; [by left|].
    case_if; [|done]. bool_hyps. auto.
  - intros (w' & [= <-] & Hu & Hn & Hp & Hor). assert (url = u) as -> by congruence.
    rewrite Hn, Hp. simpl.
    destruct Hor as [->|(-> & -> & ->)]; done.
Qed.

(** C22: a link to continue a payment or to authorize it in WeChat is accepted
    only if it is exactly the page's own address of that order: this origin, the
    order's path with the escaped order number, and nothing else.  The escaped
    number contains no slash, question mark or hash, so that no other path can
    be reached. *)
Theorem order_links_exact `{UrlParser} w v tradeNo u :
  l_origin w ≠ "null" → Forall (fun c => c < 65536)%N tradeNo →
  (getSafePaymentContinueUrl (Some w) v tradeNo = Some u →
   ∃ e, encodeURIComponent tradeNo = Some e ∧ (47%N ∉ e) ∧ (63%N ∉ e) ∧ (35%N ∉ e) ∧
        href u = l_origin w ++ "/api/user/payment/orders/" ++ e ++ "/continue") ∧
  (getSafeWeChatAuthorizationUrl (Some w) (Some v) tradeNo = Some u →
   ∃ e, encodeURIComponent tradeNo = Some e ∧ (47%N ∉ e) ∧ (63%N ∉ e) ∧ (35%N ∉ e) ∧
        href u = l_origin w ++ "/api/user/payment/orders/" ++ e ++ "/wechat-authorize").
Proof.
  intros Hw Hunits.
  assert (Hcore : ∀ e tail url, encodeURIComponent tradeNo = Some e →
    is_order_url w ("/api/user/payment/orders/" ++ e ++ tail) url = true →
    (47%N ∉ e) ∧ (63%N ∉ e) ∧ (35%N ∉ e) ∧
    href url = l_origin w ++ "/api/user/payment/orders/" ++ e ++ tail).
  { intros e tail url He Hok. unfold is_order_url in Hok. bool_hyps.
    destruct (uri_safe_not_slash e) as (? & ? & ?); [by eapply encodeURIComponent_safe|].
    do 3 (split; [done|]). rewrite href_plain; [congruence| |done..].
    unfold origin in *. by case_if; [|congruence]. }
  split.
  - unfold getSafePaymentContinueUrl. case_if; [done|].
    destruct (new_URL v _) as [url|]; [|done].
    destruct (encodeURIComponent tradeNo) as [e|] eqn:Ee; [|done].
    case_if; [|done]. intros [= <-]. exists e. split; [done|]. by apply Hcore.
  - unfold getSafeWeChatAuthorizationUrl. case_if; [done|].
    destruct (new_URL v _) as [url|]; [|done].
    destruct (encodeURIComponent tradeNo) as [e|] eqn:Ee; [|done].
    case_if; [|done]. intros [= <-]. exists e. split; [done|]. by apply Hcore.
Qed.

Lemma order_links_exact_witness :
  let u := MkURL "https:" [] [] "pay.example" [] "/api/user/payment/orders/T%2F1/continue" [] [] [] in
  getSafePaymentContinueUrl (H := demo_parser) (Some demo_page)
    "/api/user/payment/orders/T%2F1/continue" "T/1" = Some u ∧
  ∃ e, encodeURIComponent "T/1" = Some e ∧ (47%N ∉ e) ∧ (63%N ∉ e) ∧ (35%N ∉ e) ∧
    href u = l_origin demo_page ++ "/api/user/payment/orders/" ++ e ++ "/continue".
Proof.
  intros u.
  assert (getSafePaymentContinueUrl (H := demo_parser) (Some demo_page)
    "/api/user/payment/orders/T%2F1/continue" "T/1" = Some u) as Hg by (vm_compute; reflexivity).
  split; [exact Hg|].
  apply (order_links_exact (H := demo_parser) demo_page
    "/api/user/payment/orders/T%2F1/continue" "T/1" u); [discriminate| |exact Hg].
  repeat constructor; lia.
Defined.

(** C6: a QR code that is shown is a WeChat Pay link or leads to one of two
    known hosts: it is trimmed, at most 4096 units long, has no control
    character, backslash or hash, and is [weixin://wxpay/bizpayurl?...], or a
    page of [ipay.yltg.com.cn] without dot segments, or a one-segment page of
    [qr.alipay.com] over https. *)
Theorem qr_allowlist `{UrlParser} `{UnicodeCase} v :
  isSafePaymentQrContent v = true →
  trimmed v ∧ length v ≤ 4096 ∧ (∀ c, c ∈ v → (31 < c)%N ∧ c ≠ 127%N) ∧ (92%N ∉ v) ∧ (35%N ∉ v) ∧
  (startsWith "weixin://wxpay/bizpayurl?" v = true ∨
   (∃ sch h p, (sch = "http" ∨ sch = "https") ∧ v = sch ++ "://" ++ h ++ "/" ++ p ∧
      toLowerCase h = "ipay.yltg.com.cn" ∧ p ≠ [] ∧ forallb hosted_char p = true ∧
      startsWith "/" p = false ∧ includes "/../" ("/" ++ p) = false ∧
      endsWith "/.." ("/" ++ p) = false) ∨
   (∃ h p, v = "https://" ++ h ++ "/" ++ p ∧ toLowerCase h = "qr.alipay.com" ∧ p ≠ [] ∧
      forallb alipay_char p = true)).
Proof.
  unfold isSafePaymentQrContent. cbv zeta. case_if; [done|]. bool_hyps.
  match goal with H : v = trim v |- _ => rewrite <- H in *; rename H into Ht end.
  case_if; [done|]. bool_hyps. intros Hok.
  do 2 (split; [done|]). split; [by apply no_control|].
  do 2 (split; [by apply includes_unit_false|]).
  destruct (startsWith "weixin://" v).
  { left. unfold is_safe_weixin in Hok. destruct (new_URL v None); [|done]. bool_hyps. done. }
  right.
  assert (Hali : match exec re_alipay v with
      | Some m => (toLowerCase (default [] (cap 1 m)) === "qr.alipay.com") &&
                  is_safe_alipay_path (default [] (cap 2 m))
      | None => false end = true →
    ∃ h p, v = "https://" ++ h ++ "/" ++ p ∧ toLowerCase h = "qr.alipay.com" ∧ p ≠ [] ∧
      forallb alipay_char p = true).
  { destruct (exec re_alipay v) as [m|] eqn:Em; [|done].
    destruct (re_alipay_captures _ _ Em) as (h & p & Hv & -> & -> & _). simpl default. intros Hb.
    apply andb_true_iff in Hb as [Hh%jeqb_true [? ?]%alipay_path_spec]. eauto 10. }
  destruct (exec re_hosted v) as [m|] eqn:Em; [|by right; apply Hali].
  destruct (re_hosted_captures _ _ Em) as (sch & h & p & Hsch & Hv & Hc2 & Hc3 & _).
  rewrite Hc2, Hc3 in Hok. simpl default in Hok.
  destruct (toLowerCase h === "ipay.yltg.com.cn") eqn:Eh; [left|by right; apply Hali].
  apply jeqb_true in Eh. apply hosted_path_spec in Hok as (? & ? & ? & ? & ?).
  exists sch, h, p. done.
Qed.

Lemma qr_allowlist_witness :
  let v := "https://QR.alipay.com/bax0123" in
  isSafePaymentQrContent (H := demo_parser) (H0 := ascii_case) v = true ∧
  trimmed v ∧ length v ≤ 4096 ∧ (∀ c, c ∈ v → (31 < c)%N ∧ c ≠ 127%N) ∧ (92%N ∉ v) ∧ (35%N ∉ v) ∧
  (startsWith "weixin://wxpay/bizpayurl?" v = true ∨
   (∃ sch h p, (sch = "http" ∨ sch = "https") ∧ v = sch ++ "://" ++ h ++ "/" ++ p ∧
      toLowerCase (UnicodeCase := ascii_case) h = "ipay.yltg.com.cn" ∧ p ≠ [] ∧
      forallb hosted_char p = true ∧
      startsWith "/" p = false ∧ includes "/../" ("/" ++ p) = false ∧
      endsWith "/.." ("/" ++ p) = false) ∨
   (∃ h p, v = "https://" ++ h ++ "/" ++ p ∧
      toLowerCase (UnicodeCase := ascii_case) h = "qr.alipay.com" ∧ p ≠ [] ∧
      forallb alipay_char p = true)).
Proof.
  intros v. assert (isSafePaymentQrContent (H := demo_parser) (H0 := ascii_case) v = true) as Hv
    by (vm_compute; reflexivity).
  split; [exact Hv|]. exact (qr_allowlist (H := demo_parser) (H0 := ascii_case) v Hv).
Defined.

(** The routes offered in a browser are routes of the server in their order:
    every other method is kept, Alipay shows its first route, WeChat Pay shows
    its first route that works in this browser.  No in-app route is offered
    outside WeChat; inside WeChat no QR route is offered when an in-app route
    exists, and WeChat Pay never disappears there. *)
Theorem filterPaymentMethodsForBrowser_spec methods environment :
  let out := filterPaymentMethodsForBrowser methods environment in
  sublist out methods ∧
  filter (fun m => is_brand m = false) out = filter (fun m => is_brand m = false) methods ∧
  filter (fun m => public_method m = "alipay") out =
    take 1 (filter (fun m => public_method m = "alipay") methods) ∧
  length (filter (fun m => public_method m = "wechat_pay") out) ≤ 1 ∧
  (∀ m, m ∈ out → public_method m = "wechat_pay" →
     (environment ≠ wechat → is_jsapi m = false) ∧
     (environment = wechat →
      (∃ m', m' ∈ methods ∧ public_method m' = "wechat_pay" ∧ is_jsapi m' = true) →
      is_native m = false)) ∧
  (environment = wechat → (∃ m, m ∈ methods ∧ public_method m = "wechat_pay") →
   ∃ m, m ∈ out ∧ public_method m = "wechat_pay").
Proof.
  cbv zeta. unfold filterPaymentMethodsForBrowser.
  set (routes := filter (fun m => in_environment methods environment m = true) methods).
  assert (Hother : ∀ P : PaymentMethod → Prop, ∀ `{∀ m, Decision (P m)},
    (∀ m, P m → public_method m ≠ "wechat_pay") → filter P routes = filter P methods).
  { intros P ? HP. unfold routes. rewrite list_filter_filter. apply list_filter_iff.
    intros m. split; [tauto|]. intros Hm. split; [done|]. unfold in_environment.
    by rewrite (proj2 (jeqb_false _ _) (HP m Hm)). }
  split; [etrans; [apply select_brands_sublist|apply sublist_filter]|].
  split; [rewrite select_brands_other; apply Hother; intros m Hm; unfold is_brand in Hm; by bool_hyps|].
  split.
  { rewrite (select_brands_first "alipay"), (Hother (fun m => public_method m = "alipay")); [done| |done].
    by intros m ->. }
  split.
  { rewrite (select_brands_first "wechat_pay") by done. simpl. destruct (filter _ routes); simpl; lia. }
  split.
  - intros m Hm Hw.
    assert (in_environment methods environment m = true) as Hin.
    { eapply (list_elem_of_filter (fun m => in_environment methods environment m = true)).
      eapply elem_of_submseteq; [exact Hm|]. apply sublist_submseteq, select_brands_sublist. }
    unfold in_environment in Hin. rewrite (proj2 (jeqb_true _ _) Hw) in Hin. simpl in Hin.
    split.
    + intros He. rewrite bool_decide_eq_false_2 in Hin by done. simpl in Hin. by bool_hyps.
    + intros He Hex. rewrite bool_decide_eq_true_2 in Hin by done. simpl in Hin. bool_hyps.
      apply andb_false_iff in Hin as [?|Hin]; [done|]. apply has_false in Hin. exfalso.
      apply Hin, elem_of_jsapi_groups. by rewrite Hw.
  - intros -> (m & Hm & Hw).
    assert (∃ m', m' ∈ routes ∧ public_method m' = "wechat_pay") as (m' & Hm' & Hw').
    { destruct (decide ("wechat_pay" ∈ wechatJSAPIGroups methods)) as [Hg|Hg].
      - apply elem_of_jsapi_groups in Hg as (_ & m' & Hm' & Hw' & Hj). exists m'. split; [|done].
        apply list_elem_of_filter. split; [|done]. unfold in_environment.
        rewrite Hw'. simpl. by rewrite (jsapi_not_native _ Hj).
      - exists m. split; [|done]. apply list_elem_of_filter. split; [|done]. unfold in_environment.
        rewrite Hw. simpl. rewrite (proj2 (has_false _ _) Hg). by rewrite andb_false_r. }
    assert (m' ∈ filter (fun m => public_method m = "wechat_pay") routes) as Hf
      by (by apply list_elem_of_filter).
    pose proof (select_brands_first "wechat_pay" [] routes eq_refl) as Hs. cbn in Hs.
    destruct (filter (fun m => public_method m = "wechat_pay") routes) as [|x xs] eqn:E;
      [by apply not_elem_of_nil in Hf|].
    assert (x ∈ filter (fun m => public_method m = "wechat_pay") (select_brands [] routes)) as Hx
      by (rewrite Hs; left).
    apply list_elem_of_filter in Hx as [? ?]. eauto.
Qed.

(** *** Normalized codes *)

Definition public_code (s : jstr) : Prop :=
  (∃ c s', s = c :: s' ∧ is_lower c = true ∧ forallb code_char s' = true ∧ length s ≤ 64) ∧
  ∀ w, w ∈ split_char 95 s → w ∉ internal_terms.

Lemma is_public_code_spec s : is_public_code s = true → public_code s.
Proof.
  intros Hs. unfold is_public_code, PUBLIC_METHOD_PATTERN in Hs.
  rewrite test_head_class in Hs by (simpl; lia). apply andb_true_iff in Hs as [H1 H2]. split.
  - destruct s as [|c s]; [done|]. bool_hyps. exists c, s. simpl. split; [done|].
    repeat split; [done..|lia].
  - apply negb_true_iff in H2. rewrite test_internal in H2. intros w Hw Hin.
    apply not_true_iff_false in H2. apply H2, existsb_exists. exists w.
    by rewrite <- list_elem_of_In, has_true.
Qed.

Lemma method_public `{UnicodeCase} v m n : public_code (normalizePublicPaymentMethod v m n).
Proof.
  apply is_public_code_spec. unfold normalizePublicPaymentMethod. cbv zeta.
  set (legacy := if includes "alipay" _ then _ else _).
  assert (is_public_code legacy = true) as Hl.
  { unfold legacy. repeat case_if; vm_compute; reflexivity. }
  destruct v; try done. by case_if.
Qed.

Lemma alias_public `{UnicodeCase} v a : normalizePaymentChannelAlias v = Some a → public_code a.
Proof.
  destruct v; try done. simpl. case_if; [done|]. intros [= <-].
  apply is_public_code_spec. unfold is_public_code. by bool_hyps; apply andb_true_iff; rewrite negb_true_iff.
Qed.

Lemma route_id_public v p m d :
  isPublicPaymentRouteId (JStr (normalizePaymentRouteId v p m d)) = Some (normalizePaymentRouteId v p m d).
Proof.
  unfold normalizePaymentRouteId. destruct (isPublicPaymentRouteId v) as [s|] eqn:E;
    [|apply legacy_route_id_public].
  destruct v as [| | | |s'| |]; try done. simpl in *.
  destruct (test PUBLIC_ROUTE_ID_PATTERN s') eqn:Et; [|done]. injection E as <-. by rewrite Et.
Qed.

(** C25: the codes shown to users never reveal a payment gateway: for every input
    the normalized method and channel alias are lower-case identifiers of at most
    64 characters, and no underscore-separated word of them is the name of a
    gateway. *)
Theorem public_codes_hide_gateway `{UnicodeCase} v legacyMethod legacyName :
  public_code (normalizePublicPaymentMethod v legacyMethod legacyName) ∧
  ∀ a, normalizePaymentChannelAlias v = Some a → public_code a.
Proof. split; [apply method_public|apply alias_public]. Qed.

(** Every route gets an identifier the public pattern accepts, normalizing
    it again changes nothing, and the identifier made up for a legacy route is
    [route_] followed by eight hexadecimal digits of its 32-bit hash. *)
Theorem route_id_normal v p m d p' m' d' :
  let r := normalizePaymentRouteId v p m d in
  isPublicPaymentRouteId (JStr r) = Some r ∧
  normalizePaymentRouteId (JStr r) p' m' d' = r ∧
  ∃ h, createLegacyPaymentRouteId p m d = "route_" ++ h ∧ length h = 8.
Proof.
  cbv zeta. pose proof (route_id_public v p m d) as H.
  split; [done|]. split.
  - unfold normalizePaymentRouteId at 1. by rewrite H.
  - destruct (legacy_route_id_shape p m d) as (h & ? & ? & _). eauto.
Qed.

(** The minimum top-up is the smallest positive minimum among the routes that
    take an amount: it is the minimum of one of them and no other is lower.
    Routes that sell products and routes without a usable minimum do not count. *)
Theorem getMinTopupAmount_minimum info :
  route_minimums (payment_routes info) ≠ [] →
  let r := getMinTopupAmount (Some info) in
  isFinite r = true ∧ num_ltb (S754_zero false) r = true ∧
  (∃ m, m ∈ payment_routes info ∧ checkout_mode m ≠ mode_product ∧ min_topup m = Some r) ∧
  ∀ m x, m ∈ payment_routes info → checkout_mode m ≠ mode_product → min_topup m = Some x →
    isFinite x = true → num_ltb (S754_zero false) x = true → num_ltb x r = false.
Proof.
  intros Hne. cbv zeta. unfold getMinTopupAmount.
  set (mins := route_minimums (payment_routes info)) in *.
  assert (Hmem : ∀ x, x ∈ mins ↔ pos_finite x = true ∧ ∃ m, m ∈ payment_routes info ∧
    checkout_mode m ≠ mode_product ∧ min_topup m = Some x).
  { intros x. unfold mins, route_minimums. rewrite list_elem_of_filter, list_elem_of_fmap.
    setoid_rewrite list_elem_of_filter. unfold pos_finite. split.
    - intros (Hx & m & -> & ? & ?). split; [done|]. exists m.
      by destruct (min_topup m).
    - intros (Hx & m & ? & ? & Hm). split; [done|]. exists m. by rewrite Hm. }
  assert (Forall (fun x => pos_finite x = true) mins) as Hpos.
  { apply Forall_forall. intros x Hx. by apply Hmem. }
  destruct (math_min_pos mins Hne Hpos) as [Hin Hmin].
  assert ((0 <? length mins) = true) as -> by (by destruct mins).
  destruct (proj1 (Hmem _) Hin) as [Hp Hex]. unfold pos_finite in Hp. bool_hyps.
  do 2 (split; [done|]). split; [done|].
  intros m x Hm Hmode Hx Hf Hlt. apply Hmin, Hmem. unfold pos_finite. rewrite Hf, Hlt. eauto.
Qed.

Lemma getMinTopupAmount_minimum_witness :
  let route i md mn := MkPaymentMethod i "alipay" None md mn None None None in
  let info := MkTopupInfo true
    [route "a" mode_quote (Some (num_of_Z 20)); route "b" mode_product (Some (num_of_Z 1));
     route "c" mode_direct (Some (num_of_Z 5)); route "d" mode_quote None]
    [] [] [] (num_of_Z 1) [] [] None None None true true None in
  let r := getMinTopupAmount (Some info) in
  r = num_of_Z 5 ∧
  isFinite r = true ∧ num_ltb (S754_zero false) r = true ∧
  (∃ m, m ∈ payment_routes info ∧ checkout_mode m ≠ mode_product ∧ min_topup m = Some r) ∧
  ∀ m x, m ∈ payment_routes info → checkout_mode m ≠ mode_product → min_topup m = Some x →
    isFinite x = true → num_ltb (S754_zero false) x = true → num_ltb x r = false.
Proof.
  intros route info. split; [vm_compute; reflexivity|].
  apply (getMinTopupAmount_minimum info). vm_compute. discriminate.
Defined.

(** For every whole minimum that can be charged, the preset amounts are
    exactly its multiples by the default multipliers that do not exceed the
    upper bound of a top-up: no rounding takes place. *)
Theorem generatePresetAmounts_exact n :
  (1 ≤ n ≤ 10000)%Z →
  map value (generatePresetAmounts (num_of_Z n)) =
  map num_of_Z (filter (fun z => (z ≤ 10000)%Z)
    (map (Z.mul n) [1; 5; 10; 30; 50; 100; 300; 500]%Z)).
Proof.
  intros Hn. unfold generatePresetAmounts, DEFAULT_PRESET_MULTIPLIERS.
  assert (Forall (fun k => 1 ≤ k ≤ 500)%Z [1; 5; 10; 30; 50; 100; 300; 500]%Z) as Hk
    by (repeat constructor; lia).
  induction Hk as [|k ks Hk _ IH]; [done|].
  cbn [map]. rewrite !filter_cons, num_mul_exact by nia. cbn [value].
  destruct (num_of_Z_safe (n * k)) as [-> _]; [nia|].
  unfold MAX_TOPUP_AMOUNT. rewrite !num_of_Z_leb by nia.
  rewrite (proj2 (Z.leb_le n (n * k))) by nia. cbn [andb].
  destruct (n * k <=? 10000)%Z eqn:E; bool_hyps.
  - rewrite !decide_True by done. cbn [map value]. f_equal. exact IH.
  - rewrite decide_False by done. rewrite decide_False by lia. apply IH.
Qed.

Lemma generatePresetAmounts_exact_witness :
  (1 ≤ 30 ≤ 10000)%Z ∧
  map value (generatePresetAmounts (num_of_Z 30)) =
  map num_of_Z (filter (fun z => (z ≤ 10000)%Z)
    (map (Z.mul 30) [1; 5; 10; 30; 50; 100; 300; 500]%Z)).
Proof. split; [lia|]. apply (generatePresetAmounts_exact 30). lia. Defined.

Lemma details_shape f source :
  match code (details_go f source), params (details_go f source) with
  | Some _, Some p => is_objectlike p = true
  | None, Some _ => False
  | _, None => True
  end.
Proof.
  revert source. induction f as [|f IH]; intros source; [done|]. cbn [details_go].
  destruct (is_objectlike source); [|done]. cbn [negb]. destruct (get "code" source); try done.
  5:{ cbn. by destruct (is_objectlike (get "params" source)) eqn:E. }
  all: cbv zeta; destruct (val_truthy (get "data" (get "response" source))); [apply IH|done].
Qed.

(** A created error keeps the details of what it was created from. *)
Lemma created_error_details source : getPaymentErrorDetails (createPaymentError source) = getPaymentErrorDetails source.
Proof.
  pose proof (details_shape (S (depth source)) source) as Hs. fold (getPaymentErrorDetails source) in Hs.
  unfold createPaymentError. destruct (getPaymentErrorDetails source) as [[c|] [p|]]; cbn in Hs; try done.
  unfold getPaymentErrorDetails. cbn -[depth]. by destruct p.
Qed.

Lemma created_error_message `{UnicodeCase} t source :
  getPaymentErrorMessage t (createPaymentError source) = getPaymentErrorMessage t source.
Proof.
  unfold getPaymentErrorMessage at 1. change (is_objectlike (createPaymentError source)) with true. cbn [negb].
  rewrite created_error_details. unfold getPaymentErrorMessage. destruct (is_objectlike source) eqn:E; [done|].
  unfold getPaymentErrorDetails. cbn [details_go negb]. by rewrite E.
Qed.

(** An error shown to the user is always one of the application's own
    messages, whatever the server or the network answered; the error code is
    found through any nesting of responses, and its two numbers are the only
    data of the answer that can appear.  An error created from an answer reads as
    the answer does. *)
Theorem payment_error_closed `{UnicodeCase} t source :
  getPaymentErrorDetails source =
    (if negb (is_objectlike source) then MkErrorDetails None None
     else match get "code" source with
          | JStr c => MkErrorDetails (Some c)
              (if is_objectlike (get "params" source) then Some (get "params" source) else None)
          | _ => let data := get "data" (get "response" source) in
                 if val_truthy data then getPaymentErrorDetails data else MkErrorDetails None None
          end) ∧
  ((∃ k, k ∈ unavailable_message :: map snd PAYMENT_ERROR_MESSAGES ∧
         getPaymentErrorMessage t source = t k []) ∨
   (∃ mn mx, getPaymentErrorMessage t source =
      t "Enter an amount between {{min}} and {{max}}." [("min", mn); ("max", mx)])) ∧
  getPaymentErrorMessage t (createPaymentError source) = getPaymentErrorMessage t source.
Proof.
  split; [|split; [|apply created_error_message]].
  - unfold getPaymentErrorDetails at 1. cbn [details_go].
    destruct (is_objectlike source); [|done]. cbn [negb].
    destruct (get "code" source); try done.
    all: cbv zeta; destruct (val_truthy (get "data" (get "response" source))) eqn:Et; [|done].
    all: apply details_go_enough; [|lia].
    all: destruct (get_depth "data" (get "response" source)) as [H1|H1]; [|by rewrite H1 in Et].
    all: destruct (get_depth "response" source) as [H2|H2]; [lia|by rewrite H2 in Et].
  - assert (Hfb : ∃ k, k ∈ unavailable_message :: map snd PAYMENT_ERROR_MESSAGES ∧
      t unavailable_message [] = t k []) by (eexists; split; [left|done]).
    unfold getPaymentErrorMessage. cbv zeta.
    destruct (is_objectlike source); [|by left]. cbn [negb].
    destruct (code (getPaymentErrorDetails source)) as [c|]; [|by left].
    destruct (truthy c); [|by left]. cbn [negb].
    assert (Hknown : ∃ k, k ∈ unavailable_message :: map snd PAYMENT_ERROR_MESSAGES ∧
      match map_get (toUpperCase c) PAYMENT_ERROR_MESSAGES with
      | Some m => if truthy m then t m [] else t unavailable_message []
      | None => t unavailable_message [] end = t k []).
    { destruct (map_get _ _) as [m|] eqn:Em; [|done]. destruct (truthy m); [|done].
      exists m. split; [right|done]. apply list_elem_of_fmap. eexists (_, m).
      split; [done|]. by apply map_get_elem. }
    destruct (toUpperCase c === "PAYMENT_AMOUNT_INVALID"); [|by left].
    destruct (as_number _); [|by left]. destruct (as_number _); [|by left]. right. eauto.
Qed.
