(* ===== verification/WalletApi.v ===== *)
(** * Answers of the wallet API

    Model of the readers in [features/wallet/api.ts]: an order, a billing record
    and a quote are rebuilt field by field from whatever the server sent, so that
    the pages only see codes, amounts and checkout data of the expected kinds.
    The requests themselves are I/O.

    The number of decimals of a currency is known to the platform
    ([Intl.NumberFormat]): [currencyDigits], where [None] is its [RangeError]. *)

From S2P Require Import Prelude JsRegExp JsValue JsText WebUrl Payment.

(** ** Responses *)

(** [r_body] is the response itself, from which error codes are read. *)
Record ApiResponse (T : Type) := MkResponse {
  r_success : option bool; r_message : option jstr; r_data : option T; r_body : jsval;
}.
Arguments MkResponse {T}.
Arguments r_success {T}.
Arguments r_message {T}.
Arguments r_data {T}.
Arguments r_body {T}.

Definition isApiSuccess {T} (response : ApiResponse T) : bool :=
  bool_decide (r_success response = Some true) || bool_decide (r_message response = Some ("success" : jstr)).

(** A call returns a response or throws. *)
Inductive Outcome (T : Type) := Answered (response : ApiResponse T) | Thrown (error : jsval).
Arguments Answered {T}.
Arguments Thrown {T}.

(** The data of a successful response, or the error that is thrown otherwise. *)
Definition data_or_error {T} (o : Outcome T) : T + jsval :=
  match o with
  | Thrown e => inr e
  | Answered response =>
    match isApiSuccess response, r_data response with
    | true, Some d => inl d
    | _, _ => inr (createPaymentError (r_body response))
    end
  end.

(** ** Data *)

Inductive PaymentCheckoutFlow :=
  | flow_pending | flow_qr | flow_hosted_redirect | flow_form_post | flow_wechat_authorize | flow_jsapi.

#[global] Instance flow_eq_dec : EqDecision PaymentCheckoutFlow.
Proof. solve_decision. Defined.

Record PaymentCheckout := MkCheckout {
  c_flow : PaymentCheckoutFlow; qr_content : option jstr; continue_url : option jstr;
  jsapi : option PaymentJSAPIParameters; c_expires_at : num;
}.

Record PaymentOrder := MkOrder {
  trade_no : jstr; o_route_id : jstr; o_public_method : jstr; o_channel_alias : option jstr;
  status_code : PublicPaymentStatusCode; payment_amount : jstr; o_top_up_amount : option num;
  o_plan_id : option num; o_currency : jstr; o_expires_at : num; completed_at : option num;
  checkout : option PaymentCheckout;
}.

Record TopupRecord := MkRecord {
  t_id : num; t_amount : num; t_payment_amount : jstr; t_trade_no : jstr; t_route_id : jstr;
  t_public_method : jstr; t_channel_alias : option jstr; t_currency : jstr; t_created_at : num;
  t_completed_at : option num; t_status_code : PublicPaymentStatusCode;
}.

Record ClientPaymentQuote := MkQuote {
  quote_id : jstr; q_route_id : jstr; q_public_method : jstr; q_channel_alias : option jstr;
  top_up_amount : option num; plan_id : option num; payable_amount : jstr; currency : jstr;
  expires_at : num;
}.

(** A quote is asked for a route, or for a provider and a method of older servers. *)
Inductive QuoteTarget := by_route (routeId : jstr) | by_provider (provider : PaymentMethodProvider) (method : jstr).
Record PaymentQuoteRequest := MkQuoteRequest {
  rq_subscription : bool; rq_amount : option num; rq_plan_id : option num; rq_target : QuoteTarget;
}.

(** ** Readers *)

(** [Number(v) || 0] and [Number(v) || undefined] *)
Definition number_or_0 (v : jsval) : num := if num_truthy (to_number v) then to_number v else S754_zero false.
Definition number_or_undefined (v : jsval) : option num :=
  if num_truthy (to_number v) then Some (to_number v) else None.
Definition text_or_empty (v : jsval) : jstr := match v with JStr s => s | _ => [] end.
Definition of_option (n : option num) : jsval := match n with Some n => JNum n | None => JUndefined end.

Definition normalizePublicPaymentStatus (v : jsval) : PublicPaymentStatusCode :=
  match v with
  | JStr s =>
    if s === "preparing" then preparing
    else if s === "awaiting_payment" then awaiting_payment
    else if s === "confirming" then confirming
    else if s === "succeeded" then succeeded
    else if s === "expired" then expired
    else if s === "temporarily_unavailable" then temporarily_unavailable
    else if (s === "success") || (s === "fulfilled") then succeeded
    else if (s === "paid") || (s === "processing") then confirming
    else if s === "pending" then preparing
    else temporarily_unavailable
  | _ => temporarily_unavailable
  end.

(** [/^(?:0|[1-9]\d{0,15})(?:\.\d{1,3})?$/] *)
Definition re_decimal : regex :=
  (RBol · (rlit "0" <+> (RUnit (in_range 49 57) · RRep (RUnit is_digit) 0 (Some 15))) ·
   ropt (rlit "." · RRep (RUnit is_digit) 1 (Some 3)) · REol)%re.

Definition normalizePaymentDecimal (v : jsval) (fallback : jstr) : jstr :=
  let candidate := match v with JStr s => trim s | _ => value_to_string (coalesce v (JStr [])) end in
  if test re_decimal candidate then candidate else fallback.

(** [/^[A-Za-z]{3}$/] *)
Definition re_currency : regex := (RBol · RRep (RUnit (fun c => is_upper c || is_lower c)) 3 (Some 3) · REol)%re.

Section readers.
Context `{UnicodeCase} (currencyDigits : jstr → option nat).

Definition readCurrency (v : jsval) (fallback : jstr) : jstr :=
  match v with JStr s => if test re_currency s then toUpperCase s else fallback | _ => fallback end.

Definition fractionDigits (currency : jstr) (provider : PaymentMethodProvider) : nat :=
  if bool_decide (provider = stripe) && ((currency === "ISK") || (currency === "UGX")) then 2
  else default 2 (currencyDigits currency).

Definition legacyPaymentMinorToDecimal (v : jsval) (currency : jstr) (provider : PaymentMethodProvider) : jstr :=
  let amountMinor := to_number v in
  if negb (isSafeInteger amountMinor) || num_ltb amountMinor (S754_zero false) then "0"
  else
    let d := fractionDigits currency provider in
    to_fixed (num_div amountMinor (num_of_Z (10 ^ Z.of_nat d))) d.

Definition readFlow (v : jsval) : option PaymentCheckoutFlow :=
  match v with
  | JStr s =>
    map_get s [("pending" : jstr, flow_pending); ("qr" : jstr, flow_qr); ("hosted_redirect" : jstr, flow_hosted_redirect);
               ("form_post" : jstr, flow_form_post); ("wechat_authorize" : jstr, flow_wechat_authorize);
               ("jsapi" : jstr, flow_jsapi)]
  | _ => None
  end.

Definition readJSAPI (flow : PaymentCheckoutFlow) (raw : jsval) : option PaymentJSAPIParameters :=
  if negb (bool_decide (flow = flow_jsapi)) then None
  else
    a ← as_string (get "app_id" raw); ts ← as_string (get "timestamp" raw); n ← as_string (get "nonce_str" raw);
    pk ← as_string (get "package" raw); st ← as_string (get "sign_type" raw); ps ← as_string (get "pay_sign" raw);
    if (st === "MD5") || (st === "HMAC-SHA256") then Some (MkJSAPI a ts n pk st ps) else None.

Definition readCheckout (raw : jsval) : option PaymentCheckout :=
  if negb (is_objectlike raw) then None
  else
    flow ← readFlow (get "flow" raw);
    Some (MkCheckout flow
      (if bool_decide (flow = flow_qr) then as_string (get "qr_content" raw) else None)
      (if bool_decide (flow = flow_hosted_redirect) || bool_decide (flow = flow_form_post)
          || bool_decide (flow = flow_wechat_authorize)
       then as_string (get "continue_url" raw) else None)
      (readJSAPI flow (get "jsapi" raw))
      (number_or_0 (get "expires_at" raw))).

Definition normalizePublicPaymentOrder (raw : jsval) : option PaymentOrder :=
  let tradeNo := text_or_empty (get "trade_no" raw) in
  if negb (is_objectlike raw) || negb (truthy tradeNo) then None
  else
    let legacyPaymentMethod := text_or_empty (get "payment_method" raw) in
    let legacyProvider :=
      getPaymentMethodProvider legacyPaymentMethod (coalesce (get "provider" raw) (get "payment_provider" raw)) in
    let isSubscription :=
      negb (undefined (get "plan_id" raw)) || (text_or_empty (get "order_kind" raw) === "subscription") in
    let currency := readCurrency (get "currency" raw) "USD" in
    Some (MkOrder tradeNo
      (normalizePaymentRouteId (get "route_id" raw) legacyProvider legacyPaymentMethod tradeNo)
      (normalizePublicPaymentMethod (get "public_method" raw) legacyPaymentMethod [])
      (normalizePaymentChannelAlias (get "channel_alias" raw))
      (normalizePublicPaymentStatus (coalesce (get "status_code" raw) (get "status" raw)))
      (normalizePaymentDecimal (get "payment_amount" raw)
         (legacyPaymentMinorToDecimal (get "expected_amount_minor" raw) currency legacyProvider))
      (if isSubscription then None
       else number_or_undefined (coalesce (get "top_up_amount" raw) (get "requested_amount" raw)))
      (if isSubscription
       then number_or_undefined (coalesce (get "plan_id" raw) (get "requested_amount" raw)) else None)
      currency (number_or_0 (get "expires_at" raw))
      (number_or_undefined (coalesce (get "completed_at" raw) (get "settled_at" raw)))
      (readCheckout (get "checkout" raw))).

Definition normalizePublicBillingRecord (raw : jsval) : option TopupRecord :=
  let tradeNo := text_or_empty (get "trade_no" raw) in
  if negb (is_objectlike raw) || negb (truthy tradeNo) then None
  else
    let currency := readCurrency (get "currency" raw) "CNY" in
    let legacyPaymentMethod := text_or_empty (get "payment_method" raw) in
    let legacyProvider :=
      getPaymentMethodProvider legacyPaymentMethod (coalesce (get "provider" raw) (get "payment_provider" raw)) in
    let legacyMoney := to_number (get "money" raw) in
    let legacyPaymentAmount :=
      if isFinite legacyMoney then normalizePaymentDecimal (JStr (to_fixed legacyMoney 2)) "0" else "0" in
    Some (MkRecord (number_or_0 (get "id" raw)) (number_or_0 (get "amount" raw))
      (normalizePaymentDecimal (get "payment_amount" raw)
         (if negb (undefined (get "expected_amount_minor" raw))
          then legacyPaymentMinorToDecimal (get "expected_amount_minor" raw) currency legacyProvider
          else legacyPaymentAmount))
      tradeNo
      (normalizePaymentRouteId (get "route_id" raw) legacyProvider legacyPaymentMethod tradeNo)
      (normalizePublicPaymentMethod (get "public_method" raw) legacyPaymentMethod [])
      (normalizePaymentChannelAlias (get "channel_alias" raw))
      currency
      (number_or_0 (coalesce (get "created_at" raw) (get "create_time" raw)))
      (number_or_undefined (coalesce (get "completed_at" raw) (get "complete_time" raw)))
      (normalizePublicPaymentStatus (coalesce (get "status_code" raw) (get "status" raw)))).

(** The data of the response to [createPaymentQuote], when there is some. *)
Definition readPaymentQuote (request : PaymentQuoteRequest) (raw : jsval) : ClientPaymentQuote :=
  let quoteId := text_or_empty (get "quote_id" raw) in
  let '(requested, provider, method) :=
    match rq_target request with
    | by_route r => (JStr r, epay, [])
    | by_provider p m => if truthy m then (JUndefined, p, m) else (JUndefined, epay, [])
    end in
  MkQuote quoteId
    (normalizePaymentRouteId (coalesce (get "route_id" raw) requested) provider method quoteId)
    (normalizePublicPaymentMethod (get "public_method" raw) method [])
    (normalizePaymentChannelAlias (get "channel_alias" raw))
    (if rq_subscription request then None
     else number_or_undefined (coalesce (get "top_up_amount" raw) (of_option (rq_amount request))))
    (if rq_subscription request
     then number_or_undefined (coalesce (get "plan_id" raw) (of_option (rq_plan_id request))) else None)
    (normalizePaymentDecimal (get "payable_amount" raw) "0")
    (readCurrency (get "currency" raw) "USD")
    (number_or_0 (get "expires_at" raw)).

(** The items of [getUserBillingHistory]. *)
Definition readBillingItems (items : jsval) : list TopupRecord :=
  match items with JArr l => omap normalizePublicBillingRecord l | _ => [] end.
End readers.

(** ** Lemmas *)

(** A plain decimal: digits without leading zeros, and perhaps a point with digits. *)
Definition plain_integer (s : jstr) : Prop :=
  s = "0" ∨ ∃ c s', s = c :: s' ∧ in_range 49 57 c = true ∧ forallb is_digit s' = true.

Definition plain_decimal (s : jstr) : Prop :=
  plain_integer s ∨
  ∃ ip fp, s = ip ++ "." ++ fp ∧ plain_integer ip ∧ fp ≠ [] ∧ forallb is_digit fp = true.

Lemma plain_integer_js n : plain_integer (js_of_N n).
Proof.
  destruct (decide (n = 0%N)) as [->|Hn]; [by left|right].
  destruct (js_of_N_head n) as (c & s & E & Hc); [lia|]. exists c, s. split; [done|]. split; [done|].
  destruct (js_of_N_spec n) as (_ & Hd & _). rewrite E in Hd. by apply andb_true_iff in Hd as [_ ?].
Qed.

Lemma plain_integer_digits s : plain_integer s → forallb is_digit s = true ∧ s ≠ [].
Proof.
  intros [->|(c & s' & -> & Hc & Hs)]; [done|]. split; [|done]. cbn. rewrite Hs, andb_true_r.
  unfold in_range, is_digit, in_range in *. bool_hyps. apply andb_true_iff. split; apply N.leb_le; lia.
Qed.

Lemma plain_integer_take s k : plain_integer s → 0 < k → k <= length s → plain_integer (take k s).
Proof.
  intros [->|(c & s' & -> & Hc & Hs)] Hk Hl.
  - cbn in Hl. assert (k = 1) as -> by lia. by left.
  - right. destruct k as [|k]; [lia|]. exists c, (take k s'). split; [done|]. split; [done|].
    apply forallb_forall. intros x Hx. apply list_elem_of_In, elem_of_take in Hx as (i & Hi & _).
    apply list_elem_of_lookup_2 in Hi. rewrite forallb_forall in Hs. by apply Hs, list_elem_of_In.
Qed.

Lemma forallb_drop {A} (p : A → bool) k l : forallb p l = true → forallb p (drop k l) = true.
Proof. intros H. rewrite <- (take_drop k l), forallb_app in H. by apply andb_true_iff in H as [_ ?]. Qed.

Lemma fixed_digits_decimal n f : plain_decimal (fixed_digits n f).
Proof.
  unfold fixed_digits. pose proof (plain_integer_js n) as Hi. destruct (plain_integer_digits _ Hi) as [Hd Hne].
  destruct (Nat.eqb_spec f 0) as [|Hf]; [by left|right].
  set (m := js_of_N n) in *. destruct (Nat.leb_spec (length m) f) as [Hl|Hl].
  - set (z := replicate (f + 1 - length m) 48%N).
    assert (Hz : length (z ++ m) = S f) by (unfold z; rewrite length_app, length_replicate; lia).
    rewrite Hz. replace (S f - f) with 1 by lia.
    exists "0", (drop 1 (z ++ m)). split.
    { unfold z. replace (f + 1 - length m) with (S (f - length m)) by lia. done. }
    split; [by left|]. split.
    + intros E%(f_equal length). rewrite length_drop, Hz in E. cbn in E. lia.
    + apply forallb_drop. rewrite forallb_app, Hd, andb_true_r. unfold z. apply forallb_forall.
      intros x Hx%list_elem_of_In%elem_of_replicate. by destruct Hx as [-> _].
  - exists (take (length m - f) m), (drop (length m - f) m). split; [done|].
    split; [apply plain_integer_take; [done|lia|lia]|]. split; [|by apply forallb_drop].
    intros E. assert (Hlen : length (drop (length m - f) m) = f) by (rewrite length_drop; lia).
    rewrite E in Hlen. by symmetry in Hlen.
Qed.

Lemma re_decimal_plain s : test re_decimal s = true → plain_decimal s.
Proof.
  unfold re_decimal. intros [st HM]%test_bol_M. apply M_seq_iff in HM as (st1 & H1 & HM).
  apply M_seq_iff in HM as (st2 & H2 & H3). apply M_eol_iff in H3 as [Hend ->].
  assert (∃ ip, s = ip ++ rest st1 ∧ plain_integer ip) as (ip & -> & Hip).
  { apply M_alt_iff in H1 as [H1|H1]; M_inv; subst.
    - exists "0". split; [done|by left].
    - eexists (_ :: _). split; [by subst|]. right. eauto. }
  clear H1. apply M_opt_inv in H2 as [->|H2]; [| |done].
  - left. rewrite Hend, app_nil_r. done.
  - right. M_inv. subst. exists ip, x. rewrite app_nil_r in H0. rewrite H0. split; [done|]. split; [done|].
    split; [|done]. intros ->. simpl in *. lia.
Qed.

Section read.
Context `{UnicodeCase} (currencyDigits : jstr → option nat).

Lemma decimal_or v fb : plain_decimal fb → plain_decimal (normalizePaymentDecimal v fb).
Proof.
  intros Hfb. unfold normalizePaymentDecimal. cbv zeta.
  match goal with |- context [test re_decimal ?c] => destruct (test re_decimal c) eqn:E end; [|done].
  by apply re_decimal_plain.
Qed.

Lemma zero_plain : plain_decimal "0".
Proof. left. by left. Qed.

Lemma fixed_digits_read n f : parse_digits 10 (List.filter (fun c => negb (c =? 46)%N) (fixed_digits n f)) = n.
Proof.
  destruct (js_of_N_spec n) as (Hp & Hd & _).
  assert (Hkeep : ∀ s, forallb is_digit s = true → List.filter (fun c => negb (c =? 46)%N) s = s).
  { induction s as [|c s IH]; [done|]. cbn [forallb List.filter]. intros [Hc Hs]%andb_true_iff.
    destruct (N.eqb_spec c 46) as [->|]; [done|]. cbn [negb]. by rewrite IH. }
  unfold fixed_digits. destruct (f =? 0); [by rewrite Hkeep|].
  set (m := if length (js_of_N n) <=? f then _ else _).
  assert (forallb is_digit m = true ∧ parse_digits 10 m = n) as [Hmd Hmp].
  { unfold m. destruct (length (js_of_N n) <=? f); [|done]. rewrite forallb_app, Hd, andb_true_r. split.
    - apply forallb_forall. intros x Hx. apply list_elem_of_In, elem_of_replicate in Hx. by destruct Hx as [-> _].
    - rewrite parse_digits_app, Hp. generalize (f + 1 - length (js_of_N n)). intros k.
      assert (parse_digits 10 (replicate k 48%N) = 0%N) as ->; [|lia].
      unfold parse_digits. induction k as [|k IH]; [done|]. exact IH. }
  rewrite !List.filter_app. cbn [List.filter N.eqb negb app]. rewrite <- (take_drop (length m - f) m) in Hmd.
  rewrite forallb_app in Hmd. apply andb_true_iff in Hmd as [H1 H2].
  rewrite (Hkeep _ H1), (Hkeep _ H2). cbn. by rewrite take_drop.
Qed.

(** The minor amount, when it is one, is below 2^51. *)
Definition small_minor (v : jsval) : Prop :=
  (∃ n, to_number v = num_of_Z n ∧ (0 ≤ n < 2 ^ 51)%Z) ∨
  negb (isSafeInteger (to_number v)) || num_ltb (to_number v) (S754_zero false) = true.

Hypothesis Hdigits : ∀ c n, currencyDigits c = Some n → n <= 15.

Lemma fractionDigits_small c p : fractionDigits currencyDigits c p <= 15.
Proof using Hdigits.
  unfold fractionDigits. destruct (_ && _); [lia|].
  destruct (currencyDigits c) as [n|] eqn:E; cbn; [by eapply Hdigits|lia].
Qed.

Lemma minor_exact v c p n :
  to_number v = num_of_Z n → (0 ≤ n < 2 ^ 51)%Z →
  legacyPaymentMinorToDecimal currencyDigits v c p = fixed_digits (Z.to_N n) (fractionDigits currencyDigits c p).
Proof using Hdigits.
  intros Hv Hn. unfold legacyPaymentMinorToDecimal. rewrite Hv.
  assert (isSafeInteger (num_of_Z n) = true) as ->.
  { destruct (decide (n = 0)%Z) as [->|]; [done|]. apply num_of_Z_safe. lia. }
  rewrite <- num_of_Z_0.
  rewrite num_of_Z_ltb by lia. rewrite (proj2 (Z.ltb_ge n 0)) by lia. cbn [negb orb].
  apply to_fixed_quotient; [lia|apply fractionDigits_small].
Qed.

Lemma minor_plain v c p : small_minor v → plain_decimal (legacyPaymentMinorToDecimal currencyDigits v c p).
Proof using Hdigits.
  intros [(n & Hv & Hn)|Hno].
  - rewrite (minor_exact v c p n Hv Hn). apply fixed_digits_decimal.
  - unfold legacyPaymentMinorToDecimal. rewrite Hno. apply zero_plain.
Qed.

Lemma currency_letters v fb :
  (length fb = 3 ∧ forallb is_upper fb = true) →
  length (readCurrency v fb) = 3 ∧ forallb is_upper (readCurrency v fb) = true.
Proof.
  intros Hfb. destruct v as [| | | |s| |]; try done. cbn [readCurrency].
  destruct (test re_currency s) eqn:E; [|done]. unfold re_currency in E.
  rewrite test_class in E by (cbn; lia). bool_hyps.
  assert (Hletter : ∀ c, c ∈ s → (65 ≤ c ≤ 90)%N ∨ (97 ≤ c ≤ 122)%N).
  { intros c Hc. pose proof (forallb_elem _ _ _ H0 Hc) as Hl. cbn beta in Hl.
    unfold is_upper, is_lower, in_range in Hl. rewrite orb_true_iff, !andb_true_iff, !N.leb_le in Hl. lia. }
  rewrite toUpperCase_ascii.
  2:{ apply forallb_forall. intros c Hc%list_elem_of_In%Hletter. apply N.ltb_lt. lia. }
  split; [rewrite length_map; lia|]. apply forallb_forall. intros c' (c & <- & Hc)%in_map_iff.
  apply list_elem_of_In, Hletter in Hc. unfold ascii_upper, is_upper, is_lower, in_range.
  destruct Hc as [Hc|Hc].
  - rewrite (proj2 (N.leb_gt 97 c)) by lia. cbn [andb]. rewrite !(proj2 (N.leb_le _ _)) by lia. done.
  - rewrite (proj2 (N.leb_le 97 c)), (proj2 (N.leb_le c 122)) by lia. cbn [andb].
    rewrite !(proj2 (N.leb_le _ _)) by lia. done.
Qed.

(** What a page may rely on: public codes, a currency, and a plain amount. *)
Record public_fields (route method : jstr) (alias : option jstr) (currency amount : jstr) : Prop := {
  route_public : isPublicPaymentRouteId (JStr route) = Some route;
  method_is_public : public_code method;
  alias_is_public : ∀ a, alias = Some a → public_code a;
  currency_code : length currency = 3 ∧ forallb is_upper currency = true;
  amount_plain : plain_decimal amount;
}.

(** A checkout carries only the data of its own flow. *)
Definition checkout_ok (c : PaymentCheckout) : Prop :=
  (is_Some (qr_content c) → c_flow c = flow_qr) ∧
  (is_Some (continue_url c) → c_flow c ∈ [flow_hosted_redirect; flow_form_post; flow_wechat_authorize]) ∧
  (∀ p, jsapi c = Some p → c_flow c = flow_jsapi ∧ (sign_type p = "MD5" ∨ sign_type p = "HMAC-SHA256")).

Lemma readJSAPI_ok flow raw p :
  readJSAPI flow raw = Some p → flow = flow_jsapi ∧ (sign_type p = "MD5" ∨ sign_type p = "HMAC-SHA256").
Proof.
  unfold readJSAPI. destruct (bool_decide (flow = flow_jsapi)) eqn:E; [|done]. apply bool_decide_eq_true in E.
  cbn [negb]. intros Hp. repeat (apply bind_Some in Hp as (? & _ & Hp)).
  match type of Hp with (if ?b then _ else _) = _ => destruct b eqn:Eb; [|done] end.
  injection Hp as <-. split; [done|]. cbn. apply orb_true_iff in Eb as [Eb|Eb]; apply jeqb_true in Eb; auto.
Qed.

Lemma readCheckout_ok raw c : readCheckout raw = Some c → checkout_ok c.
Proof.
  unfold readCheckout. destruct (negb _); [done|]. intros (flow & _ & [= <-])%bind_Some.
  unfold checkout_ok. cbn. split; [|split].
  - destruct (bool_decide (flow = flow_qr)) eqn:E; [by apply bool_decide_eq_true in E|by intros []].
  - destruct flow; cbn; try (by intros []); intros _; set_solver.
  - intros p. apply readJSAPI_ok.
Qed.

(** ** Properties *)

(** C23: what the pages see of an order or a billing record is well formed, whatever
    the server sent: a trade number, a route and codes that the public patterns
    accept and that name no gateway, a currency of three capital letters, a plain
    decimal amount, at most one of amount and plan, and checkout data of its own
    flow only.  (Amounts in minor units are below 2^51, currencies have at most 15
    decimals.) *)
Theorem orders_well_formed raw :
  small_minor (get "expected_amount_minor" raw) →
  (∀ o, normalizePublicPaymentOrder currencyDigits raw = Some o →
     get "trade_no" raw = JStr (trade_no o) ∧ trade_no o ≠ [] ∧
     public_fields (o_route_id o) (o_public_method o) (o_channel_alias o) (o_currency o) (payment_amount o) ∧
     (o_top_up_amount o = None ∨ o_plan_id o = None) ∧ (∀ c, checkout o = Some c → checkout_ok c)) ∧
  (∀ r, normalizePublicBillingRecord currencyDigits raw = Some r →
     get "trade_no" raw = JStr (t_trade_no r) ∧ t_trade_no r ≠ [] ∧
     public_fields (t_route_id r) (t_public_method r) (t_channel_alias r) (t_currency r) (t_payment_amount r)).
Proof using Hdigits.
  intros Hsmall.
  assert (Htrade : truthy (text_or_empty (get "trade_no" raw)) = true →
    get "trade_no" raw = JStr (text_or_empty (get "trade_no" raw)) ∧ text_or_empty (get "trade_no" raw) ≠ []).
  { destruct (get "trade_no" raw) as [| | | |[|]| |]; cbn; try done. }
  split.
  - intros o. unfold normalizePublicPaymentOrder. destruct (is_objectlike raw); [|done].
    destruct (truthy _) eqn:Et; [|done]. destruct (Htrade eq_refl) as [H1 H2]. cbn [negb orb]. intros [= <-].
    split; [done|]. split; [done|]. split.
    + constructor; [apply route_id_public|apply method_public|by intros a; apply alias_public|by apply currency_letters|].
      apply decimal_or, minor_plain, Hsmall.
    + split; [case_match; auto|]. intros c. apply readCheckout_ok.
  - intros r. unfold normalizePublicBillingRecord. destruct (is_objectlike raw); [|done].
    destruct (truthy _) eqn:Et; [|done]. destruct (Htrade eq_refl) as [H1 H2]. cbn [negb orb]. intros [= <-].
    split; [done|]. split; [done|].
    constructor; [apply route_id_public|apply method_public|by intros a; apply alias_public|by apply currency_letters|].
    apply decimal_or. cbn. case_match; [apply minor_plain, Hsmall|].
    case_match; [|apply zero_plain]. apply decimal_or, zero_plain.
Qed.

(** Amounts in minor units lose nothing: a whole number of them below 2^51 is
    shown as a plain decimal with the decimals of the currency, and the digits of
    that text are the number again. *)
Theorem minor_amounts_exact v currency provider n :
  to_number v = num_of_Z n → (0 ≤ n < 2 ^ 51)%Z →
  let text := legacyPaymentMinorToDecimal currencyDigits v currency provider in
  plain_decimal text ∧ parse_digits 10 (List.filter (fun c => negb (c =? 46)%N) text) = Z.to_N n ∧
  (fractionDigits currencyDigits currency provider ≠ 0 →
   ∃ ip fp, text = ip ++ "." ++ fp ∧ length fp = fractionDigits currencyDigits currency provider).
Proof using Hdigits.
  intros Hv Hn. cbv zeta. rewrite (minor_exact v currency provider n Hv Hn).
  split; [apply fixed_digits_decimal|]. split; [apply fixed_digits_read|]. intros Hd.
  unfold fixed_digits. rewrite (proj2 (Nat.eqb_neq _ _) Hd).
  set (m := if length (js_of_N (Z.to_N n)) <=? _ then _ else _).
  eexists _, _. split; [done|]. rewrite length_drop.
  assert (fractionDigits currencyDigits currency provider <= length m); [|lia].
  unfold m. case_match; bool_hyps; rewrite ?length_app, ?length_replicate; lia.
Qed.
End read.

(** ** Witnesses *)

Definition two_digits (_ : jstr) : option nat := Some 2.

Lemma two_digits_small c n : two_digits c = Some n → n <= 15.
Proof. intros [= <-]. lia. Qed.

Definition demo_order : jsval :=
  JObj [("trade_no" : jstr, JStr "T1"); ("currency" : jstr, JStr "usd"); ("status" : jstr, JStr "paid");
        ("expected_amount_minor" : jstr, JNum (num_of_Z 1999)); ("public_method" : jstr, JStr "stripe_card");
        ("checkout" : jstr, JObj [("flow" : jstr, JStr "qr"); ("qr_content" : jstr, JStr "weixin://x");
                                  ("continue_url" : jstr, JStr "https://evil.example")])].

Lemma orders_well_formed_witness :
  ∃ o, @normalizePublicPaymentOrder ascii_case two_digits demo_order = Some o ∧
    payment_amount o = "19.99" ∧ status_code o = confirming ∧ o_public_method o = "online_payment" ∧
    o_currency o = "USD" ∧ (continue_url <$> checkout o) = Some None ∧
    public_fields (o_route_id o) (o_public_method o) (o_channel_alias o) (o_currency o) (payment_amount o).
Proof.
  destruct (@normalizePublicPaymentOrder ascii_case two_digits demo_order) as [o|] eqn:E; [|by vm_compute in E].
  exists o. split; [done|].
  destruct (@orders_well_formed ascii_case two_digits two_digits_small demo_order) as [Ho _].
  { left. exists 1999%Z. split; [reflexivity|lia]. }
  destruct (Ho o E) as (_ & _ & Hp & _). vm_compute in E. injection E as <-.
  do 5 (split; [reflexivity|]). exact Hp.
Defined.

Lemma minor_amounts_exact_witness :
  let text := legacyPaymentMinorToDecimal two_digits (JNum (num_of_Z 5)) "USD" stripe in
  text = "0.05" ∧ plain_decimal text ∧ parse_digits 10 (List.filter (fun c => negb (c =? 46)%N) text) = 5%N.
Proof.
  intros text. split; [by vm_compute|].
  destruct (minor_amounts_exact two_digits two_digits_small (JNum (num_of_Z 5)) "USD" stripe 5) as (H1 & H2 & _);
    [reflexivity|lia|]. by split.
Defined.
