(* ===== verification/PaymentSession.v ===== *)
(** * Payment sessions

    Model of [features/wallet/hooks/use-payment.ts]: asking for a quote (at once
    or after a pause in typing), and paying for it.  The state variables and refs
    of the hook are the fields of [Session]; a call that waits for the server is
    an entry of [pending] or [payments] until [EvQuote] or [EvPayment] settles it.
    Requests may settle in any order, also after they were aborted.  What the hook
    does to the outside (requests, navigation, forms, toasts) is in [log], the
    newest first.

    [t] is the translation function; the identifiers of [crypto.randomUUID] and
    the readings of the clock (milliseconds) are part of the events. *)

From S2P Require Import Prelude JsValue JsText WebUrl Payment WalletApi.

(** ** Data *)

Inductive PaymentStart :=
  | FormPost (trade_no action : jstr) (fields : list (jstr * jstr))
  | HostedRedirect (trade_no url : jstr)
  | Qr (trade_no qr_content : jstr)
  | Pending (trade_no : jstr).

(** What is asked: a quote for an amount and a method. *)
Record Ask := MkAsk { a_amount : num; a_method : PaymentMethod }.

Record QuoteCall := MkQuoteCall { qc_id : nat; qc_sequence : nat; qc_ask : Ask }.
Record Timer := MkTimer { t_sequence : nat; t_ask : Ask }.

Inductive Effect :=
  | QuoteRequested (id : nat) (ask : Ask)
  | PaymentStarted (quoteId requestId : jstr)
  | Navigated (url : jstr)
  | Submitted (action : jstr) (fields : list (jstr * jstr))
  | Toast (message : jstr).

Record Session := MkSession {
  quote : option ClientPaymentQuote;
  quoteError : option jstr;
  calculating : bool;
  processing : bool;
  requestSequence : nat;                  (* requestSequenceRef.current *)
  abortController : option nat;           (* abortControllerRef.current, by its request *)
  debounceTimer : option Timer;           (* debounceTimerRef.current *)
  paymentRequest : option (jstr * jstr);  (* paymentRequestRef.current: quote and request *)
  processingRef : bool;
  nextCall : nat;
  aborted : list nat;
  pending : list QuoteCall;
  payments : list nat;
  log : list Effect;
}.

Definition initial : Session := MkSession None None false false 0 None None None false 0 [] [] [] [].

Definition set_quote (q : option ClientPaymentQuote) (e : option jstr) (calc : bool) (s : Session) : Session :=
  MkSession q e calc (processing s) (requestSequence s) (abortController s) (debounceTimer s) (paymentRequest s)
    (processingRef s) (nextCall s) (aborted s) (pending s) (payments s) (log s).
Definition set_controller (c : option nat) (s : Session) : Session :=
  MkSession (quote s) (quoteError s) (calculating s) (processing s) (requestSequence s) c (debounceTimer s)
    (paymentRequest s) (processingRef s) (nextCall s) (aborted s) (pending s) (payments s) (log s).
Definition set_timer (d : option Timer) (s : Session) : Session :=
  MkSession (quote s) (quoteError s) (calculating s) (processing s) (requestSequence s) (abortController s) d
    (paymentRequest s) (processingRef s) (nextCall s) (aborted s) (pending s) (payments s) (log s).
Definition set_pending (p : list QuoteCall) (s : Session) : Session :=
  MkSession (quote s) (quoteError s) (calculating s) (processing s) (requestSequence s) (abortController s)
    (debounceTimer s) (paymentRequest s) (processingRef s) (nextCall s) (aborted s) p (payments s) (log s).
Definition set_processing (b : bool) (ps : list nat) (s : Session) : Session :=
  MkSession (quote s) (quoteError s) (calculating s) b (requestSequence s) (abortController s)
    (debounceTimer s) (paymentRequest s) b (nextCall s) (aborted s) (pending s) ps (log s).
Definition set_paymentRequest (r : option (jstr * jstr)) (s : Session) : Session :=
  MkSession (quote s) (quoteError s) (calculating s) (processing s) (requestSequence s) (abortController s)
    (debounceTimer s) r (processingRef s) (nextCall s) (aborted s) (pending s) (payments s) (log s).
Definition call_made (e : Effect) (s : Session) : Session :=
  MkSession (quote s) (quoteError s) (calculating s) (processing s) (requestSequence s) (abortController s)
    (debounceTimer s) (paymentRequest s) (processingRef s) (S (nextCall s)) (aborted s) (pending s) (payments s)
    (e :: log s).
Definition emit (e : Effect) (s : Session) : Session :=
  MkSession (quote s) (quoteError s) (calculating s) (processing s) (requestSequence s) (abortController s)
    (debounceTimer s) (paymentRequest s) (processingRef s) (nextCall s) (aborted s) (pending s) (payments s)
    (e :: log s).

(** [amount] of the hook's result: the payable amount shown. *)
Definition shownAmount (s : Session) : num :=
  let n := parseFloat (match quote s with Some q => jor (payable_amount q) "0" | None => "0" end) in
  if num_truthy n then n else S754_zero false.

Section hook.
Context `{UrlParser} `{UnicodeCase} (window : option Location) (t : jstr → list (jstr * num) → jstr).

Definition isRequestCancelled (error : jsval) : bool :=
  is_objectlike error &&
  match get "code" error, get "name" error with
  | JStr c, JStr n => (c === "ERR_CANCELED") || (n === "AbortError")
  | JStr c, _ => c === "ERR_CANCELED"
  | _, JStr n => n === "AbortError"
  | _, _ => false
  end.

(** The quote built by [requestQuote] from the answer and the method. *)
Definition clientQuote (method : PaymentMethod) (data : ClientPaymentQuote) : ClientPaymentQuote :=
  MkQuote (quote_id data) (jor (q_route_id data) (route_id method))
    (jor (q_public_method data) (public_method method))
    (match q_channel_alias data with
     | Some a => if truthy a then Some a else channel_alias method
     | None => channel_alias method
     end)
    (top_up_amount data) (plan_id data) (payable_amount data) (currency data) (expires_at data).

Definition cancelPendingQuote (s : Session) : Session :=
  MkSession (quote s) (quoteError s) (calculating s) (processing s) (S (requestSequence s)) None None None
    (processingRef s) (nextCall s)
    (match abortController s with Some id => id :: aborted s | None => aborted s end)
    (pending s) (payments s) (log s).

Definition amount_ok (topupAmount : num) : bool :=
  negb (negb (isSafeInteger topupAmount) || num_ltb topupAmount (num_of_Z 1)
        || num_ltb MAX_TOPUP_AMOUNT topupAmount).

(** A refusal that is shown only when nothing newer was asked. *)
Definition refuse (sequence : nat) (message : jstr) (s : Session) : Session :=
  if sequence =? requestSequence s then set_quote None (Some (t message [])) false s else s.

(** [applyQuote] up to its [await]. *)
Definition applyQuote (ask : Ask) (sequence : nat) (s : Session) : Session :=
  if negb (amount_ok (a_amount ask))
  then refuse sequence "Enter a whole-number amount between 1 and 10000" s
  else if negb (isUnifiedPaymentMethod (a_method ask))
  then refuse sequence "This payment method is temporarily unavailable" s
  else
    let id := nextCall s in
    call_made (QuoteRequested id ask)
      (set_pending (MkQuoteCall id sequence ask :: pending s) (set_controller (Some id) s)).

Definition drop_call (id : nat) (s : Session) : Session :=
  set_pending (filter (fun c => qc_id c ≠ id) (pending s)) s.

(** [applyQuote] after its [await]: the new state and the quote it returns. *)
Definition applyQuote_settled (call : QuoteCall) (o : Outcome ClientPaymentQuote) (s : Session) :
    Session * option ClientPaymentQuote :=
  let s := drop_call (qc_id call) s in
  let current := qc_sequence call =? requestSequence s in
  let finally s := if current then set_controller None (set_quote (quote s) (quoteError s) false s) else s in
  match data_or_error o with
  | inl data =>
    if negb current then (finally s, None)
    else
      let nextQuote := clientQuote (a_method (qc_ask call)) data in
      (finally (set_quote (Some nextQuote) None (calculating s) s), Some nextQuote)
  | inr error =>
    if negb current || isRequestCancelled error then (finally s, None)
    else (finally (set_quote None (Some (getPaymentErrorMessage t error)) (calculating s) s), None)
  end.

Definition calculatePaymentQuote (ask : Ask) (s : Session) : Session :=
  let s := cancelPendingQuote s in
  applyQuote ask (requestSequence s) (set_quote None None true s).

Definition schedulePaymentQuote (ask : Ask) (s : Session) : Session :=
  let s := cancelPendingQuote s in
  set_timer (Some (MkTimer (requestSequence s) ask)) (set_quote None None true s).

Definition debounce_fires (s : Session) : Session :=
  match debounceTimer s with
  | Some d => applyQuote (t_ask d) (t_sequence d) (set_timer None s)
  | None => s
  end.

Definition unavailable : jsval :=
  JObj [("message" : jstr, JStr (t "Payment is temporarily unavailable. Try again." []))].

(** The [catch] and [finally] blocks of [processPayment]. *)
Definition payment_failed (error : jsval) (s : Session) : Session :=
  emit (Toast (getPaymentErrorMessage t error)) s.

(** [processPayment] up to its [await]; [requestId] is the identifier that
    [createRequestId] gives if it is called. *)
Definition processPayment (currentQuote : ClientPaymentQuote) (method : PaymentMethod) (now : Z)
    (requestId : jstr) (s : Session) : Session :=
  if processingRef s then s
  else if num_leb (expires_at currentQuote) (num_of_Z (now / 1000))
  then emit (Toast (t "Payment quote expired. Please request a new quote." [])) s
  else if negb (isUnifiedPaymentMethod method)
  then set_processing false (payments s) (payment_failed unavailable (set_processing true (payments s) s))
  else
    let request :=
      match paymentRequest s with
      | Some (q, r) => if q === quote_id currentQuote then (q, r) else (quote_id currentQuote, requestId)
      | None => (quote_id currentQuote, requestId)
      end in
    call_made (PaymentStarted (quote_id currentQuote) request.2)
      (set_processing true (nextCall s :: payments s) (set_paymentRequest (Some request) s)).

(** [processPayment] after its [await]: the new state and what it returns. *)
Definition processPayment_settled (id : nat) (o : Outcome PaymentStart) (s : Session) :
    Session * option PaymentStart :=
  let finally s := set_processing false (filter (fun j => j ≠ id) (payments s)) s in
  match data_or_error o with
  | inr error => (finally (payment_failed error s), None)
  | inl start =>
    match start with
    | Qr _ _ | Pending _ => (finally s, Some start)
    | HostedRedirect _ url =>
      match navigateToPaymentUrl window url with
      | Some page => (finally (emit (Navigated page) s), Some start)
      | None => (finally (payment_failed unavailable s), None)
      end
    | FormPost _ action fields =>
      match submitPaymentForm window action fields with
      | Some (a, fs) => (finally (emit (Submitted a fs) s), Some start)
      | None => (finally (payment_failed unavailable s), None)
      end
    end
  end.

(** ** Events *)

Inductive Event :=
  | EvCalculate (ask : Ask)
  | EvSchedule (ask : Ask)
  | EvDebounce
  | EvCancel
  | EvQuote (id : nat) (o : Outcome ClientPaymentQuote)
  | EvPay (q : ClientPaymentQuote) (method : PaymentMethod) (now : Z) (requestId : jstr)
  | EvPayment (id : nat) (o : Outcome PaymentStart).

Definition find_call (id : nat) (s : Session) : option QuoteCall :=
  List.find (fun c => qc_id c =? id) (pending s).

Definition handle (ev : Event) (s : Session) : Session :=
  match ev with
  | EvCalculate ask => calculatePaymentQuote ask s
  | EvSchedule ask => schedulePaymentQuote ask s
  | EvDebounce => debounce_fires s
  | EvCancel => cancelPendingQuote s
  | EvQuote id o =>
    match find_call id s with Some call => (applyQuote_settled call o s).1 | None => s end
  | EvPay q method now requestId => processPayment q method now requestId s
  | EvPayment id o => if has id (payments s) then (processPayment_settled id o s).1 else s
  end.

(** The session after a history of events, the newest last. *)
Definition run (evs : list Event) (s : Session) : Session := foldl (fun s ev => handle ev s) s evs.
End hook.

(** ** Histories *)

Definition asks (ev : Event) : option Ask :=
  match ev with EvCalculate ask | EvSchedule ask => Some ask | _ => None end.

(** What was asked last. *)
Definition last_ask (evs : list Event) : option Ask := last (omap asks evs).

(** Whether the last question was withdrawn. *)
Definition withdrawn (evs : list Event) : bool :=
  foldl (fun b ev => match ev with
                     | EvCalculate _ | EvSchedule _ => false
                     | EvCancel => true
                     | _ => b
                     end) false evs.

Lemma last_ask_snoc evs ev :
  last_ask (evs ++ [ev]) = match asks ev with Some a => Some a | None => last_ask evs end.
Proof.
  unfold last_ask. rewrite omap_app. cbn. destruct (asks ev); [by rewrite last_snoc|by rewrite app_nil_r].
Qed.

Lemma withdrawn_snoc evs ev :
  withdrawn (evs ++ [ev]) = match ev with
                            | EvCalculate _ | EvSchedule _ => false
                            | EvCancel => true
                            | _ => withdrawn evs
                            end.
Proof. unfold withdrawn. rewrite foldl_app. cbn. by destruct ev. Qed.

Section invariants.
Context `{UrlParser} `{UnicodeCase} (window : option Location) (t : jstr → list (jstr * num) → jstr).

Abbreviation run' evs := (run window t evs initial).

Lemma run_snoc evs ev s : run window t (evs ++ [ev]) s = handle window t ev (run window t evs s).
Proof. unfold run. by rewrite foldl_app. Qed.

Definition ask_ok (ask : Ask) : Prop := amount_ok (a_amount ask) = true ∧ isUnifiedPaymentMethod (a_method ask) = true.

(** What is in flight belongs to the last question, or is out of date. *)
Record Quoting (last : option Ask) (gone : bool) (s : Session) : Prop := {
  calls_ok : ∀ c, c ∈ pending s → ask_ok (qc_ask c) ∧ QuoteRequested (qc_id c) (qc_ask c) ∈ log s;
  calls_old : ∀ c, c ∈ pending s → qc_sequence c ≤ requestSequence s;
  calls_now : ∀ c, c ∈ pending s → qc_sequence c = requestSequence s → last = Some (qc_ask c);
  calls_id : ∀ c, c ∈ pending s → qc_id c < nextCall s;
  calls_distinct : NoDup (map qc_id (pending s));
  timer_now : ∀ d, debounceTimer s = Some d → t_sequence d = requestSequence s ∧ last = Some (t_ask d);
  waiting : calculating s = true → gone = false →
    is_Some (debounceTimer s) ∨ ∃ c, c ∈ pending s ∧ qc_sequence c = requestSequence s;
}.

Lemma find_call_elem id s c : find_call id s = Some c → c ∈ pending s ∧ qc_id c = id.
Proof.
  unfold find_call. intros [Hin Hid]%List.find_some. apply list_elem_of_In in Hin.
  by apply Nat.eqb_eq in Hid.
Qed.

Lemma find_call_unique s c : NoDup (map qc_id (pending s)) → c ∈ pending s → find_call (qc_id c) s = Some c.
Proof.
  unfold find_call. induction (pending s) as [|x l IH]; [by intros _ ?%elem_of_nil|]. cbn.
  intros [Hx Hl]%NoDup_cons [->|Hc]%elem_of_cons; [by rewrite Nat.eqb_refl|].
  destruct (Nat.eqb_spec (qc_id x) (qc_id c)) as [E|]; [|by apply IH].
  exfalso. apply Hx. rewrite E. apply list_elem_of_fmap. eauto.
Qed.

Lemma cancel_Quoting last gone s last' : Quoting last gone s → Quoting last' true (cancelPendingQuote s).
Proof.
  intros []. constructor; cbn; try done; intros c Hc; [by apply le_S, calls_old0|].
  intros E. specialize (calls_old0 c Hc). lia.
Qed.

(** Asking with the current number leaves a refusal or a call in flight. *)
Lemma applyQuote_Quoting ask gone s :
  Quoting (Some ask) true s → Quoting (Some ask) gone (applyQuote t ask (requestSequence s) s).
Proof.
  intros []. unfold applyQuote, refuse. rewrite Nat.eqb_refl.
  destruct (amount_ok (a_amount ask)) eqn:Ea; cbn [negb]; [|by constructor].
  destruct (isUnifiedPaymentMethod (a_method ask)) eqn:Em; cbn [negb]; [|by constructor].
  constructor; cbn; try done.
  - intros c [->|Hc]%elem_of_cons; [split; [done|left]|]. destruct (calls_ok0 c Hc). split; [done|by right].
  - intros c [->|Hc]%elem_of_cons; [done|auto].
  - intros c [->|Hc]%elem_of_cons; [done|auto].
  - intros c [->|Hc]%elem_of_cons; cbn; [lia|]. specialize (calls_id0 c Hc). lia.
  - apply NoDup_cons. split; [|done]. intros (c & E & Hc)%list_elem_of_fmap. specialize (calls_id0 c Hc). lia.
  - intros _ _. right. eexists. split; [left|done].
Qed.

(** A settled call is gone; if it was the current one, nothing is awaited any more. *)
Lemma settled_fields call o s :
  let s' := (applyQuote_settled t call o s).1 in
  pending s' = filter (fun c => qc_id c ≠ qc_id call) (pending s) ∧
  requestSequence s' = requestSequence s ∧ nextCall s' = nextCall s ∧ debounceTimer s' = debounceTimer s ∧
  log s' = log s ∧ payments s' = payments s ∧ processing s' = processing s ∧ processingRef s' = processingRef s ∧
  paymentRequest s' = paymentRequest s ∧
  calculating s' = (if qc_sequence call =? requestSequence s then false else calculating s) ∧
  quote s' = match data_or_error o with
             | inl data => if qc_sequence call =? requestSequence s
                           then Some (clientQuote (a_method (qc_ask call)) data) else quote s
             | inr error => if negb (qc_sequence call =? requestSequence s) || isRequestCancelled error
                            then quote s else None
             end.
Proof.
  unfold applyQuote_settled. cbn. destruct (data_or_error o) as [data|error];
    destruct (qc_sequence call =? requestSequence s); cbn; [done..| |done].
  by destruct (isRequestCancelled error).
Qed.

Lemma settle_Quoting last gone call o s :
  Quoting last gone s → call ∈ pending s → Quoting last gone (applyQuote_settled t call o s).1.
Proof.
  intros [] Hcall. destruct (settled_fields call o s) as (Hp & Hr & Hn & Hd & Hl & _ & _ & _ & _ & Hc & _).
  assert (Hsub : ∀ c, c ∈ pending (applyQuote_settled t call o s).1 → c ∈ pending s)
    by (rewrite Hp; by intros c [_ ?]%list_elem_of_filter).
  constructor; rewrite ?Hr, ?Hn, ?Hd, ?Hl; auto.
  - rewrite Hp. eapply sublist_NoDup; [exact calls_distinct0|]. apply (fmap_sublist qc_id), sublist_filter.
  - rewrite Hc. destruct (Nat.eqb_spec (qc_sequence call) (requestSequence s)) as [|Hne]; [done|].
    intros Hcalc Hg. destruct (waiting0 Hcalc Hg) as [|(c & Hin & Hs)]; [by left|right]. exists c.
    split; [|done]. rewrite Hp. apply list_elem_of_filter. split; [|done]. intros E. apply Hne.
    assert (c = call) as <-; [|done].
    pose proof (find_call_unique s c calls_distinct0 Hin) as F1.
    pose proof (find_call_unique s call calls_distinct0 Hcall) as F2. rewrite E in F1. congruence.
Qed.

(** Paying changes none of this. *)
Definition same_quoting (s s' : Session) : Prop :=
  pending s' = pending s ∧ requestSequence s' = requestSequence s ∧ debounceTimer s' = debounceTimer s ∧
  calculating s' = calculating s ∧ quote s' = quote s ∧ nextCall s ≤ nextCall s' ∧ log s ⊆ log s'.

Lemma pay_same q m now rid s : same_quoting s (processPayment t q m now rid s).
Proof.
  unfold processPayment, same_quoting. destruct (processingRef s); [repeat split; [lia|done]|].
  destruct (num_leb _ _); [repeat split; [cbn; lia|set_solver]|].
  destruct (negb _); repeat split; cbn; first [lia|set_solver].
Qed.

Lemma paid_same id o s : same_quoting s (processPayment_settled window t id o s).1.
Proof.
  unfold processPayment_settled, same_quoting. destruct (data_or_error o) as [[]|];
    [destruct (submitPaymentForm _ _ _) as [[]|]|destruct (navigateToPaymentUrl _ _)|..];
    repeat split; cbn; first [lia|set_solver].
Qed.

Lemma same_Quoting last gone s s' : Quoting last gone s → same_quoting s s' → Quoting last gone s'.
Proof.
  intros [] (H1 & H2 & H3 & H4 & _ & H6 & H7).
  constructor; rewrite ?H1, ?H2, ?H3, ?H4; try done.
  - intros c Hc. destruct (calls_ok0 c Hc). auto.
  - intros c Hc. specialize (calls_id0 c Hc). lia.
Qed.

Lemma handle_Quoting evs ev s :
  Quoting (last_ask evs) (withdrawn evs) s →
  Quoting (last_ask (evs ++ [ev])) (withdrawn (evs ++ [ev])) (handle window t ev s).
Proof.
  rewrite last_ask_snoc, withdrawn_snoc. intros HI. destruct ev as [ask|ask| | |id o|q m now rid|id o]; cbn [asks handle].
  - apply (applyQuote_Quoting ask false (set_quote None None true (cancelPendingQuote s))).
    destruct (cancel_Quoting _ _ _ (Some ask) HI). by constructor.
  - destruct (cancel_Quoting _ _ _ (Some ask) HI). constructor; cbn in *; try done; try by intros ? [= <-].
    by left.
  - unfold debounce_fires. destruct (debounceTimer s) as [d|] eqn:Ed; [|done].
    destruct (timer_now _ _ _ HI d Ed) as [-> El]. rewrite El in *. apply (applyQuote_Quoting (t_ask d) _ (set_timer None s)).
    destruct HI. by constructor.
  - by eapply cancel_Quoting.
  - destruct (find_call id s) as [c|] eqn:Ec; [|done]. apply find_call_elem in Ec as [Hc _]. by apply settle_Quoting.
  - eapply same_Quoting; [done|apply pay_same].
  - case_match; [|done]. eapply same_Quoting; [done|apply paid_same].
Qed.

Lemma run_Quoting evs : Quoting (last_ask evs) (withdrawn evs) (run' evs).
Proof.
  induction evs as [|ev evs IH] using rev_ind; [|rewrite run_snoc; by apply handle_Quoting].
  constructor; cbn; try done; try by intros ? ?%elem_of_nil. constructor.
Qed.

(** *** The quote that is shown *)

Lemma applyQuote_quote ask seq s q : quote (applyQuote t ask seq s) = Some q → quote s = Some q.
Proof. unfold applyQuote, refuse. repeat (case_match; try done). Qed.

Lemma quote_step ev s q :
  quote (handle window t ev s) = Some q →
  (quote s = Some q ∧ asks ev = None) ∨
  ∃ id o call data, ev = EvQuote id o ∧ find_call id s = Some call ∧ data_or_error o = inl data ∧
    qc_sequence call = requestSequence s ∧ q = clientQuote (a_method (qc_ask call)) data.
Proof.
  destruct ev as [ask|ask| | |id o|q' m now rid|id o]; cbn [handle asks].
  - by intros ?%applyQuote_quote.
  - done.
  - unfold debounce_fires. destruct (debounceTimer s); [intros ?%applyQuote_quote|]; by left.
  - by left.
  - destruct (find_call id s) as [call|] eqn:Ec; [|by left].
    destruct (settled_fields call o s) as (_ & _ & _ & _ & _ & _ & _ & _ & _ & _ & ->).
    destruct (data_or_error o) as [data|error] eqn:Eo.
    + destruct (Nat.eqb_spec (qc_sequence call) (requestSequence s)); [|by left].
      intros [= <-]. right. exists id, o, call, data. done.
    + case_match; [by left|done].
  - destruct (pay_same q' m now rid s) as (_ & _ & _ & _ & -> & _). by left.
  - case_match; [|by left]. destruct (paid_same id o s) as (_ & _ & _ & _ & -> & _). by left.
Qed.

(** *** Payments *)

(** The quote can still be paid at the clock reading [now]. *)
Definition not_expired (q : ClientPaymentQuote) (now : Z) : Prop :=
  num_leb (expires_at q) (num_of_Z (now / 1000)) = false.

Record Paying (s : Session) : Prop := {
  paying_flag : processing s = processingRef s;
  paying_ref : processingRef s = bool_decide (payments s ≠ []);
  paying_one : length (payments s) ≤ 1;
}.

(** Asking changes nothing about payments, except that it forgets the request. *)
Definition same_paying (s s' : Session) : Prop :=
  processing s' = processing s ∧ processingRef s' = processingRef s ∧ payments s' = payments s.

Lemma applyQuote_paying ask seq s :
  same_paying s (applyQuote t ask seq s) ∧ paymentRequest (applyQuote t ask seq s) = paymentRequest s.
Proof. unfold applyQuote, refuse, same_paying. repeat (case_match; try done). Qed.

Lemma asking_paying ev s :
  match ev with EvPay _ _ _ _ | EvPayment _ _ => False | _ => True end →
  same_paying s (handle window t ev s) ∧
  (match ev with EvDebounce | EvQuote _ _ => True | _ => False end →
   paymentRequest (handle window t ev s) = paymentRequest s).
Proof.
  destruct ev as [ask|ask| | |id o|q' m now rid|id o]; cbn [handle]; try done; intros _.
  - split; [|done]. apply (applyQuote_paying ask _ (set_quote None None true (cancelPendingQuote s))).
  - unfold debounce_fires. destruct (debounceTimer s) as [d|]; [|done].
    by destruct (applyQuote_paying (t_ask d) (t_sequence d) (set_timer None s)) as [? ?].
  - destruct (find_call id s) as [call|]; [|done]. unfold same_paying.
    by destruct (settled_fields call o s) as (_ & _ & _ & _ & _ & -> & -> & -> & -> & _).
Qed.

Lemma paid_fields id o s :
  let s' := (processPayment_settled window t id o s).1 in
  processing s' = false ∧ processingRef s' = false ∧ payments s' = filter (fun j => j ≠ id) (payments s) ∧
  paymentRequest s' = paymentRequest s.
Proof.
  unfold processPayment_settled. destruct (data_or_error o) as [[]|];
    [destruct (submitPaymentForm _ _ _) as [[]|]|destruct (navigateToPaymentUrl _ _)|..]; done.
Qed.

(** What paying does, on each of its branches. *)
Lemma pay_cases q m now rid s :
  Paying s →
  let s' := processPayment t q m now rid s in
  (s' = s ∧ processingRef s = true) ∨
  (same_paying s s' ∧ paymentRequest s' = paymentRequest s ∧ ∃ e, log s' = Toast e :: log s) ∨
  (∃ r, processingRef s = false ∧ not_expired q now ∧ isUnifiedPaymentMethod m = true ∧
    (∀ r', paymentRequest s = Some (quote_id q, r') → r = r') ∧
    paymentRequest s' = Some (quote_id q, r) ∧ log s' = PaymentStarted (quote_id q) r :: log s ∧
    payments s' = nextCall s :: payments s ∧ processing s' = true ∧ processingRef s' = true).
Proof.
  intros HP. cbv zeta. unfold processPayment. destruct (processingRef s) eqn:Ep; [by left|right].
  destruct (num_leb (expires_at q) (num_of_Z (now / 1000))) eqn:Ee; 
    [left; split; [unfold same_paying; cbn; by rewrite Ep|]; split; [done|]; cbn; eauto|].
  destruct (isUnifiedPaymentMethod m); cbn [negb].
  - right. cbn. destruct (paymentRequest s) as [[q' r]|]; [destruct (jeqb_spec q' (quote_id q)) as [->|]|];
      cbn; eexists; repeat split; eauto; congruence.
  - left. split; [unfold same_paying; cbn; by rewrite (paying_flag s HP), Ep|]. split; [done|]. cbn. eauto.
Qed.

Lemma same_Paying s s' : Paying s → same_paying s s' → Paying s'.
Proof. intros [] (H1 & H2 & H3). constructor; by rewrite ?H1, ?H2, ?H3. Qed.

Lemma idle_payments s : Paying s → processingRef s = false → payments s = [].
Proof.
  intros [] Hr. rewrite Hr in paying_ref0. symmetry in paying_ref0. apply bool_decide_eq_false in paying_ref0.
  destruct (payments s); [done|]. by destruct paying_ref0.
Qed.

Lemma handle_Paying ev s : Paying s → Paying (handle window t ev s).
Proof.
  intros HP. destruct ev as [ask|ask| | |id o|q m now rid|id o];
    try (eapply same_Paying; [done|]; by apply asking_paying).
  - destruct (pay_cases q m now rid s HP) as [[E _]|[[E _]|(r & Hr & _ & _ & _ & _ & _ & E1 & E2 & E3)]];
      cbn [handle]; [by rewrite E|by eapply same_Paying|].
    constructor; rewrite ?E1, ?E2, ?E3; [done..|]. rewrite (idle_payments s HP Hr). done.
  - cbn [handle]. destruct (has id (payments s)) eqn:Eh; [|done]. apply has_true in Eh.
    destruct (paid_fields id o s) as (E1 & E2 & E3 & _).
    assert (payments s = [id]) as El.
    { destruct HP as [_ _ Hl]. destruct (payments s) as [|j [|? ?]]; [by apply elem_of_nil in Eh| |cbn in Hl; lia].
      by apply list_elem_of_singleton in Eh as ->. }
    rewrite El in E3. rewrite filter_cons_False in E3 by (by intros []). cbn in E3.
    constructor; rewrite ?E1, ?E2, ?E3; cbn; [done..|lia].
Qed.

Lemma run_Paying evs : Paying (run' evs).
Proof.
  induction evs as [|ev evs IH] using rev_ind; [by constructor; cbn; [..|lia]|].
  rewrite run_snoc. by apply handle_Paying.
Qed.

(** Events after which the request of the quote [q] is still remembered. *)
Definition keeps_request (q : jstr) (ev : Event) : Prop :=
  match ev with
  | EvCalculate _ | EvSchedule _ | EvCancel => False
  | EvPay q' _ _ _ => quote_id q' = q
  | EvDebounce | EvQuote _ _ | EvPayment _ _ => True
  end.

Lemma keeps_request_step q r ev s :
  Paying s → keeps_request q ev → paymentRequest s = Some (q, r) →
  paymentRequest (handle window t ev s) = Some (q, r).
Proof.
  intros HP Hk Hr. destruct ev as [ask|ask| | |id o|q' m now rid|id o]; try done.
  - by destruct (asking_paying EvDebounce s I) as [_ ->].
  - by destruct (asking_paying (EvQuote id o) s I) as [_ ->].
  - cbn in Hk. subst q. destruct (pay_cases q' m now rid s HP) as [[E _]|[(_ & E & _)|(r' & _ & _ & _ & Hsame & E & _)]];
      cbn [handle]; rewrite E; [done..|]. by rewrite (Hsame r Hr).
  - cbn [handle]. case_match; [|done]. by destruct (paid_fields id o s) as (_ & _ & _ & ->).
Qed.

Lemma keeps_request_run q r evs s :
  Paying s → Forall (keeps_request q) evs → paymentRequest s = Some (q, r) →
  Paying (run window t evs s) ∧ paymentRequest (run window t evs s) = Some (q, r).
Proof.
  intros HP Hk Hr. revert s HP Hr. induction Hk as [|ev evs Hev _ IH]; intros s HP Hr; [done|].
  change (run window t (ev :: evs) s) with (run window t evs (handle window t ev s)).
  apply IH; [by apply handle_Paying|by apply keeps_request_step].
Qed.

(** What an event adds to the log. *)
Definition adds (P : Effect → Prop) (s s' : Session) : Prop := log s' = log s ∨ ∃ e, P e ∧ log s' = e :: log s.

Lemma cons_not_self {A} (x : A) l : l ≠ x :: l.
Proof. intros E%(f_equal length). cbn in E. lia. Qed.

Definition safe_page (page : jstr) : Prop :=
  ∃ w v u, window = Some w ∧ new_URL v (Some (l_origin w)) = Some u ∧ page = href u ∧
    username u = [] ∧ password u = [] ∧
    (protocol u = "https:" ∨
     protocol u = "http:" ∧ isLoopbackHostname (hostname u) = true ∧ isLoopbackHostname (l_hostname w) = true).

Definition safe_effect (e : Effect) : Prop :=
  match e with
  | Navigated page | Submitted page _ => safe_page page
  | QuoteRequested _ ask => ask_ok ask
  | PaymentStarted _ _ | Toast _ => True
  end.

Lemma applyQuote_adds ask seq s :
  adds (fun e => ∃ id, e = QuoteRequested id ask ∧ ask_ok ask) s (applyQuote t ask seq s).
Proof.
  unfold applyQuote, refuse, adds.
  destruct (amount_ok (a_amount ask)) eqn:Ea; cbn [negb]; [|left; by case_match].
  destruct (isUnifiedPaymentMethod (a_method ask)) eqn:Em; cbn [negb]; [|left; by case_match].
  right. eexists. split; [|done]. eexists. split; [done|]. done.
Qed.

Lemma paid_adds id o s :
  adds (fun e => safe_effect e ∧ ∀ q r, e ≠ PaymentStarted q r) s (processPayment_settled window t id o s).1.
Proof.
  unfold processPayment_settled, adds, navigateToPaymentUrl, submitPaymentForm.
  assert (Hsafe : ∀ v u, getSafePaymentUrl window v = Some u → safe_page (href u)).
  { intros v u (w & Hw & Hu & H1 & H2 & H3)%safe_url_iff. exists w, v, u. done. }
  destruct (data_or_error o) as [[tr action fields|tr url|tr qr|tr]|]; cbn; [..|by left|by left|];
    [destruct (getSafePaymentUrl window action) eqn:E|destruct (getSafePaymentUrl window url) eqn:E|];
    cbn; right; eexists; (split; [|done]); (split; [|done]); cbn; eauto.
Qed.

Lemma handle_adds ev s : adds safe_effect s (handle window t ev s).
Proof.
  assert (Hweak : ∀ ask seq s', adds safe_effect s' (applyQuote t ask seq s')).
  { intros ask seq s'. destruct (applyQuote_adds ask seq s') as [?|(e & (id & -> & Hok) & ?)]; [by left|right].
    by exists (QuoteRequested id ask). }
  destruct ev as [ask|ask| | |id o|q m now rid|id o]; cbn [handle].
  - apply (Hweak ask _ (set_quote None None true (cancelPendingQuote s))).
  - by left.
  - unfold debounce_fires. destruct (debounceTimer s) as [d|]; [|by left].
    apply (Hweak (t_ask d) (t_sequence d) (set_timer None s)).
  - by left.
  - destruct (find_call id s) as [c|]; [|by left]. left. by destruct (settled_fields c o s) as (_ & _ & _ & _ & -> & _).
  - unfold processPayment. destruct (processingRef s); [by left|]. right.
    destruct (num_leb _ _); [by eexists (Toast _)|]. destruct (negb _); [by eexists (Toast _)|].
    by eexists (PaymentStarted _ _).
  - case_match; [|by left]. destruct (paid_adds id o s) as [?|(e & [? _] & ?)]; [by left|right; eauto].
Qed.

(** Only paying starts a payment. *)
Lemma start_event ev s q r :
  log (handle window t ev s) = PaymentStarted q r :: log s → ∃ quote m now rid, ev = EvPay quote m now rid.
Proof.
  assert (Hno : ∀ ask seq s', log s' = log s → log (applyQuote t ask seq s') ≠ PaymentStarted q r :: log s).
  { intros ask seq s' <- E. destruct (applyQuote_adds ask seq s') as [E'|(e & (id & -> & _) & E')];
      rewrite E' in E; [by apply cons_not_self in E|done]. }
  destruct ev as [ask|ask| | |id o|q' m now rid|id o]; cbn [handle]; [..|by eauto|].
  - intros E. by apply Hno in E.
  - intros E. by apply cons_not_self in E.
  - unfold debounce_fires. destruct (debounceTimer s); intros E; [by apply Hno in E|by apply cons_not_self in E].
  - intros E. by apply cons_not_self in E.
  - destruct (find_call id s) as [c|]; [|intros E; by apply cons_not_self in E].
    destruct (settled_fields c o s) as (_ & _ & _ & _ & -> & _). intros E. by apply cons_not_self in E.
  - case_match; [|intros E; by apply cons_not_self in E].
    destruct (paid_adds id o s) as [->|(e & [_ Hn] & ->)]; [intros E; by apply cons_not_self in E|].
    intros [= ->]. by destruct (Hn q r).
Qed.

(** A started payment: nothing was in flight, the quote had not expired. *)
Lemma start_conditions quote m now rid s q r :
  Paying s → log (processPayment t quote m now rid s) = PaymentStarted q r :: log s →
  q = quote_id quote ∧ payments s = [] ∧ not_expired quote now ∧ isUnifiedPaymentMethod m = true ∧
  (∀ r', paymentRequest s = Some (q, r') → r = r') ∧
  paymentRequest (processPayment t quote m now rid s) = Some (q, r).
Proof.
  intros HP E. destruct (pay_cases quote m now rid s HP) as
    [[E' _]|[(_ & _ & e & E')|(r' & Hr & Ht & Hm & Hsame & Hreq & E' & _)]]; rewrite E' in E.
  - by apply cons_not_self in E.
  - done.
  - injection E as <- ->. split; [done|]. split; [by apply idle_payments|]. done.
Qed.

(** ** Properties *)

(** C10: the quote that is shown answers the last question.  Whatever the order in
    which questions are asked, timers fire and the server answers, a quote that is
    shown is the answer to a call made for exactly the amount and the method asked
    last; that amount is a whole number from 1 to 10000. *)
Theorem quote_answers_last_ask evs q :
  quote (run' evs) = Some q →
  ∃ ask pre id o post call data,
    last_ask evs = Some ask ∧ evs = pre ++ EvQuote id o :: post ∧
    find_call id (run' pre) = Some call ∧ qc_ask call = ask ∧ QuoteRequested id ask ∈ log (run' pre) ∧
    data_or_error o = inl data ∧ q = clientQuote (a_method ask) data ∧ ask_ok ask.
Proof.
  revert q. induction evs as [|ev evs IH] using rev_ind; intros q; [done|].
  rewrite run_snoc, last_ask_snoc. intros [[Hq ->]|(id & o & call & data & -> & Hf & Ho & Hs & ->)]%quote_step.
  - destruct (IH q Hq) as (ask & pre & id & o & post & call & data & H1 & -> & H2).
    exists ask, pre, id, o, (post ++ [ev]), call, data. rewrite <- app_assoc. done.
  - pose proof (run_Quoting evs) as HI. destruct (find_call_elem _ _ _ Hf) as [Hc Hid].
    exists (qc_ask call), evs, id, o, [], call, data. cbn [asks].
    rewrite (calls_now _ _ _ HI call Hc Hs). destruct (calls_ok _ _ _ HI call Hc) as [? Hlog].
    rewrite Hid in Hlog. repeat split; try done; by destruct H1.
Qed.

(** The wait for a quote ends.  While a quote is being calculated for a
    question that was not withdrawn, a timer is running or the call for the
    question is in flight; when the timer fires, a refusal is shown or the call is
    made; and when the call settles, with an answer, an error or a cancellation,
    nothing is being calculated any more. *)
Theorem quote_wait_ends evs :
  let s := run' evs in
  calculating s = true → withdrawn evs = false →
  (∃ d, debounceTimer s = Some d ∧
     (calculating (handle window t EvDebounce s) = false ∧ is_Some (quoteError (handle window t EvDebounce s)) ∨
      ∃ c, find_call (qc_id c) (handle window t EvDebounce s) = Some c ∧ qc_ask c = t_ask d ∧
           qc_sequence c = requestSequence s)) ∨
  (∃ c, find_call (qc_id c) s = Some c ∧ last_ask evs = Some (qc_ask c) ∧
     ∀ o, calculating (handle window t (EvQuote (qc_id c) o) s) = false).
Proof.
  cbv zeta. intros Hc Hw. pose proof (run_Quoting evs) as HI. set (s := run' evs) in *.
  destruct (waiting _ _ _ HI Hc Hw) as [[d Hd]|(c & Hin & Hs)].
  - left. exists d. split; [done|]. cbn [handle]. unfold debounce_fires. rewrite Hd.
    destruct (timer_now _ _ _ HI d Hd) as [Hs _]. rewrite Hs. unfold applyQuote, refuse.
    cbn [requestSequence set_timer]. rewrite Nat.eqb_refl.
    destruct (negb _); [left; by cbn|]. destruct (negb _); [left; by cbn|].
    right. exists (MkQuoteCall (nextCall s) (requestSequence s) (t_ask d)).
    split; [|done]. unfold find_call. cbn. by rewrite Nat.eqb_refl.
  - right. exists c. pose proof (find_call_unique s c (calls_distinct _ _ _ HI) Hin) as Hf.
    split; [done|]. split; [by apply (calls_now _ _ _ HI)|]. intros o. cbn [handle]. rewrite Hf.
    destruct (settled_fields c o s) as (_ & _ & _ & _ & _ & _ & _ & _ & _ & -> & _).
    by rewrite Hs, Nat.eqb_refl.
Qed.

(** C11: no double payment.  At most one payment request is in flight, and one is
    started only by paying, when none is, for a quote that has not expired.
    Paying for the same quote again, after any events that neither ask for
    another quote nor pay for one, repeats the request identifier, so that the
    server can tell a retry from a second payment. *)
Theorem payment_not_doubled pre ev q r :
  let s := run' pre in
  log (handle window t ev s) = PaymentStarted q r :: log s →
  payments s = [] ∧ length (payments (handle window t ev s)) ≤ 1 ∧
  (∃ quote m now rid, ev = EvPay quote m now rid ∧ quote_id quote = q ∧ not_expired quote now) ∧
  ∀ mid ev' r', Forall (keeps_request q) mid →
    let s' := run window t mid (handle window t ev s) in
    log (handle window t ev' s') = PaymentStarted q r' :: log s' → r' = r.
Proof.
  cbv zeta. pose proof (run_Paying pre) as HP. set (s := run' pre) in *. intros Hlog.
  destruct (start_event ev s q r Hlog) as (quote & m & now & rid & ->).
  destruct (start_conditions quote m now rid s q r HP Hlog) as (-> & Hn & Ht & Hm & _ & Hreq).
  split; [done|]. split; [apply (handle_Paying (EvPay quote m now rid) s HP)|].
  split; [exists quote, m, now, rid; done|].
  intros mid ev' r' Hmid Hlog'.
  destruct (keeps_request_run (quote_id quote) r mid (handle window t (EvPay quote m now rid) s)
    (handle_Paying (EvPay quote m now rid) s HP) Hmid Hreq) as [HP' Hreq'].
  destruct (start_event ev' _ _ _ Hlog') as (quote' & m' & now' & rid' & ->).
  destruct (start_conditions quote' m' now' rid' _ _ _ HP' Hlog') as (_ & _ & _ & _ & Hsame & _).
  by apply Hsame.
Qed.

(** C29: whatever the server answers, the browser is sent only to safe payment
    pages: every page a session navigates to and every form it submits goes to an
    address that the URL parser accepts, without credentials, that is https or
    stays between loopback hosts; and quotes are requested only for whole amounts
    from 1 to 10000 on a unified method. *)
Theorem session_effects_safe evs : Forall safe_effect (log (run' evs)).
Proof.
  induction evs as [|ev evs IH] using rev_ind; [constructor|]. rewrite run_snoc.
  destruct (handle_adds ev (run' evs)) as [->|(e & He & ->)]; [done|by constructor].
Qed.
End invariants.

(** ** Witnesses *)

Definition demo_method : PaymentMethod := MkPaymentMethod "r1" "alipay" None mode_quote None None None None.
Definition demo_ask (n : Z) : Ask := MkAsk (num_of_Z n) demo_method.
Definition demo_data (id : jstr) : ClientPaymentQuote :=
  MkQuote id [] "alipay" None (Some (num_of_Z 20)) None "20.00" "USD" (num_of_Z 1000).
Definition answer {T} (d : T) : Outcome T := Answered (MkResponse (Some true) None (Some d) (JObj [])).
Definition plain_t (k : jstr) (_ : list (jstr * num)) : jstr := k.

Lemma quote_answers_last_ask_witness :
  let evs := [EvCalculate (demo_ask 10); EvSchedule (demo_ask 20); EvDebounce;
              EvQuote 0 (answer (demo_data "old")); EvQuote 1 (answer (demo_data "new"))] in
  let s := @run demo_parser ascii_case None plain_t evs initial in
  quote s = Some (clientQuote demo_method (demo_data "new")) ∧
  ∃ ask, last_ask evs = Some ask ∧ ask_ok ask.
Proof.
  intros evs s. assert (Hq : quote s = Some (clientQuote demo_method (demo_data "new"))) by by vm_compute.
  split; [exact Hq|].
  destruct (@quote_answers_last_ask demo_parser ascii_case None plain_t evs _ Hq)
    as (ask & _ & _ & _ & _ & _ & _ & H1 & _ & _ & _ & _ & _ & _ & H2).
  exists ask. by split.
Defined.

Lemma quote_wait_ends_witness :
  let evs := [EvCalculate (demo_ask 10)] in
  let s := @run demo_parser ascii_case None plain_t evs initial in
  calculating s = true ∧
  ((∃ d, debounceTimer s = Some d) ∨
   ∃ c, find_call (qc_id c) s = Some c ∧
     ∀ o, calculating (@handle demo_parser ascii_case None plain_t (EvQuote (qc_id c) o) s) = false).
Proof.
  intros evs s. split; [reflexivity|].
  destruct (@quote_wait_ends demo_parser ascii_case None plain_t evs eq_refl eq_refl)
    as [(d & Hd & _)|(c & H1 & _ & H2)]; [left; by exists d|right; by exists c].
Defined.

Lemma payment_not_doubled_witness :
  let h := @handle demo_parser ascii_case None plain_t in
  let pay r := EvPay (demo_data "q") demo_method 5000 r in
  let s1 := h (pay "first") initial in
  let s2 := @run demo_parser ascii_case None plain_t [EvPayment 0 (Thrown JNull)] s1 in
  payments s2 = [] ∧ ∀ r', log (h (pay "second") s2) = PaymentStarted "q" r' :: log s2 → r' = "first".
Proof.
  intros h pay s1 s2. split; [reflexivity|].
  destruct (@payment_not_doubled demo_parser ascii_case None plain_t [] (pay "first") "q" "first" eq_refl)
    as (_ & _ & _ & Hr). intros r'. apply (Hr [EvPayment 0 (Thrown JNull)] (pay "second") r').
  by repeat constructor.
Defined.

(** Withdrawing a question forgets the timer and the call, but the hook still says
    that it is calculating, and no later timer or answer changes that. *)
Example withdrawn_still_calculating :
  let s := @run demo_parser ascii_case None plain_t [EvCalculate (demo_ask 10); EvCancel] initial in
  calculating s = true ∧ debounceTimer s = None ∧
  ∀ o, calculating (@handle demo_parser ascii_case None plain_t (EvQuote 0 o) s) = true.
Proof.
  split; [reflexivity|]. split; [reflexivity|]. intros o. cbn [handle].
  match goal with |- context [find_call 0 ?s] => change (find_call 0 s) with (Some (MkQuoteCall 0 1 (demo_ask 10))) end.
  destruct (@settled_fields ascii_case plain_t (MkQuoteCall 0 1 (demo_ask 10)) o
    (@run demo_parser ascii_case None plain_t [EvCalculate (demo_ask 10); EvCancel] initial))
    as (_ & _ & _ & _ & _ & _ & _ & _ & _ & Hc & _). exact Hc.
Qed.
