(* ===== verification/PaymentPolling.v ===== *)
(** * Waiting for a payment

    Model of [features/wallet/hooks/use-payment-order.ts]: the page of an order
    asks the server for its state again and again until the order is settled, the
    order expires, or asking keeps failing; the user can ask in between, and so
    does coming back to the page.

    The state variables and refs of the hook are the fields of [Polling].  An
    asynchronous function that waits is an entry of [calls] (for the server) or of
    [settling] (for [onSettled]); [c_poller] names the run of the effect whose
    [poll] waits for it.  A run is over ([stopped]) when its number is not
    [epoch].  [log] holds the runs of the effect and the calls of [onSettled], the
    newest first.

    [legal] says what the environment does: a request that was aborted settles with
    a cancellation, the server answers with the order that was asked for, and the
    clock is a whole number of milliseconds below 2^53.  A change of the options and
    the effect it runs are one event ([EvOptions]): React renders once with the new
    options before it runs the effect, and that render, which still has the order of
    the old ones, is not a state of the model. *)

From S2P Require Import Prelude JsValue JsText WebUrl Payment WalletApi.

Definition POLL_INTERVAL_MS : Z := 2000.
Definition FALLBACK_POLL_DURATION_MS : Z := 15 * 60 * 1000.

Inductive PaymentPollingStopReason := stop_expired | stop_network | stop_timeout.

Definition isPaymentOrderTerminal (status : PublicPaymentStatusCode) : bool :=
  negb (has status [preparing; awaiting_payment; confirming]).

Record Call := MkCall { c_id : nat; c_trade : jstr; c_poller : option nat }.

Inductive Effect := Started (trade : option jstr) | SettledOrder (order : PaymentOrder).

Record Polling := MkPolling {
  order : option PaymentOrder;
  loading : bool;
  error : option jstr;
  pollingStoppedReason : option PaymentPollingStopReason;
  settledTradeNo : option jstr;       (* settledTradeNoRef.current *)
  orderRef : option PaymentOrder;
  requestRef : option nat;            (* by its request *)
  trade : option jstr;                (* options.tradeNo, when enabled *)
  expiresAt : num;                    (* options.expiresAt, 0 when there is none *)
  epoch : nat;
  consecutiveFailures : nat;
  fallbackPollDeadline : num;
  timer : option num;                 (* its delay *)
  nextCall : nat;
  aborted : list nat;
  calls : list Call;
  settling : list (Call * PaymentOrder);
  log : list Effect;
}.

Definition initial : Polling :=
  MkPolling None false None None None None None None (S754_zero false) 0 0 (S754_zero false) None 0 [] [] [] [].

Definition set_order (o : option PaymentOrder) (s : Polling) : Polling :=
  MkPolling o (loading s) (error s) (pollingStoppedReason s) (settledTradeNo s) o (requestRef s) (trade s)
    (expiresAt s) (epoch s) (consecutiveFailures s) (fallbackPollDeadline s) (timer s) (nextCall s) (aborted s)
    (calls s) (settling s) (log s).
Definition set_error (e : option jstr) (s : Polling) : Polling :=
  MkPolling (order s) (loading s) e (pollingStoppedReason s) (settledTradeNo s) (orderRef s) (requestRef s) (trade s)
    (expiresAt s) (epoch s) (consecutiveFailures s) (fallbackPollDeadline s) (timer s) (nextCall s) (aborted s)
    (calls s) (settling s) (log s).
Definition set_reason (r : option PaymentPollingStopReason) (s : Polling) : Polling :=
  MkPolling (order s) (loading s) (error s) r (settledTradeNo s) (orderRef s) (requestRef s) (trade s)
    (expiresAt s) (epoch s) (consecutiveFailures s) (fallbackPollDeadline s) (timer s) (nextCall s) (aborted s)
    (calls s) (settling s) (log s).
Definition set_settled (x : option jstr) (s : Polling) : Polling :=
  MkPolling (order s) (loading s) (error s) (pollingStoppedReason s) x (orderRef s) (requestRef s) (trade s)
    (expiresAt s) (epoch s) (consecutiveFailures s) (fallbackPollDeadline s) (timer s) (nextCall s) (aborted s)
    (calls s) (settling s) (log s).
Definition set_request (r : option nat) (l : bool) (ab : list nat) (s : Polling) : Polling :=
  MkPolling (order s) l (error s) (pollingStoppedReason s) (settledTradeNo s) (orderRef s) r (trade s)
    (expiresAt s) (epoch s) (consecutiveFailures s) (fallbackPollDeadline s) (timer s) (nextCall s) ab
    (calls s) (settling s) (log s).
Definition set_poller (f : nat) (d : num) (t : option num) (s : Polling) : Polling :=
  MkPolling (order s) (loading s) (error s) (pollingStoppedReason s) (settledTradeNo s) (orderRef s) (requestRef s)
    (trade s) (expiresAt s) (epoch s) f d t (nextCall s) (aborted s) (calls s) (settling s) (log s).
Definition set_calls (n : nat) (cs : list Call) (ss : list (Call * PaymentOrder)) (s : Polling) : Polling :=
  MkPolling (order s) (loading s) (error s) (pollingStoppedReason s) (settledTradeNo s) (orderRef s) (requestRef s)
    (trade s) (expiresAt s) (epoch s) (consecutiveFailures s) (fallbackPollDeadline s) (timer s) n (aborted s)
    cs ss (log s).
Definition set_options (tr : option jstr) (e : num) (ep : nat) (s : Polling) : Polling :=
  MkPolling (order s) (loading s) (error s) (pollingStoppedReason s) (settledTradeNo s) (orderRef s) (requestRef s)
    tr e ep (consecutiveFailures s) (fallbackPollDeadline s) (timer s) (nextCall s) (aborted s)
    (calls s) (settling s) (log s).
Definition emit (e : Effect) (s : Polling) : Polling :=
  MkPolling (order s) (loading s) (error s) (pollingStoppedReason s) (settledTradeNo s) (orderRef s) (requestRef s)
    (trade s) (expiresAt s) (epoch s) (consecutiveFailures s) (fallbackPollDeadline s) (timer s) (nextCall s)
    (aborted s) (calls s) (settling s) (e :: log s).

(** [requestRef.current?.abort()] *)
Definition abort_list (s : Polling) : list nat :=
  match requestRef s with Some id => id :: aborted s | None => aborted s end.

Section hook.
Context `{UnicodeCase} (t : jstr → list (jstr * num) → jstr).

(** ** refresh *)

(** [refresh] up to its [await]. *)
Definition refresh (poller : option nat) (s : Polling) : Polling :=
  match trade s with
  | None => s
  | Some tr =>
    let id := nextCall s in
    let load := match orderRef s with None => true | Some _ => loading s end in
    set_calls (S id) (MkCall id tr poller :: calls s) (settling s) (set_request (Some id) load (abort_list s) s)
  end.

Definition is_cancelled (e : jsval) : bool :=
  match get "code" e with JStr c => c === "ERR_CANCELED" | _ => false end.

Definition request_error (e : jsval) (s : Polling) : Polling :=
  if is_cancelled e then s else set_error (Some (getPaymentErrorMessage t e)) s.

(** [poll] after its [await]. *)
Definition poll_continue (p : nat) (nextOrder : option PaymentOrder) (now1 now2 : Z) (s : Polling) : Polling :=
  if negb (p =? epoch s) || match nextOrder with Some o => isPaymentOrderTerminal (status_code o) | None => false end
  then s
  else
    let failures := match nextOrder with Some _ => 0 | None => S (consecutiveFailures s) end in
    let s := set_poller failures (fallbackPollDeadline s) (timer s) s in
    if (3 <=? failures) then set_reason (Some stop_network) s
    else
      let currentOrder := match nextOrder with Some o => Some o | None => orderRef s end in
      let expiresAtMs :=
        match currentOrder with
        | Some o => if num_truthy (o_expires_at o) then num_mul (o_expires_at o) (num_of_Z 1000)
                    else fallbackPollDeadline s
        | None => fallbackPollDeadline s
        end in
      if num_leb expiresAtMs (num_of_Z now1)
      then set_reason (Some (match currentOrder with Some _ => stop_expired | None => stop_timeout end)) s
      else
        let interval :=
          num_of_Z (match nextOrder with
                    | Some _ => POLL_INTERVAL_MS
                    | None => POLL_INTERVAL_MS * 2 ^ Z.of_nat failures
                    end) in
        let delay := math_min2 interval (math_max2 (num_of_Z 250) (num_sub expiresAtMs (num_of_Z now2))) in
        set_poller failures (fallbackPollDeadline s) (Some delay) s.

(** The [finally] block of [refresh], and what waits for it. *)
Definition finish (call : Call) (result : option PaymentOrder) (now1 now2 : Z) (s : Polling) : Polling :=
  let s := if bool_decide (requestRef s = Some (c_id call)) then set_request None false (aborted s) s else s in
  match c_poller call with Some p => poll_continue p result now1 now2 s | None => s end.

Definition drop_call (id : nat) (s : Polling) : Polling :=
  set_calls (nextCall s) (filter (fun c => c_id c ≠ id) (calls s)) (settling s) s.

(** [refresh] after its first [await]. *)
Definition answered (call : Call) (o : Outcome PaymentOrder) (now1 now2 : Z) (s : Polling) : Polling :=
  let s := drop_call (c_id call) s in
  match o with
  | Thrown e => finish call None now1 now2 (request_error e s)
  | Answered response =>
    match isApiSuccess response, r_data response with
    | true, Some data =>
      let s := set_error None (set_order (Some data) s) in
      if isPaymentOrderTerminal (status_code data) && negb (bool_decide (settledTradeNo s = Some (trade_no data)))
      then
        set_calls (nextCall s) (calls s) ((call, data) :: settling s)
          (emit (SettledOrder data) (set_settled (Some (trade_no data)) s))
      else finish call (Some data) now1 now2 s
    | _, _ =>
      finish call None now1 now2 (set_error (Some (getPaymentErrorMessage t (r_body response))) s)
    end
  end.

(** [refresh] after [onSettled] returned, or threw [e]. *)
Definition settled_done (call : Call) (data : PaymentOrder) (e : option jsval) (now1 now2 : Z) (s : Polling) : Polling :=
  let s := set_calls (nextCall s) (calls s) (filter (fun cs => c_id cs.1 ≠ c_id call) (settling s)) s in
  match e with
  | None => finish call (Some data) now1 now2 s
  | Some e => finish call None now1 now2 (request_error e s)
  end.

(** ** The effect *)

Definition cleanup (s : Polling) : Polling :=
  set_poller (consecutiveFailures s) (fallbackPollDeadline s) None
    (set_request None (loading s) (abort_list s) (set_options (trade s) (expiresAt s) (S (epoch s)) s)).

Definition start (now : Z) (s : Polling) : Polling :=
  let s := emit (Started (trade s)) s in
  match trade s with
  | None => set_reason None (set_error None (set_order None (set_request None (loading s) (abort_list s) s)))
  | Some _ =>
    let s := set_reason None (set_error None (set_order None (set_settled None s))) in
    let deadline :=
      if num_ltb (S754_zero false) (expiresAt s) then num_mul (expiresAt s) (num_of_Z 1000)
      else num_of_Z (now + FALLBACK_POLL_DURATION_MS) in
    refresh (Some (epoch s)) (set_poller 0 deadline None s)
  end.

Definition resumePolling (now : Z) (s : Polling) : Polling :=
  match trade s with None => s | Some _ => start now (cleanup (set_reason None s)) end.

Definition handleVisibilityChange (s : Polling) : Polling :=
  match requestRef s with None => refresh None s | Some _ => s end.

(** ** Events *)

Inductive Event :=
  | EvOptions (trade : option jstr) (expiresAt : num) (now : Z)
  | EvResume (now : Z)
  | EvRefresh
  | EvVisible
  | EvTimer
  | EvAnswer (id : nat) (o : Outcome PaymentOrder) (now1 now2 : Z)
  | EvSettled (id : nat) (e : option jsval) (now1 now2 : Z).

Definition find_call (id : nat) (s : Polling) : option Call := List.find (fun c => c_id c =? id) (calls s).
Definition find_settling (id : nat) (s : Polling) : option (Call * PaymentOrder) :=
  List.find (fun c => c_id c.1 =? id) (settling s).

Definition handle (ev : Event) (s : Polling) : Polling :=
  match ev with
  | EvOptions tr e now => start now (set_options tr e (S (epoch s)) (cleanup s))
  | EvResume now => resumePolling now s
  | EvRefresh => refresh None s
  | EvVisible => handleVisibilityChange s
  | EvTimer =>
    match timer s with
    | Some _ => refresh (Some (epoch s)) (set_poller (consecutiveFailures s) (fallbackPollDeadline s) None s)
    | None => s
    end
  | EvAnswer id o now1 now2 =>
    match find_call id s with Some call => answered call o now1 now2 s | None => s end
  | EvSettled id e now1 now2 =>
    match find_settling id s with Some (call, data) => settled_done call data e now1 now2 s | None => s end
  end.
End hook.

(** ** The environment *)

Definition clock_ok (now : Z) : Prop := (0 ≤ now < 2 ^ 53)%Z.

(** The order an answer brings. *)
Definition brings (o : Outcome PaymentOrder) : option PaymentOrder :=
  match o with
  | Answered response => if isApiSuccess response then r_data response else None
  | Thrown _ => None
  end.

Definition legal (ev : Event) (s : Polling) : Prop :=
  match ev with
  | EvOptions tr _ now => tr ≠ Some [] ∧ clock_ok now
  | EvResume now => clock_ok now
  | EvAnswer id o now1 now2 =>
    clock_ok now1 ∧ clock_ok now2 ∧
    ∀ call, find_call id s = Some call →
      (id ∈ aborted s → ∃ e, o = Thrown e ∧ is_cancelled e = true) ∧
      (∀ data, brings o = Some data → trade_no data = c_trade call)
  | EvSettled _ _ now1 now2 => clock_ok now1 ∧ clock_ok now2
  | EvRefresh | EvVisible | EvTimer => True
  end.

Inductive Reachable `{UnicodeCase} (t : jstr → list (jstr * num) → jstr) : Polling → Prop :=
  | reach_initial : Reachable t initial
  | reach_step s ev : Reachable t s → legal ev s → Reachable t (handle t ev s).

(** ** Invariants *)

(** The orders settled since the effect last started. *)
Fixpoint settled_since (l : list Effect) : list PaymentOrder :=
  match l with
  | [] | Started _ :: _ => []
  | SettledOrder o :: l' => o :: settled_since l'
  end.

(** The calls that have not returned. *)
Definition waiting (s : Polling) : list Call := calls s ++ map fst (settling s).

(** The length of the chain of the current run: the timer, and the calls that
    [poll] waits for. *)
Definition chain (ep : nat) (tm : option num) (ws : list Call) : nat :=
  match tm with Some _ => 1 | None => 0 end + length (filter (fun c => c_poller c = Some ep) ws).

Record Waiting (n ep : nat) (tm : option num) (ws : list Call) : Prop := {
  w_ids : NoDup (map c_id ws);
  w_next : Forall (fun c => c_id c < n) ws;
  w_pollers : Forall (fun c => ∀ p, c_poller c = Some p → p ≤ ep) ws;
  w_chain : chain ep tm ws ≤ 1;
}.

(** What [settledTradeNoRef] says of the log. *)
Definition settled_ok (s : Polling) : Prop :=
  match trade s, settledTradeNo s with
  | Some tr, Some x => x = tr ∧ length (settled_since (log s)) ≤ 1
  | _, _ => settled_since (log s) = []
  end.

(** The delay of a timer after [n] failures. *)
Definition delay_ok (n : nat) (d : num) : Prop :=
  n < 3 ∧ num_leb (num_of_Z 250) d = true ∧ num_leb d (num_of_Z (POLL_INTERVAL_MS * 2 ^ Z.of_nat n)) = true.

Record Inv (s : Polling) : Prop := {
  inv_order : order s = orderRef s;
  inv_trade : ∀ o, orderRef s = Some o → trade s = Some (trade_no o);
  inv_calls : ∀ c, c ∈ calls s →
    c_id c ∈ aborted s ∨ (requestRef s = Some (c_id c) ∧ trade s = Some (c_trade c));
  inv_waiting : Waiting (nextCall s) (epoch s) (timer s) (waiting s);
  inv_settled : settled_ok s;
  inv_log : ∀ o, o ∈ settled_since (log s) →
    isPaymentOrderTerminal (status_code o) = true ∧ trade s = Some (trade_no o);
  inv_settling : ∀ c d, (c, d) ∈ settling s → c_poller c = Some (epoch s) →
    isPaymentOrderTerminal (status_code d) = true ∧ settledTradeNo s = trade s;
  inv_deadline : isNaN (fallbackPollDeadline s) = false;
  inv_timer : ∀ d, timer s = Some d → delay_ok (consecutiveFailures s) d;
}.

(** The current run is over for a stated reason, or goes on. *)
Definition over (s : Polling) : Prop := is_Some (pollingStoppedReason s) ∨ settledTradeNo s = trade s.
Definition alive (s : Polling) : Prop :=
  is_Some (trade s) → over s ∨ chain (epoch s) (timer s) (waiting s) = 1.

(** *** Delays *)

Lemma num_leb_refl z : isNaN z = false → num_leb z z = true.
Proof.
  unfold num_leb, SFleb. destruct z as [| [] | |[] m e]; intros; try done; cbn;
    by rewrite Z.compare_refl, ?Pos.compare_refl, ?Pos.compare_cont_refl.
Qed.

Lemma num_ltb_leb_weak a b : num_ltb a b = true → num_leb a b = true.
Proof. unfold num_ltb, num_leb, SFltb, SFleb. by destruct (SFcompare a b) as [[]|]. Qed.

(** Clamping a number between two others. *)
Lemma clamp_bounds a b x :
  isNaN x = false → isNaN a = false → isNaN b = false → num_truthy a = true → num_truthy b = true →
  num_leb a b = true →
  let d := math_min2 b (math_max2 a x) in num_leb a d = true ∧ num_leb d b = true.
Proof.
  intros Hx Ha Hb Ta Tb Hab. cbv zeta.
  assert (Hmax : isNaN (math_max2 a x) = false ∧ num_leb a (math_max2 a x) = true).
  { assert (math_max2 a x = if num_ltb a x then x else a) as -> by (by destruct a, x).
    destruct (num_ltb a x) eqn:E; split; auto using num_leb_refl, num_ltb_leb_weak. }
  destruct Hmax as [Hn Hle]. set (y := math_max2 a x) in *.
  assert (math_min2 b y = if num_ltb y b then y else b) as -> by (by destruct b, y).
  destruct (num_ltb y b) eqn:E; split; auto using num_leb_refl, num_ltb_leb_weak.
Qed.

(** Rounding a mantissa never gives NaN. *)
Lemma shr_fexp_nonneg M E l : (0 ≤ M)%Z → (0 ≤ shr_m (shr_fexp 53 1024 M E l).1)%Z.
Proof.
  intros HM. unfold shr_fexp, shr. case_match; cbn [fst]; rewrite ?shr_m_of_loc; try done.
  rewrite shr_iter_div; rewrite shr_m_of_loc; [|done]. apply Z.div_pos; [done|lia].
Qed.

Lemma round_not_nan s M E l : (0 ≤ M)%Z → isNaN (binary_round_aux 53 1024 s M E l) = false.
Proof.
  intros HM. unfold binary_round_aux. pose proof (shr_fexp_nonneg M E l HM) as H1.
  destruct (shr_fexp 53 1024 M E l) as [r1 e1]. cbn [fst] in H1.
  pose proof (round_nearest_even_ge (shr_m r1) (loc_of_shr_record r1)) as H2.
  pose proof (shr_fexp_nonneg (round_nearest_even (shr_m r1) (loc_of_shr_record r1)) e1 loc_Exact ltac:(lia)) as H3.
  destruct (shr_fexp 53 1024 (round_nearest_even _ _) e1 loc_Exact) as [r2 e2]. cbn [fst] in H3.
  destruct (shr_m r2); [done|by case_match|lia].
Qed.

Lemma normalize_not_nan M E s : isNaN (binary_normalize 53 1024 M E s) = false.
Proof.
  unfold binary_normalize, binary_round. destruct M; [done|..]; case_match;
    apply round_not_nan; lia.
Qed.

Lemma num_of_Z_number z : isNaN (num_of_Z z) = false.
Proof. apply normalize_not_nan. Qed.

Lemma num_mul_number x z :
  isNaN x = false → num_truthy x = true → (0 < z < 2 ^ 53)%Z → isNaN (num_mul x (num_of_Z z)) = false.
Proof.
  intros Hx Tx Hz. rewrite num_of_Z_rep by done. unfold num_mul, SFmul. destruct x; try done.
  apply round_not_nan. lia.
Qed.

Lemma num_sub_number x z : isNaN x = false → (0 ≤ z < 2 ^ 53)%Z → isNaN (num_sub x (num_of_Z z)) = false.
Proof.
  intros Hx Hz. destruct (Z.eq_dec z 0%Z) as [->|].
  - rewrite num_of_Z_0. destruct x as [[]| | |]; done.
  - rewrite num_of_Z_rep by lia. unfold num_sub, SFsub. destruct x; try done. apply normalize_not_nan.
Qed.

(** *** The calls that wait *)

#[global] Instance Waiting_Permutation n ep tm : Proper (Permutation ==> impl) (Waiting n ep tm).
Proof.
  intros ws ws' E [H1 H2 H3 H4]. constructor; [by rewrite <- E..|].
  unfold chain in *. by rewrite <- E.
Qed.

Lemma chain_Permutation ep tm ws ws' : ws ≡ₚ ws' → chain ep tm ws = chain ep tm ws'.
Proof. intros E. unfold chain. by rewrite E. Qed.

Lemma Waiting_cons n ep tm c ws :
  Waiting n ep tm (c :: ws) → Waiting n ep tm ws ∧
    (c_poller c = Some ep → tm = None ∧ chain ep tm ws = 0) ∧
    (c_poller c ≠ Some ep → chain ep tm (c :: ws) = chain ep tm ws).
Proof.
  intros [H1 H2 H3 H4]. cbn in H1. apply NoDup_cons in H1 as [_ H1]. apply Forall_cons in H2 as [_ H2].
  apply Forall_cons in H3 as [_ H3]. unfold chain in *. rewrite filter_cons in *.
  case_decide as E; cbn [length] in *; (split; [constructor; unfold chain; auto; lia|]).
  - split; [|done]. intros _. destruct tm; [lia|]. split; [done|lia].
  - done.
Qed.

(** A call that starts. *)
Lemma Waiting_new n ep tm ws tr po :
  Waiting n ep tm ws → (∀ p, po = Some p → p = ep ∧ chain ep tm ws = 0) →
  Waiting (S n) ep tm (MkCall n tr po :: ws).
Proof.
  intros [H1 H2 H3 H4] Hp. constructor; cbn.
  - constructor; [|done]. intros (c & E & Hc)%list_elem_of_fmap. rewrite Forall_forall in H2.
    specialize (H2 c Hc). lia.
  - constructor; cbn; [lia|]. eapply Forall_impl; [exact H2|]. cbn. lia.
  - constructor; cbn; [|done]. intros p Ep. by destruct (Hp p Ep) as [-> _].
  - unfold chain in *. rewrite filter_cons. case_decide as E; cbn [length]; [|done].
    destruct (Hp ep E). lia.
Qed.

(** The next run. *)
Lemma Waiting_next n ep tm ws ep' : ep < ep' → Waiting n ep tm ws → Waiting n ep' None ws ∧ chain ep' None ws = 0.
Proof.
  intros He [H1 H2 H3 H4].
  assert (Hc : chain ep' None ws = 0).
  { unfold chain. cbn. clear -He H3. induction H3 as [|c ws Hp _ IH]; [done|]. rewrite filter_cons.
    case_decide as E; [|done]. specialize (Hp _ E). lia. }
  split; [|done]. constructor; [done|done| |lia]. eapply Forall_impl; [exact H3|]. cbn. intros c Hp p E.
  specialize (Hp p E). lia.
Qed.

(** *** Events keep the invariants *)

Section invariants.
Context `{UnicodeCase} (t : jstr → list (jstr * num) → jstr).

Lemma poll_ends p o now1 now2 s :
  p ≠ epoch s ∨ isPaymentOrderTerminal (status_code o) = true → poll_continue p (Some o) now1 now2 s = s.
Proof.
  intros Hs. unfold poll_continue. replace (_ || _) with true; [done|].
  symmetry. apply orb_true_iff. destruct Hs as [Hs|Hs]; [left|by right].
  apply negb_true_iff. by apply Nat.eqb_neq.
Qed.

Lemma poll_stale p no now1 now2 s : p ≠ epoch s → poll_continue p no now1 now2 s = s.
Proof. intros Hs. unfold poll_continue. by rewrite (proj2 (Nat.eqb_neq _ _) Hs). Qed.

(** A poll of the current run that found no settled order stops for a stated
    reason or sets the timer. *)
Lemma poll_goes_on no now1 now2 s :
  clock_ok now2 → isNaN (fallbackPollDeadline s) = false → timer s = None →
  (∀ o, no = Some o → isPaymentOrderTerminal (status_code o) = false) →
  ∃ f r tm, poll_continue (epoch s) no now1 now2 s = set_reason r (set_poller f (fallbackPollDeadline s) tm s) ∧
    (is_Some r ∨ is_Some tm) ∧ ∀ d, tm = Some d → delay_ok f d.
Proof.
  intros Hc Hd Htm Ho. unfold poll_continue. rewrite Nat.eqb_refl. cbn [negb orb].
  replace (match no with Some o => _ | None => false end) with false
    by (destruct no as [o|]; [by rewrite Ho|done]).
  cbn [set_poller fallbackPollDeadline timer epoch consecutiveFailures orderRef].
  set (f := match no with Some _ => 0 | None => S (consecutiveFailures s) end).
  assert (Hreason : ∀ r : PaymentPollingStopReason, ∃ f' r' tm,
    set_reason (Some r) (set_poller f (fallbackPollDeadline s) (timer s) s)
      = set_reason r' (set_poller f' (fallbackPollDeadline s) tm s) ∧
    (is_Some r' ∨ is_Some tm) ∧ ∀ d, tm = Some d → delay_ok f' d).
  { intros r. exists f, (Some r), (timer s). rewrite Htm. split; [done|]. split; [left; by eexists|done]. }
  destruct (3 <=? f) eqn:Ef; [apply Hreason|]. apply Nat.leb_gt in Ef.
  set (cur := match no with Some o => Some o | None => orderRef s end).
  set (exp := match cur with Some o => _ | None => _ end).
  assert (Hexp : isNaN exp = false).
  { unfold exp. destruct cur as [o|]; [|done]. destruct (num_truthy (o_expires_at o)) eqn:Et; [|done].
    apply num_mul_number; [by destruct (o_expires_at o)|done|lia]. }
  destruct (num_leb exp (num_of_Z now1)); [apply Hreason|].
  eexists f, (pollingStoppedReason s), (Some _). split; [reflexivity|]. split; [right; by eexists|].
  intros d Ed%Some_inj. rewrite <- Ed. split; [done|].
  assert (Hi : (match no with Some _ => POLL_INTERVAL_MS | None => POLL_INTERVAL_MS * 2 ^ Z.of_nat f end
    = POLL_INTERVAL_MS * 2 ^ Z.of_nat f)%Z) by (unfold f; destruct no; done).
  rewrite Hi. apply clamp_bounds; auto using num_of_Z_number.
  - by apply num_sub_number.
  - destruct f as [|[|[|]]]; [done..|lia].
  - destruct f as [|[|[|]]]; [done..|lia].
Qed.

Lemma finish_ok call res now1 now2 s :
  clock_ok now2 → Inv s → Waiting (nextCall s) (epoch s) (timer s) (call :: waiting s) →
  (is_Some (trade s) → over s ∨ chain (epoch s) (timer s) (call :: waiting s) = 1) →
  (∀ o, res = Some o → isPaymentOrderTerminal (status_code o) = true → c_poller call = Some (epoch s) →
     settledTradeNo s = trade s) →
  Inv (finish call res now1 now2 s) ∧ alive (finish call res now1 now2 s).
Proof.
  intros Hc HI HW Ha Hr. unfold finish.
  set (s1 := if bool_decide _ then _ else s).
  assert (H1 : Inv s1).
  { unfold s1. case_bool_decide as Eq; [|done]. destruct HI. constructor; try done. cbn. intros c Hin.
    destruct (inv_calls0 c Hin) as [?|[E _]]; [by left|]. exfalso. rewrite Eq in E. injection E as E.
    destruct HW as [Hn _ _ _]. cbn in Hn. apply NoDup_cons in Hn as [Hn _]. apply Hn. rewrite E.
    apply list_elem_of_fmap_2. unfold waiting. apply elem_of_app. by left. }
  assert (E : epoch s1 = epoch s ∧ timer s1 = timer s ∧ waiting s1 = waiting s ∧ trade s1 = trade s ∧
    settledTradeNo s1 = settledTradeNo s ∧ nextCall s1 = nextCall s ∧ pollingStoppedReason s1 = pollingStoppedReason s)
    by (unfold s1; by case_bool_decide).
  destruct E as (E1 & E2 & E3 & E4 & E5 & E6 & E7). clearbody s1.
  destruct (Waiting_cons _ _ _ _ _ HW) as (HW' & Hmine & Hother).
  assert (Hstay : c_poller call ≠ Some (epoch s) ∨ over s → alive s1).
  { unfold alive, over in *. rewrite E1, E2, E3, E4, E5, E7. intros [Hne|Ho] Ht; [|by left].
    rewrite <- Hother by done. by apply Ha. }
  destruct (c_poller call) as [p|] eqn:Ep; [|split; [done|]; apply Hstay; by left].
  destruct (decide (p = epoch s)) as [->|Hne].
  2:{ rewrite poll_stale by congruence. split; [done|]. apply Hstay. left. congruence. }
  destruct (Hmine eq_refl) as [Htm Hch].
  destruct (match res with Some o => isPaymentOrderTerminal (status_code o) | None => false end) eqn:Et.
  - destruct res as [o|]; [|done]. rewrite poll_ends by auto. split; [done|]. apply Hstay. right. right. eauto.
  - rewrite <- E1 at 1 2. destruct (poll_goes_on res now1 now2 s1) as (f & r & tm & -> & Hp & Hd).
    + done.
    + apply H1.
    + congruence.
    + intros o ->. exact Et.
    + split.
      * destruct H1. constructor; try done; cbn. constructor; try apply inv_waiting0.
        rewrite E1. fold (waiting s1). rewrite E3, Htm in *.
        unfold chain in *. destruct tm; lia.
      * intros _. destruct Hp as [Hp|Hp]; [left; by left|]. right. cbn.
        fold (waiting s1). rewrite E3, E1. rewrite Htm in Hch.
        unfold chain in *. destruct Hp as [? ->]. lia.
Qed.

Lemma found_call id s call : find_call id s = Some call → call ∈ calls s ∧ c_id call = id.
Proof. intros [Hin E]%List.find_some. rewrite <- list_elem_of_In in Hin. split; [done|by apply Nat.eqb_eq]. Qed.

Lemma found_settling id s x : find_settling id s = Some x → x ∈ settling s ∧ c_id x.1 = id.
Proof. intros [Hin E]%List.find_some. rewrite <- list_elem_of_In in Hin. split; [done|by apply Nat.eqb_eq]. Qed.

Lemma set_error_inv e s : Inv s → Inv (set_error e s).
Proof. by intros []. Qed.

(** A call leaves the list of the requests. *)
Lemma drop_call_ok call s :
  Inv s → call ∈ calls s → Inv (drop_call (c_id call) s) ∧ waiting s ≡ₚ call :: waiting (drop_call (c_id call) s).
Proof.
  intros HI Hin. assert (Hp : waiting s ≡ₚ call :: waiting (drop_call (c_id call) s)).
  { unfold waiting. cbn. rewrite (drop_permutation c_id (calls s) call) at 1; [done| |done].
    pose proof (w_ids _ _ _ _ (inv_waiting _ HI)) as Hn. unfold waiting in Hn. rewrite map_app in Hn.
    by apply NoDup_app in Hn as [? _]. }
  split; [|done]. pose proof (inv_waiting _ HI) as HW. rewrite Hp in HW. apply Waiting_cons in HW as [HW _].
  destruct HI. constructor; try done. cbn. intros c [_ Hc]%list_elem_of_filter. by apply inv_calls0.
Qed.

(** A call leaves the list of those that wait for [onSettled]. *)
Lemma drop_settling_ok call data s :
  let s1 := set_calls (nextCall s) (calls s) (filter (fun cs => c_id cs.1 ≠ c_id call) (settling s)) s in
  Inv s → (call, data) ∈ settling s → Inv s1 ∧ waiting s ≡ₚ call :: waiting s1.
Proof.
  intros s1 HI Hin. assert (Hp : waiting s ≡ₚ call :: waiting s1).
  { unfold waiting, s1. cbn. rewrite (drop_permutation (fun cs => c_id cs.1) (settling s) (call, data)) at 1; [| |done].
    - cbn. by rewrite Permutation_middle.
    - pose proof (w_ids _ _ _ _ (inv_waiting _ HI)) as Hn. unfold waiting in Hn.
      rewrite map_app, map_map in Hn. by apply NoDup_app in Hn as (_ & _ & ?). }
  split; [|done]. pose proof (inv_waiting _ HI) as HW. rewrite Hp in HW. apply Waiting_cons in HW as [HW _].
  destruct HI. constructor; try done. cbn. intros c d [_ Hc]%list_elem_of_filter. by apply inv_settling0.
Qed.

(** The order of the trade that is asked for arrives. *)
Lemma order_arrives data s :
  Inv s → trade s = Some (trade_no data) → Inv (set_error None (set_order (Some data) s)).
Proof. intros [] Ht. constructor; try done. cbn. by intros o [= <-]. Qed.

(** [onSettled] is called. *)
Lemma settles call data s :
  Inv s → Waiting (nextCall s) (epoch s) (timer s) (call :: waiting s) → trade s = Some (trade_no data) →
  isPaymentOrderTerminal (status_code data) = true → settledTradeNo s ≠ Some (trade_no data) →
  let s2 := set_calls (nextCall s) (calls s) ((call, data) :: settling s)
    (emit (SettledOrder data) (set_settled (Some (trade_no data)) s)) in
  Inv s2 ∧ alive s2.
Proof.
  intros HI HW Ht Hd Hn s2. split; [|intros _; left; right; by cbn].
  assert (Hp : call :: waiting s ≡ₚ waiting s2) by (unfold waiting; cbn; by rewrite Permutation_middle).
  rewrite Hp in HW. destruct HI. constructor; try done.
  - unfold settled_ok in *. cbn. rewrite Ht in *. destruct (settledTradeNo s) as [x|].
    + destruct inv_settled0 as [-> _]. by destruct Hn.
    + by rewrite inv_settled0.
  - cbn. intros o [->|Hin]%elem_of_cons; [done|]. by apply inv_log0.
  - cbn. intros c d [[= -> ->]|Hin]%elem_of_cons E; [done|]. rewrite Ht.
    destruct (inv_settling0 c d Hin E) as [? ?]. done.
Qed.

Lemma answered_ok call o now1 now2 s :
  Inv s → alive s → find_call (c_id call) s = Some call → legal (EvAnswer (c_id call) o now1 now2) s →
  Inv (answered t call o now1 now2 s) ∧ alive (answered t call o now1 now2 s).
Proof.
  intros HI Ha Hf (_ & Hc & Hl). destruct (Hl call Hf) as [Hab Htr].
  destruct (found_call _ _ _ Hf) as [Hin _].
  destruct (drop_call_ok call s HI Hin) as [H1 Hp]. pose proof (inv_waiting _ HI) as HW. rewrite Hp in HW.
  assert (Ha' : is_Some (trade s) → over s ∨ chain (epoch s) (timer s) (call :: waiting (drop_call (c_id call) s)) = 1)
    by (intros Ht; rewrite <- (chain_Permutation _ _ _ _ Hp); by apply Ha).
  unfold answered. destruct o as [response|e].
  - destruct (isApiSuccess response) eqn:Es, (r_data response) as [data|] eqn:Ed;
      try (apply finish_ok; [done|by apply set_error_inv|done..]).
    assert (Ht : trade s = Some (trade_no data)).
    { rewrite (Htr data) by (cbn; by rewrite Es).
      destruct (inv_calls _ HI call Hin) as [Hx|[_ ?]]; [|done]. by destruct (Hab Hx) as (? & ? & _). }
    pose proof (order_arrives data _ H1 Ht) as H2.
    destruct (isPaymentOrderTerminal (status_code data)) eqn:Et; cbn [andb].
    + case_bool_decide as En; cbn [negb].
      * apply finish_ok; try done. intros o [= <-] _ _. by rewrite En.
      * by apply settles.
    + apply finish_ok; try done. intros o [= <-]. by rewrite Et.
  - unfold request_error. case_match; apply finish_ok; auto using set_error_inv; done.
Qed.

Lemma settled_done_ok call data e now1 now2 s :
  clock_ok now2 → Inv s → alive s → (call, data) ∈ settling s →
  Inv (settled_done t call data e now1 now2 s) ∧ alive (settled_done t call data e now1 now2 s).
Proof.
  intros Hc HI Ha Hin. destruct (drop_settling_ok call data s HI Hin) as [H1 Hp].
  pose proof (inv_waiting _ HI) as HW. rewrite Hp in HW. unfold settled_done.
  set (s1 := set_calls _ _ _ _) in *.
  assert (Ha' : is_Some (trade s1) → over s1 ∨ chain (epoch s1) (timer s1) (call :: waiting s1) = 1)
    by (intros Ht; change (over s ∨ chain (epoch s) (timer s) (call :: waiting s1) = 1);
        rewrite <- (chain_Permutation _ _ _ _ Hp); by apply Ha).
  destruct e as [e|]; [unfold request_error; case_match|]; apply finish_ok; auto using set_error_inv; try done.
  intros o [= <-] _ E. by apply (inv_settling _ HI call data).
Qed.

Lemma refresh_ok po s :
  Inv s → (po = Some (epoch s) → chain (epoch s) (timer s) (waiting s) = 0) → po = None ∨ po = Some (epoch s) →
  (po = None → alive s) → Inv (refresh po s) ∧ alive (refresh po s).
Proof.
  intros HI Hch Hpo Ha. unfold refresh. destruct (trade s) as [tr|] eqn:Et.
  2:{ split; [done|]. intros [x Ex]. by rewrite Et in Ex. }
  set (s' := set_calls _ _ _ _). assert (Hw : waiting s' = MkCall (nextCall s) tr po :: waiting s) by done.
  split.
  - destruct HI. constructor; try done.
    + cbn. intros c [->|Hin]%elem_of_cons; [by right|]. left. unfold abort_list.
      destruct (inv_calls0 c Hin) as [Hx|[E _]]; [case_match; [by right|done]|]. rewrite E. by left.
    + rewrite Hw. apply Waiting_new; [done|]. intros p ->. destruct Hpo as [?|[= ->]]; [done|]. auto.
  - intros _. rewrite Hw. unfold chain. rewrite filter_cons. cbn [c_poller]. destruct Hpo as [->| ->].
    + rewrite decide_False by done. apply Ha; [done|]. by rewrite Et.
    + right. rewrite decide_True by done. cbn [length]. change (timer s') with (timer s). change (epoch s') with (epoch s).
      specialize (Hch eq_refl). unfold chain in Hch. lia.
Qed.

(** *** Restarting the effect *)

(** The state between the cleanup of a run and the start of the next. *)
Record Halted (s : Polling) : Prop := {
  halted_calls : ∀ c, c ∈ calls s → c_id c ∈ aborted s;
  halted_waiting : Waiting (nextCall s) (epoch s) None (waiting s);
  halted_chain : chain (epoch s) None (waiting s) = 0;
  halted_timer : timer s = None;
  halted_deadline : isNaN (fallbackPollDeadline s) = false;
}.

Lemma Halted_options tr e s : Halted s → Halted (set_options tr e (epoch s) s).
Proof. by intros []. Qed.

Lemma cleanup_ok s : Inv s → Halted (cleanup s).
Proof.
  intros []. destruct (Waiting_next _ _ _ _ (S (epoch s)) (Nat.lt_succ_diag_r _) inv_waiting0) as [HW Hch].
  constructor; try done. cbn. unfold abort_list. intros c Hc.
  destruct (inv_calls0 c Hc) as [?|[-> _]]; [case_match; [by right|done]|by left].
Qed.

Lemma no_settling c d s : chain (epoch s) None (waiting s) = 0 → (c, d) ∈ settling s → c_poller c ≠ Some (epoch s).
Proof.
  unfold chain, waiting. cbn. intros Hch Hin E. apply nil_length_inv in Hch.
  assert (Hc : c ∈ filter (fun x => c_poller x = Some (epoch s)) (calls s ++ map fst (settling s))).
  { apply list_elem_of_filter. split; [done|]. apply elem_of_app. right. apply list_elem_of_fmap. by exists (c, d). }
  rewrite Hch in Hc. by apply not_elem_of_nil in Hc.
Qed.

Lemma start_ok now s : Halted s → Inv (start now s) ∧ alive (start now s).
Proof.
  intros HH. pose proof HH as []. unfold start. cbn [trade emit]. destruct (trade s) as [tr|] eqn:Et.
  - set (deadline := if num_ltb _ _ then _ else _).
    assert (Hd : isNaN deadline = false).
    { unfold deadline. cbn [expiresAt set_reason set_error set_order set_settled emit].
      destruct (num_ltb _ _) eqn:E; [|apply num_of_Z_number]. cbn [expiresAt set_reason set_error set_order set_settled emit] in E.
      clear deadline. apply num_mul_number; [by destruct (expiresAt s)|by destruct (expiresAt s)|lia]. }
    set (s0 := set_poller _ _ _ _). apply refresh_ok; [|done|by right|done].
    constructor; try done.
    + cbn. intros c Hc. left. by apply halted_calls0.
    + unfold settled_ok. cbn. by rewrite Et.
    + cbn. by intros o ?%not_elem_of_nil.
    + intros c d Hin E. by apply no_settling in Hin.
  - split; [|intros [x Ex]; cbn in Ex; by rewrite Et in Ex]. constructor; try done.
    + cbn. intros c Hc. left. unfold abort_list. cbn. case_match; [right|]; by apply halted_calls0.
    + cbn. by rewrite halted_timer0.
    + unfold settled_ok. cbn. by rewrite Et.
    + cbn. by intros o ?%not_elem_of_nil.
    + intros c d Hin E. by apply no_settling in Hin.
    + cbn. by rewrite halted_timer0.
Qed.

Lemma handle_ok ev s : Inv s → alive s → legal ev s → Inv (handle t ev s) ∧ alive (handle t ev s).
Proof.
  intros HI Ha Hl. destruct ev as [tr e now|now| | | |id o now1 now2|id e now1 now2]; cbn [handle].
  - apply start_ok. by apply (Halted_options tr e (cleanup s)), cleanup_ok.
  - unfold resumePolling. case_match; [|done]. apply start_ok, cleanup_ok. by destruct HI.
  - apply refresh_ok; [done|done|by left|done].
  - unfold handleVisibilityChange. case_match; [done|]. apply refresh_ok; [done|done|by left|done].
  - destruct (timer s) as [d|] eqn:Et; [|done]. pose proof (inv_waiting _ HI) as [H1 H2 H3 H4].
    rewrite Et in H4. apply refresh_ok; [|cbn; unfold chain in *; fold (waiting s) in *; intros _; lia|by right|done].
    destruct HI. constructor; try done. constructor; try done. cbn. fold (waiting s). unfold chain in *. lia.
  - destruct (find_call id s) as [call|] eqn:Ef; [|done]. destruct (found_call _ _ _ Ef) as [_ <-].
    by apply answered_ok.
  - destruct (find_settling id s) as [[call data]|] eqn:Ef; [|done].
    destruct (found_settling _ _ _ Ef) as [Hin _]. apply settled_done_ok; try done. by destruct Hl.
Qed.

Lemma Reachable_ok s : Reachable t s → Inv s ∧ alive s.
Proof.
  induction 1 as [|s ev _ [HI Ha] Hl]; [|by apply handle_ok].
  split; [|intros [? ?]; done]. constructor; try done; cbn.
  - intros c Hc. by apply not_elem_of_nil in Hc.
  - constructor; cbn; [constructor..|]. unfold chain. cbn. lia.
  - intros o Ho. by apply not_elem_of_nil in Ho.
  - intros c d Hc. by apply not_elem_of_nil in Hc.
Qed.

(** ** Properties *)

(** C16: the order that is shown is the order that is asked for.  Whatever the order
    of refreshes, timers, answers and changes of the page, the order of the hook is
    the same in its state and its ref and carries the trade number of the options;
    a request that was not aborted asks for that trade. *)
Theorem order_of_trade s :
  Reachable t s →
  order s = orderRef s ∧ (∀ o, order s = Some o → trade s = Some (trade_no o)) ∧
  ∀ c, c ∈ calls s → c_id c ∉ aborted s → requestRef s = Some (c_id c) ∧ trade s = Some (c_trade c).
Proof.
  intros [[] _]%Reachable_ok. rewrite inv_order0. split; [done|]. split; [done|].
  intros c Hc Hn. by destruct (inv_calls0 c Hc).
Qed.

(** C17: [onSettled] is called at most once in a run of the effect, for an order of
    the trade of the options, and only when the order is settled. *)
Theorem settled_once s :
  Reachable t s →
  length (settled_since (log s)) ≤ 1 ∧
  ∀ o, o ∈ settled_since (log s) → isPaymentOrderTerminal (status_code o) = true ∧ trade s = Some (trade_no o).
Proof.
  intros [[] _]%Reachable_ok. split; [|done]. unfold settled_ok in inv_settled0.
  destruct (trade s), (settledTradeNo s); [apply inv_settled0|rewrite inv_settled0; cbn; lia..].
Qed.

(** Waiting does not get stuck and does not multiply.  While a trade is
    watched, its order was reported as settled, polling stopped for a stated
    reason, or exactly one of a timer and a call that the poll waits for is
    pending. *)
Theorem polling_goes_on s :
  Reachable t s → is_Some (trade s) →
  settledTradeNo s = trade s ∨ is_Some (pollingStoppedReason s) ∨
  (is_Some (timer s) ∧ filter (fun c => c_poller c = Some (epoch s)) (waiting s) = []) ∨
  (timer s = None ∧ ∃ c, filter (fun c => c_poller c = Some (epoch s)) (waiting s) = [c]).
Proof.
  intros [_ Ha]%Reachable_ok Ht. destruct (Ha Ht) as [[?|?]|Hc]; [auto..|]. unfold chain in Hc.
  destruct (timer s) as [d|].
  - right; right; left. split; [by eexists|]. apply nil_length_inv. lia.
  - right; right; right. split; [done|]. destruct (filter _ _) as [|c [|]]; cbn in Hc; [lia|by exists c|lia].
Qed.

(** The delays of the timer.  A poll waits at least a quarter of a second and at
    most two seconds, doubled for each of the one or two failures before it. *)
Theorem poll_delays s d :
  Reachable t s → timer s = Some d →
  consecutiveFailures s < 3 ∧ num_leb (num_of_Z 250) d = true ∧
  num_leb d (num_of_Z (POLL_INTERVAL_MS * 2 ^ Z.of_nat (consecutiveFailures s))) = true.
Proof. intros [HI _]%Reachable_ok Ht. by apply (inv_timer _ HI). Qed.
End invariants.

(** ** Witnesses *)

Definition demo_order (status : PublicPaymentStatusCode) : PaymentOrder :=
  MkOrder "T1" "r1" "alipay" None status "20.00" None None "USD" (num_of_Z 1000) None None.
Definition demo_answer (status : PublicPaymentStatusCode) : Outcome PaymentOrder :=
  Answered (MkResponse (Some true) None (Some (demo_order status)) (JObj [])).
Definition cancelled : Outcome PaymentOrder := Thrown (JObj [("code" : jstr, JStr "ERR_CANCELED")]).
Definition echo (k : jstr) (_ : list (jstr * num)) : jstr := k.
Definition demo_run : list Event → Polling := foldl (fun s ev => @handle ascii_case echo ev s) initial.

(** A list of events that are legal one after the other. *)
Fixpoint legal_run (evs : list Event) (s : Polling) : Prop :=
  match evs with
  | [] => True
  | ev :: evs' => legal ev s ∧ legal_run evs' (@handle ascii_case echo ev s)
  end.

Lemma demo_reachable evs : legal_run evs initial → @Reachable ascii_case echo (demo_run evs).
Proof.
  unfold demo_run. generalize (@reach_initial ascii_case echo). generalize initial. induction evs as [|ev evs IH]; [done|].
  intros s Hs [Hl Hr]. cbn. apply IH; [by constructor|done].
Qed.

Ltac legal_answers :=
  repeat match goal with
  | |- legal_run _ _ => cbn [legal_run]
  | |- legal _ _ => cbn [legal]
  | |- _ ∧ _ => split
  | |- clock_ok _ => vm_compute; done
  | |- True => done
  | |- _ ≠ _ => done
  | |- _ = _ => vm_compute; reflexivity
  | |- _ → ∃ _, _ => intros Hab; first [by eexists | exfalso; vm_compute in Hab; revert Hab; set_solver]
  | |- ∀ _, _ = Some _ → _ => let H := fresh in intros ? H; vm_compute in H; try done; injection H as <-
  end.

Definition first_answer : list Event :=
  [EvOptions (Some "T1" : option jstr) (S754_zero false) 5000; EvAnswer 0 (demo_answer awaiting_payment) 6000 6000].

Lemma first_answer_reachable : @Reachable ascii_case echo (demo_run first_answer).
Proof. apply demo_reachable. unfold first_answer. legal_answers. Qed.

Lemma order_of_trade_witness :
  order (demo_run first_answer) = Some (demo_order awaiting_payment) ∧ trade (demo_run first_answer) = Some "T1" ∧
  orderRef (demo_run first_answer) = Some (demo_order awaiting_payment).
Proof.
  destruct (@order_of_trade ascii_case echo _ first_answer_reachable) as (H1 & H2 & _).
  rewrite <- H1. split; [reflexivity|]. split; [|reflexivity]. apply (H2 (demo_order awaiting_payment)). reflexivity.
Defined.

Lemma poll_delays_witness :
  timer (demo_run first_answer) = Some (num_of_Z 2000) ∧
  num_leb (num_of_Z 250) (num_of_Z 2000) = true.
Proof.
  assert (Ht : timer (demo_run first_answer) = Some (num_of_Z 2000)) by by vm_compute.
  split; [exact Ht|]. apply (@poll_delays ascii_case echo _ _ first_answer_reachable Ht).
Defined.

Lemma polling_goes_on_witness :
  settledTradeNo (demo_run first_answer) = None ∧
  filter (fun c => c_poller c = Some (epoch (demo_run first_answer))) (waiting (demo_run first_answer)) = [].
Proof.
  split; [reflexivity|].
  destruct (@polling_goes_on ascii_case echo _ first_answer_reachable) as [?|[[? ?]|[[_ ?]|[? _]]]]; try done.
Defined.

(** The order settles while a refresh of the user is in flight: the poll's own
    request was aborted, the user's answer reports the order, and the next poll
    finds it settled without reporting it again. *)
Definition settled_run : list Event :=
  [EvOptions (Some "T1" : option jstr) (S754_zero false) 5000; EvRefresh; EvAnswer 0 cancelled 5500 5500;
   EvAnswer 1 (demo_answer succeeded) 6000 6000; EvSettled 1 None 6500 6500; EvTimer;
   EvAnswer 2 (demo_answer succeeded) 9600 9600].

Lemma settled_run_reachable : @Reachable ascii_case echo (demo_run settled_run).
Proof. apply demo_reachable. unfold settled_run. legal_answers. Qed.

Lemma settled_once_witness :
  settled_since (log (demo_run settled_run)) = [demo_order succeeded] ∧
  length (settled_since (log (demo_run settled_run))) ≤ 1 ∧ trade (demo_run settled_run) = Some "T1".
Proof.
  assert (Hs : settled_since (log (demo_run settled_run)) = [demo_order succeeded]) by (vm_compute; reflexivity).
  assert (Hin : demo_order succeeded ∈ settled_since (log (demo_run settled_run))) by (rewrite Hs; by left).
  destruct (@settled_once ascii_case echo _ settled_run_reachable) as [H1 H2].
  exact (conj Hs (conj H1 (proj2 (H2 _ Hin)))).
Defined.

(** Refreshing while a poll waits counts as a failure of the poll.  Here each of
    the user's refreshes is answered and no request fails, yet polling stops as if
    the network had failed. *)
Definition refreshing_run : list Event :=
  [EvOptions (Some "T1" : option jstr) (S754_zero false) 5000;
   EvRefresh; EvAnswer 0 cancelled 5500 5500; EvAnswer 1 (demo_answer awaiting_payment) 6000 6000; EvTimer;
   EvRefresh; EvAnswer 2 cancelled 9600 9600; EvAnswer 3 (demo_answer awaiting_payment) 9700 9700; EvTimer;
   EvRefresh; EvAnswer 4 cancelled 17700 17700; EvAnswer 5 (demo_answer awaiting_payment) 17800 17800].

Example refreshes_stop_polling :
  @Reachable ascii_case echo (demo_run refreshing_run) ∧
  pollingStoppedReason (demo_run refreshing_run) = Some stop_network ∧ timer (demo_run refreshing_run) = None ∧
  error (demo_run refreshing_run) = None ∧ order (demo_run refreshing_run) = Some (demo_order awaiting_payment).
Proof.
  split; [apply demo_reachable; unfold refreshing_run; legal_answers|].
  repeat split; vm_compute; reflexivity.
Qed.
