(* ===== verification/TopupInfo.v ===== *)
(** * Top-up configuration

    Model of [features/wallet/hooks/use-topup-info.ts]: what the wallet page makes of
    the configuration the server sends (routes, products, options, amounts), and
    the hook that loads it and offers preset amounts.  The configuration is an
    arbitrary JSON value. *)

From S2P Require Import Prelude JsRegExp JsValue JsText WebUrl Payment WalletApi PaymentSession.

Section readers.
Context `{UnicodeCase} (environment : PaymentBrowserEnvironment).

Definition parseJsonArray (data : jsval) : list jsval :=
  match data with
  | JArr l => l
  | JStr s => match JSON_parse s with Some (JArr l) => l | _ => [] end
  | _ => []
  end.

(** [.filter((item) => !!item && typeof item === 'object')] *)
Definition objects (l : list jsval) : list jsval := filter (fun v => is_objectlike v = true) l.

Definition positive_safe (n : num) : bool := isSafeInteger n && num_ltb (S754_zero false) n.

Definition readCheckoutMode (v : jsval) : PaymentCheckoutMode :=
  match v with
  | JStr s =>
    if s === "product" then mode_product else if s === "option" then mode_option
    else if s === "direct" then mode_direct else mode_quote
  | _ => mode_quote
  end.

Definition optionalCurrency (v : jsval) : option jstr :=
  match v with JStr s => if test re_currency s then Some (toUpperCase s) else None | _ => None end.

Definition parsePaymentRoute (item : jsval) : option PaymentMethod :=
  let rawMinTopup := to_number (get "min_topup" item) in
  let normalizedMinTopup := if positive_safe rawMinTopup then rawMinTopup else S754_zero false in
  match isPublicPaymentRouteId (get "route_id" item) with
  | None => None
  | Some id =>
    Some (MkPaymentMethod id
      (normalizePublicPaymentMethod (get "public_method" item) (text_or_empty (get "type" item))
         (text_or_empty (get "name" item)))
      (normalizePaymentChannelAlias (get "channel_alias" item)) (readCheckoutMode (get "checkout_mode" item))
      (Some normalizedMinTopup) None None (optionalCurrency (get "currency" item)))
  end.

Definition parsePaymentRoutes (data : jsval) : list PaymentMethod :=
  filterPaymentMethodsForBrowser (omap parsePaymentRoute (objects (parseJsonArray data))) environment.

Definition is_hex_lower (c : N) : bool := in_range 97 102 c || is_digit c.
Definition re_option : regex := (RBol · rlit "option_" · RRep (RUnit is_hex_lower) 24 (Some 24) · REol)%re.
Definition re_product : regex := (RBol · rlit "product_" · RRep (RUnit is_hex_lower) 24 (Some 24) · REol)%re.
Definition PUBLIC_LABELS : list jstr := ["Card"; "Apple Pay"; "Google Pay"; "Online payment"].

Definition parsePaymentRouteOption (item : jsval) : option PaymentRouteOption :=
  let optionId := trim (text_or_empty (get "option_id" item)) in
  if negb (test re_option optionId) then None
  else
    match isPublicPaymentRouteId (get "route_id" item), get "public_label" item with
    | Some id, JStr label => if has label PUBLIC_LABELS then Some (MkRouteOption optionId id label) else None
    | _, _ => None
    end.

Definition parsePaymentRouteOptions (data : jsval) : list PaymentRouteOption :=
  omap parsePaymentRouteOption (objects (parseJsonArray data)).

Definition re_iso : regex := (RBol · RRep (RUnit is_upper) 3 (Some 3) · REol)%re.

Definition parsePaymentProduct (item : jsval) : option PaymentProduct :=
  let productId := trim (text_or_empty (get "product_id" item)) in
  let name := trim (text_or_empty (get "name" item)) in
  let paymentAmount := trim (text_or_empty (get "payment_amount" item)) in
  let topUpAmount := to_number (get "top_up_amount" item) in
  let currency := toUpperCase (text_or_empty (get "currency" item)) in
  if negb (test re_product productId) then None
  else
    match isPublicPaymentRouteId (get "route_id" item) with
    | None => None
    | Some id =>
      if negb (truthy name) || (128 <? length name) then None
      else if negb (test re_decimal paymentAmount) then None
      else if negb (isSafeInteger topUpAmount) || num_leb topUpAmount (S754_zero false) then None
      else if negb (test re_iso currency) then None
      else Some (MkProduct productId id name paymentAmount topUpAmount currency)
    end.

Definition parsePaymentProducts (data : jsval) : list PaymentProduct :=
  omap parsePaymentProduct (objects (parseJsonArray data)).

Definition parseAmountOptions (data : jsval) : list num :=
  filter (fun n => isFinite n && num_ltb (S754_zero false) n = true) (map to_number (parseJsonArray data)).

Definition parseDiscountMap (data : jsval) : list (jstr * num) :=
  let parsedData := match data with JStr s => default JUndefined (JSON_parse s) | _ => data end in
  match parsedData with
  | JObj fields =>
    foldl (fun result kv =>
      let numericKey := to_number (JStr kv.1) in
      let numericValue := to_number kv.2 in
      if isFinite numericKey && isFinite numericValue
      then map_set (number_to_string numericKey) numericValue result else result) [] fields
  | _ => []
  end.

Definition parseOptionalNumber (data : jsval) : option num :=
  if isFinite (to_number data) then Some (to_number data) else None.

Definition normalizePublicTopupInfo (raw : jsval) : option TopupInfo :=
  if negb (is_objectlike raw) then None
  else
    let paymentRoutes := parsePaymentRoutes (coalesce (get "payment_routes" raw) (get "pay_methods" raw)) in
    let subscriptionPaymentRoutes :=
      parsePaymentRoutes
        (coalesce (get "subscription_payment_routes" raw)
           (coalesce (get "payment_routes" raw) (get "pay_methods" raw))) in
    let minTopup := to_number (get "min_topup" raw) in
    let is_true v := match v with JBool true => true | _ => false end in
    let not_false v := match v with JBool false => false | _ => true end in
    Some (MkTopupInfo
      (is_true (get "online_payment_available" raw) || (0 <? length paymentRoutes))
      paymentRoutes subscriptionPaymentRoutes (parsePaymentProducts (get "payment_products" raw))
      (parsePaymentRouteOptions (get "payment_route_options" raw))
      (if positive_safe minTopup then minTopup else num_of_Z 1)
      (parseAmountOptions (get "amount_options" raw)) (parseDiscountMap (get "discount" raw))
      (parseOptionalNumber (get "affiliate_continuous_percent" raw))
      (parseOptionalNumber (get "affiliate_first_topup_percent" raw))
      (as_string (get "topup_link" raw)) (not_false (get "enable_redemption" raw))
      (not_false (get "payment_compliance_confirmed" raw))
      (as_string (get "payment_compliance_terms_version" raw))).

(** ** The hook *)

Record TopupState := MkTopupState {
  topupInfo : option TopupInfo; presetAmounts : list PresetAmount; loading : bool; error : option jstr;
}.

Definition initial : TopupState := MkTopupState None [] true None.

Context (t : jstr → jstr).

Definition load_failed (s : TopupState) : TopupState :=
  MkTopupState (topupInfo s) (presetAmounts s) false (Some (t "Failed to load top-up information")).

(** [fetchTopupInfo] up to its [await]. *)
Definition fetchTopupInfo (s : TopupState) : TopupState :=
  MkTopupState (topupInfo s) (presetAmounts s) true (error s).

(** And after it: the body of the answer, or [None] for a rejected request. *)
Definition fetchTopupInfo_settled (answer : option jsval) (s : TopupState) : TopupState :=
  match answer with
  | None => load_failed s
  | Some response =>
    if negb (val_truthy (get "success" response)) || negb (val_truthy (get "data" response)) then load_failed s
    else
      match normalizePublicTopupInfo (get "data" response) with
      | None => load_failed s
      | Some info =>
        let presets :=
          if 0 <? length (amount_options info)
          then mergePresetAmounts (amount_options info) (info_discount info)
          else generatePresetAmounts (getMinTopupAmount (Some info)) in
        MkTopupState (Some info) presets false None
      end
  end.

Inductive Event := EvFetch | EvAnswer (answer : option jsval).

Definition handle (ev : Event) (s : TopupState) : TopupState :=
  match ev with EvFetch => fetchTopupInfo s | EvAnswer a => fetchTopupInfo_settled a s end.

Definition run (evs : list Event) : TopupState := foldl (fun s ev => handle ev s) initial evs.
End readers.

(** ** Lemmas *)

Section reading.
Context `{UnicodeCase} (environment : PaymentBrowserEnvironment).

Lemma public_id_again v id : isPublicPaymentRouteId v = Some id → isPublicPaymentRouteId (JStr id) = Some id.
Proof. destruct v as [| | | |s| |]; try done. cbn. destruct (test _ s) eqn:E; [|done]. intros [= <-]. by rewrite E. Qed.

Definition three_letters (c : jstr) : Prop := length c = 3 ∧ forallb is_upper c = true.

Lemma optional_currency v c : optionalCurrency v = Some c → three_letters c.
Proof.
  intros E. destruct (currency_letters v c) as [H1 H2].
  - destruct v as [| | | |s| |]; try done. cbn in E. destruct (test re_currency s) eqn:Et; [|done].
    injection E as <-. destruct (currency_letters (JStr s) "USD") as [H1 H2]; [done|].
    cbn [readCurrency] in H1, H2. by rewrite Et in H1, H2.
  - destruct v as [| | | |s| |]; try done. cbn in E, H1, H2. destruct (test re_currency s); [|done].
    injection E as <-. done.
Qed.

Record route_ok (m : PaymentMethod) : Prop := {
  ok_id : isPublicPaymentRouteId (JStr (route_id m)) = Some (route_id m);
  ok_method : public_code (public_method m);
  ok_alias : ∀ a, channel_alias m = Some a → public_code a;
  ok_currency : ∀ c, m_currency m = Some c → three_letters c;
  ok_minimum : ∃ n, min_topup m = Some n ∧ (n = S754_zero false ∨ positive_safe n = true);
}.

Record product_ok (p : PaymentProduct) : Prop := {
  okp_id : test re_product (product_id p) = true;
  okp_route : isPublicPaymentRouteId (JStr (p_route_id p)) = Some (p_route_id p);
  okp_name : p_name p ≠ [] ∧ length (p_name p) ≤ 128;
  okp_price : plain_decimal (p_payment_amount p);
  okp_amount : positive_safe (p_top_up_amount p) = true;
  okp_currency : three_letters (p_currency p);
}.

Record option_ok (o : PaymentRouteOption) : Prop := {
  oko_id : test re_option (option_id o) = true;
  oko_route : isPublicPaymentRouteId (JStr (r_route_id o)) = Some (r_route_id o);
  oko_label : public_label o ∈ PUBLIC_LABELS;
}.

Lemma parsed_route item m : parsePaymentRoute item = Some m → route_ok m.
Proof.
  unfold parsePaymentRoute. destruct (isPublicPaymentRouteId _) as [id|] eqn:E; [|done]. intros [= <-].
  constructor; cbn.
  - by eapply public_id_again.
  - apply method_public.
  - intros a. apply alias_public.
  - intros c. apply optional_currency.
  - eexists. split; [done|]. case_match; auto.
Qed.

Lemma routes_ok data m : m ∈ parsePaymentRoutes environment data → route_ok m.
Proof.
  unfold parsePaymentRoutes. intros Hm.
  destruct (filterPaymentMethodsForBrowser_spec (omap parsePaymentRoute (objects (parseJsonArray data))) environment) as [Hs _].
  apply sublist_submseteq in Hs. apply (elem_of_submseteq _ _ _ Hm) in Hs.
  apply list_elem_of_omap in Hs as (item & _ & Hi). by eapply parsed_route.
Qed.

Lemma safe_not_nan x : isSafeInteger x = true → isNaN x = false.
Proof. by destruct x. Qed.

Lemma parsed_product item p : parsePaymentProduct item = Some p → product_ok p.
Proof.
  unfold parsePaymentProduct. cbv zeta. destruct (test re_product _) eqn:E1; [|done]. cbn [negb].
  destruct (isPublicPaymentRouteId _) as [id|] eqn:E2; [|done].
  set (name := trim (text_or_empty (get "name" item))).
  destruct (negb (truthy name) || (128 <? length name)) eqn:E3; [done|].
  destruct (test re_decimal _) eqn:E4; [|done]. cbn [negb].
  set (n := to_number _). destruct (negb (isSafeInteger n) || _) eqn:E5; [done|].
  destruct (test re_iso _) eqn:E6; [|done]. cbn [negb]. intros [= <-].
  apply orb_false_iff in E3 as [E3 E3']. apply orb_false_iff in E5 as [E5 E5'].
  apply negb_false_iff in E3, E5. constructor; cbn; try done.
  - by eapply public_id_again.
  - split; [by destruct name|]. apply Nat.ltb_ge in E3'. done.
  - by apply re_decimal_plain.
  - unfold positive_safe. rewrite E5, num_ltb_leb by (done || by apply safe_not_nan). by rewrite E5'.
  - unfold re_iso in E6. rewrite test_class in E6 by (cbn; lia). bool_hyps. split; [lia|done].
Qed.

Lemma parsed_option item o : parsePaymentRouteOption item = Some o → option_ok o.
Proof.
  unfold parsePaymentRouteOption. cbv zeta. destruct (test re_option _) eqn:E1; [|done]. cbn [negb].
  destruct (isPublicPaymentRouteId _) as [id|] eqn:E2; [|done]. destruct (get "public_label" item); try done.
  destruct (has _ PUBLIC_LABELS) eqn:E3; [|done]. intros [= <-]. constructor; cbn; [done| |by apply has_true].
  by eapply public_id_again.
Qed.

(** ** Properties *)

(** C27: whatever JSON the server sends as its top-up configuration, every route that
    is offered has a public identifier, codes in which no word names a gateway and
    a whole minimum; every product has a well-formed token, a bounded name, a plain
    price in a three-letter currency and credits a positive whole amount; options
    carry one of four labels; and the minimum and the amounts are positive. *)
Theorem topup_info_public raw info :
  normalizePublicTopupInfo environment raw = Some info →
  (∀ m, m ∈ payment_routes info ++ subscription_payment_routes info → route_ok m) ∧
  (∀ p, p ∈ payment_products info → product_ok p) ∧
  (∀ o, o ∈ payment_route_options info → option_ok o) ∧
  positive_safe (info_min_topup info) = true ∧
  ∀ n, n ∈ amount_options info → isFinite n = true ∧ num_ltb (S754_zero false) n = true.
Proof.
  unfold normalizePublicTopupInfo. destruct (is_objectlike raw); [|done]. cbn [negb].
  intros E%Some_inj. rewrite <- E. clear E info.
  cbn [payment_routes subscription_payment_routes payment_products payment_route_options info_min_topup amount_options].
  split; [intros m [Hm|Hm]%elem_of_app; by eapply routes_ok|].
  split; [intros p (i & _ & Hi)%list_elem_of_omap; by eapply parsed_product|].
  split; [intros o (i & _ & Hi)%list_elem_of_omap; by eapply parsed_option|].
  split; [destruct (positive_safe (to_number _)) eqn:E; [exact E|by vm_compute]|].
  intros n [Hn _]%list_elem_of_filter. by apply andb_true_iff in Hn.
Qed.

(** The minimums of a configuration are whole numbers. *)
Definition whole_minimums (info : TopupInfo) : Prop :=
  (∀ m, m ∈ payment_routes info → ∃ z, (0 ≤ z < 2 ^ 53)%Z ∧ min_topup m = Some (num_of_Z z)) ∧
  ∃ z, (0 < z < 2 ^ 53)%Z ∧ info_min_topup info = num_of_Z z.

Lemma num_of_Z_truthy z : (0 < z < 2 ^ 53)%Z → num_truthy (num_of_Z z) = true.
Proof. intros Hz. by rewrite num_of_Z_rep. Qed.

Lemma minimum_whole info :
  whole_minimums info → ∃ k, (0 < k < 2 ^ 53)%Z ∧ getMinTopupAmount (Some info) = num_of_Z k.
Proof.
  intros [Hm (z & Hz & Ez)]. unfold getMinTopupAmount. cbv zeta.
  destruct (route_minimums (payment_routes info)) as [|x xs] eqn:Er.
  - cbn. rewrite Ez, num_of_Z_truthy by done. eauto.
  - change (0 <? length (x :: xs)) with true. cbv iota. rewrite <- Er.
    assert (Hpos : Forall (fun x => pos_finite x = true) (route_minimums (payment_routes info))).
    { apply Forall_forall. intros y Hy. unfold route_minimums in Hy. by apply list_elem_of_filter in Hy as [? _]. }
    destruct (math_min_pos (route_minimums (payment_routes info))) as [Hin _]; [by rewrite Er|done|].
    rewrite Forall_forall in Hpos. specialize (Hpos _ Hin).
    unfold route_minimums in Hin at 2. apply list_elem_of_filter in Hin as [_ Hin].
    apply list_elem_of_fmap in Hin as (m & E & [_ Hmr]%list_elem_of_filter).
    destruct (Hm m Hmr) as (k & Hk & Ek). rewrite Ek in E. cbn [default] in E. exists k.
    destruct (Z.eq_dec k 0%Z) as [->|]; [|split; [lia|done]]. rewrite E, num_of_Z_0 in Hpos. done.
Qed.

Lemma payable n :
  isSafeInteger n = true → num_leb (num_of_Z 1) n = true → num_leb n MAX_TOPUP_AMOUNT = true → amount_ok n = true.
Proof.
  intros Hs H1 H2. unfold amount_ok. pose proof (safe_not_nan n Hs) as Hn. rewrite Hs, !num_ltb_leb by done.
  by rewrite H1, H2.
Qed.

Lemma custom_presets opts discounts p : p ∈ mergePresetAmounts opts discounts → amount_ok (value p) = true.
Proof.
  unfold mergePresetAmounts. destruct (length opts =? 0); [by intros ?%not_elem_of_nil|].
  intros (n & -> & [Hn _]%list_elem_of_filter)%list_elem_of_fmap. cbn [value].
  apply andb_true_iff in Hn as [[Hs H1]%andb_true_iff H2]. by apply payable.
Qed.

Lemma default_presets k p :
  (0 < k < 2 ^ 53)%Z → p ∈ generatePresetAmounts (num_of_Z k) → amount_ok (value p) = true.
Proof.
  intros Hk [Hp _]%list_elem_of_filter. apply andb_true_iff in Hp as [[Hs H1]%andb_true_iff H2].
  apply payable; [done| |done]. eapply num_leb_trans; [|exact H1]. rewrite num_of_Z_leb by lia. apply Z.leb_le. lia.
Qed.

Definition answer_ok (ev : Event) : Prop :=
  match ev with
  | EvAnswer (Some response) =>
    ∀ info, normalizePublicTopupInfo environment (get "data" response) = Some info → whole_minimums info
  | _ => True
  end.

(** Every preset amount can be paid.  Whatever configurations arrive, as long as
    their minimums are whole numbers, each amount the page offers is one for which
    a quote can be requested: a whole number from 1 to 10000.  An answer, good or
    bad, ends the loading. *)
Theorem presets_payable t evs :
  Forall answer_ok evs →
  Forall (fun p => amount_ok (value p) = true) (presetAmounts (run environment t evs)) ∧
  ∀ a, loading (handle environment t (EvAnswer a) (run environment t evs)) = false.
Proof.
  intros Hevs. split.
  2:{ intros a. cbn [handle]. unfold fetchTopupInfo_settled. by repeat case_match. }
  revert Hevs. induction evs as [|ev evs IH] using rev_ind; intros Hevs; [constructor|].
  apply Forall_app in Hevs as [Hevs [Hev _]%Forall_cons]. specialize (IH Hevs).
  unfold run in *. rewrite foldl_app. cbn [foldl]. destruct ev as [|[response|]]; [exact IH| |exact IH].
  cbn [handle]. unfold fetchTopupInfo_settled. destruct (_ || _); [exact IH|].
  cbn [answer_ok] in Hev. destruct (normalizePublicTopupInfo _ _) as [info|]; [|exact IH]. cbn [presetAmounts].
  apply Forall_forall. intros p Hp. destruct (0 <? length (amount_options info)).
  - by eapply custom_presets.
  - destruct (minimum_whole info (Hev info eq_refl)) as (k & Hk & Ek). rewrite Ek in Hp. by eapply default_presets.
Qed.
End reading.

(** ** Witnesses *)

Definition demo_config : jsval :=
  JObj [("pay_methods" : jstr, JArr [
    JObj [("route_id" : jstr, JStr "route_1"); ("public_method" : jstr, JStr "stripe_card");
          ("type" : jstr, JStr "stripe"); ("min_topup" : jstr, JNum (num_of_Z 20)); ("currency" : jstr, JStr "usd")];
    JObj [("route_id" : jstr, JStr "bad id")]; JNull]); ("min_topup" : jstr, JNum (num_of_Z 5))].

Lemma topup_info_public_witness :
  ∃ info m, @normalizePublicTopupInfo ascii_case desktop demo_config = Some info ∧
    payment_routes info = [m] ∧ public_method m = "card" ∧ m_currency m = Some ("USD" : jstr) ∧
    public_code (public_method m).
Proof.
  destruct (@normalizePublicTopupInfo ascii_case desktop demo_config) as [info|] eqn:E; [|by vm_compute in E].
  destruct (@topup_info_public ascii_case desktop demo_config info E) as (Hm & _).
  assert (Hr : payment_routes info = [MkPaymentMethod "route_1" "card" None mode_quote (Some (num_of_Z 20)) None None (Some ("USD" : jstr))])
    by (vm_compute in E; injection E as <-; vm_compute; reflexivity).
  eexists info, _. split; [done|]. split; [exact Hr|]. split; [reflexivity|]. split; [reflexivity|].
  apply (ok_method _ (Hm _ (proj2 (elem_of_app _ _ _) (or_introl (eq_ind_r (fun l => _ ∈ l) (list_elem_of_here _ _) Hr))))).
Defined.

Lemma presets_payable_witness :
  let evs := [EvFetch; EvAnswer (Some (JObj [("success" : jstr, JBool true); ("data" : jstr, demo_config)]))] in
  let s := @run ascii_case desktop (fun k => k) evs in
  map (fun p => num_trunc (value p)) (presetAmounts s) = [20; 100; 200; 600; 1000; 2000; 6000; 10000]%Z ∧
  Forall (fun p => amount_ok (value p) = true) (presetAmounts s).
Proof.
  intros evs s. split; [vm_compute; reflexivity|].
  apply (@presets_payable ascii_case desktop (fun k => k) evs). constructor; [exact I|]. constructor; [|constructor]. cbn [answer_ok get].
  intros info Hi. change (default JUndefined _) with demo_config in Hi.
  destruct (@normalizePublicTopupInfo ascii_case desktop demo_config) as [i|] eqn:E; [|done].
  assert (Hr : payment_routes i = [MkPaymentMethod "route_1" "card" None mode_quote (Some (num_of_Z 20)) None None (Some ("USD" : jstr))]
    ∧ info_min_topup i = num_of_Z 5) by (vm_compute in E; injection E as <-; vm_compute; done).
  injection Hi as <-. destruct Hr as [Hr Hm]. split.
  - rewrite Hr. intros m ->%list_elem_of_singleton. exists 20%Z. split; [lia|reflexivity].
  - exists 5%Z. split; [lia|done].
Defined.
