(* ===== verification/Passkey.v ===== *)
(** * Passkey credentials

    Model of [lib/passkey.ts]: the base64url texts in which the server and the
    browser exchange binary data, the options the server sends for creating and
    using a credential, and the results that are sent back.

    An array buffer is the list of its bytes.  [btoa] and [atob] are the browser's
    (RFC 4648 encoding, and the forgiving decoding of the WHATWG Infra standard).
    [None] stands for a thrown error. *)

From S2P Require Import Prelude JsValue JsText.

(** ** base64 *)

Section base64.
Local Open Scope N_scope.

Definition b64_char (n : N) : N :=
  if n <? 26 then 65 + n else if n <? 52 then 97 + (n - 26) else if n <? 62 then 48 + (n - 52)
  else if n =? 62 then 43 else 47.

Definition b64_value (c : N) : option N :=
  if (65 <=? c) && (c <=? 90) then Some (c - 65)
  else if (97 <=? c) && (c <=? 122) then Some (c - 97 + 26)
  else if (48 <=? c) && (c <=? 57) then Some (c - 48 + 52)
  else if c =? 43 then Some 62
  else if c =? 47 then Some 63
  else None.

(** [btoa] of a string of bytes. *)
Fixpoint btoa (bs : list N) : jstr :=
  match bs with
  | [] => []
  | [a] => [b64_char (a / 4); b64_char (a mod 4 * 16); 61; 61]
  | [a; b] => [b64_char (a / 4); b64_char (a mod 4 * 16 + b / 16); b64_char (b mod 16 * 4); 61]
  | a :: b :: c :: bs' =>
    [b64_char (a / 4); b64_char (a mod 4 * 16 + b / 16); b64_char (b mod 16 * 4 + c / 64); b64_char (c mod 64)]
      ++ btoa bs'
  end.

(** The bytes of a list of 6-bit values; bits that do not fill a byte are dropped. *)
Fixpoint b64_bytes (vs : list N) : list N :=
  match vs with
  | a :: b :: c :: d :: vs' => [a * 4 + b / 16; b mod 16 * 16 + c / 4; c mod 4 * 64 + d] ++ b64_bytes vs'
  | [a; b; c] => [a * 4 + b / 16; b mod 16 * 16 + c / 4]
  | [a; b] => [a * 4 + b / 16]
  | _ => []
  end.

Definition is_ascii_space (c : N) : bool := has c [9; 10; 12; 13; 32].

(** At most two trailing [=] of a text whose length is a multiple of 4. *)
Definition drop_padding (s : jstr) : jstr :=
  match reverse s with
  | 61 :: 61 :: r => reverse r
  | 61 :: r => reverse r
  | _ => s
  end.

Definition atob (input : jstr) : option (list N) :=
  let s := List.filter (fun c => negb (is_ascii_space c)) input in
  let s := if (length s mod 4 =? 0)%nat then drop_padding s else s in
  if (length s mod 4 =? 1)%nat then None
  else b64_bytes <$> mapM b64_value s.

Definition swap_unit (a b : N) (s : jstr) : jstr := map (fun c => if c =? a then b else c) s.

Definition base64UrlToArrayBuffer (value : option jstr) : option (list N) :=
  match value with
  | None | Some [] => Some []
  | Some v =>
    let padding := replicate ((4 - length v mod 4) mod 4)%nat 61 in
    atob (swap_unit 95 47 (swap_unit 45 43 (v ++ padding)))
  end.

Fixpoint drop_equals (s : jstr) : jstr :=
  match s with 61 :: s' => drop_equals s' | _ => s end.

(** [s.replaceAll(/=+$/g, '')] *)
Definition strip_equals (s : jstr) : jstr := reverse (drop_equals (reverse s)).

Definition arrayBufferToBase64Url (buffer : option (list N)) : jstr :=
  match buffer with
  | None => []
  | Some bytes => strip_equals (swap_unit 47 95 (swap_unit 43 45 (btoa bytes)))
  end.
End base64.

(** [base64UrlToArrayBuffer] of a property of a JSON value: what is not a string is
    turned into one, where it does not throw. *)
Definition base64_property (v : jsval) : option (list N) :=
  match v with
  | JStr s => base64UrlToArrayBuffer (Some s)
  | JUndefined | JNull => Some []
  | JBool b => if b then atob "true" else Some []
  | JNum n => if num_truthy n then atob (swap_unit 95 47 (swap_unit 45 43 (number_to_string n))) else Some []
  | JArr [] => Some []
  | JArr _ | JObj _ => None
  end.

(** ** Options from the server *)

(** [{...options, challenge, ...}]: the properties of the options, with the ones
    that were converted. *)
Record CredentialRequest := MkRequest {
  rq_options : jsval; rq_challenge : list N; rq_allowCredentials : option (list (jsval * list N));
}.

Record CredentialCreation := MkCreation {
  cr_options : jsval; cr_challenge : list N; cr_user : jsval; cr_user_id : list N;
  cr_excludeCredentials : option (list (jsval * list N));
}.

Definition payload_options (payload : jsval) : jsval :=
  coalesce (get "publicKey" payload)
    (coalesce (get "PublicKey" payload) (coalesce (get "response" payload) (get "Response" payload))).

(** A list of credential descriptors, with their identifiers. *)
Definition convert_items (v : jsval) : option (option (list (jsval * list N))) :=
  match v with
  | JArr items =>
    Some <$> mapM (fun item =>
      match item with
      | JUndefined | JNull => None
      | _ => id ← base64_property (get "id" item); Some (item, id)
      end) items
  | _ => Some None
  end.

Definition prepareCredentialRequestOptions (payload : jsval) : option CredentialRequest :=
  let options := payload_options payload in
  if negb (val_truthy options) then None
  else
    challenge ← base64_property (get "challenge" options);
    allow ← convert_items (get "allowCredentials" options);
    Some (MkRequest options challenge allow).

Definition without_property (k : jstr) (v : jsval) : jsval :=
  match v with JObj fs => JObj (List.filter (fun kv => negb (kv.1 === k)) fs) | _ => v end.

Definition prepareCredentialCreationOptions (payload : jsval) : option CredentialCreation :=
  let options := payload_options payload in
  if negb (val_truthy options) then None
  else
    challenge ← base64_property (get "challenge" options);
    user_id ← base64_property (get "id" (get "user" options));
    exclude ← convert_items (get "excludeCredentials" options);
    let publicKey :=
      match get "attestationFormats" options with
      | JArr [] => without_property "attestationFormats" options
      | _ => options
      end in
    Some (MkCreation publicKey challenge (get "user" options) user_id exclude).

(** ** Results for the server *)

Record Credential (R : Type) := MkCredential {
  credential_id : jstr; rawId : list N; credential_type : jstr; authenticatorAttachment : option jstr;
  response : R; extensionResults : option jsval;   (* [getClientExtensionResults?.()] *)
}.
Arguments MkCredential {R}.
Arguments credential_id {R}.
Arguments rawId {R}.
Arguments credential_type {R}.
Arguments authenticatorAttachment {R}.
Arguments response {R}.
Arguments extensionResults {R}.

Record AssertionResponse := MkAssertion {
  authenticatorData : list N; as_clientDataJSON : list N; signature : list N; userHandle : option (list N);
}.
Record AttestationResponse := MkAttestation {
  attestationObject : list N; at_clientDataJSON : list N; transports : option (list jstr);
}.

(** The payload of a credential; [R] is the type of its [response]. *)
Record CredentialResult (R : Type) := MkResult {
  res_id : jstr; res_rawId : jstr; res_type : jstr; res_attachment : option jstr; res_response : R;
  res_extensions : jsval;
}.
Arguments MkResult {R}.
Arguments res_id {R}.
Arguments res_rawId {R}.
Arguments res_type {R}.
Arguments res_attachment {R}.
Arguments res_response {R}.
Arguments res_extensions {R}.

Record AssertionTexts := MkAssertionTexts {
  txt_authenticatorData : jstr; txt_as_clientDataJSON : jstr; txt_signature : jstr; txt_userHandle : option jstr;
}.
Record AttestationTexts := MkAttestationTexts {
  txt_attestationObject : jstr; txt_at_clientDataJSON : jstr; txt_transports : option (list jstr);
}.

Definition encode (bytes : list N) : jstr := arrayBufferToBase64Url (Some bytes).

Definition buildAssertionResult (credential : option (Credential AssertionResponse)) :
    option (CredentialResult AssertionTexts) :=
  match credential with
  | None => None
  | Some c =>
    let r := response c in
    Some (MkResult (credential_id c) (encode (rawId c)) (credential_type c) (authenticatorAttachment c)
      (MkAssertionTexts (encode (authenticatorData r)) (encode (as_clientDataJSON r)) (encode (signature r))
        (encode <$> userHandle r))
      (default (JObj []) (extensionResults c)))
  end.

Definition buildRegistrationResult (credential : option (Credential AttestationResponse)) :
    option (CredentialResult AttestationTexts) :=
  match credential with
  | None => None
  | Some c =>
    let r := response c in
    Some (MkResult (credential_id c) (encode (rawId c)) (credential_type c) (authenticatorAttachment c)
      (MkAttestationTexts (encode (attestationObject r)) (encode (at_clientDataJSON r)) (transports r))
      (default (JObj []) (extensionResults c)))
  end.

(** ** Support *)

(** [window.PublicKeyCredential]: a method that exists answers, or throws. *)
Record PasskeyWindow := MkPasskeyWindow {
  isConditionalMediationAvailable : option (option bool);
  isUserVerifyingPlatformAuthenticatorAvailable : option (option bool);
}.

Definition isPasskeySupported (window : option (option PasskeyWindow)) : bool :=
  match window with
  | None | Some None => false
  | Some (Some w) =>
    match isConditionalMediationAvailable w with
    | Some (Some true) => true
    | _ =>
      match isUserVerifyingPlatformAuthenticatorAvailable w with
      | Some (Some available) => available
      | Some None => false
      | None => true
      end
    end
  end.

(** ** Lemmas *)

Section codec.
Local Open Scope N_scope.

Lemma list_ind3 {A} (P : list A → Prop) :
  P [] → (∀ a, P [a]) → (∀ a b, P [a; b]) → (∀ a b c l, P l → P (a :: b :: c :: l)) → ∀ l, P l.
Proof.
  intros H0 H1 H2 H3. fix go 1. intros [|a [|b [|c l]]]; [apply H0|apply H1|apply H2|apply H3, go].
Qed.

(** The 6-bit values of a list of bytes. *)
Fixpoint sextets (bs : list N) : list N :=
  match bs with
  | [] => []
  | [a] => [a / 4; a mod 4 * 16]
  | [a; b] => [a / 4; a mod 4 * 16 + b / 16; b mod 16 * 4]
  | a :: b :: c :: bs' => [a / 4; a mod 4 * 16 + b / 16; b mod 16 * 4 + c / 64; c mod 64] ++ sextets bs'
  end.

Definition byte (b : N) : Prop := b < 256.

Lemma sextets_small bs : Forall byte bs → Forall (fun v => v < 64) (sextets bs).
Proof.
  unfold byte. induction bs as [|a|a b|a b c bs IH] using list_ind3; intros Hb; repeat (apply Forall_cons in Hb as [? Hb]);
    cbn [sextets app]; repeat apply Forall_cons_2; auto; zify; Z.to_euclidean_division_equations; lia.
Qed.

Lemma sextets_bytes bs : Forall byte bs → b64_bytes (sextets bs) = bs.
Proof.
  unfold byte. induction bs as [|a|a b|a b c bs IH] using list_ind3; intros Hb; repeat (apply Forall_cons in Hb as [? Hb]);
    cbn [sextets app b64_bytes]; [done|..]; try rewrite (IH Hb); repeat f_equal.
  all: zify; Z.to_euclidean_division_equations; lia.
Qed.

(** The padding after [n] values. *)
Definition padding (n : nat) : jstr := replicate ((4 - n mod 4) mod 4)%nat 61.

Lemma sextets_length bs :
  length (sextets bs) = ((4 * length bs + 2) / 3)%nat ∧ ((length (sextets bs) mod 4)%nat ≠ 1%nat).
Proof.
  induction bs as [|a|a b|a b c bs [IH1 IH2]] using list_ind3; [by cbn..|].
  cbn [sextets app length]. rewrite IH1 in *. split.
  - replace (4 * S (S (S (length bs))) + 2)%nat with (4 * length bs + 2 + 4 * 3)%nat by lia.
    rewrite Nat.div_add by lia. lia.
  - set (n := ((4 * length bs + 2) / 3)%nat) in *.
    replace (S (S (S (S n)))) with (n + 1 * 4)%nat by lia. by rewrite Nat.Div0.mod_add.
Qed.

Lemma btoa_sextets bs : btoa bs = map b64_char (sextets bs) ++ padding (length (sextets bs)).
Proof.
  induction bs as [|a|a b|a b c bs IH] using list_ind3; [done..|].
  cbn [btoa sextets app map length]. rewrite IH. unfold padding.
  replace (S (S (S (S (length (sextets bs)))))) with (length (sextets bs) + 1 * 4)%nat by lia.
  by rewrite Nat.Div0.mod_add.
Qed.

(** A character of the URL-safe alphabet, and its value. *)
Definition url_char (n : N) : N := if b64_char n =? 43 then 45 else if b64_char n =? 47 then 95 else b64_char n.
Definition is_url_char (c : N) : bool := is_lower c || is_upper c || is_digit c || (c =? 45) || (c =? 95).

Lemma b64_value_char n : n < 64 → b64_value (b64_char n) = Some n.
Proof.
  intros Hn. assert (E : forallb (fun k => bool_decide (b64_value (b64_char (N.of_nat k)) = Some (N.of_nat k))) (seq 0 64) = true)
    by (vm_compute; reflexivity).
  rewrite forallb_forall in E. specialize (E (N.to_nat n) ltac:(apply in_seq; lia)).
  apply bool_decide_eq_true in E. by rewrite N2Nat.id in E.
Qed.

Lemma url_char_facts n : n < 64 →
  is_url_char (url_char n) = true ∧ url_char n ≠ 61 ∧ b64_char n ≠ 61 ∧ is_ascii_space (b64_char n) = false ∧
  (if url_char n =? 45 then 43 else url_char n) = (if b64_char n =? 47 then 95 else b64_char n).
Proof.
  intros Hn. set (ok := fun n => is_url_char (url_char n) && negb (url_char n =? 61) && negb (b64_char n =? 61) &&
    negb (is_ascii_space (b64_char n)) && ((if url_char n =? 45 then 43 else url_char n) =? (if b64_char n =? 47 then 95 else b64_char n))).
  assert (E : forallb (fun k => ok (N.of_nat k)) (seq 0 64) = true) by (vm_compute; reflexivity).
  rewrite forallb_forall in E. specialize (E (N.to_nat n) ltac:(apply in_seq; lia)). rewrite N2Nat.id in E.
  unfold ok in E. rewrite !andb_true_iff, !negb_true_iff, !N.eqb_neq, N.eqb_eq in E. tauto.
Qed.

Lemma swap_unit_app a b s s' : swap_unit a b (s ++ s') = swap_unit a b s ++ swap_unit a b s'.
Proof. apply map_app. Qed.

Lemma swap_padding a b n : a ≠ 61 → swap_unit a b (padding n) = padding n.
Proof.
  intros Ha. unfold padding, swap_unit. generalize ((4 - n mod 4) mod 4)%nat. intros k.
  induction k as [|k IH]; [done|]. cbn [replicate map]. rewrite IH. by rewrite (proj2 (N.eqb_neq 61 a)) by congruence.
Qed.

Lemma swap_encode vs : swap_unit 47 95 (swap_unit 43 45 (map b64_char vs)) = map url_char vs.
Proof.
  unfold swap_unit. rewrite !map_map. apply map_ext. intros n. unfold url_char.
  destruct (b64_char n =? 43) eqn:E; [|done]. done.
Qed.

Lemma swap_decode vs :
  Forall (fun v => v < 64) vs → swap_unit 95 47 (swap_unit 45 43 (map url_char vs)) = map b64_char vs.
Proof.
  intros Hv. unfold swap_unit. rewrite !map_map. apply map_ext_Forall. eapply Forall_impl; [exact Hv|].
  cbn. intros n Hn. destruct (url_char_facts n Hn) as (_ & _ & _ & _ & ->).
  assert (E : forallb (fun k => negb (b64_char (N.of_nat k) =? 95)) (seq 0 64) = true) by (vm_compute; reflexivity).
  rewrite forallb_forall in E. specialize (E (N.to_nat n) ltac:(apply in_seq; lia)). rewrite N2Nat.id in E.
  apply negb_true_iff in E. destruct (b64_char n =? 47) eqn:E47; [symmetry; by apply N.eqb_eq|]. by rewrite E.
Qed.

Lemma drop_equals_not s : head s ≠ Some 61 → drop_equals s = s.
Proof. destruct s as [|c s]; [done|]. intros Hc. cbn. repeat case_match; try done. Qed.

Lemma reverse_head_map (f : N → N) (vs : list N) : (∀ v, v ∈ vs → f v ≠ 61) → head (reverse (map f vs)) ≠ Some 61.
Proof.
  intros Hf E. assert (Hin : 61 ∈ map f vs).
  { rewrite <- elem_of_reverse. destruct (reverse (map f vs)) as [|c r]; [done|]. injection E as ->. by left. }
  apply list_elem_of_fmap in Hin as (v & Ev & Hv). by apply (Hf v Hv).
Qed.

Lemma strip_equals_pad s n : head (reverse s) ≠ Some 61 → strip_equals (s ++ padding n) = s.
Proof.
  intros Hs. unfold strip_equals, padding. rewrite reverse_app, reverse_replicate.
  generalize ((4 - n mod 4) mod 4)%nat. intros k. induction k as [|k IH]; [|done].
  cbn [replicate app]. by rewrite drop_equals_not, reverse_involutive.
Qed.

Lemma encode_url bs : Forall byte bs → encode bs = map url_char (sextets bs).
Proof.
  intros Hb. unfold encode, arrayBufferToBase64Url. rewrite btoa_sextets, !swap_unit_app, !swap_padding by done.
  rewrite swap_encode. apply strip_equals_pad, reverse_head_map. intros v Hv.
  pose proof (sextets_small bs Hb) as Hs. rewrite Forall_forall in Hs. by apply url_char_facts, Hs.
Qed.

Lemma drop_padding_pad s n :
  head (reverse s) ≠ Some 61 → (n mod 4 ≠ 1)%nat → drop_padding (s ++ padding n) = s.
Proof.
  intros Hs Hn. unfold drop_padding, padding. rewrite reverse_app, reverse_replicate.
  assert (Hm : (n mod 4 = 0 ∨ n mod 4 = 2 ∨ n mod 4 = 3)%nat)
    by (pose proof (Nat.mod_upper_bound n 4 ltac:(lia)); lia).
  destruct Hm as [-> |[-> | ->]]; cbn [Nat.sub Nat.modulo Nat.divmod fst snd replicate app].
  - rewrite app_nil_r. destruct (reverse s) as [|c r]; [done|]. cbn in Hs. repeat case_match; done.
  - apply reverse_involutive.
  - pose proof (reverse_involutive s) as Es. destruct (reverse s) as [|c r]; [done|]. cbn in Hs. repeat case_match; done.
Qed.

Lemma padded_length n : ((n + length (padding n)) mod 4 = 0)%nat.
Proof.
  unfold padding. rewrite length_replicate. pose proof (Nat.mod_upper_bound n 4 ltac:(lia)) as Hn.
  rewrite Nat.Div0.add_mod. by destruct (n mod 4)%nat as [|[|[|[|]]]]; [..|lia].
Qed.

Lemma mapM_values vs : Forall (fun v => v < 64) vs → mapM b64_value (map b64_char vs) = Some vs.
Proof.
  induction 1 as [|v vs Hv _ IH]; [done|]. cbn [map]. cbn [mapM]. rewrite b64_value_char by done. cbn.
  by rewrite IH.
Qed.

Lemma filter_no_space vs n :
  Forall (fun v => v < 64) vs →
  List.filter (fun c => negb (is_ascii_space c)) (map b64_char vs ++ padding n) = map b64_char vs ++ padding n.
Proof.
  intros Hv. rewrite List.filter_app. f_equal.
  - induction Hv as [|v vs Hv _ IH]; [done|]. cbn [map List.filter].
    destruct (url_char_facts v Hv) as (_ & _ & _ & -> & _). cbn [negb]. by rewrite IH.
  - unfold padding. generalize ((4 - n mod 4) mod 4)%nat. intros k. induction k as [|k IH]; [done|]. cbn. by rewrite IH.
Qed.

Lemma decode_url vs :
  Forall (fun v => v < 64) vs → (length vs mod 4 ≠ 1)%nat →
  base64UrlToArrayBuffer (Some (map url_char vs)) = Some (b64_bytes vs).
Proof.
  intros Hv Hl. destruct vs as [|v0 vs0]; [done|]. set (vs := v0 :: vs0) in *.
  change (base64UrlToArrayBuffer (Some (map url_char vs))) with
    (atob (swap_unit 95 47 (swap_unit 45 43 (map url_char vs ++ padding (length (map url_char vs)))))).
  rewrite length_map, !swap_unit_app, !swap_padding, swap_decode by done. unfold atob.
  rewrite filter_no_space by done. rewrite length_app, length_map, padded_length. cbn [Nat.eqb].
  rewrite drop_padding_pad; [|apply reverse_head_map; intros v Hin; rewrite Forall_forall in Hv; by apply url_char_facts, Hv|done].
  rewrite length_map, (proj2 (Nat.eqb_neq _ _) Hl), mapM_values by done. done.
Qed.
End codec.

(** ** Properties *)

(** What is encoded is decoded to the same bytes. *)
Lemma decode_encode bs : Forall byte bs → base64UrlToArrayBuffer (Some (encode bs)) = Some bs.
Proof.
  intros Hb. rewrite encode_url by done.
  rewrite decode_url; [|by apply sextets_small|apply sextets_length]. by rewrite sextets_bytes.
Qed.

(** C26: binary data survives the trip through base64url.  The text of any bytes is
    made of letters, digits, minus and underscore, has the least possible length,
    and is decoded to the same bytes; so the identifier, the authenticator data,
    the client data, the signature and the user handle of an assertion are read
    back from the payload that is sent for it. *)
Theorem passkey_bytes_roundtrip bs :
  Forall byte bs →
  forallb is_url_char (encode bs) = true ∧ length (encode bs) = ((4 * length bs + 2) / 3)%nat ∧
  base64UrlToArrayBuffer (Some (encode bs)) = Some bs ∧
  ∀ c, Forall byte (rawId c) → Forall byte (authenticatorData (response c)) →
    Forall byte (as_clientDataJSON (response c)) → Forall byte (signature (response c)) →
    (∀ h, userHandle (response c) = Some h → Forall byte h) →
    ∃ r, buildAssertionResult (Some c) = Some r ∧ res_id r = credential_id c ∧
      base64UrlToArrayBuffer (Some (res_rawId r)) = Some (rawId c) ∧
      base64UrlToArrayBuffer (Some (txt_authenticatorData (res_response r))) = Some (authenticatorData (response c)) ∧
      base64UrlToArrayBuffer (Some (txt_as_clientDataJSON (res_response r))) = Some (as_clientDataJSON (response c)) ∧
      base64UrlToArrayBuffer (Some (txt_signature (res_response r))) = Some (signature (response c)) ∧
      (txt ← txt_userHandle (res_response r); base64UrlToArrayBuffer (Some txt)) = userHandle (response c).
Proof.
  intros Hb. split; [|split; [|split]].
  - rewrite encode_url by done. pose proof (sextets_small bs Hb) as Hs. apply forallb_forall. intros c Hc.
    apply in_map_iff in Hc as (v & <- & Hv). rewrite Forall_forall in Hs. apply url_char_facts, Hs.
    by apply list_elem_of_In.
  - rewrite encode_url by done. rewrite length_map. apply sextets_length.
  - by apply decode_encode.
  - intros c H1 H2 H3 H4 H5. eexists. split; [reflexivity|]. cbn. split; [done|]. do 4 (split; [by apply decode_encode|]).
    destruct (userHandle (response c)) as [h|] eqn:E; [|done]. cbn. by apply decode_encode, H5.
Qed.

Lemma passkey_bytes_roundtrip_witness :
  encode [251; 255; 0; 7]%N = "-_8ABw" ∧ base64UrlToArrayBuffer (Some ("-_8ABw" : jstr)) = Some [251; 255; 0; 7]%N.
Proof.
  split; [reflexivity|].
  destruct (passkey_bytes_roundtrip [251; 255; 0; 7]%N) as (_ & _ & H & _); [repeat constructor|exact H].
Defined.
