(* ===== verification/CallbackOrigin.v ===== *)
(** * Payment callback origins

    Model of [features/system-settings/integrations/payment-callback-origin.ts]:
    which origin an administrator may configure for payment callbacks.  The
    literal IP addresses are parsed here; the URL itself is parsed by the
    platform ([WebUrl.UrlParser]). *)

From S2P Require Import Prelude JsRegExp WebUrl.

Section hostnames.
Context `{UnicodeCase}.

(** [.replace(/\.$/, '')] *)
Definition drop_final_dot (s : jstr) : jstr :=
  if endsWith "." s then take (length s - 1) s else s.

Definition normalizeHostname (hostname : jstr) : jstr :=
  let withoutTrailingDot := drop_final_dot (toLowerCase hostname) in
  if startsWith "[" withoutTrailingDot && endsWith "]" withoutTrailingDot
  then slice 1 (length withoutTrailingDot - 1) withoutTrailingDot
  else withoutTrailingDot.

Definition scheme_char (c : N) : bool := is_alnum c || one_of "+.-" c.

(** [/^[a-z][a-z0-9+.-]*:\/\/([^/?#]* )/i] (without the space) *)
Definition re_authority : regex :=
  (RBol · RUnit is_alpha · rstar (RUnit scheme_char) · rlit "://" ·
   RGroup 1 (rstar (RUnit (none_of "/?#"))))%re.

Definition getRawHostname (origin : jstr) : option jstr :=
  match exec re_authority origin with
  | None => None
  | Some m =>
    let authority := default [] (cap 1 m) in
    if negb (truthy authority) then None
    else
      let hostAndPort := match lastIndexOf 64 authority with
                         | Some i => drop (S i) authority
                         | None => authority
                         end in
      if startsWith "[" hostAndPort then
        match indexOf "]" hostAndPort with
        | None => None
        | Some closingBracket => Some (normalizeHostname (take (S closingBracket) hostAndPort))
        end
      else
        Some (normalizeHostname (match lastIndexOf 58 hostAndPort with
                                 | Some colonIndex => take colonIndex hostAndPort
                                 | None => hostAndPort
                                 end))
  end.
End hostnames.

Definition isLocalDevelopmentHost (hostname : jstr) : bool :=
  (hostname === "localhost") || endsWith ".localhost" hostname
  || (hostname === "127.0.0.1") || (hostname === "::1").

(** ** IPv4 *)

(** [/^(?:0|[1-9]\d{0,2})$/] *)
Definition re_octet : regex :=
  (RBol · (rlit "0" <+> (RUnit (in_range 49 57) · RRep (RUnit is_digit) 0 (Some 2))) · REol)%re.

Definition parseIPv4 (hostname : jstr) : option (list N) :=
  let octets := split_char 46 hostname in
  if negb (length octets =? 4) then None
  else if existsb (fun o => negb (test re_octet o) || (255 <? parse_digits 10 o)%N) octets then None
  else Some (map (parse_digits 10) octets).

(** [/^[0-9a-f]+$/i] and [/^\d+$/] *)
Definition re_hex_digits : regex := (RBol · rplus (RUnit is_hex) · REol)%re.
Definition re_digits : regex := (RBol · rplus (RUnit is_digit) · REol)%re.

Definition isAmbiguousIPv4Literal (hostname : jstr) : bool :=
  forallb (fun part =>
    if negb (truthy part) then false
    else
      let hexadecimal := (2 <? length part) && (startsWith "0x" part || startsWith "0X" part) in
      let digits := if hexadecimal then drop 2 part else part in
      truthy digits && test (if hexadecimal then re_hex_digits else re_digits) digits)
    (split_char 46 (trim hostname)).

Definition isBlockedIPv4 (octets : list N) : bool :=
  match octets with
  | [first; second; third; fourth] =>
    ((first =? 0) || (first =? 10) ||
     (first =? 100) && (64 <=? second) && (second <=? 127) ||
     (first =? 127) ||
     (first =? 169) && (second =? 254) ||
     (first =? 172) && (16 <=? second) && (second <=? 31) ||
     (first =? 192) && (second =? 0) && (third =? 0) ||
     (first =? 192) && (second =? 0) && (third =? 2) ||
     (first =? 192) && (second =? 168) ||
     (first =? 198) && ((second =? 18) || (second =? 19)) ||
     (first =? 198) && (second =? 51) && (third =? 100) ||
     (first =? 203) && (second =? 0) && (third =? 113) ||
     (224 <=? first) ||
     (first =? 255) && (second =? 255) && (third =? 255) && (fourth =? 255))%N
  | _ => false
  end.

(** ** IPv6 *)

(** [/(?:^|:)(\d{1,3}(?:\.\d{1,3}){3})$/] *)
Definition re_ipv4_tail : regex :=
  ((RBol <+> rlit ":") ·
   RGroup 1 (RRep (RUnit is_digit) 1 (Some 3) ·
             RRep (rlit "." · RRep (RUnit is_digit) 1 (Some 3)) 3 (Some 3)) · REol)%re.

(** [/^[0-9a-f]{1,4}$/i] *)
Definition re_group : regex := (RBol · RRep (RUnit is_hex) 1 (Some 4) · REol)%re.

(** The address with a dotted IPv4 tail written as two groups; [None] when the
    tail is not a valid IPv4 address. *)
Definition expand_ipv4_tail (value : jstr) : option jstr :=
  match exec re_ipv4_tail value with
  | None => Some value
  | Some m =>
    let tail := default [] (cap 1 m) in
    match parseIPv4 tail with
    | Some [a; b; c; d] =>
      let high := N.lor (N.shiftl a 8) b in
      let low := N.lor (N.shiftl c 8) d in
      Some (take (length value - length tail) value ++ toString16 high ++ ":" ++ toString16 low)
    | _ => None
    end
  end.

Definition ipv6_groups (value : jstr) : option (list N) :=
  let pieces s := if truthy s then split_char 58 s else [] in
  let valid groups :=
    if negb (length groups =? 8) || existsb (fun g => negb (test re_group g)) groups then None
    else Some (map (parse_digits 16) groups) in
  match split_str "::" value with
  | [l] => let left := pieces l in if negb (length left =? 8) then None else valid left
  | [l; r] =>
    let left := pieces l in
    let right := pieces r in
    if 8 <=? length left + length right then None
    else valid (left ++ replicate (8 - length left - length right) "0" ++ right)
  | _ => None
  end.

Definition parseIPv6 (hostname : jstr) : option (list N) :=
  let value := match lastIndexOf 37 hostname with
               | Some zoneIndex => take zoneIndex hostname
               | None => hostname
               end in
  if negb (includes ":" value) then None
  else
    match expand_ipv4_tail value with
    | None => None
    | Some value => ipv6_groups value
    end.

Definition all_zero (groups : list N) : bool := forallb (N.eqb 0) groups.

Definition isBlockedIPv6 (groups : list N) : bool :=
  let g (i : nat) := default 0%N (groups !! i) in
  all_zero groups ||
  all_zero (take 7 groups) && (g 7%nat =? 1)%N ||
  all_zero (take 5 groups) && (g 5%nat =? 0xffff)%N ||
  (g 0%nat =? 0x64)%N && (g 1%nat =? 0xff9b)%N && all_zero (slice 2 6 groups) ||
  (g 0%nat =? 0x100)%N && all_zero (slice 1 4 groups) ||
  (g 0%nat =? 0x2001)%N && (g 1%nat <=? 0x01ff)%N ||
  (g 0%nat =? 0x2001)%N && (g 1%nat =? 0x0db8)%N ||
  (N.land (g 0%nat) 0xfe00 =? 0xfc00)%N ||
  (N.land (g 0%nat) 0xffc0 =? 0xfe80)%N ||
  (N.land (g 0%nat) 0xff00 =? 0xff00)%N.

Definition isBlockedLiteralIp (hostname : jstr) : bool :=
  match parseIPv4 hostname with
  | Some ipv4 => isBlockedIPv4 ipv4
  | None => match parseIPv6 hostname with Some ipv6 => isBlockedIPv6 ipv6 | None => false end
  end.

(** ** The check *)

Section check.
Context `{UrlParser} `{UnicodeCase}.

Definition isSecurePaymentCallbackOrigin (value : jstr) : bool :=
  let trimmed := trim value in
  if negb (truthy trimmed) || (2048 <? length trimmed) then false
  else
    match getRawHostname trimmed with
    | None => false
    | Some rawHostname =>
      if negb (truthy rawHostname) ||
         (bool_decide (parseIPv4 rawHostname = None) && isAmbiguousIPv4Literal rawHostname)
      then false
      else
        match new_URL trimmed None with
        | None => false
        | Some url =>
          let hostname := normalizeHostname (hostname url) in
          let hasNoPath := (pathname url === []) || (pathname url === "/") in
          if negb (truthy hostname) || negb hasNoPath || truthy (username url) || truthy (password url)
             || truthy (u_search url) || truthy (u_hash url)
          then false
          else if protocol url === "http:" then isLocalDevelopmentHost hostname
          else if negb (protocol url === "https:") then false
          else if isLocalDevelopmentHost hostname then false
          else negb (isBlockedLiteralIp hostname)
        end
    end.
End check.

(** ** Reference: address prefixes *)

Definition ipv4_number (ip : list N) : N := foldl (fun x o => x * 256 + o)%N 0%N ip.

(** [ip] lies in [prefix/len]. *)
Definition in_prefix4 (ip : list N) (prefix : list N * N) : bool :=
  (ipv4_number ip / 2 ^ (32 - prefix.2) =? ipv4_number prefix.1 / 2 ^ (32 - prefix.2))%N.

Definition blocked_prefixes4 : list (list N * N) := [
  ([0; 0; 0; 0], 8); ([10; 0; 0; 0], 8); ([100; 64; 0; 0], 10); ([127; 0; 0; 0], 8);
  ([169; 254; 0; 0], 16); ([172; 16; 0; 0], 12); ([192; 0; 0; 0], 24); ([192; 0; 2; 0], 24);
  ([192; 168; 0; 0], 16); ([198; 18; 0; 0], 15); ([198; 51; 100; 0], 24); ([203; 0; 113; 0], 24);
  ([224; 0; 0; 0], 3)
]%N.

Definition ipv6_number (ip : list N) : N := foldl (fun x g => x * 65536 + g)%N 0%N ip.

Definition in_prefix6 (ip : list N) (prefix : list N * N) : bool :=
  (ipv6_number ip / 2 ^ (128 - prefix.2) =? ipv6_number prefix.1 / 2 ^ (128 - prefix.2))%N.

(** ::/128, ::1/128, ::ffff:0:0/96, 64:ff9b::/96, 100::/64, 2001::/23,
    2001:db8::/32, fc00::/7, fe80::/10, ff00::/8 *)
Definition blocked_prefixes6 : list (list N * N) := [
  ([0; 0; 0; 0; 0; 0; 0; 0], 128); ([0; 0; 0; 0; 0; 0; 0; 1], 128); ([0; 0; 0; 0; 0; 0xffff; 0; 0], 96);
  ([0x64; 0xff9b; 0; 0; 0; 0; 0; 0], 96); ([0x100; 0; 0; 0; 0; 0; 0; 0], 64);
  ([0x2001; 0; 0; 0; 0; 0; 0; 0], 23); ([0x2001; 0xdb8; 0; 0; 0; 0; 0; 0], 32);
  ([0xfc00; 0; 0; 0; 0; 0; 0; 0], 7); ([0xfe80; 0; 0; 0; 0; 0; 0; 0], 10);
  ([0xff00; 0; 0; 0; 0; 0; 0; 0], 8)
]%N.

(** ** Lemmas *)

Ltac bool_eq := apply eq_iff_eq_true; rewrite ?andb_true_iff, ?orb_true_iff, ?N.eqb_eq, ?N.leb_le.

Lemma prefix4_steps a b c d :
  (a < 256 → b < 256 → c < 256 → d < 256 →
   let n := ipv4_number [a; b; c; d] in
   n / 2 ^ 29 = a / 32 ∧ n / 2 ^ 24 = a ∧ n / 2 ^ 22 = a * 4 + b / 64 ∧ n / 2 ^ 20 = a * 16 + b / 16 ∧
   n / 2 ^ 17 = a * 128 + b / 2 ∧ n / 2 ^ 16 = a * 256 + b ∧ n / 2 ^ 8 = a * 65536 + b * 256 + c)%N.
Proof.
  intros Ha Hb Hc Hd. unfold ipv4_number. simpl foldl. cbv zeta.
  change (2 ^ 29)%N with 536870912%N. change (2 ^ 24)%N with 16777216%N.
  change (2 ^ 22)%N with 4194304%N. change (2 ^ 20)%N with 1048576%N.
  change (2 ^ 17)%N with 131072%N. change (2 ^ 16)%N with 65536%N. change (2 ^ 8)%N with 256%N.
  pose proof (N.Div0.div_mod a 32). pose proof (N.mod_lt a 32 ltac:(lia)).
  pose proof (N.Div0.div_mod b 64). pose proof (N.mod_lt b 64 ltac:(lia)).
  pose proof (N.Div0.div_mod b 16). pose proof (N.mod_lt b 16 ltac:(lia)).
  pose proof (N.Div0.div_mod b 2). pose proof (N.mod_lt b 2 ltac:(lia)).
  repeat split; symmetry.
  - apply (N.div_unique _ _ _ (a mod 32 * 16777216 + b * 65536 + c * 256 + d)); lia.
  - apply (N.div_unique _ _ _ (b * 65536 + c * 256 + d)); lia.
  - apply (N.div_unique _ _ _ (b mod 64 * 65536 + c * 256 + d)); lia.
  - apply (N.div_unique _ _ _ (b mod 16 * 65536 + c * 256 + d)); lia.
  - apply (N.div_unique _ _ _ (b mod 2 * 65536 + c * 256 + d)); lia.
  - apply (N.div_unique _ _ _ (c * 256 + d)); lia.
  - apply (N.div_unique _ _ _ d); lia.
Qed.

(** A quotient as a variable with its bounds. *)
Lemma div_steps x k : (0 < k → ∃ q, x / k = q ∧ k * q <= x < k * q + k)%N.
Proof.
  intros Hk. exists (x / k)%N. split; [done|].
  pose proof (N.Div0.div_mod x k) as E. pose proof (N.mod_lt x k ltac:(lia)) as L.
  revert E L. generalize (x / k)%N (x mod k)%N. intros q r -> L. lia.
Qed.

Lemma isBlockedIPv4_prefixes a b c d :
  (a < 256)%N → (b < 256)%N → (c < 256)%N → (d < 256)%N →
  isBlockedIPv4 [a; b; c; d] = existsb (in_prefix4 [a; b; c; d]) blocked_prefixes4.
Proof.
  intros Ha Hb Hc Hd.
  destruct (prefix4_steps a b c d Ha Hb Hc Hd) as (E29 & E24 & E22 & E20 & E17 & E16 & E8).
  unfold isBlockedIPv4, blocked_prefixes4, in_prefix4. cbn [existsb fst snd].
  change (32 - 3)%N with 29%N. change (32 - 8)%N with 24%N. change (32 - 10)%N with 22%N.
  change (32 - 12)%N with 20%N. change (32 - 15)%N with 17%N. change (32 - 16)%N with 16%N.
  change (32 - 24)%N with 8%N. rewrite E29, E24, E22, E20, E17, E16, E8.
  rewrite orb_false_r, !orb_assoc.
  assert (Hlast : ∀ x, x || (224 <=? a)%N || (a =? 255)%N && (b =? 255)%N && (c =? 255)%N && (d =? 255)%N
    = x || (224 <=? a)%N).
  { intros x. destruct (224 <=? a)%N eqn:E; [by rewrite !orb_true_r|]. apply N.leb_gt in E.
    rewrite (proj2 (N.eqb_neq a 255)) by lia. simpl. by rewrite !orb_false_r. }
  rewrite Hlast. clear E29 E24 E22 E20 E17 E16 E8 Hlast.
  destruct (div_steps a 32) as (a5 & -> & Ha5); [lia|].
  destruct (div_steps b 64) as (b6 & -> & Hb6); [lia|].
  destruct (div_steps b 16) as (b4 & -> & Hb4); [lia|].
  destruct (div_steps b 2) as (b1 & -> & Hb1); [lia|].
  repeat match goal with |- _ || _ = _ || _ => f_equal end;
    match goal with |- _ = (_ =? ?n)%N => let v := eval vm_compute in n in change n with v end;
    bool_eq; lia.
Qed.

Lemma foldl_groups l acc :
  foldl (fun x g => x * 65536 + g)%N acc l
  = (acc * 65536 ^ N.of_nat (length l) + foldl (fun x g => x * 65536 + g) 0 l)%N.
Proof.
  revert acc. induction l as [|g l IH]; intros acc; [cbn; lia|].
  cbn [foldl]. rewrite IH, (IH (0 * 65536 + g)%N). simpl length. rewrite Nat2N.inj_succ, N.pow_succ_r'. lia.
Qed.

Lemma ipv6_number_app l k :
  ipv6_number (l ++ k) = (ipv6_number l * 65536 ^ N.of_nat (length k) + ipv6_number k)%N.
Proof. unfold ipv6_number. rewrite foldl_app. apply foldl_groups. Qed.

Lemma ipv6_number_bound l :
  Forall (fun g => g < 65536)%N l → (ipv6_number l < 65536 ^ N.of_nat (length l))%N.
Proof.
  induction l as [|g l IH] using rev_ind; [cbn; lia|]. intros [Hl Hg]%Forall_app.
  rewrite Forall_singleton in Hg. specialize (IH Hl). rewrite length_app. simpl length.
  unfold ipv6_number in *. rewrite foldl_app. simpl foldl.
  rewrite Nat.add_1_r, Nat2N.inj_succ, N.pow_succ_r'. lia.
Qed.

Lemma ipv6_number_inj l k :
  length l = length k → Forall (fun g => g < 65536)%N l → Forall (fun g => g < 65536)%N k →
  ipv6_number l = ipv6_number k → l = k.
Proof.
  revert k. induction l as [|g l IH] using rev_ind; intros k Hlen Hl Hk.
  - by destruct k.
  - destruct k as [|h k _] using rev_ind; [rewrite length_app in Hlen; simpl in Hlen; lia|].
    rewrite !length_app in Hlen. simpl in Hlen.
    apply Forall_app in Hl as [Hl Hg]. apply Forall_app in Hk as [Hk Hh].
    rewrite Forall_singleton in Hg, Hh. rewrite !ipv6_number_app.
    change (65536 ^ N.of_nat (length [g]))%N with 65536%N.
    change (65536 ^ N.of_nat (length [h]))%N with 65536%N.
    change (ipv6_number [g]) with g. change (ipv6_number [h]) with h.
    intros Heq. assert (ipv6_number l = ipv6_number k ∧ g = h) as [E ->] by lia.
    by rewrite (IH k) by (auto; lia).
Qed.

(** The leading [16 k - j] bits of an address are the leading groups without
    the last [j] bits. *)
Lemma ipv6_leading ip k j :
  length ip = 8 → Forall (fun g => g < 65536)%N ip → k <= 8 → (j <= 16 * N.of_nat k)%N →
  (ipv6_number ip / 2 ^ (128 - (16 * N.of_nat k - j)) = ipv6_number (take k ip) / 2 ^ j)%N.
Proof.
  intros Hlen Hip Hk Hj. rewrite <- (take_drop k ip) at 1. rewrite ipv6_number_app, length_drop, Hlen.
  assert (Hd : (ipv6_number (drop k ip) < 65536 ^ N.of_nat (8 - k))%N).
  { rewrite <- Hlen, <- length_drop. by apply ipv6_number_bound, Forall_drop. }
  replace (128 - (16 * N.of_nat k - j))%N with (16 * N.of_nat (8 - k) + j)%N by lia.
  rewrite N.pow_add_r, N.pow_mul_r. change (2 ^ 16)%N with 65536%N.
  rewrite <- N.Div0.div_div. f_equal. symmetry. apply (N.div_unique _ _ _ (ipv6_number (drop k ip))); lia.
Qed.

Lemma in_prefix6_groups ip prefix k :
  length ip = 8 → Forall (fun g => g < 65536)%N ip →
  length prefix = 8 → Forall (fun g => g < 65536)%N prefix → k <= 8 →
  in_prefix6 ip (prefix, 16 * N.of_nat k)%N = bool_decide (take k ip = take k prefix).
Proof.
  intros Hi Fi Hp Fp Hk. unfold in_prefix6. simpl.
  pose proof (ipv6_leading ip k 0 Hi Fi Hk ltac:(lia)) as Ei.
  pose proof (ipv6_leading prefix k 0 Hp Fp Hk ltac:(lia)) as Ep.
  rewrite N.sub_0_r, N.pow_0_r, N.div_1_r in Ei, Ep. rewrite Ei, Ep.
  apply eq_iff_eq_true. rewrite N.eqb_eq, bool_decide_eq_true. split; [|by intros ->].
  apply ipv6_number_inj; [rewrite !length_take; lia|by apply Forall_take..].
Qed.

(** Masking the leading bits of a 16-bit group. *)
Lemma land_leading g j :
  (g < 65536)%N → N.land g (N.ldiff (N.ones 16) (N.ones j)) = (g / 2 ^ j * 2 ^ j)%N.
Proof.
  intros Hg.
  assert (E : N.land g (N.ldiff (N.ones 16) (N.ones j)) = N.ldiff (N.land g (N.ones 16)) (N.ones j)).
  { apply N.bits_inj. intros n. rewrite N.land_spec, !N.ldiff_spec, N.land_spec. by rewrite andb_assoc. }
  rewrite E, N.land_ones, (N.mod_small g) by exact Hg.
  by rewrite N.ldiff_ones_r, N.shiftl_mul_pow2, N.shiftr_div_pow2.
Qed.

Lemma leading_group_eqb g j v :
  (g < 65536)%N →
  (N.land g (N.ldiff (N.ones 16) (N.ones j)) =? v * 2 ^ j)%N = (g / 2 ^ j =? v)%N.
Proof.
  intros Hg. rewrite land_leading by done. apply eq_iff_eq_true. rewrite !N.eqb_eq.
  apply N.mul_cancel_r. by apply N.pow_nonzero.
Qed.

Lemma in_prefix6_leading ip p k j :
  length ip = 8 → Forall (fun g => g < 65536)%N ip → length p = 8 → Forall (fun g => g < 65536)%N p →
  k <= 8 → (j <= 16 * N.of_nat k)%N →
  in_prefix6 ip (p, 16 * N.of_nat k - j)%N
  = (ipv6_number (take k ip) / 2 ^ j =? ipv6_number (take k p) / 2 ^ j)%N.
Proof. intros Hi Fi Hp Fp Hk Hj. unfold in_prefix6. simpl. by rewrite !ipv6_leading. Qed.

Lemma isBlockedIPv6_prefixes ip :
  length ip = 8 → Forall (fun g => g < 65536)%N ip →
  isBlockedIPv6 ip = existsb (in_prefix6 ip) blocked_prefixes6.
Proof.
  intros Hlen Hip. unfold blocked_prefixes6. cbn [existsb]. rewrite orb_false_r, !orb_assoc.
  change 128%N with (16 * N.of_nat 8)%N. change 96%N with (16 * N.of_nat 6)%N.
  change 64%N with (16 * N.of_nat 4)%N. change 32%N with (16 * N.of_nat 2)%N.
  rewrite !in_prefix6_groups by first [done | lia | by repeat constructor].
  change 23%N with (16 * N.of_nat 2 - 9)%N. change 7%N with (16 * N.of_nat 1 - 9)%N.
  change 10%N with (16 * N.of_nat 1 - 6)%N. change 8%N with (16 * N.of_nat 1 - 8)%N.
  rewrite !in_prefix6_leading by first [done | lia | by repeat constructor].
  do 8 (destruct ip as [|? ip]; [done|]). destruct ip; [|done].
  repeat (apply Forall_cons in Hip as [? Hip]).
  unfold isBlockedIPv6. cbn [take lookup list_lookup default from_option id slice drop all_zero forallb Nat.sub].
  repeat match goal with |- _ || _ = _ || _ => f_equal end.
  6: { change (ipv6_number [n; n0]) with (n * 65536 + n0)%N.
       change (ipv6_number [8193; 0] / 2 ^ 9)%N with 1048704%N. change (2 ^ 9)%N with 512%N.
       destruct (div_steps (n * 65536 + n0) 512) as (q & -> & Hq); [lia|]. bool_eq. lia. }
  7: { apply (leading_group_eqb n 9 126); done. }
  7: { apply (leading_group_eqb n 6 1018); done. }
  7: { apply (leading_group_eqb n 8 255); done. }
  all: apply eq_iff_eq_true; rewrite bool_decide_eq_true, ?andb_true_iff, ?N.eqb_eq;
    split; [intros; destruct_and?; by subst|intros [= -> ->]; simplify_eq; by repeat split].
Qed.

(** ** Reading and printing addresses *)

Definition octet (n : N) : Prop := (n < 256)%N.
Definition group (n : N) : Prop := (n < 65536)%N.

(** [a.b.c.d] *)
Definition print_ipv4 (ip : list N) : jstr := join "." (map js_of_N ip).

Definition digit_units : list N := map N.of_nat (seq 48 10).

Lemma is_digit_units c : is_digit c = true ↔ c ∈ digit_units.
Proof.
  unfold is_digit, in_range, digit_units. rewrite andb_true_iff, !N.leb_le, list_elem_of_fmap. split.
  - intros Hc. exists (N.to_nat c). rewrite elem_of_seq. lia.
  - intros (n & -> & Hn%elem_of_seq). lia.
Qed.

(** Every octet is printed in the form that [parseIPv4] asks for, and that form
    determines the text. *)
Lemma octet_printed n : octet n → test re_octet (js_of_N n) = true.
Proof.
  intros Hn. apply (forallb_elem (fun k => test re_octet (js_of_N k)) (map N.of_nat (seq 0 256)) n).
  - by vm_compute.
  - apply list_elem_of_fmap. exists (N.to_nat n). rewrite elem_of_seq. unfold octet in Hn. lia.
Qed.

Definition canonical_numeral (s : jstr) : bool := bool_decide (js_of_N (parse_digits 10 s) = s).

Lemma canonical_numerals :
  forallb (fun a => canonical_numeral [a] &&
    forallb (fun b => canonical_numeral [a; b] &&
      forallb (fun c => canonical_numeral [a; b; c]) digit_units) digit_units) (drop 1 digit_units) = true.
Proof. by vm_compute. Qed.

Lemma re_octet_canonical o : test re_octet o = true → js_of_N (parse_digits 10 o) = o.
Proof.
  intros (st & HM)%test_bol_M. M_inv; [by subst|].
  match goal with E : _ = _ :: _ |- _ => rewrite E end.
  match goal with H : in_range _ _ ?a = true, E : ?s = ?w ++ ?t, F : forallb is_digit ?w = true |- _ =>
    rename a into a0, w into w0, t into t0, H into Ha, F into Hw, E into Hs end.
  subst t0. rewrite app_nil_r in Hs. subst.
  assert (Ha' : a0 ∈ drop 1 digit_units).
  { assert (a0 ∈ digit_units) as Hd. { apply is_digit_units. unfold is_digit, in_range in *. apply andb_true_iff.
      rewrite !N.leb_le. bool_hyps. lia. }
    apply elem_of_cons in Hd as [->|Hd]; [done|exact Hd]. }
  pose proof (forallb_elem _ _ _ canonical_numerals Ha') as Hc. cbv beta in Hc.
  apply andb_true_iff in Hc as [Hc1 Hc2]. apply (bool_decide_eq_true_1 _). change (canonical_numeral (a0 :: w0) = true).
  destruct w0 as [|b w0]; [exact Hc1|]. simpl in Hw. apply andb_true_iff in Hw as [Hb%is_digit_units Hw].
  pose proof (forallb_elem _ _ _ Hc2 Hb) as Hc. cbv beta in Hc. apply andb_true_iff in Hc as [Hc3 Hc4].
  destruct w0 as [|c w0]; [exact Hc3|]. simpl in Hw. apply andb_true_iff in Hw as [Hc%is_digit_units Hw].
  destruct w0; [|simpl in *; lia]. exact (forallb_elem _ _ _ Hc4 Hc).
Qed.

Lemma js_of_N_no_dot n : (46%N ∉ js_of_N n).
Proof.
  destruct (js_of_N_spec n) as (_ & Hd & _). intros Hin.
  by pose proof (forallb_elem _ _ _ Hd Hin).
Qed.

Lemma parse_print_ipv4 s ip :
  parseIPv4 s = Some ip ↔ length ip = 4 ∧ Forall octet ip ∧ s = print_ipv4 ip.
Proof.
  unfold parseIPv4, print_ipv4. split.
  - destruct (length (split_char 46 s) =? 4) eqn:Hlen; [|done]. simpl. apply Nat.eqb_eq in Hlen.
    destruct (existsb _ _) eqn:Hex; [done|]. intros [= <-]. rewrite length_map. split; [done|].
    assert (Ho : Forall (fun o => test re_octet o = true ∧ octet (parse_digits 10 o)) (split_char 46 s)).
    { apply Forall_forall. intros o Hin. destruct (negb (test re_octet o) || (255 <? parse_digits 10 o)%N) eqn:E.
      - assert (existsb (fun o => negb (test re_octet o) || (255 <? parse_digits 10 o)%N) (split_char 46 s) = true)
          as Ht by (apply existsb_exists; exists o; by rewrite <- list_elem_of_In). by rewrite Ht in Hex.
      - apply orb_false_iff in E as [E1%negb_false_iff E2%N.ltb_ge]. split; [done|]. unfold octet. lia. }
    split; [apply Forall_map; eapply Forall_impl; [exact Ho|by intros ? []]|].
    rewrite map_map, <- (join_split_char 46 s) at 1. change ("."%js) with [46%N]. f_equal.
    rewrite <- (map_id (split_char 46 s)) at 1. apply map_ext_in. intros o Hin%list_elem_of_In.
    symmetry. apply re_octet_canonical. by apply (proj1 (Forall_forall _ _) Ho).
  - intros (Hlen & Ho & ->). change ("."%js) with [46%N].
    rewrite split_char_join;
      [|by destruct ip|apply Forall_map, Forall_forall; intros ? _; apply js_of_N_no_dot].
    rewrite length_map, Hlen. simpl. destruct (existsb _ _) eqn:Hex.
    + apply existsb_exists in Hex as (o & (n & <- & Hin)%in_map_iff & E). exfalso.
      apply list_elem_of_In in Hin. pose proof (proj1 (Forall_forall _ _) Ho n Hin) as Hn.
      rewrite (octet_printed n Hn) in E. destruct (js_of_N_spec n) as [-> _] in E.
      simpl in E. apply N.ltb_lt in E. unfold octet in Hn. lia.
    + f_equal. rewrite map_map. rewrite <- (map_id ip) at 2. apply map_ext. intros n.
      by destruct (js_of_N_spec n).
Qed.

(** A group is printed as one to four hexadecimal digits. *)
Lemma group_printed n :
  group n → test re_group (toString16 n) = true ∧ parse_digits 16 (toString16 n) = n ∧
  toString16 n ≠ [] ∧ forallb is_hex (toString16 n) = true.
Proof.
  intros Hn. destruct (toString16_spec n Hn) as (Hp & Ha & Hl).
  unfold re_group. rewrite test_class, Ha by (simpl; lia).
  split; [cbn [andb]; rewrite (proj2 (Nat.leb_le 1 _)), (proj2 (Nat.leb_le _ 4)) by lia; done|].
  split; [done|]. split; [by destruct (toString16 n); [simpl in Hl; lia|]|done].
Qed.

(** [g:g:...:g] *)
Definition print_groups (gs : list N) : jstr := join ":" (map toString16 gs).

(** Every colon is followed by another unit, which is no colon. *)
Fixpoint single_colons (s : jstr) : bool :=
  match s with
  | [] => true
  | c :: s' =>
    (negb (c =? 58)%N || match s' with [] => false | d :: _ => negb (d =? 58)%N end) && single_colons s'
  end.

Lemma single_colons_startsWith c s r :
  single_colons (c :: s) = true → startsWith "::" ((c :: s) ++ r) = false.
Proof.
  change (startsWith "::" ((c :: s) ++ r)) with ((58 =? c)%N && startsWith ":" (s ++ r)).
  intros [H _]%andb_true_iff. apply orb_true_iff in H as [H|H].
  - apply negb_true_iff, N.eqb_neq in H. by rewrite (proj2 (N.eqb_neq 58 c)).
  - destruct s as [|d s]; [done|]. apply negb_true_iff, N.eqb_neq in H.
    change (startsWith ":" ((d :: s) ++ r)) with ((58 =? d)%N && true).
    rewrite (proj2 (N.eqb_neq 58 d)) by done. by rewrite andb_false_r.
Qed.

Lemma single_colons_indexOf s r :
  single_colons s = true → indexOf "::" (s ++ "::" ++ r) = Some (length s) ∧ indexOf "::" s = None.
Proof.
  induction s as [|c s IH]; [done|]. intros H.
  pose proof (single_colons_startsWith c s ("::" ++ r) H) as E1.
  pose proof (single_colons_startsWith c s [] H) as E2. rewrite app_nil_r in E2.
  simpl in H. apply andb_true_iff in H as [_ [IH1 IH2]%IH].
  split; [change (indexOf "::" ((c :: s) ++ "::" ++ r)) with
      (if startsWith "::" ((c :: s) ++ "::" ++ r) then Some 0 else S <$> indexOf "::" (s ++ "::" ++ r));
      by rewrite E1, IH1|].
  change (indexOf "::" (c :: s)) with (if startsWith "::" (c :: s) then Some 0 else S <$> indexOf "::" s).
  by rewrite E2, IH2.
Qed.

Lemma colon_free w : forallb is_hex w = true → Forall (fun c => c ≠ 58%N) w.
Proof.
  intros H. apply Forall_forall. intros c Hc ->. by pose proof (forallb_elem _ _ _ H Hc).
Qed.

Lemma single_colons_free w s :
  Forall (fun c => c ≠ 58%N) w →
  single_colons s = true → single_colons (w ++ s) = true.
Proof.
  induction 1 as [|c w Hc _ IH]; [done|]. intros Hs. simpl. rewrite (proj2 (N.eqb_neq c 58)) by done. simpl. auto.
Qed.

Lemma print_groups_cons g h gs : print_groups (g :: h :: gs) = toString16 g ++ 58%N :: print_groups (h :: gs).
Proof. done. Qed.

Lemma print_groups_spec gs :
  Forall group gs →
  single_colons (print_groups gs) = true ∧
  (gs ≠ [] → ∃ c r, print_groups gs = c :: r ∧ c ≠ 58%N) ∧
  Forall (fun c => is_hex c = true ∨ c = 58%N) (print_groups gs).
Proof.
  induction 1 as [|g gs Hg Hgs IH]; [by repeat split; [|constructor]|].
  destruct (group_printed g Hg) as (_ & _ & Hne & Hhex). pose proof (colon_free _ Hhex) as Hcf.
  assert (Hfree : Forall (fun c => is_hex c = true ∨ c = 58%N) (toString16 g)).
  { apply Forall_forall. intros c Hc. left. by apply (forallb_elem _ _ _ Hhex). }
  destruct gs as [|h gs].
  - change (print_groups [g]) with (toString16 g). rewrite <- (app_nil_r (toString16 g)) at 1.
    split; [by apply single_colons_free|]. split; [|done]. intros _.
    destruct (toString16 g) as [|c r]; [done|]. inversion Hcf; subst. eauto.
  - rewrite print_groups_cons. destruct IH as (IH1 & IH2 & IH3). destruct IH2 as (d & r & E & Hd); [done|].
    split; [|split].
    + apply single_colons_free; [done|]. simpl. rewrite IH1, E. by rewrite (proj2 (N.eqb_neq d 58)).
    + intros _. destruct (toString16 g) as [|c q]; [done|]. inversion Hcf; subst. simpl. eauto.
    + apply Forall_app. split; [done|]. constructor; [by right|done].
Qed.

(** A group list is read back from its text. *)
Definition pieces (s : jstr) : list jstr := if truthy s then split_char 58 s else [].

Lemma pieces_print_groups gs : Forall group gs → pieces (print_groups gs) = map toString16 gs.
Proof.
  intros Hgs. destruct gs as [|g gs]; [done|].
  destruct (print_groups_spec (g :: gs) Hgs) as (_ & Hne & _). destruct Hne as (c & r & E & _); [done|].
  unfold pieces. rewrite E. simpl truthy. cbn [truthy]. rewrite <- E. unfold print_groups.
  apply split_char_join; [done|]. apply Forall_map. eapply Forall_impl; [exact Hgs|].
  intros n (_ & _ & _ & Hn)%group_printed Hin. by pose proof (forallb_elem _ _ _ Hn Hin).
Qed.

Lemma lastIndexOf_None c s : (c ∉ s) → lastIndexOf c s = None.
Proof.
  induction s as [|d s IH]; [done|]. intros [Hd Hs]%not_elem_of_cons. simpl. rewrite IH by done.
  by rewrite (proj2 (N.eqb_neq c d)).
Qed.

(** Without a dot there is no IPv4 tail. *)
Lemma expand_no_dot s : (46%N ∉ s) → expand_ipv4_tail s = Some s.
Proof.
  intros Hs. unfold expand_ipv4_tail, exec. destruct (search re_ipv4_tail [] s) eqn:E; [|done]. exfalso.
  assert (is_Some (search re_ipv4_tail [] s)) as (a & b & st & -> & HM)%search_M by by rewrite E.
  apply Hs, elem_of_app. right. clear E. unfold re_ipv4_tail in HM.
  apply M_seq_iff in HM as (st1 & HM1 & (st2 & HM2 & _)%M_seq_iff).
  apply M_group_iff in HM2 as (st3 & (st4 & HM3 & HM4)%M_seq_iff & ->).
  inversion HM4 as [| | | | | | |? ? ? ? st5 ? _ HM5 _ _| | | | |]; subst.
  apply M_seq_iff in HM5 as (st6 & HM6 & _). apply (M_lit ".") in HM6 as (r0 & Hr & _). simpl in Hr.
  apply M_consumes in HM1 as (w1 & E1 & _). apply M_consumes in HM3 as (w2 & E2 & _). simpl in E1.
  rewrite E1, E2, Hr. apply elem_of_app. right. apply elem_of_app. right. left.
Qed.

Lemma valid_groups gs :
  length gs = 8 → Forall group gs →
  (if negb (length (map toString16 gs) =? 8) || existsb (fun g => negb (test re_group g)) (map toString16 gs)
   then None else Some (map (parse_digits 16) (map toString16 gs))) = Some gs.
Proof.
  intros Hlen Hgs. rewrite length_map, Hlen. simpl.
  destruct (existsb _ _) eqn:E.
  - apply existsb_exists in E as (w & (n & <- & Hn%list_elem_of_In)%in_map_iff & E). exfalso.
    apply (proj1 (Forall_forall _ _) Hgs), group_printed in Hn as [Hn _]. by rewrite Hn in E.
  - f_equal. rewrite map_map. rewrite <- (map_id gs) at 2. apply map_ext_in. intros n Hn%list_elem_of_In.
    apply (proj1 (Forall_forall _ _) Hgs) in Hn. by destruct (group_printed n Hn) as (_ & -> & _).
Qed.

Lemma parse_groups_text s :
  Forall (fun c => is_hex c = true ∨ c = 58%N) s → includes ":" s = true → parseIPv6 s = ipv6_groups s.
Proof.
  intros Hs Hc. assert (Hn : ∀ c, is_hex c = false → c ≠ 58%N → c ∉ s).
  { intros c H1 H2 Hin. apply (proj1 (Forall_forall _ _) Hs) in Hin as [H|H]; congruence. }
  unfold parseIPv6. rewrite lastIndexOf_None by by apply Hn. rewrite Hc. simpl.
  by rewrite expand_no_dot by by apply Hn.
Qed.

Lemma full_form_ipv6 gs :
  length gs = 8 → Forall group gs → parseIPv6 (print_groups gs) = Some gs.
Proof.
  intros Hlen Hgs. destruct (print_groups_spec gs Hgs) as (H1 & _ & H3).
  rewrite parse_groups_text; [|done|].
  - unfold ipv6_groups. rewrite indexOf_None_split_str by by apply (single_colons_indexOf _ []).
    change (if truthy (print_groups gs) then split_char 58 (print_groups gs) else []) with (pieces (print_groups gs)).
    rewrite pieces_print_groups by done. rewrite valid_groups by done. by rewrite length_map, Hlen.
  - destruct gs as [|g [|h gs]]; [done..|]. apply includes_true.
    exists (toString16 g), (print_groups (h :: gs)). apply print_groups_cons.
Qed.

Lemma compressed_form_ipv6 left right :
  Forall group left → Forall group right → length left + length right < 8 →
  parseIPv6 (print_groups left ++ "::" ++ print_groups right)
  = Some (left ++ replicate (8 - length left - length right) 0%N ++ right).
Proof.
  intros Hl Hr Hlen. destruct (print_groups_spec left Hl) as (L1 & _ & L3).
  destruct (print_groups_spec right Hr) as (R1 & _ & R3).
  rewrite parse_groups_text;
    [|apply Forall_app; split; [done|]; repeat (constructor; [by right|]); done
     |apply includes_true; by exists (print_groups left), (":" ++ print_groups right)].
  unfold ipv6_groups.
  rewrite (indexOf_split_str _ _ (length (print_groups left))) by first [done|by apply single_colons_indexOf].
  rewrite take_app_length, <- drop_drop, drop_app_length.
  change (drop (length "::"%js) ("::" ++ print_groups right)) with (print_groups right).
  rewrite indexOf_None_split_str by by apply (single_colons_indexOf _ []).
  change (if truthy (print_groups left) then split_char 58 (print_groups left) else [])
    with (pieces (print_groups left)).
  change (if truthy (print_groups right) then split_char 58 (print_groups right) else [])
    with (pieces (print_groups right)).
  rewrite !pieces_print_groups by done. rewrite !length_map.
  rewrite (proj2 (Nat.leb_gt 8 _)) by lia.
  assert (E : map toString16 left ++ replicate (8 - length left - length right) ("0"%js) ++ map toString16 right
    = map toString16 (left ++ replicate (8 - length left - length right) 0%N ++ right)).
  { rewrite !map_app. f_equal. f_equal. symmetry. apply (fmap_replicate toString16). }
  rewrite E. apply valid_groups.
  - rewrite !length_app, length_replicate. lia.
  - apply Forall_app. split; [done|]. apply Forall_app. split; [by apply Forall_replicate|done].
Qed.

Lemma parse_digits_bound s :
  forallb is_hex s = true → (parse_digits 16 s < 16 ^ N.of_nat (length s))%N.
Proof.
  induction s as [|c s IH] using rev_ind; [done|].
  rewrite forallb_app. intros [Hs Hc]%andb_true_iff. rewrite parse_digits_app, length_app.
  change (16 ^ N.of_nat (length [c]))%N with 16%N. change (parse_digits 16 [c]) with (hex_digit c).
  assert (hex_digit c < 16)%N.
  { simpl in Hc. rewrite andb_true_r in Hc. unfold is_hex, hex_digit in *.
    destruct (is_digit c) eqn:E1; [unfold is_digit, in_range in E1; bool_hyps; lia|].
    destruct (in_range 97 102 c) eqn:E2; [unfold in_range in E2; bool_hyps; lia|].
    simpl in Hc. unfold in_range in Hc. bool_hyps. lia. }
  specialize (IH Hs). simpl length. rewrite Nat.add_1_r, Nat2N.inj_succ, N.pow_succ_r'. lia.
Qed.

Lemma re_group_bound g : test re_group g = true → group (parse_digits 16 g).
Proof.
  unfold re_group. rewrite test_class by (simpl; lia).
  intros [[Hh _]%andb_true_iff Hl%Nat.leb_le]%andb_true_iff.
  eapply N.lt_le_trans; [by apply parse_digits_bound|].
  change 65536%N with (16 ^ N.of_nat 4)%N. apply N.pow_le_mono_r; lia.
Qed.

Lemma parseIPv6_bounds s gs : parseIPv6 s = Some gs → length gs = 8 ∧ Forall group gs.
Proof.
  assert (Hvalid : ∀ ws, (if negb (length ws =? 8) || existsb (fun g => negb (test re_group g)) ws then None
    else Some (map (parse_digits 16) ws)) = Some gs → length gs = 8 ∧ Forall group gs).
  { intros ws. destruct (length ws =? 8) eqn:E; [|done]. simpl. destruct (existsb _ _) eqn:Ex; [done|].
    intros [= <-]. rewrite length_map. split; [by apply Nat.eqb_eq|]. apply Forall_map, Forall_forall.
    intros w Hw%list_elem_of_In. apply re_group_bound. destruct (test re_group w) eqn:Et; [done|].
    assert (existsb (fun g => negb (test re_group g)) ws = true) as Ht
      by (apply existsb_exists; exists w; by rewrite Et). congruence. }
  intros H. unfold parseIPv6 in H. destruct (negb _) in H; [done|].
  destruct (expand_ipv4_tail _) as [v|] in H; [|done]. unfold ipv6_groups in H.
  destruct (split_str "::" v) as [|l [|r [|]]] in H; [done| | |done].
  - destruct (negb (length (if truthy l then split_char 58 l else []) =? 8)) eqn:E; [done|].
    apply (Hvalid (if truthy l then split_char 58 l else [])). by rewrite E.
  - destruct (8 <=? _) in H; [done|]. by apply Hvalid in H.
Qed.

(** A dotted address is not read as an IPv6 address. *)
Lemma print_ipv4_not_ipv6 ip : parseIPv6 (print_ipv4 ip) = None.
Proof.
  assert (Hc : ∀ c, is_digit c = false → c ≠ 46%N → c ∉ print_ipv4 ip).
  { intros c Hd Hdot. unfold print_ipv4. induction ip as [|n ip IH]; [set_solver|].
    destruct (js_of_N_spec n) as (_ & Hn & _).
    assert (c ∉ js_of_N n) by (intros Hin; pose proof (forallb_elem _ _ _ Hn Hin); congruence).
    destruct ip as [|m ip]; [done|]. change (join "." (map js_of_N (n :: m :: ip)))
      with (js_of_N n ++ [46%N] ++ join "." (map js_of_N (m :: ip))). set_solver. }
  unfold parseIPv6. rewrite lastIndexOf_None by by apply Hc.
  destruct (includes ":" (print_ipv4 ip)) eqn:E; [|done]. exfalso.
  apply includes_true in E as (a & r & E). apply (Hc 58%N); [done..|]. rewrite E. set_solver.
Qed.

(** ** Denied addresses *)

Definition denied_ipv4 (host : jstr) : Prop :=
  ∃ ip prefix, length ip = 4 ∧ Forall octet ip ∧ host = print_ipv4 ip ∧
    prefix ∈ blocked_prefixes4 ∧ in_prefix4 ip prefix = true.

Definition denied_ipv6 (host : jstr) : Prop :=
  ∃ ip prefix, parseIPv6 host = Some ip ∧ prefix ∈ blocked_prefixes6 ∧ in_prefix6 ip prefix = true.

Lemma blocked4_list ip :
  length ip = 4 → Forall octet ip →
  isBlockedIPv4 ip = true ↔ ∃ prefix, prefix ∈ blocked_prefixes4 ∧ in_prefix4 ip prefix = true.
Proof.
  intros Hlen Ho. do 4 (destruct ip as [|? ip]; [done|]). destruct ip; [|done].
  rewrite !Forall_cons in Ho. destruct Ho as (? & ? & ? & ? & _).
  rewrite isBlockedIPv4_prefixes by done. rewrite existsb_exists. by setoid_rewrite <- list_elem_of_In.
Qed.

Lemma blocked6_list ip :
  length ip = 8 → Forall group ip →
  isBlockedIPv6 ip = true ↔ ∃ prefix, prefix ∈ blocked_prefixes6 ∧ in_prefix6 ip prefix = true.
Proof.
  intros Hlen Hg. rewrite isBlockedIPv6_prefixes by done. rewrite existsb_exists.
  by setoid_rewrite <- list_elem_of_In.
Qed.

Lemma isBlockedLiteralIp_denied host :
  isBlockedLiteralIp host = true ↔ denied_ipv4 host ∨ denied_ipv6 host.
Proof.
  unfold isBlockedLiteralIp, denied_ipv4, denied_ipv6. destruct (parseIPv4 host) as [ip|] eqn:E4.
  - pose proof (proj1 (parse_print_ipv4 _ _) E4) as (Hlen & Ho & ->). rewrite print_ipv4_not_ipv6.
    rewrite blocked4_list by done. split; [naive_solver|].
    intros [(ip' & p & H1 & H2 & H3 & Hp)|(? & ? & ? & _)]; [|done].
    assert (Some ip = Some ip') as [= ->] by (rewrite <- E4, H3; apply parse_print_ipv4; auto). eauto.
  - assert (H4 : ¬ ∃ ip prefix, length ip = 4 ∧ Forall octet ip ∧ host = print_ipv4 ip ∧
      prefix ∈ blocked_prefixes4 ∧ in_prefix4 ip prefix = true).
    { intros (ip & p & H1 & H2 & -> & _). assert (parseIPv4 (print_ipv4 ip) = Some ip)
        by (apply parse_print_ipv4; auto). congruence. }
    destruct (parseIPv6 host) as [ip|] eqn:E6; [|naive_solver].
    destruct (parseIPv6_bounds _ _ E6). rewrite blocked6_list by done. split.
    + intros (p & ? & ?). right. by exists ip, p.
    + intros [|(ip' & p & [= <-] & ? & ?)]; [done|by exists p].
Qed.

Lemma not_denied host : isBlockedLiteralIp host = false → ¬ denied_ipv4 host ∧ ¬ denied_ipv6 host.
Proof. rewrite <- not_true_iff_false, isBlockedLiteralIp_denied. tauto. Qed.

Lemma if_true_iff (b c : bool) : (if b then false else c) = true ↔ b = false ∧ c = true.
Proof. destruct b, c; intuition. Qed.

Lemma raw_host_ok raw :
  (negb (truthy raw) || (bool_decide (parseIPv4 raw = None) && isAmbiguousIPv4Literal raw)) = false ↔
  raw ≠ [] ∧ (isAmbiguousIPv4Literal raw = true →
              ∃ ip, length ip = 4 ∧ Forall octet ip ∧ raw = print_ipv4 ip).
Proof.
  rewrite orb_false_iff, negb_false_iff, truthy_true, andb_false_iff, bool_decide_eq_false.
  setoid_rewrite <- parse_print_ipv4.
  destruct (parseIPv4 raw) as [ip|], (isAmbiguousIPv4Literal raw); naive_solver.
Qed.

Lemma scheme_host_ok protocol host :
  (if protocol === "http:" then isLocalDevelopmentHost host
   else if negb (protocol === "https:") then false
   else if isLocalDevelopmentHost host then false else negb (isBlockedLiteralIp host)) = true ↔
  protocol = "http:" ∧ isLocalDevelopmentHost host = true ∨
  protocol = "https:" ∧ isLocalDevelopmentHost host = false ∧ ¬ denied_ipv4 host ∧ ¬ denied_ipv6 host.
Proof.
  destruct (jeqb_spec protocol "http:") as [->|Hhttp]; [naive_solver|].
  rewrite !if_true_iff, negb_false_iff, jeqb_true, negb_true_iff, <- not_true_iff_false.
  rewrite <- (not_true_iff_false (isBlockedLiteralIp host)), isBlockedLiteralIp_denied. naive_solver.
Qed.

Lemma blocked_compressed left right :
  Forall group left → Forall group right → length left + length right < 8 →
  isBlockedLiteralIp (print_groups left ++ "::" ++ print_groups right)
  = isBlockedIPv6 (left ++ replicate (8 - length left - length right) 0%N ++ right).
Proof.
  intros Hl Hr Hlen. pose proof (compressed_form_ipv6 left right Hl Hr Hlen) as E6.
  unfold isBlockedLiteralIp. rewrite E6. destruct (parseIPv4 _) as [ip|] eqn:E4; [|done].
  apply parse_print_ipv4 in E4 as (_ & _ & E4). by rewrite E4, print_ipv4_not_ipv6 in E6.
Qed.

(** ** Properties *)

(** Literal addresses are read exactly.  [parseIPv4] accepts the canonical
    dotted form of four octets and nothing else; [parseIPv6] reads the
    eight-group form and every form shortened with one double colon, and
    whatever it accepts is eight 16-bit groups. *)
Theorem ip_literals_read_back :
  (∀ s ip, parseIPv4 s = Some ip ↔ length ip = 4 ∧ Forall octet ip ∧ s = print_ipv4 ip) ∧
  (∀ gs, length gs = 8 → Forall group gs → parseIPv6 (print_groups gs) = Some gs) ∧
  (∀ left right, Forall group left → Forall group right → length left + length right < 8 →
    parseIPv6 (print_groups left ++ "::" ++ print_groups right)
    = Some (left ++ replicate (8 - length left - length right) 0%N ++ right)) ∧
  (∀ s gs, parseIPv6 s = Some gs → length gs = 8 ∧ Forall group gs).
Proof.
  split; [exact parse_print_ipv4|]. split; [exact full_form_ipv6|].
  split; [exact compressed_form_ipv6|exact parseIPv6_bounds].
Qed.

Section secure.
Context `{UrlParser} `{UnicodeCase}.

(** C13: An origin is accepted for payment callbacks exactly when it parses as a
    bare http or https origin (no credentials, path, query or fragment) with
    plain http kept for local development hosts and https refused for them, an
    https host that is not a literal address of a denied IPv4 or IPv6 prefix,
    and a host that, where it is written with numbers only, is a canonical
    dotted quad. *)
Theorem callback_origin_secure (value : jstr) :
  isSecurePaymentCallbackOrigin value = true ↔
  trim value ≠ [] ∧ length (trim value) <= 2048 ∧
  (∃ raw, getRawHostname (trim value) = Some raw ∧ raw ≠ [] ∧
    (isAmbiguousIPv4Literal raw = true →
     ∃ ip, length ip = 4 ∧ Forall octet ip ∧ raw = print_ipv4 ip)) ∧
  ∃ url, new_URL (trim value) None = Some url ∧
    normalizeHostname (hostname url) ≠ [] ∧ (pathname url = [] ∨ pathname url = "/") ∧
    username url = [] ∧ password url = [] ∧ u_search url = [] ∧ u_hash url = [] ∧
    (protocol url = "http:" ∧ isLocalDevelopmentHost (normalizeHostname (hostname url)) = true ∨
     protocol url = "https:" ∧ isLocalDevelopmentHost (normalizeHostname (hostname url)) = false ∧
     ¬ denied_ipv4 (normalizeHostname (hostname url)) ∧ ¬ denied_ipv6 (normalizeHostname (hostname url))).
Proof.
  unfold isSecurePaymentCallbackOrigin. rewrite if_true_iff, orb_false_iff, negb_false_iff, Nat.ltb_ge.
  rewrite truthy_true. destruct (getRawHostname (trim value)) as [raw|]; [|naive_solver].
  rewrite if_true_iff, raw_host_ok. destruct (new_URL (trim value) None) as [url|]; [|naive_solver].
  rewrite if_true_iff, scheme_host_ok, !orb_false_iff, !negb_false_iff, orb_true_iff.
  rewrite !jeqb_true, !truthy_false, truthy_true. naive_solver.
Qed.
End secure.

(** A parser that knows one address, for evaluation. *)
Definition demo_parser : UrlParser := fun s _ =>
  if s === "https://pay.example.com"
  then Some (MkURL "https:" [] [] "pay.example.com" [] "/" [] [] []) else None.

Lemma callback_origin_secure_witness :
  @isSecurePaymentCallbackOrigin demo_parser ascii_case " https://pay.example.com " = true.
Proof.
  apply (@callback_origin_secure demo_parser ascii_case). split; [by vm_compute|].
  split; [vm_compute; lia|]. split.
  - exists "pay.example.com"%js. split; [by vm_compute|]. split; [done|]. by vm_compute.
  - eexists. split; [by vm_compute|]. split; [by vm_compute|]. simpl. repeat split; [by right|]. right.
    split; [done|]. split; [by vm_compute|]. apply not_denied. by vm_compute.
Defined.

(** A literal that carries an IPv4 address inside an IPv6 address is not
    taken for that address: the IPv4-compatible form [::hi:lo] and the 6to4 form
    [2002:hi:lo::] pass the check for every address, private ones included. *)
Theorem embedded_ipv4_literals_pass hi lo :
  group hi → group lo → hi ≠ 0%N →
  isBlockedLiteralIp (print_groups [] ++ "::" ++ print_groups [hi; lo]) = false ∧
  isBlockedLiteralIp (print_groups [0x2002%N; hi; lo] ++ "::" ++ print_groups []) = false.
Proof.
  intros Hh Hl Hne. rewrite !blocked_compressed by (simpl; first [lia|by repeat constructor]).
  split; unfold isBlockedIPv6; cbn -[N.eqb N.leb N.land];
    rewrite ?(proj2 (N.eqb_neq 0 hi)) by done; done.
Qed.

Lemma embedded_ipv4_literals_pass_witness :
  isBlockedLiteralIp "::7f00:1" = false ∧ isBlockedLiteralIp "2002:7f00:1::" = false ∧
  isBlockedLiteralIp "127.0.0.1" = true.
Proof.
  destruct (embedded_ipv4_literals_pass 0x7f00 1) as [H1 H2]; [done..|].
  split; [exact H1|]. split; [exact H2|]. by vm_compute.
Defined.
