(* ===== verification/PaymentAdmin.v ===== *)
(** * Payment administration

    Model of the checks the console makes before it sends a payment
    administration request:
    [features/system-settings/billing/payment-operations/] (action validation,
    legacy resolutions, billing reservations, Stripe inventory cancellation,
    action availability), [payment-credential-revocation.ts],
    [retained-payment-credential-disable.ts],
    [integrations/payment-settings-scope.ts],
    [integrations/stripe-test-mode-readiness.ts], the payment methods of
    [integrations/payment-methods-visual-editor-utils.ts] and the error codes of [payment-admin-errors.ts].  Numbers are [num]; a record holds
    the fields of the TypeScript interface, [?:] fields as options. *)

From S2P Require Import Prelude JsRegExp JsValue JsText WebUrl.

(** ** Data *)

Record PaymentOrder := MkOrder {
  po_id : num; po_trade_no : jstr; po_user_id : num; order_kind : jstr; po_provider : jstr;
  po_payment_method : jstr; po_request_id : jstr; provider_order_key : option jstr;
  provider_payment_key : option jstr; expected_amount_minor : num; paid_amount_minor : num;
  po_currency : jstr; requested_amount : num; credit_quota : num; started_at : num;
  legacy_record_type : option jstr; legacy_record_id : option num; po_status : jstr;
  status_reason : option jstr; credential_incident : bool; credential_incident_state : option jstr;
  credential_incident_generation : option num; credential_incident_reason : option jstr;
  credential_incident_at : option num; credential_incident_reviewed_at : option num;
  credential_incident_reviewed_by : option num; credential_incident_review_note : option jstr;
  expires_at : num; settled_at : num; refunded_amount_minor : num; disputed_amount_minor : num;
  reversed_amount_minor : num; reversed_quota : num; po_created_at : num; po_updated_at : num;
  po_version : num;
}.

Record PaymentEvent := MkEvent {
  pe_id : num; pe_provider : jstr; event_key : jstr; event_type : jstr; pe_trade_no : jstr;
  payment_order_id : option num; pe_order_key : option jstr; pe_payment_key : option jstr;
  provider_resource_key : option jstr; customer_id : option jstr; provider_created_at : option num;
  provider_state : option jstr; provider_livemode : option bool; pe_paid_amount_minor : num;
  pe_refunded_amount_minor : num; pe_disputed_amount_minor : num; pe_currency : option jstr;
  pe_payment_method : option jstr; paid : bool; failed : bool; expired : bool; refunded : bool;
  disputed : bool; dispute_resolved : bool; dispute_won : bool; permanent_failure : bool;
  manual_review : bool; payload_digest : jstr; normalized_payload : option jstr; pe_status : jstr;
  attempts : num; last_error : option jstr; pe_created_at : num; processed_at : num;
  pe_updated_at : num; legacy_kind : option jstr; review_code : option jstr;
  available_actions : option (list jstr);
}.

Record BillingReservation := MkReservation {
  br_id : num; br_request_id : jstr; br_user_id : num; token_id : num; funding_source : jstr;
  br_subscription_id : num; subscription_reset_at : num; legacy_adopted : bool;
  resource_type : jstr; resource_id : jstr; initial_quota : num; reserved_quota : num;
  token_reserved : num; settled_quota : num; settlement_target : num; settlement_pending : bool;
  token_mode : num; br_status : jstr; br_version : num; last_reconciled_at : num;
  reconcile_note : jstr; br_created_at : num; br_updated_at : num;
}.

(** [Pick<StripeLegacySubscription, ...>]: what the cancellation check reads. *)
Record CancellableSubscription := MkCancellable {
  sl_id : num; cancel_at_period_end : bool; ended_at : num; expected_updated_at : num; sl_status : jsval;
}.

Record ResolveLegacyEpayTopUpRequest := MkTopUpRequest {
  rt_event_id : num; rt_expected_event_attempts : num; rt_resolution : jstr; rt_credit_quota : num;
  rt_provider_refund_reference : jstr; rt_reason : jstr;
}.

Record ResolveLegacySubscriptionRequest := MkSubscriptionRequest {
  rs_event_id : num; rs_expected_event_attempts : num; rs_resolution : jstr;
  rs_provider_refund_reference : jstr; rs_reason : jstr;
}.

(** ** Action validation *)

Definition PAYMENT_AUDIT_REASON_MIN_BYTES : nat := 8.
Definition PAYMENT_AUDIT_REASON_MAX_BYTES : nat := 512.
Definition PAYMENT_TRADE_NO_MAX_BYTES : nat := 128.
Definition LEGACY_TOPUP_CREDIT_QUOTA_MAX : Z := 2147483647.
Definition PAYMENT_PROVIDER_REFERENCE_MAX_BYTES : nat := 255.

(** [new TextEncoder().encode(value).length]: a surrogate pair is four bytes, a
    lone surrogate is replaced by U+FFFD, which is three. *)
Fixpoint utf8Length (value : jstr) : nat :=
  match value with
  | [] => 0
  | c :: value' =>
    if (c <? 128)%N then 1 + utf8Length value'
    else if (c <? 2048)%N then 2 + utf8Length value'
    else if in_range 0xD800 0xDBFF c then
      match value' with
      | d :: value'' =>
        if in_range 0xDC00 0xDFFF d then 4 + utf8Length value'' else 3 + utf8Length value'
      | [] => 3
      end
    else 3 + utf8Length value'
  end.

Definition isPaymentAuditReasonValid (reason : jstr) : bool :=
  let length := utf8Length (trim reason) in
  (PAYMENT_AUDIT_REASON_MIN_BYTES <=? length) && (length <=? PAYMENT_AUDIT_REASON_MAX_BYTES).

Definition isPaymentTradeNoValid (tradeNo : jstr) : bool :=
  let trimmed := trim tradeNo in
  (0 <? length trimmed) && (utf8Length trimmed <=? PAYMENT_TRADE_NO_MAX_BYTES).

(** [/^\d+$/] *)
Definition re_digits : regex := (RBol · rplus (RUnit is_digit) · REol)%re.

(** [Number(s)] for a string of decimal digits. *)
Definition number_of_digits (s : jstr) : num := num_of_Z (Z.of_N (parse_digits 10 s)).

Definition parsePositiveSafeInteger (value : jstr) : option num :=
  let trimmed := trim value in
  if negb (test re_digits trimmed) then None
  else
    let parsed := number_of_digits trimmed in
    if isSafeInteger parsed && num_ltb (num_of_Z 0) parsed then Some parsed else None.

Definition parseLegacyTopUpCreditQuota (value : jstr) : option num :=
  match parsePositiveSafeInteger value with
  | Some parsed =>
    if num_leb parsed (num_of_Z LEGACY_TOPUP_CREDIT_QUOTA_MAX) then Some parsed else None
  | None => None
  end.

(** [\p{Cc}] *)
Definition is_control (c : N) : bool := (c <? 32)%N || in_range 127 159 c.

Definition isPaymentProviderReferenceValid (reference : jstr) : bool :=
  let trimmed := trim reference in
  let length := utf8Length trimmed in
  (0 <? length) && (length <=? PAYMENT_PROVIDER_REFERENCE_MAX_BYTES)
  && negb (existsb is_control trimmed).

Definition isExternalRefundAmountValid (order : PaymentOrder) (refundedAmountMinor : option num) : bool :=
  match refundedAmountMinor with
  | None => false
  | Some amount =>
    if negb (isSafeInteger amount)
       || num_leb amount (refunded_amount_minor order)
       || num_ltb (expected_amount_minor order) amount
       || negb (num_eqb (disputed_amount_minor order) (num_of_Z 0))
    then false
    else negb (order_kind order === "subscription")
         || num_eqb amount (expected_amount_minor order)
  end.

(** ** Actions on events and incidents *)

Inductive UnmatchedPaymentEventAction :=
  | dismiss | link | retry_legacy | resolve_legacy_subscription | resolve_legacy_topup.

Definition action_text (a : UnmatchedPaymentEventAction) : jstr :=
  match a with
  | dismiss => "dismiss"
  | link => "link"
  | retry_legacy => "retry_legacy"
  | resolve_legacy_subscription => "resolve_legacy_subscription"
  | resolve_legacy_topup => "resolve_legacy_topup"
  end.

Definition isPaymentEventActionAvailable (event : PaymentEvent) (action : UnmatchedPaymentEventAction) : bool :=
  match available_actions event with
  | Some actions => has (action_text action) actions
  | None => false
  end.

Inductive IncidentAction := acknowledge | resolve.

Definition getCredentialIncidentActions (status : jstr) (incidentOpen : bool) : list IncidentAction :=
  if negb incidentOpen then []
  else if status === "open" then [acknowledge; resolve]
  else if status === "acknowledged" then [resolve]
  else [].

(** ** Legacy resolutions *)

Definition STRIPE_LEGACY_RECURRING_CHECKOUT_REVIEW_CODE : jstr := "stripe_legacy_recurring_checkout_paid".

Definition isStripeLegacyRecurringCheckoutReview (event : option PaymentEvent) : bool :=
  match event with
  | Some event => bool_decide (review_code event = Some STRIPE_LEGACY_RECURRING_CHECKOUT_REVIEW_CODE)
  | None => false
  end.

Definition buildLegacySubscriptionResolutionRequest (event : option PaymentEvent)
    (providerRefundReference reason : jstr) : option ResolveLegacySubscriptionRequest :=
  match event with
  | None => None
  | Some event =>
    if negb (isPaymentEventActionAvailable event resolve_legacy_subscription)
       || negb (isPaymentProviderReferenceValid providerRefundReference)
       || negb (isPaymentAuditReasonValid reason)
    then None
    else Some {| rs_event_id := pe_id event; rs_expected_event_attempts := attempts event;
                 rs_resolution := "external_refund";
                 rs_provider_refund_reference := trim providerRefundReference;
                 rs_reason := trim reason |}
  end.

Record LegacyTopUpResolutionFormValues := MkTopUpForm {
  f_resolution : jstr; f_creditQuota : jstr; f_providerRefundReference : jstr; f_reason : jstr;
}.

Definition buildLegacyTopUpResolutionRequest (event : option PaymentEvent)
    (values : LegacyTopUpResolutionFormValues) : option ResolveLegacyEpayTopUpRequest :=
  match event with
  | None => None
  | Some event =>
    if negb (isPaymentEventActionAvailable event resolve_legacy_topup)
       || negb (isPaymentAuditReasonValid (f_reason values))
    then None
    else
      if f_resolution values === "fulfill" then
        match parseLegacyTopUpCreditQuota (f_creditQuota values) with
        | None => None
        | Some creditQuota =>
          Some {| rt_event_id := pe_id event; rt_expected_event_attempts := attempts event;
                  rt_resolution := f_resolution values; rt_credit_quota := creditQuota;
                  rt_provider_refund_reference := []; rt_reason := trim (f_reason values) |}
        end
      else if (f_resolution values === "external_refund")
              && isPaymentProviderReferenceValid (f_providerRefundReference values)
      then Some {| rt_event_id := pe_id event; rt_expected_event_attempts := attempts event;
                   rt_resolution := f_resolution values; rt_credit_quota := num_of_Z 0;
                   rt_provider_refund_reference := trim (f_providerRefundReference values);
                   rt_reason := trim (f_reason values) |}
      else None
  end.

(** ** Billing reservations *)

Definition MAX_BILLING_QUOTA : Z := 2147483647.

Definition parseBillingActualQuota (value : jstr) : option num :=
  let normalized := trim value in
  if negb (test re_digits normalized) then None
  else
    let quota := number_of_digits normalized in
    if negb (isSafeInteger quota) || num_ltb quota (num_of_Z 0)
       || num_ltb (num_of_Z MAX_BILLING_QUOTA) quota
    then None
    else Some quota.

Definition isBillingReservationReviewable (reservation : BillingReservation) : bool :=
  (br_status reservation === "reserved") && num_ltb (num_of_Z 0) (last_reconciled_at reservation)
  && (0 <? length (trim (reconcile_note reservation))).

(** ** Stripe inventory *)

Definition TERMINAL_STRIPE_SUBSCRIPTION_STATUSES : list jstr := ["canceled"; "incomplete_expired"].

Definition canScheduleStripeSubscriptionCancellation `{UnicodeCase} (item : CancellableSubscription) : bool :=
  let status := match sl_status item with JStr s => toLowerCase (trim s) | _ => [] end in
  num_ltb (num_of_Z 0) (sl_id item) && (0 <? length status) && negb (cancel_at_period_end item)
  && num_leb (ended_at item) (num_of_Z 0) && num_ltb (num_of_Z 0) (expected_updated_at item)
  && negb (has status TERMINAL_STRIPE_SUBSCRIPTION_STATUSES).

Definition isStripeCancellationReasonValid (reason : jstr) : bool :=
  let length := utf8Length (trim reason) in (8 <=? length) && (length <=? 512).

(** ** Emergency credential revocation *)

Inductive RevocablePaymentProvider := epay | stripe | xorpay.
Inductive EmergencyCredentialReplacementState := none | partial | complete.
Inductive EmergencyCredentialRevocationMode := replace | revoke_previous | stripe_disable | stripe_disable_all.

Record EmergencyCredentialReplacement := MkReplacement {
  r_state : EmergencyCredentialReplacementState; r_options : list (jstr * jstr);
}.

Record EmergencyCredentialReplacementInput := MkReplacementInput {
  identifier : option jstr; savedIdentifier : option jstr; secret : option jstr;
}.

Definition EMERGENCY_CREDENTIAL_REVOCATION_REASON_MIN_LENGTH : nat := 8.
Definition EMERGENCY_CREDENTIAL_REVOCATION_REASON_MAX_LENGTH : nat := 512.

Definition normalizeEmergencyCredentialRevocationReason (reason : jstr) : jstr := trim reason.

Definition isEmergencyCredentialRevocationReasonValid (reason : jstr) : bool :=
  let normalized := normalizeEmergencyCredentialRevocationReason reason in
  (EMERGENCY_CREDENTIAL_REVOCATION_REASON_MIN_LENGTH <=? length normalized)
  && (length normalized <=? EMERGENCY_CREDENTIAL_REVOCATION_REASON_MAX_LENGTH).

Definition buildEmergencyCredentialReplacement (provider : RevocablePaymentProvider)
    (input : EmergencyCredentialReplacementInput) : EmergencyCredentialReplacement :=
  let secret := trim (default [] (secret input)) in
  match provider with
  | stripe =>
    if truthy secret then MkReplacement complete [("StripeWebhookSecret", secret)] else MkReplacement none []
  | _ =>
    let identifier := trim (default [] (identifier input)) in
    let savedIdentifier := trim (default [] (savedIdentifier input)) in
    if negb (truthy secret) then
      MkReplacement (if truthy identifier && negb (identifier === savedIdentifier) then partial else none) []
    else if negb (truthy identifier) then MkReplacement partial []
    else
      match provider with
      | epay => MkReplacement complete [("EpayId", identifier); ("EpayKey", secret)]
      | _ => MkReplacement complete [("XorPayAid", identifier); ("XorPayAppSecret", secret)]
      end
  end.

Definition resolveEmergencyCredentialRevocationMode (provider : RevocablePaymentProvider)
    (replacementState : EmergencyCredentialReplacementState) (previousCredentialActive : bool) :
    option EmergencyCredentialRevocationMode :=
  match replacementState with
  | partial => None
  | complete => Some replace
  | none =>
    match provider with
    | stripe => Some stripe_disable
    | _ => if previousCredentialActive then Some revoke_previous else None
    end
  end.

Definition getEmergencyCredentialClearSecrets (mode : EmergencyCredentialRevocationMode) : list jstr :=
  match mode with stripe_disable_all => ["StripeApiSecret"] | _ => [] end.

(** ** Retained gateways *)

Inductive RetainedPaymentProvider := creem | waffo | waffo_pancake.

Definition RETAINED_PAYMENT_PROVIDERS : list RetainedPaymentProvider := [creem; waffo; waffo_pancake].

Inductive RangeError := reason_invalid | version_invalid.

Record RetainedCredentialDisablePayload := MkDisablePayload {
  d_options : list (jstr * jstr); disable_current_credentials : list RetainedPaymentProvider;
  d_reason : jstr; d_expected_version : num;
}.

(** The thrown [RangeError]s are the left values. *)
Definition buildRetainedCredentialDisablePayload (provider : RetainedPaymentProvider) (reason : jstr)
    (expectedVersion : num) : RangeError + RetainedCredentialDisablePayload :=
  let normalizedReason := normalizeEmergencyCredentialRevocationReason reason in
  if negb (isEmergencyCredentialRevocationReasonValid normalizedReason) then inl reason_invalid
  else if negb (isSafeInteger expectedVersion) || num_leb expectedVersion (num_of_Z 0)
  then inl version_invalid
  else inr {| d_options := []; disable_current_credentials := [provider];
              d_reason := normalizedReason; d_expected_version := expectedVersion |}.

(** ** Settings sections *)

Inductive PaymentSettingsTab := t_general | t_epay | t_stripe | t_xorpay | t_creem | t_waffo_pancake | t_waffo.

#[global] Instance PaymentSettingsTab_eq_dec : EqDecision PaymentSettingsTab.
Proof. solve_decision. Defined.

Record PaymentSettingUpdate := MkUpdate { key : jstr; value : jsval }.

Definition getPaymentSettingsTabForOptionKey (value : jstr) : option PaymentSettingsTab :=
  let key := trim value in
  if negb (truthy key) then None
  else if (key === "ServerAddress") || (key === "TopupGroupRatio") || (key === "Price")
          || (key === "MinTopUp") || (key === "CustomCallbackAddress") || (key === "PayMethods")
          || startsWith "payment_setting." key
  then Some t_general
  else if (key === "PayAddress") || startsWith "Epay" key then Some t_epay
  else if startsWith "Stripe" key then Some t_stripe
  else if startsWith "XorPay" key then Some t_xorpay
  else if startsWith "Creem" key then Some t_creem
  else if startsWith "WaffoPancake" key then Some t_waffo_pancake
  else if startsWith "Waffo" key then Some t_waffo
  else None.

(** [None] for the section that has no set of its own. *)
Definition PAYMENT_OPTION_KEYS_BY_TAB (tab : PaymentSettingsTab) : option (list jstr) :=
  match tab with
  | t_general => Some ["CustomCallbackAddress"; "TopupGroupRatio"; "Price"; "MinTopUp"; "PayMethods";
                       "payment_setting.amount_options"; "payment_setting.amount_discount"]
  | t_epay => Some ["PayAddress"; "EpayId"; "EpayKey"]
  | t_stripe => Some ["StripeApiSecret"; "StripeWebhookSecret"; "StripePriceId"; "StripeAccountId";
                      "StripeCheckoutAllowedHosts"; "StripeCurrency"; "StripeUnitPrice"; "StripeMinTopUp"]
  | t_xorpay => Some ["XorPayAid"; "XorPayAppSecret"; "XorPayUnitPrice"; "XorPayMinTopUp";
                      "XorPayEnabledMethods"]
  | t_creem => Some ["CreemApiKey"; "CreemWebhookSecret"; "CreemTestMode"; "CreemProducts"]
  | t_waffo => Some ["WaffoEnabled"; "WaffoSandbox"; "WaffoMerchantId"; "WaffoCurrency"; "WaffoUnitPrice";
                     "WaffoMinTopUp"; "WaffoNotifyUrl"; "WaffoReturnUrl"; "WaffoWebRedirectHosts";
                     "WaffoAppRedirectSchemes"; "WaffoPublicCert"; "WaffoSandboxPublicCert"; "WaffoApiKey";
                     "WaffoPrivateKey"; "WaffoSandboxApiKey"; "WaffoSandboxPrivateKey"; "WaffoPayMethods"]
  | t_waffo_pancake => None
  end.

Definition selectPaymentSettingUpdates (section : PaymentSettingsTab) (updates : list PaymentSettingUpdate) :
    list PaymentSettingUpdate :=
  match PAYMENT_OPTION_KEYS_BY_TAB section with
  | None => []
  | Some allowedKeys => List.filter (fun update => has (key update) allowedKeys) updates
  end.

(** ** Stripe test mode *)

Inductive NoticeState := blocked | enabled.
Record StripeTestModeNotice := MkNotice { n_state : NoticeState; isolationRequired : bool }.

Record TestModeInput := MkTestModeInput {
  credentialLivemode : jstr; initialEnabled : bool; initialBlocked : bool;
  initialIsolationRequired : bool; readiness : jsval;
}.

(** [typeof v === 'boolean' ? v : initial] *)
Definition bool_or (v : jsval) (initial : bool) : bool := match v with JBool b => b | _ => initial end.

Definition resolveStripeTestModeNotice `{UnicodeCase} (input : TestModeInput) : option StripeTestModeNotice :=
  if negb (toLowerCase (trim (credentialLivemode input)) === "test") then None
  else
    let enabled_ := bool_or (get "test_mode_enabled" (readiness input)) (initialEnabled input) in
    let blocked_ := bool_or (get "test_mode_blocked" (readiness input)) (initialBlocked input) in
    let isolationRequired :=
      bool_or (get "test_mode_isolation_required" (readiness input)) (initialIsolationRequired input) in
    if blocked_ then Some (MkNotice blocked isolationRequired)
    else if enabled_ then Some (MkNotice enabled isolationRequired)
    else None.

(** ** Payment method identities *)

Definition MAX_CONFIGURED_PAYMENT_METHODS : nat := 27.

Inductive PaymentMethodCollectionError := too_many_payment_methods | duplicate_payment_method.

Definition EPAY_RESERVED_TYPES : list jstr :=
  ["stripe"; "xorpay_native"; "xorpay_alipay"; "xorpay_jsapi"; "waffo_pancake"].

Record MethodKey := MkMethodKey { mk_provider : jstr; mk_type : jstr }.

(** A [PaymentMethodData] object: its own properties. *)
Abbreviation PaymentMethodData := (list (jstr * jsval)).

Section methods.
Context `{UnicodeCase}.

Definition getPaymentMethodIdentity (method : MethodKey) : jstr :=
  let provider := toLowerCase (trim (jor (mk_provider method) "epay")) in
  let rawType := trim (mk_type method) in
  let type := if provider === "epay" then rawType else toLowerCase rawType in
  provider ++ [0%N] ++ type.

Fixpoint duplicate_go (identities : list jstr) (methods : list MethodKey) :
    option PaymentMethodCollectionError :=
  match methods with
  | [] => None
  | method :: methods' =>
    let identity := getPaymentMethodIdentity method in
    if has identity identities then Some duplicate_payment_method
    else duplicate_go (identity :: identities) methods'
  end.

Definition validatePaymentMethodCollection (methods : list MethodKey) : option PaymentMethodCollectionError :=
  if MAX_CONFIGURED_PAYMENT_METHODS <? length methods then Some too_many_payment_methods
  else duplicate_go [] methods.

Definition isPaymentMethodProviderTypeValid (providerValue typeValue : jstr) : bool :=
  let provider := toLowerCase (trim providerValue) in
  let rawType := trim typeValue in
  let type := if provider === "epay" then rawType else toLowerCase rawType in
  if provider === "epay" then negb (has type EPAY_RESERVED_TYPES)
  else if provider === "stripe" then type === "stripe"
  else if provider === "creem" then type === "creem"
  else if provider === "waffo" then type === "waffo"
  else if provider === "waffo_pancake" then type === "waffo_pancake"
  else if provider === "xorpay" then has type ["xorpay_native"; "xorpay_alipay"; "xorpay_jsapi"]
  else false.

Definition method_key (m : PaymentMethodData) : MethodKey :=
  MkMethodKey (default [] (as_string (get "provider" (JObj m)))) (default [] (as_string (get "type" (JObj m)))).

(** [{ ...a, ...b }] *)
Definition spread (a b : PaymentMethodData) : PaymentMethodData :=
  foldl (fun o kv => obj_set kv.1 kv.2 o) a b.

Definition inferProvider (type : jstr) : jstr :=
  if type === "stripe" then "stripe"
  else if type === "creem" then "creem"
  else if type === "waffo" then "waffo"
  else if startsWith "xorpay_" type then "xorpay"
  else if type === "waffo_pancake" then "waffo_pancake"
  else "epay".

Definition providerValues : list jstr := ["epay"; "stripe"; "xorpay"; "creem"; "waffo"; "waffo_pancake"].

Definition configuredProvider (item : jsval) (type : jstr) : jstr :=
  match as_string (get "provider" item) with
  | Some provider =>
    if has (toLowerCase (trim provider)) providerValues then toLowerCase (trim provider)
    else inferProvider type
  | None => inferProvider type
  end.

(** A property that is set when there is a value and deleted otherwise. *)
Definition set_or_delete (k : jstr) (v : option jsval) (o : PaymentMethodData) : PaymentMethodData :=
  match v with Some v => obj_set k v o | None => delete_prop k o end.

Definition if_string (v : jsval) : option jsval := match v with JStr _ => Some v | _ => None end.
Definition amount_text (v : jsval) : option jsval :=
  match v with JStr s => Some (JStr s) | JNum n => Some (JStr (number_to_string n)) | _ => None end.

Definition normalizePaymentMethod (item : jsval) : option PaymentMethodData :=
  match item with
  | JObj record =>
    match get "name" item, get "type" item with
    | JStr name, JStr type =>
      let method :=
        spread record [("name" : jstr, JStr name); ("type" : jstr, JStr type);
                       ("provider" : jstr, JStr (configuredProvider item type))] in
      let method := set_or_delete "icon" (if_string (get "icon" item)) method in
      let method := set_or_delete "color" (if_string (get "color" item)) method in
      Some (set_or_delete "min_topup" (amount_text (get "min_topup" item)) method)
    | _, _ => None
    end
  | _ => None
  end.

Definition has_identity (targetIdentity : jstr) (item : jsval) : bool :=
  match normalizePaymentMethod item with
  | Some method => getPaymentMethodIdentity (method_key method) === targetIdentity
  | None => false
  end.

(** [findIndex] and the two slices around the index *)
Fixpoint remove_first (p : jsval → bool) (methods : list jsval) : list jsval :=
  match methods with
  | [] => []
  | item :: methods' => if p item then methods' else item :: remove_first p methods'
  end.

Definition removePaymentMethodByIdentity (methods : list jsval) (target : MethodKey) : list jsval :=
  remove_first (has_identity (getPaymentMethodIdentity target)) methods.

Definition mergePaymentMethodEdit (existing data : PaymentMethodData) : PaymentMethodData :=
  let identityChanged :=
    negb (getPaymentMethodIdentity (method_key existing) === getPaymentMethodIdentity (method_key data)) in
  let merged := spread existing data in
  if identityChanged
  then delete_prop "channel_alias" (delete_prop "public_method" (delete_prop "route_id" (delete_prop "flow" merged)))
  else merged.
End methods.

(** ** Errors *)

(** [getApiErrorMessage] of [lib/api-error.ts]; [is_error] is
    [error instanceof Error]. *)
Definition getApiErrorMessage (is_error : bool) (error : jsval) (fallback : jstr) : jstr :=
  let own := match get "message" error with JStr m => m | _ => [] end in
  let rest := if is_error && truthy own then own else fallback in
  match get "message" (get "data" (get "response" error)) with
  | JStr m => if truthy (trim m) then m else rest
  | _ => rest
  end.

Definition usable_code (candidate : jsval) : option jstr :=
  match candidate with
  | JStr c => if truthy (trim c) && negb (startsWith "ERR_" c) then Some (trim c) else None
  | _ => None
  end.

(** [candidates.find(...)], trimmed *)
Fixpoint first_code (candidates : list jsval) : option jstr :=
  match candidates with
  | [] => None
  | c :: cs => match usable_code c with Some code => Some code | None => first_code cs end
  end.

Definition code_candidates (source : jsval) : list jsval :=
  let response := get "data" (get "response" source) in
  let data := get "data" source in
  [get "code" response; get "code" (get "data" response); get "code" data;
   get "code" (get "data" data); get "code" source].

(** What is thrown: an object, known by its identity, or any other value, of which only
    its truth matters. *)
Inductive thrown := Object (r : nat) | Primitive (truthy : bool).

#[global] Instance thrown_eq_dec : EqDecision thrown.
Proof. solve_decision. Defined.

(** The objects: the members in which a code is looked for, and the member [cause], which may
    be any object, the object itself and one that has it as its own cause included. *)
Record ErrorObject := MkErrorObject { e_members : jsval; e_cause : thrown }.

(** One unit of fuel per call with an object; [None] is a call that has not returned by then. *)
Fixpoint getPaymentAdminErrorCode (fuel : nat) (object : nat → ErrorObject) (value : thrown) : option (option jstr) :=
  match value with
  | Primitive _ => Some None
  | Object r =>
    match fuel with
    | O => None
    | S f =>
      match first_code (code_candidates (e_members (object r))) with
      | Some code => Some (Some code)
      | None =>
        match e_cause (object r) with
        | Primitive false => Some None
        | cause => if bool_decide (cause = value) then Some None else getPaymentAdminErrorCode f object cause
        end
      end
    end
  end.

(** The objects of a value that is a tree: the value, its cause, the cause of that, and so on. *)
Definition thrown_value (i : nat) (v : jsval) : thrown := if is_objectlike v then Object i else Primitive (val_truthy v).
Fixpoint nth_cause (i : nat) (v : jsval) : jsval := match i with O => v | S i => nth_cause i (get "cause" v) end.
Definition objects_of (v : jsval) (i : nat) : ErrorObject :=
  MkErrorObject (nth_cause i v) (thrown_value (S i) (nth_cause (S i) v)).

(** The code of a tree, whose depth is fuel enough ([tree_code_returns]). *)
Definition tree_error_code (v : jsval) : option jstr :=
  default None (getPaymentAdminErrorCode (S (depth v)) (objects_of v) (thrown_value 0 v)).

(** The properties of the [Error] object that is created. *)
Definition createPaymentAdminError (code message : option jstr) (fallback : jstr) : jsval :=
  let text := match message with Some m => jor m fallback | None => fallback end in
  JObj ([("message" : jstr, JStr text); ("skipGlobalError" : jstr, JBool true)] ++
    match code with Some c => if truthy c then [("code" : jstr, JStr c)] else [] | None => [] end).

Definition ADMIN_ERROR_MESSAGES : list (jstr * jstr) := [
  ("payment_limit_list_unavailable",
   "Payment limit policies could not be loaded. Try again.");
  ("payment_limit_usage_unavailable",
   "Current payment limit usage could not be loaded. Try again.");
  ("payment_overview_unavailable",
   "Payment overview could not be loaded. Try again.");
  ("payment_overview_schema_invalid",
   "Payment overview data is from an incompatible or incomplete server version. Refresh after the server is updated.");
  ("payment_operations_schema_not_ready",
   "Payment operations need a database migration before operational data can be loaded.");
  ("payment_limit_invalid",
   "The payment limit settings are invalid. Review the method, currency, amounts, and time zone.");
  ("payment_limit_timezone_locked",
   "This payment policy time zone is locked because usage already exists.");
  ("payment_limit_reload_failed",
   "Payment limit was saved, but the latest policy could not be reloaded.");
  ("payment_limit_usage_refresh_failed",
   "Payment limit was saved, but current usage could not be refreshed.");
  ("payment_settings_auth_required",
   "You are not authorized to change payment settings.");
  ("VERIFICATION_REQUIRED",
   "Additional security verification is required to continue.");
  ("VERIFICATION_EXPIRED",
   "Your security verification expired. Verify again and retry.");
  ("VERIFICATION_INVALID",
   "Security verification failed. Verify your identity and retry.");
  ("payment_settings_permission_denied",
   "You do not have permission to change payment settings.");
  ("payment_operations_permission_denied",
   "You do not have permission to perform this payment administration action.");
  ("payment_operations_auth_required",
   "Use an authenticated administrator browser session for this payment operation.");
  ("stripe_inventory_cancel_invalid",
   "The Stripe cancellation request is invalid. Review the reason and refresh the inventory.");
  ("stripe_inventory_subscription_not_found",
   "This Stripe subscription is no longer in the inventory. Refresh before continuing.");
  ("stripe_inventory_cancel_conflict",
   "This Stripe subscription changed after it was loaded. Refresh the inventory before retrying.");
  ("stripe_inventory_cancel_not_configured",
   "The current Stripe credentials cannot manage legacy subscription cancellations.");
  ("stripe_inventory_cancel_account_mismatch",
   "This legacy subscription belongs to a different Stripe account than the configured credentials.");
  ("stripe_inventory_cancel_mode_mismatch",
   "This legacy subscription uses a different Stripe test or live mode than the configured credentials.");
  ("stripe_inventory_cancel_unavailable",
   "Stripe could not schedule this cancellation. The subscription was not marked as canceled locally.");
  ("payment_cluster_unready",
   "Payment services are not ready across the application nodes. Try again later.");
  ("payment_settings_field_invalid",
   "One or more payment settings are invalid. Review the highlighted fields.");
  ("payment_settings_sync_failed",
   "Payment settings could not be synchronized across the application.");
  ("payment_settings_invalid",
   "The payment settings are invalid. Review this section and try again.");
  ("payment_settings_scope_conflict",
   "This save conflicts with another payment settings section. Reload and try again.");
  ("payment_settings_secret_storage_unavailable",
   "Payment secrets could not be stored securely. No credentials were changed.");
  ("payment_settings_stripe_verification_failed",
   "Stripe could not verify these credentials. Review the Stripe account settings.");
  ("payment_settings_stripe_checkout_hosts_invalid",
   "Enter only exact custom Stripe Checkout hostnames. Wildcards, URLs, ports, IP addresses, localhost, and credentials are not allowed.");
  ("payment_settings_stripe_test_mode_disabled",
   "Stripe test mode is disabled for this installation.");
  ("payment_settings_rotation_blocked",
   "Credential rotation is blocked while earlier orders still require the previous credential.");
  ("payment_settings_change_blocked",
   "Payment settings changes are temporarily blocked for safety.");
  ("payment_settings_version_conflict",
   "Payment settings changed in another session. Reload before saving again.");
  ("payment_settings_save_failed",
   "Payment settings could not be saved. No changes were applied.");
  ("waffo_pancake_configuration_incomplete",
   "Waffo Pancake configuration is incomplete. Provide credentials, return settings, and a Store and Product binding.");
  ("waffo_pancake_credentials_invalid",
   "Waffo Pancake could not verify these merchant credentials.");
  ("waffo_pancake_catalog_unavailable",
   "Waffo Pancake catalog could not be loaded. Try again.");
  ("waffo_pancake_pair_create_failed",
   "Waffo Pancake could not create the Store and Product.");
  ("waffo_pancake_pair_partial_failure",
   "The Waffo Pancake Store was created, but the Product could not be created. Review the orphan Store before retrying.");
  ("waffo_pancake_product_create_failed",
   "Waffo Pancake could not create the Product.")
].

Section messages.
Context (t : jstr → jstr).

Definition getPaymentAdminErrorMessage (is_error : bool) (error : jsval) (fallback : jstr) : jstr :=
  match tree_error_code error with
  | None => getApiErrorMessage is_error error fallback
  | Some code =>
    if negb (truthy code) then getApiErrorMessage is_error error fallback
    else
      let message := default "The payment operation failed. Review the error code and try again."
                       (map_get code ADMIN_ERROR_MESSAGES) in
      t message ++ " (" ++ code ++ ")"
  end.

Definition getRetainedCredentialDisableErrorMessage (is_error : bool) (error : jsval) (fallback : jstr) : jstr :=
  let known message code := t message ++ " (" ++ code ++ ")" in
  match tree_error_code error with
  | None => getPaymentAdminErrorMessage is_error error fallback
  | Some code =>
    if (code === "payment_credential_revocation_unavailable") || (code === "payment_settings_rotation_blocked")
    then known "No active current credential is available to disable for this gateway." code
    else if code === "payment_credential_revocation_preview_invalid"
    then known "The emergency impact preview request is invalid. Reload the payment settings and try again." code
    else if code === "payment_credential_revocation_preview_unavailable"
    then known "The emergency impact preview could not be loaded. Try again before continuing." code
    else getPaymentAdminErrorMessage is_error error fallback
  end.

Definition billingReservationResolutionError `{UnicodeCase} (is_error : bool) (error : jsval) : jstr :=
  let message := toLowerCase (getApiErrorMessage is_error error []) in
  if includes "version has changed" message
  then t "Billing reservation changed. Refresh the detail before trying again."
  else if includes "must be marked for administrator review" message
  then t "This reservation is not marked for administrator review."
  else if includes "already finalized" message
  then t "This reservation has already been finalized."
  else if includes "conflicts with an existing action" message
  then t "An administrator action already exists for this reservation version."
  else if includes "not found" message
  then t "Billing reservation not found."
  else if includes "invalid billing reservation admin resolution" message
  then t "Invalid billing reservation resolution."
  else if includes "insufficient" message || includes "quota update exceeds" message
          || includes "billing account not found" message || includes "conflict" message
  then t "The requested settlement cannot be applied to the current balance state."
  else t "Failed to resolve billing reservation".

Definition getSubscriptionPlanAdminErrorMessage (error : jsval) : jstr :=
  match tree_error_code error with
  | None => t "The subscription plan could not be saved. Try again."
  | Some code =>
    if code === "subscription_plan_invalid"
    then t "The subscription plan settings are invalid. Review the plan details and try again."
    else if code === "subscription_plan_save_failed"
    then t "The subscription plan could not be saved. No changes were applied."
    else if code === "payment_temporarily_unavailable"
    then t "Subscription plan changes are temporarily unavailable. Try again later."
    else t "The subscription plan could not be saved. Try again."
  end.
End messages.

(** ** Lemmas *)

(** *** Lengths in bytes *)

(** The byte length is the length of the UTF-8 encoding of the text. *)
Lemma utf8Length_encoding s c s' :
  Forall (fun u => u < 65536)%N s → next_code_point s = Some (c, s') →
  utf8Length s = length (utf8 c) + utf8Length s'.
Proof.
  destruct s as [|x s]; [done|]. intros [Hx _]%Forall_cons. cbn [next_code_point utf8Length]. unfold utf8.
  destruct (in_range 0xD800 0xDBFF x) eqn:Eh.
  - unfold in_range in Eh. bool_hyps. destruct s as [|d s]; [done|].
    destruct (in_range 0xDC00 0xDFFF d) eqn:El; [|done]. intros [= <- <-].
    rewrite (proj2 (N.ltb_ge x 128)), (proj2 (N.ltb_ge x 2048)) by lia.
    by rewrite !(proj2 (N.ltb_ge (_ + _) _)) by lia.
  - destruct (in_range 0xDC00 0xDFFF x) eqn:El; [done|]. intros [= <- <-].
    destruct (x <? 128)%N; [done|]. destruct (x <? 2048)%N; [done|].
    by rewrite (proj2 (N.ltb_lt x 65536)).
Qed.

(** Text of three-byte units, as most Chinese text is. *)
Lemma utf8Length_replicate n : utf8Length (replicate n 0x4E2D%N) = 3 * n.
Proof. induction n as [|n IH]; [done|]. simpl. rewrite IH. lia. Qed.

(** *** Numerals *)

Lemma re_digits_spec s : test re_digits s = true ↔ forallb is_digit s = true ∧ s ≠ [].
Proof.
  unfold re_digits. rewrite test_class by done. rewrite andb_true_r, andb_true_iff.
  destruct s; simpl; naive_solver.
Qed.

(** The value of a decimal numeral, as an integer. *)
Definition numeral (s : jstr) (n : Z) : Prop :=
  forallb is_digit s = true ∧ s ≠ [] ∧ Z.of_N (parse_digits 10 s) = n.

Lemma numeral_nonneg s n : numeral s n → (0 ≤ n)%Z.
Proof. intros (_ & _ & <-). lia. Qed.

Lemma safe_range n : (0 ≤ n)%Z → isSafeInteger (num_of_Z n) = true ↔ (n ≤ 9007199254740991)%Z.
Proof.
  intros Hn. destruct (decide (n < 2 ^ 53)%Z) as [Hs|Hs].
  - split; [intros; lia|]. intros _. destruct (decide (n = 0)%Z) as [->|]; [done|].
    apply num_of_Z_safe. lia.
  - rewrite num_of_Z_large by lia. split; [done|lia].
Qed.

Lemma parsePositive_spec value x :
  parsePositiveSafeInteger value = Some x ↔
  ∃ n, numeral (trim value) n ∧ (0 < n ≤ 9007199254740991)%Z ∧ x = num_of_Z n.
Proof.
  unfold parsePositiveSafeInteger, number_of_digits, numeral.
  set (n := Z.of_N (parse_digits 10 (trim value))). assert (Hn : (0 ≤ n)%Z) by lia.
  pose proof (re_digits_spec (trim value)) as Hre. pose proof (safe_range n Hn) as Hsafe.
  destruct (test re_digits (trim value)); cbn [negb]; [|naive_solver].
  destruct (isSafeInteger (num_of_Z n)) eqn:Es; cbn [negb andb orb].
  - assert (n ≤ 9007199254740991)%Z by tauto. rewrite num_of_Z_ltb by lia.
    destruct (Z.ltb_spec 0 n); split.
    + intros [= <-]. exists n. naive_solver lia.
    + intros (m & (_ & _ & <-) & _ & ->). done.
    + done.
    + intros (m & (_ & _ & <-) & ? & _). lia.
  - split; [done|]. intros (m & (_ & _ & <-) & ? & _). assert (n ≤ 9007199254740991)%Z by lia. naive_solver.
Qed.

Lemma parseQuota_spec value x :
  parseLegacyTopUpCreditQuota value = Some x ↔
  ∃ n, numeral (trim value) n ∧ (0 < n ≤ 2147483647)%Z ∧ x = num_of_Z n.
Proof.
  unfold parseLegacyTopUpCreditQuota. pose proof (parsePositive_spec value) as Hp.
  destruct (parsePositiveSafeInteger value) as [y|].
  - destruct (proj1 (Hp y) eq_refl) as (n & Hnum & Hn & ->).
    unfold LEGACY_TOPUP_CREDIT_QUOTA_MAX. rewrite num_of_Z_leb_nonneg by lia.
    destruct (Z.leb_spec n 2147483647); split.
    + intros [= <-]. exists n. split; [done|]. split; [lia|done].
    + intros (m & (_ & _ & <-) & _ & ->). destruct Hnum as (_ & _ & <-). done.
    + done.
    + intros (m & (_ & _ & <-) & ? & _). destruct Hnum as (_ & _ & <-). lia.
  - split; [done|]. intros (n & Hnum & Hn & ->). exfalso.
    assert (None = Some (num_of_Z n)) by (apply Hp; exists n; repeat split; [apply Hnum..|lia|lia]). done.
Qed.

Lemma parseActual_spec value x :
  parseBillingActualQuota value = Some x ↔
  ∃ n, numeral (trim value) n ∧ (0 ≤ n ≤ 2147483647)%Z ∧ x = num_of_Z n.
Proof.
  unfold parseBillingActualQuota, number_of_digits, numeral, MAX_BILLING_QUOTA.
  set (n := Z.of_N (parse_digits 10 (trim value))). assert (Hn : (0 ≤ n)%Z) by lia.
  pose proof (re_digits_spec (trim value)) as Hre. pose proof (safe_range n Hn) as Hsafe.
  destruct (test re_digits (trim value)); cbn [negb]; [|naive_solver].
  destruct (isSafeInteger (num_of_Z n)) eqn:Es; cbn [negb andb orb].
  - assert (n ≤ 9007199254740991)%Z by tauto. rewrite !num_of_Z_ltb by lia.
    rewrite (proj2 (Z.ltb_ge n 0)) by lia. cbn [orb]. destruct (Z.ltb_spec 2147483647 n); split.
    + done.
    + intros (m & (_ & _ & <-) & ? & _). lia.
    + intros [= <-]. exists n. naive_solver lia.
    + intros (m & (_ & _ & <-) & _ & ->). done.
  - split; [done|]. intros (m & (_ & _ & <-) & ? & _). assert (n ≤ 9007199254740991)%Z by lia. naive_solver.
Qed.

(** *** Texts of a request *)

Definition reason_ok (r : jstr) : Prop := trimmed r ∧ 8 ≤ utf8Length r ≤ 512.
Definition reference_ok (r : jstr) : Prop :=
  trimmed r ∧ 0 < utf8Length r ≤ 255 ∧ Forall (fun c => is_control c = false) r.

Lemma reason_valid_spec reason : isPaymentAuditReasonValid reason = true ↔ reason_ok (trim reason).
Proof.
  unfold isPaymentAuditReasonValid, reason_ok, PAYMENT_AUDIT_REASON_MIN_BYTES, PAYMENT_AUDIT_REASON_MAX_BYTES.
  rewrite andb_true_iff, !Nat.leb_le. pose proof (trim_trimmed reason). tauto.
Qed.

Lemma no_control_iff s : negb (existsb is_control s) = true ↔ Forall (fun c => is_control c = false) s.
Proof.
  induction s as [|c s IH]; [by split|]. simpl. rewrite negb_orb, andb_true_iff, Forall_cons, IH, negb_true_iff.
  done.
Qed.

Lemma reference_valid_spec reference :
  isPaymentProviderReferenceValid reference = true ↔ reference_ok (trim reference).
Proof.
  unfold isPaymentProviderReferenceValid, reference_ok, PAYMENT_PROVIDER_REFERENCE_MAX_BYTES.
  rewrite !andb_true_iff, Nat.ltb_lt, Nat.leb_le, no_control_iff. pose proof (trim_trimmed reference). tauto.
Qed.

(** ** Properties *)

(** The numeric fields are read exactly or refused.  A text is read as a
    positive safe integer exactly when, trimmed, it is a decimal numeral between
    1 and 2^53 - 1, and the number is its value, without rounding; a credit
    quota lies between 1 and 2^31 - 1, a settled quota between 0 and 2^31 - 1. *)
Theorem quota_fields_exact value x :
  (parsePositiveSafeInteger value = Some x ↔
   ∃ n, numeral (trim value) n ∧ (0 < n ≤ 9007199254740991)%Z ∧ x = num_of_Z n) ∧
  (parseLegacyTopUpCreditQuota value = Some x ↔
   ∃ n, numeral (trim value) n ∧ (0 < n ≤ 2147483647)%Z ∧ x = num_of_Z n) ∧
  (parseBillingActualQuota value = Some x ↔
   ∃ n, numeral (trim value) n ∧ (0 ≤ n ≤ 2147483647)%Z ∧ x = num_of_Z n).
Proof. split; [apply parsePositive_spec|]. split; [apply parseQuota_spec|apply parseActual_spec]. Qed.

(** What the server asks of a top-up resolution. *)
Definition topup_request_ok (ev : PaymentEvent) (form : LegacyTopUpResolutionFormValues)
    (req : ResolveLegacyEpayTopUpRequest) : Prop :=
  rt_event_id req = pe_id ev ∧ rt_expected_event_attempts req = attempts ev ∧
  rt_reason req = trim (f_reason form) ∧ reason_ok (rt_reason req) ∧
  rt_resolution req = f_resolution form ∧
  (rt_resolution req = "fulfill" ∧ rt_provider_refund_reference req = [] ∧
   (∃ n, numeral (trim (f_creditQuota form)) n ∧ (0 < n ≤ 2147483647)%Z ∧ rt_credit_quota req = num_of_Z n) ∨
   rt_resolution req = "external_refund" ∧ rt_credit_quota req = num_of_Z 0 ∧
   rt_provider_refund_reference req = trim (f_providerRefundReference form) ∧
   reference_ok (rt_provider_refund_reference req)).

Lemma topup_request_spec ev form req :
  isPaymentEventActionAvailable ev resolve_legacy_topup = true →
  buildLegacyTopUpResolutionRequest (Some ev) form = Some req ↔ topup_request_ok ev form req.
Proof.
  intros Hav. unfold buildLegacyTopUpResolutionRequest, topup_request_ok. rewrite Hav. cbn [negb orb].
  pose proof (reason_valid_spec (f_reason form)) as Hr.
  destruct (isPaymentAuditReasonValid (f_reason form)); cbn [negb].
  2:{ split; [done|]. intros (_ & _ & E & Hok & _). rewrite E in Hok. by apply Hr in Hok. }
  pose proof (proj1 Hr eq_refl) as Hreason. destruct (jeqb_spec (f_resolution form) "fulfill") as [E|E].
  - pose proof (parseQuota_spec (f_creditQuota form)) as Hq.
    destruct (parseLegacyTopUpCreditQuota (f_creditQuota form)) as [q|]; split.
    + intros [= <-]. destruct (proj1 (Hq q) eq_refl) as (n & Hn). cbn. rewrite E.
      repeat (split; [done|]). left. split; [done|]. split; [done|]. by exists n.
    + intros (E1 & E2 & E3 & _ & E4 & Hcase). destruct req; cbn in *; subst.
      destruct Hcase as [(_ & -> & (m & Hm))|(E' & _)]; [|congruence].
      assert (Some q = Some (num_of_Z m)) as [= ->]
        by (apply Hq; exists m; destruct Hm as (? & ? & _); auto). by destruct Hm as (_ & _ & ->).
    + done.
    + intros (_ & _ & _ & _ & E4 & [(_ & _ & (m & Hm & Hmr & _))|(E' & _)]); [|congruence].
      assert (None = Some (num_of_Z m)) by (apply Hq; exists m; auto). done.
  - pose proof (reference_valid_spec (f_providerRefundReference form)) as Href.
    destruct (jeqb_spec (f_resolution form) "external_refund") as [E'|E']; cbn [andb].
    2:{ split; [done|]. intros (_ & _ & _ & _ & E4 & [(? & _)|(? & _)]); congruence. }
    destruct (isPaymentProviderReferenceValid (f_providerRefundReference form)); split.
    + intros [= <-]. cbn. rewrite E'. repeat (split; [done|]). right. repeat (split; [done|]). by apply Href.
    + intros (E1 & E2 & E3 & _ & E4 & Hcase). destruct req; cbn in *; subst.
      destruct Hcase as [(? & _)|(_ & -> & -> & _)]; [congruence|done].
    + done.
    + intros (_ & _ & _ & _ & E4 & [(? & _)|(_ & _ & Er & Hok)]); [congruence|].
      rewrite Er in Hok. by apply Href in Hok.
Qed.

(** A request that resolves a legacy payment is built exactly when it is one
    the server accepts: the event offers the action, the request carries the
    event's id and attempt count, a trimmed reason of 8 to 512 bytes, and either
    the exact credit quota and no reference, or a reference of 1 to 255 bytes
    without control characters and no quota. *)
Theorem legacy_requests_exact event form reference reason :
  (∀ req, buildLegacyTopUpResolutionRequest event form = Some req ↔
    ∃ ev, event = Some ev ∧ isPaymentEventActionAvailable ev resolve_legacy_topup = true ∧
      topup_request_ok ev form req) ∧
  (∀ req, buildLegacySubscriptionResolutionRequest event reference reason = Some req ↔
    ∃ ev, event = Some ev ∧ isPaymentEventActionAvailable ev resolve_legacy_subscription = true ∧
      reference_ok (trim reference) ∧ reason_ok (trim reason) ∧
      req = MkSubscriptionRequest (pe_id ev) (attempts ev) "external_refund" (trim reference) (trim reason)).
Proof.
  split; intros req.
  - destruct event as [ev|]; [|by split; [|intros (? & ? & _)]].
    destruct (isPaymentEventActionAvailable ev resolve_legacy_topup) eqn:Hav.
    + rewrite topup_request_spec by done. split; [by exists ev|]. by intros (ev' & [= <-] & _ & ?).
    + unfold buildLegacyTopUpResolutionRequest. rewrite Hav. split; [done|].
      intros (ev' & [= <-] & ? & _). congruence.
  - unfold buildLegacySubscriptionResolutionRequest. destruct event as [ev|]; [|naive_solver].
    setoid_rewrite <- reason_valid_spec; setoid_rewrite <- reference_valid_spec.
    destruct (isPaymentEventActionAvailable ev resolve_legacy_subscription) eqn:Hav,
      (isPaymentProviderReferenceValid reference), (isPaymentAuditReasonValid reason); cbn [negb orb];
      (split; [try done|intros (ev' & [= <-] & ? & ? & ? & ->); congruence]).
    intros [= <-]. by exists ev.
Qed.

(** On whole amounts, a refund confirmed outside the system is accepted
    exactly when it raises the refunded amount, stays within what was expected,
    no amount is disputed, and, for a subscription, it refunds everything. *)
Theorem external_refund_rule order amount refunded expected disputed :
  (0 ≤ amount < 2 ^ 53)%Z → (0 ≤ refunded < 2 ^ 53)%Z → (0 ≤ expected < 2 ^ 53)%Z →
  (0 ≤ disputed < 2 ^ 53)%Z →
  refunded_amount_minor order = num_of_Z refunded → expected_amount_minor order = num_of_Z expected →
  disputed_amount_minor order = num_of_Z disputed →
  isExternalRefundAmountValid order (Some (num_of_Z amount)) = true ↔
  (refunded < amount ≤ expected)%Z ∧ disputed = 0%Z ∧
  (order_kind order = "subscription" → amount = expected).
Proof.
  intros Ha Hr He Hd Er Ee Ed. unfold isExternalRefundAmountValid. rewrite Er, Ee, Ed.
  rewrite (proj2 (safe_range amount ltac:(lia))) by lia.
  rewrite num_of_Z_leb_nonneg, num_of_Z_ltb, !num_of_Z_eqb by lia. cbn [negb orb].
  destruct (Z.leb_spec amount refunded); [split; [done|lia]|].
  destruct (Z.ltb_spec expected amount); [split; [done|lia]|].
  destruct (Z.eqb_spec disputed 0); [|split; [done|lia]]. cbn [negb orb].
  rewrite orb_true_iff, negb_true_iff, jeqb_false, Z.eqb_eq.
  destruct (decide (order_kind order = "subscription")); naive_solver lia.
Qed.

Definition demo_order (kind : jstr) : PaymentOrder :=
  let z := num_of_Z 0 in
  MkOrder z "t1" z kind "stripe" "card" "r1" None None (num_of_Z 1000) (num_of_Z 1000) "USD" z z z
    None None "paid" None false None None None None None None None z z (num_of_Z 200) z z z z z z.

Lemma external_refund_rule_witness :
  isExternalRefundAmountValid (demo_order "subscription") (Some (num_of_Z 1000)) = true ∧
  isExternalRefundAmountValid (demo_order "subscription") (Some (num_of_Z 500)) = false.
Proof.
  split.
  - apply (external_refund_rule (demo_order "subscription") 1000 200 1000 0); try lia; try reflexivity.
  - apply not_true_iff_false. rewrite (external_refund_rule (demo_order "subscription") 500 200 1000 0);
      try lia; try reflexivity. intros (_ & _ & H). by specialize (H eq_refl).
Defined.

(** The section of the settings that owns a provider's credentials. *)
Definition provider_tab (provider : RevocablePaymentProvider) : PaymentSettingsTab :=
  match provider with epay => t_epay | stripe => t_stripe | xorpay => t_xorpay end.

(** The settings that make up a provider's credential: its identifier, where it has one,
    and its secret. *)
Definition identifier_key (provider : RevocablePaymentProvider) : option jstr :=
  match provider with epay => Some "EpayId" | xorpay => Some "XorPayAid" | stripe => None end.
Definition secret_key (provider : RevocablePaymentProvider) : jstr :=
  match provider with epay => "EpayKey" | xorpay => "XorPayAppSecret" | stripe => "StripeWebhookSecret" end.

(** C28: an emergency revocation never sends half a credential.  A replacement is complete
    exactly when the secret is given and, for the two gateways that have one, the
    identifier; then the identifier's setting and the secret's setting are sent, each with the trimmed
    non-empty input and each in that provider's own section, and nothing else; a replacement that is not
    complete sends nothing.  Replacing is chosen
    exactly for a complete replacement; an input that changes the identifier
    without a secret, or gives a secret without an identifier, stops the
    revocation; without input, Stripe's webhook secret is disabled and the others revoke the previous
    credential if there is one. *)
Theorem revocation_never_partial provider input previousActive :
  let r := buildEmergencyCredentialReplacement provider input in
  let mode := resolveEmergencyCredentialRevocationMode provider (r_state r) previousActive in
  let given f := trim (default [] (f input)) in
  (r_state r = complete ↔ given secret ≠ [] ∧ (identifier_key provider ≠ None → given identifier ≠ [])) ∧
  (r_state r = complete →
   r_options r = match identifier_key provider with Some k => [(k, given identifier)] | None => [] end
                 ++ [(secret_key provider, given secret)]) ∧
  (r_state r ≠ complete → r_options r = []) ∧
  (∀ k v, (k, v) ∈ r_options r →
     trimmed v ∧ v ≠ [] ∧ getPaymentSettingsTabForOptionKey k = Some (provider_tab provider)) ∧
  (mode = Some replace ↔ r_state r = complete) ∧
  (mode = Some revoke_previous → provider ≠ stripe ∧ previousActive = true ∧ given secret = []) ∧
  (mode = Some stripe_disable → provider = stripe ∧ given secret = []) ∧
  mode ≠ Some stripe_disable_all ∧
  (provider ≠ stripe →
   given secret = [] ∧ given identifier ≠ [] ∧ given identifier ≠ given savedIdentifier ∨
   given secret ≠ [] ∧ given identifier = [] → mode = None).
Proof.
  cbv zeta. unfold buildEmergencyCredentialReplacement, resolveEmergencyCredentialRevocationMode.
  pose proof (trim_trimmed (default [] (secret input))) as Ts.
  pose proof (trim_trimmed (default [] (identifier input))) as Ti.
  set (s := trim (default [] (secret input))) in *. set (i := trim (default [] (identifier input))) in *.
  set (o := trim (default [] (savedIdentifier input))).
  destruct provider; cbn [provider_tab identifier_key secret_key];
    destruct (truthy s) eqn:Es, (truthy i) eqn:Ei, (jeqb_spec i o) as [Eo|Eo]; bool_hyps; cbn;
    repeat match goal with |- _ ∧ _ => split end; try done; try (destruct previousActive; naive_solver);
    intros k v; rewrite ?elem_of_cons, ?elem_of_nil;
    intros Hin; destruct_or? Hin; simplify_eq; done.
Qed.

Lemma tab_of_key tab keys k :
  PAYMENT_OPTION_KEYS_BY_TAB tab = Some keys → k ∈ keys → getPaymentSettingsTabForOptionKey k = Some tab.
Proof.
  intros Hk Hin.
  assert (Hall : forallb (fun k => bool_decide (getPaymentSettingsTabForOptionKey k = Some tab))
    (default [] (PAYMENT_OPTION_KEYS_BY_TAB tab)) = true) by (clear; destruct tab; by vm_compute).
  rewrite Hk in Hall. apply (bool_decide_eq_true_1 _), (proj1 (forallb_forall _ _) Hall), list_elem_of_In, Hin.
Qed.

Lemma selected_update section updates u :
  u ∈ selectPaymentSettingUpdates section updates →
  u ∈ updates ∧ getPaymentSettingsTabForOptionKey (key u) = Some section.
Proof.
  unfold selectPaymentSettingUpdates. destruct (PAYMENT_OPTION_KEYS_BY_TAB section) as [keys|] eqn:E;
    [|by intros ?%elem_of_nil].
  rewrite list_elem_of_In, filter_In, <- list_elem_of_In. intros [Hu Hk]. split; [done|].
  apply bool_decide_eq_true in Hk. by eapply tab_of_key.
Qed.

(** Saving a section of the payment settings touches that section only.  The
    updates sent are updates of the form, in their order, each one belongs to
    the section being saved, and no update can be sent by two sections. *)
Theorem settings_sections_disjoint section other updates u :
  u ∈ selectPaymentSettingUpdates section updates →
  u ∈ updates ∧ selectPaymentSettingUpdates section updates `sublist_of` updates ∧
  getPaymentSettingsTabForOptionKey (key u) = Some section ∧
  (u ∈ selectPaymentSettingUpdates other updates → other = section).
Proof.
  intros Hu. destruct (selected_update _ _ _ Hu) as [Hin Htab]. split; [done|]. split; [|split; [done|]].
  - unfold selectPaymentSettingUpdates. destruct (PAYMENT_OPTION_KEYS_BY_TAB section); [|apply sublist_nil_l].
    generalize (fun update => has (key update) l). intros p. clear.
    induction updates as [|x l IH]; [done|]. simpl. destruct (p x); by constructor.
  - intros Ho. apply selected_update in Ho as [_ Ho]. congruence.
Qed.

Lemma settings_sections_disjoint_witness :
  let u := MkUpdate "EpayKey" (JStr "k") in
  u ∈ selectPaymentSettingUpdates t_epay [MkUpdate "Price" (JStr "1"); u] ∧
  u ∉ selectPaymentSettingUpdates t_general [MkUpdate "Price" (JStr "1"); u].
Proof.
  set (u := MkUpdate "EpayKey" (JStr "k")).
  assert (Hu : u ∈ selectPaymentSettingUpdates t_epay [MkUpdate "Price" (JStr "1"); u]) by (vm_compute; left).
  split; [exact Hu|]. intros Hg.
  destruct (settings_sections_disjoint t_epay t_general _ u Hu) as (_ & _ & _ & H). by specialize (H Hg).
Defined.

(** *** Payment methods *)

Section collections.
Context `{UnicodeCase}.

(** The provider and the type a method is recognised by. *)
Definition method_provider (m : MethodKey) : jstr := toLowerCase (trim (jor (mk_provider m) "epay")).
Definition method_type (m : MethodKey) : jstr :=
  if method_provider m === "epay" then trim (mk_type m) else toLowerCase (trim (mk_type m)).

Lemma nul_separated (a b c d : jstr) :
  (0%N ∉ a) → (0%N ∉ c) → a ++ [0%N] ++ b = c ++ [0%N] ++ d → a = c ∧ b = d.
Proof.
  revert c. induction a as [|x a IH]; intros [|y c] Ha Hc E; simpl in E; simplify_eq.
  - done.
  - by apply not_elem_of_cons in Hc as [? _].
  - by apply not_elem_of_cons in Ha as [? _].
  - apply not_elem_of_cons in Ha as [_ Ha]. apply not_elem_of_cons in Hc as [_ Hc].
    destruct (IH c Ha Hc) as [-> ->]; [|done]. done.
Qed.

Lemma duplicate_go_spec seen methods :
  duplicate_go seen methods = None ↔
  NoDup (map getPaymentMethodIdentity methods) ∧
  ∀ m, m ∈ methods → getPaymentMethodIdentity m ∉ seen.
Proof.
  revert seen. induction methods as [|m ms IH]; intros seen; simpl.
  { split; [split; [constructor|by intros ? ?%elem_of_nil]|done]. }
  rewrite NoDup_cons. unfold has. destruct (bool_decide _) eqn:E.
  - apply bool_decide_eq_true in E. split; [done|]. intros [_ Hs]. exfalso. apply (Hs m); [left|done].
  - apply bool_decide_eq_false in E. rewrite IH. split.
    + intros [Hn Hs]. split; [split; [|done]|].
      * intros (m' & E' & Hm')%list_elem_of_fmap. apply (Hs m' Hm'). rewrite E'. left.
      * intros m' [->|Hm']%elem_of_cons; [done|]. specialize (Hs m' Hm'). set_solver.
    + intros [[Hm Hn] Hs]. split; [done|]. intros m' Hm' [E'|Hin]%elem_of_cons.
      * apply Hm, list_elem_of_fmap. eauto.
      * apply (Hs m'); [by right|done].
Qed.

(** A collection of payment methods is accepted exactly when it has at most
    27 methods and no two of them agree on provider and type, where providers
    are compared without case and surrounding space, and types without case
    except for the epay gateway.  (No provider contains a NUL character.) *)
Theorem method_collection_spec methods :
  Forall (fun m => 0%N ∉ method_provider m) methods →
  validatePaymentMethodCollection methods = None ↔
  length methods ≤ 27 ∧ NoDup (map (fun m => (method_provider m, method_type m)) methods).
Proof.
  intros Hnul. unfold validatePaymentMethodCollection, MAX_CONFIGURED_PAYMENT_METHODS.
  assert (Hinj : ∀ m m', m ∈ methods → m' ∈ methods →
    getPaymentMethodIdentity m = getPaymentMethodIdentity m' ↔
    (method_provider m, method_type m) = (method_provider m', method_type m')).
  { intros m m' Hm Hm'. change (getPaymentMethodIdentity m) with (method_provider m ++ [0%N] ++ method_type m).
    change (getPaymentMethodIdentity m') with (method_provider m' ++ [0%N] ++ method_type m').
    split; [|by intros [= -> ->]]. intros E. rewrite Forall_forall in Hnul.
    by destruct (nul_separated _ _ _ _ (Hnul m Hm) (Hnul m' Hm') E) as [-> ->]. }
  assert (Hnd : NoDup (map getPaymentMethodIdentity methods) ↔
    NoDup (map (fun m => (method_provider m, method_type m)) methods)).
  { clear Hnul. induction methods as [|m ms IH]; [split; constructor|]. simpl. rewrite !NoDup_cons, IH.
    2:{ intros; apply Hinj; by right. }
    assert (getPaymentMethodIdentity m ∈ map getPaymentMethodIdentity ms ↔
      (method_provider m, method_type m) ∈ map (fun m => (method_provider m, method_type m)) ms) as ->; [|done].
    rewrite !list_elem_of_fmap. split; intros (m' & E & Hm'); exists m'; (split; [|done]);
      apply Hinj; first [left|by right|done]. }
  destruct (Nat.ltb_spec 27 (length methods)); [split; [done|lia]|].
  rewrite duplicate_go_spec, Hnd. split; [intros [? _]; auto|]. intros [_ ?]. split; [done|].
  by intros ? _ ?%elem_of_nil.
Qed.
End collections.

Lemma method_collection_spec_witness :
  @validatePaymentMethodCollection ascii_case [MkMethodKey "epay" "alipay"; MkMethodKey " Epay" "ALIPAY"] = None ∧
  @validatePaymentMethodCollection ascii_case [MkMethodKey "stripe" "stripe"; MkMethodKey "Stripe" "STRIPE"] ≠ None.
Proof.
  split.
  - apply (@method_collection_spec ascii_case).
    + repeat constructor; apply (bool_decide_eq_true_1 _); by vm_compute.
    + split; [simpl; lia|]. apply (bool_decide_eq_true_1 _). by vm_compute.
  - rewrite (@method_collection_spec ascii_case).
    + intros [_ Hn]. apply (bool_decide_eq_true_2 _) in Hn. by vm_compute in Hn.
    + repeat constructor; apply (bool_decide_eq_true_1 _); by vm_compute.
Defined.

(** *** Normalized methods *)

Section normalized.
Context `{UnicodeCase}.

Lemma map_get_set_or_delete k v o j :
  map_get j (set_or_delete k v o) = if decide (j = k) then v else map_get j o.
Proof. destruct v; [apply map_get_obj_set|apply map_get_delete]. Qed.

Lemma set_or_delete_same k v o : array_index k = None → map_get k o = v → set_or_delete k v o = o.
Proof. destruct v; [apply obj_set_same|intros _; apply delete_absent]. Qed.

Lemma provider_fixed p : p ∈ providerValues → toLowerCase (trim p) = p.
Proof.
  intros Hp. assert (trim p = p ∧ forallb is_ascii p = true ∧ map ascii_lower p = p) as (-> & Ha & Hl).
  { unfold providerValues in Hp. repeat (apply elem_of_cons in Hp as [->|Hp]; [by vm_compute|]).
    by apply elem_of_nil in Hp. }
  by rewrite toLowerCase_ascii.
Qed.

Lemma configuredProvider_known item type : configuredProvider item type ∈ providerValues.
Proof.
  unfold configuredProvider, inferProvider.
  repeat case_match; try by apply (bool_decide_eq_true_1 _); vm_compute.
Qed.

(** The own properties of a normalized method. *)
Definition normalized_get (record : PaymentMethodData) (name type j : jstr) : option jsval :=
  if decide (j = ("name" : jstr)) then Some (JStr name)
  else if decide (j = ("type" : jstr)) then Some (JStr type)
  else if decide (j = ("provider" : jstr)) then Some (JStr (configuredProvider (JObj record) type))
  else if decide (j = ("icon" : jstr)) then if_string (get "icon" (JObj record))
  else if decide (j = ("color" : jstr)) then if_string (get "color" (JObj record))
  else if decide (j = ("min_topup" : jstr)) then amount_text (get "min_topup" (JObj record))
  else map_get j record.

Lemma normalize_inv item m :
  normalizePaymentMethod item = Some m →
  ∃ record name type, item = JObj record ∧ get "name" item = JStr name ∧ get "type" item = JStr type ∧
    ∀ j, map_get j m = normalized_get record name type j.
Proof.
  destruct item as [| | | | | |record]; try done. unfold normalizePaymentMethod.
  destruct (get "name" (JObj record)) as [| | | |name| |] eqn:En; try done.
  destruct (get "type" (JObj record)) as [| | | |type| |] eqn:Et; try done.
  cbv zeta. intros [= <-]. exists record, name, type. split; [done|]. split; [done|]. split; [done|].
  intros j. rewrite !map_get_set_or_delete. unfold spread, normalized_get. cbn [foldl fst snd].
  rewrite !map_get_obj_set. repeat case_decide; subst; done.
Qed.

Lemma normalize_again record name type m :
  normalizePaymentMethod (JObj record) = Some m →
  (∀ j, map_get j m = normalized_get record name type j) → normalizePaymentMethod (JObj m) = Some m.
Proof.
  intros _ Hm.
  assert (Hg : ∀ j, get j (JObj m) = default JUndefined (normalized_get record name type j))
    by (intros j; cbn [get]; by rewrite Hm).
  unfold normalizePaymentMethod. rewrite (Hg "name"), (Hg "type"). cbn [normalized_get].
  change (default JUndefined (normalized_get record name type "name")) with (JStr name).
  change (default JUndefined (normalized_get record name type "type")) with (JStr type).
  cbn iota. cbv zeta. f_equal.
  assert (Hp : configuredProvider (JObj m) type = configuredProvider (JObj record) type).
  { unfold configuredProvider at 1. rewrite (Hg "provider").
    change (default JUndefined (normalized_get record name type "provider"))
      with (JStr (configuredProvider (JObj record) type)). cbn [as_string].
    pose proof (configuredProvider_known (JObj record) type) as Hk.
    rewrite (provider_fixed _ Hk). by rewrite (proj2 (has_true _ _) Hk). }
  unfold spread. cbn [foldl fst snd]. rewrite Hp.
  rewrite (obj_set_same "name"), (obj_set_same "type"), (obj_set_same "provider") by (done || apply Hm).
  rewrite (set_or_delete_same "icon"), (set_or_delete_same "color"), (set_or_delete_same "min_topup");
    try done; rewrite Hg, Hm; unfold normalized_get; cbn;
    match goal with |- context [map_get ?k record] => by destruct (map_get k record) as [[]|] end.
Qed.

(** Reading a stored payment method yields a method of a known provider with the
    name and the type of the item and a minimum amount that is a text; every other
    property is kept, except an icon or a color that is not a text; and reading the
    result again changes nothing. *)
Theorem normalize_method_stable item m :
  normalizePaymentMethod item = Some m →
  normalizePaymentMethod (JObj m) = Some m ∧
  (∃ p, get "provider" (JObj m) = JStr p ∧ p ∈ providerValues) ∧
  (∀ k, k ∈ ["icon"; "color"; "min_topup"]%js → get k (JObj m) = JUndefined ∨ ∃ s, get k (JObj m) = JStr s) ∧
  ∀ k, k ∉ ["provider"; "icon"; "color"; "min_topup"]%js → get k (JObj m) = get k item.
Proof.
  intros Hn. destruct (normalize_inv item m Hn) as (record & name & type & -> & En & Et & Hm).
  split; [by eapply normalize_again|]. split.
  { eexists. cbn [get]. rewrite Hm. split; [done|]. apply configuredProvider_known. }
  split.
  - intros k Hk. cbn [get]. rewrite Hm.
    apply elem_of_cons in Hk as [->|[->|[->|[]%elem_of_nil]%elem_of_cons]%elem_of_cons].
    + change (normalized_get _ _ _ _) with (if_string (get "icon" (JObj record))).
      destruct (get "icon" _); cbn; eauto.
    + change (normalized_get _ _ _ _) with (if_string (get "color" (JObj record))).
      destruct (get "color" _); cbn; eauto.
    + change (normalized_get _ _ _ _) with (amount_text (get "min_topup" (JObj record))).
      destruct (get "min_topup" _); cbn; eauto.
  - intros k Hk. rewrite !not_elem_of_cons in Hk. destruct Hk as (H1 & H2 & H3 & H4 & _).
    cbn [get] in *. rewrite Hm. unfold normalized_get.
    destruct (decide (k = ("name" : jstr))) as [->|]; [by rewrite En|].
    destruct (decide (k = ("type" : jstr))) as [->|]; [by rewrite Et|].
    by rewrite !decide_False.
Qed.

Lemma remove_first_unique (p : jsval → bool) methods :
  length (filter (fun x => p x = true) methods) ≤ 1 →
  remove_first p methods = List.filter (fun x => negb (p x)) methods.
Proof.
  induction methods as [|x ms IH]; [done|]. cbn [remove_first List.filter]. rewrite filter_cons.
  destruct (p x) eqn:E; cbn [negb].
  - rewrite decide_True by done. cbn [length]. intros Hl.
    assert (Hnil : filter (fun x => p x = true) ms = []) by (apply length_zero_iff_nil; lia).
    clear IH Hl. induction ms as [|y ms IH]; [done|]. cbn [List.filter]. rewrite filter_cons in Hnil.
    destruct (p y) eqn:Ey; [by rewrite decide_True in Hnil|]. rewrite decide_False in Hnil by congruence.
    cbn [negb]. f_equal. by apply IH.
  - rewrite decide_False by congruence. intros Hl. f_equal. by apply IH.
Qed.

Definition keys_of (methods : list jsval) : list MethodKey := map method_key (omap normalizePaymentMethod methods).

Lemma keys_of_cons item methods :
  keys_of (item :: methods) =
  match normalizePaymentMethod item with Some m => [method_key m] | None => [] end ++ keys_of methods.
Proof. unfold keys_of. cbn. by destruct (normalizePaymentMethod item). Qed.

Lemma has_identity_key i item methods :
  item ∈ methods → has_identity i item = true → i ∈ map getPaymentMethodIdentity (keys_of methods).
Proof.
  unfold has_identity, keys_of. intros Hin Hi.
  destruct (normalizePaymentMethod item) as [m|] eqn:E; [|done]. apply jeqb_true in Hi as <-.
  apply list_elem_of_fmap. eexists. split; [done|]. apply list_elem_of_fmap. eexists. split; [done|].
  apply list_elem_of_omap. eauto.
Qed.

Lemma identity_once i methods :
  NoDup (map getPaymentMethodIdentity (keys_of methods)) →
  length (filter (fun x => has_identity i x = true) methods) ≤ 1.
Proof.
  induction methods as [|x ms IH]; [simpl; lia|]. rewrite keys_of_cons, filter_cons. intros Hnd.
  destruct (decide (has_identity i x = true)) as [Hi|].
  - destruct (filter _ ms) as [|y l] eqn:Ef; [done|]. exfalso.
    assert (y ∈ filter (fun x => has_identity i x = true) ms) as [Hy' Hy]%list_elem_of_filter
      by (rewrite Ef; left).
    unfold has_identity in Hi. destruct (normalizePaymentMethod x) as [m|]; [|done]. apply jeqb_true in Hi.
    cbn in Hnd. apply NoDup_cons in Hnd as [Hn _]. apply Hn. rewrite Hi. by eapply has_identity_key.
  - apply IH. destruct (normalizePaymentMethod x); [|done]. cbn in Hnd. by apply NoDup_cons in Hnd as [_ ?].
Qed.

Lemma keys_of_sublist (p : jsval → bool) methods : sublist (keys_of (List.filter p methods)) (keys_of methods).
Proof.
  induction methods as [|x ms IH]; [done|]. cbn [List.filter]. rewrite (keys_of_cons x ms).
  destruct (p x); [rewrite keys_of_cons; by apply sublist_app|]. by apply sublist_inserts_l.
Qed.

(** Deleting a payment method from a valid collection removes exactly the
    entries with its identity: every other entry, also one that is not a payment
    method, stays as it was and in its place; no method with the identity is left,
    and the collection stays valid. *)
Theorem remove_method_exact methods target :
  validatePaymentMethodCollection (keys_of methods) = None →
  let rest := removePaymentMethodByIdentity methods target in
  rest = List.filter (fun item => negb (has_identity (getPaymentMethodIdentity target) item)) methods ∧
  (getPaymentMethodIdentity target ∉ map getPaymentMethodIdentity (keys_of rest)) ∧
  validatePaymentMethodCollection (keys_of rest) = None.
Proof.
  intros Hv. cbv zeta. unfold validatePaymentMethodCollection, MAX_CONFIGURED_PAYMENT_METHODS in *.
  destruct (Nat.ltb_spec 27 (length (keys_of methods))) as [|Hlen]; [done|].
  apply duplicate_go_spec in Hv as [Hnd _].
  assert (E : removePaymentMethodByIdentity methods target =
    List.filter (fun item => negb (has_identity (getPaymentMethodIdentity target) item)) methods)
    by (by apply remove_first_unique, identity_once).
  rewrite E. split; [done|]. set (p := fun item => negb _).
  pose proof (keys_of_sublist p methods) as Hsub. split.
  - intros (k & Hk & Hin)%list_elem_of_fmap. unfold keys_of in Hin.
    apply list_elem_of_fmap in Hin as (m & -> & (item & Hitem & Em)%list_elem_of_omap).
    apply list_elem_of_In, filter_In in Hitem as [_ Hp]. unfold p, has_identity in Hp.
    rewrite Em, <- Hk, jeqb_refl in Hp. done.
  - apply sublist_length in Hsub as Hl. rewrite (proj2 (Nat.ltb_ge _ _)) by lia.
    apply duplicate_go_spec. split; [|by intros ? _ ?%elem_of_nil].
    eapply sublist_NoDup; [exact Hnd|]. by apply (fmap_sublist getPaymentMethodIdentity).
Qed.
End normalized.

Definition demo_method : jsval :=
  JObj [("name" : jstr, JStr "Card"); ("type" : jstr, JStr "stripe"); ("provider" : jstr, JStr " Stripe ");
        ("min_topup" : jstr, JNum (num_of_Z 10)); ("icon" : jstr, JNull); ("flow" : jstr, JStr "hosted")].

Lemma normalize_method_stable_witness :
  ∃ m, @normalizePaymentMethod ascii_case demo_method = Some m ∧
    m = [("name" : jstr, JStr "Card"); ("type" : jstr, JStr "stripe"); ("provider" : jstr, JStr "stripe");
         ("min_topup" : jstr, JStr "10"); ("flow" : jstr, JStr "hosted")] ∧
    @normalizePaymentMethod ascii_case (JObj m) = Some m.
Proof.
  destruct (@normalizePaymentMethod ascii_case demo_method) as [m|] eqn:E; [|by vm_compute in E].
  exists m. split; [done|]. split; [vm_compute in E; by injection E as <-|].
  apply (@normalize_method_stable ascii_case _ _ E).
Defined.

Lemma remove_method_exact_witness :
  let other := JObj [("name" : jstr, JStr "Pay"); ("type" : jstr, JStr "alipay")] in
  let rest := @removePaymentMethodByIdentity ascii_case [JNull; demo_method; other] (MkMethodKey "stripe" "STRIPE") in
  rest = [JNull; other] ∧ @validatePaymentMethodCollection ascii_case (@keys_of ascii_case rest) = None.
Proof.
  intros other rest. split; [by vm_compute|].
  apply (@remove_method_exact ascii_case [JNull; demo_method; other] (MkMethodKey "stripe" "STRIPE")).
  by vm_compute.
Defined.

(** ** Divergences *)

(** The emergency revocation counts UTF-16 units where the audit check (and the
    server) counts bytes: between 171 and 512 three-byte characters pass the
    first and fail the second. *)
Theorem revocation_reason_counts_units n :
  171 ≤ n ≤ 512 →
  let reason := replicate n 0x4E2D%N in
  isEmergencyCredentialRevocationReasonValid reason = true ∧ isPaymentAuditReasonValid reason = false.
Proof.
  intros Hn. cbv zeta.
  assert (Htrim : trim (replicate n 0x4E2D%N) = replicate n 0x4E2D%N).
  { apply trim_no_ws. by apply Forall_replicate. }
  unfold isEmergencyCredentialRevocationReasonValid, isPaymentAuditReasonValid,
    normalizeEmergencyCredentialRevocationReason. rewrite Htrim, utf8Length_replicate, length_replicate.
  unfold EMERGENCY_CREDENTIAL_REVOCATION_REASON_MIN_LENGTH, EMERGENCY_CREDENTIAL_REVOCATION_REASON_MAX_LENGTH,
    PAYMENT_AUDIT_REASON_MIN_BYTES, PAYMENT_AUDIT_REASON_MAX_BYTES.
  split; [rewrite andb_true_iff, !Nat.leb_le; lia|]. rewrite andb_false_iff, !Nat.leb_gt. lia.
Qed.

(** The settlement branch for a missing billing account is never taken: its
    message contains the text of the earlier test for a missing reservation. *)
Theorem account_not_found_shadowed `{UnicodeCase} t is_error error :
  let message := toLowerCase (getApiErrorMessage is_error error []) in
  includes "billing account not found" message = true →
  includes "version has changed" message = false →
  includes "must be marked for administrator review" message = false →
  includes "already finalized" message = false →
  includes "conflicts with an existing action" message = false →
  billingReservationResolutionError t is_error error = t "Billing reservation not found.".
Proof.
  cbv zeta. intros (a & r & E)%includes_true H1 H2 H3 H4. unfold billingReservationResolutionError. cbv zeta.
  rewrite H1, H2, H3, H4.
  assert (includes "not found" (toLowerCase (getApiErrorMessage is_error error [])) = true) as ->; [|done].
  apply includes_true. exists (a ++ "billing account "), r. rewrite E, <- app_assoc. done.
Qed.

(** ** Error codes *)

(** *** Where a code is looked for *)

(** The members that may hold the code, the first that does first. *)
Definition CODE_PATHS : list (list jstr) :=
  [["response"; "data"; "code"]; ["response"; "data"; "data"; "code"]; ["data"; "code"]; ["data"; "data"; "code"]; ["code"]].

(** A text that is not blank and no identifier of the transport. *)
Definition code_at (v : jsval) (path : list jstr) (code : jstr) : Prop :=
  ∃ s, foldl (fun v k => get k v) v path = JStr s ∧ trim s ≠ [] ∧ startsWith "ERR_" s = false ∧ code = trim s.

(** The code of an object on its own. *)
Definition own_code (v : jsval) (code : jstr) : Prop :=
  ∃ before_ path after, CODE_PATHS = before_ ++ path :: after ∧ code_at v path code ∧
    ∀ q c, q ∈ before_ → ¬ code_at v q c.
Definition no_code (v : jsval) : Prop := ∀ path c, path ∈ CODE_PATHS → ¬ code_at v path c.

Lemma usable_at v path c : usable_code (foldl (fun v k => get k v) v path) = Some c ↔ code_at v path c.
Proof.
  unfold usable_code, code_at. destruct (foldl _ v path) as [| | | |s| |]; try (split; [done|by intros (? & ? & _)]).
  destruct (truthy (trim s) && negb (startsWith "ERR_" s)) eqn:E.
  - bool_hyps. split; [intros [= <-]; by exists s|]. by intros (? & [= <-] & _ & _ & ->).
  - split; [done|]. intros (? & [= <-] & H1%truthy_true & H2 & _). by rewrite H1, H2 in E.
Qed.

Lemma candidates_paths v : code_candidates v = map (foldl (fun v k => get k v) v) CODE_PATHS.
Proof. done. Qed.

Lemma first_code_spec v :
  match first_code (code_candidates v) with Some c => own_code v c | None => no_code v end.
Proof.
  rewrite candidates_paths. unfold own_code, no_code. generalize CODE_PATHS as ps.
  induction ps as [|p ps IH]; cbn [map first_code]; [by intros p c ?%elem_of_nil|].
  destruct (usable_code _) as [c|] eqn:E.
  - exists [], p, ps. split; [done|]. split; [by apply usable_at|]. by intros q c' ?%elem_of_nil.
  - assert (Hp : ∀ c, ¬ code_at v p c) by (intros c Hc%usable_at; congruence).
    destruct (first_code _) as [c|].
    + destruct IH as (l & q & r & -> & Hq & Hl). exists (p :: l), q, r. split; [done|]. split; [done|].
      intros q' c' [->|Hin]%elem_of_cons; [apply Hp|by apply Hl].
    + intros q c [->|Hin]%elem_of_cons; [apply Hp|by apply IH].
Qed.

Lemma own_code_not_none v c : own_code v c → ¬ no_code v.
Proof. intros (l & p & r & E & Hc & _) Hn. apply (Hn p c); [|done]. rewrite E, elem_of_app, elem_of_cons. auto. Qed.

(** *** The chain of causes *)

Section chain.
Context (object : nat → ErrorObject).

(** The next object of the chain: a cause that is another object. *)
Definition next (r : nat) : option nat :=
  match e_cause (object r) with Object r' => if bool_decide (r' = r) then None else Some r' | Primitive _ => None end.

Fixpoint follow (n : nat) (r : nat) : option nat :=
  match n with O => Some r | S n => next r ≫= follow n end.

(** The [n]-th object of the chain exists and has no code of its own. *)
Definition silent (r n : nat) : Prop := ∃ r', follow n r = Some r' ∧ no_code (e_members (object r')).

(** What is reported of an object: the code of the first object of the chain that has one; nothing
    when the chain ends without. *)
Definition reports (r : nat) (code : option jstr) : Prop :=
  ∃ n r', follow n r = Some r' ∧ (∀ m, m < n → silent r m) ∧
    match code with
    | Some c => own_code (e_members (object r')) c
    | None => no_code (e_members (object r')) ∧ next r' = None
    end.

Lemma code_step f r :
  getPaymentAdminErrorCode (S f) object (Object r) =
  match first_code (code_candidates (e_members (object r))) with
  | Some code => Some (Some code)
  | None => match next r with Some r' => getPaymentAdminErrorCode f object (Object r') | None => Some None end
  end.
Proof.
  cbn [getPaymentAdminErrorCode]. destruct (first_code _); [done|]. unfold next.
  destruct (e_cause (object r)) as [r'|[]]; [|by destruct f|done].
  destruct (decide (r' = r)) as [->|Hne].
  - by rewrite !bool_decide_true.
  - rewrite (bool_decide_false (Object r' = Object r)) by congruence. by rewrite bool_decide_false.
Qed.

Lemma silent_S r r' n : next r = Some r' → silent r (S n) ↔ silent r' n.
Proof. intros Hr. unfold silent. cbn [follow]. by rewrite Hr. Qed.

Lemma code_reports f r code : getPaymentAdminErrorCode f object (Object r) = Some code → reports r code.
Proof.
  revert r. induction f as [|f IH]; intros r; [done|]. rewrite code_step. pose proof (first_code_spec (e_members (object r))) as Hc.
  destruct (first_code _) as [c|]; [intros [= <-]; exists 0, r; split; [done|]; split; [lia|done]|].
  destruct (next r) as [r'|] eqn:En; [|intros [= <-]; exists 0, r; split; [done|]; split; [lia|done]].
  intros (n & r0 & Hf & Hs & H0)%IH. exists (S n), r0. split; [cbn [follow]; by rewrite En|]. split; [|done].
  intros [|m] Hm; [by exists r|]. apply (silent_S r r' m En), Hs. lia.
Qed.

(** The call does not return within [f] calls exactly when the first [f] objects of the chain have no
    code and there is one more. *)
Lemma code_runs f r :
  getPaymentAdminErrorCode f object (Object r) = None ↔ (∀ n, n < f → silent r n) ∧ is_Some (follow f r).
Proof.
  revert r. induction f as [|f IH]; intros r; [split; [|done]; intros _; split; [lia|by eexists]|].
  rewrite code_step. pose proof (first_code_spec (e_members (object r))) as Hc. destruct (first_code _) as [c|].
  { split; [done|]. intros [Hs _]. destruct (Hs 0) as (r' & [= <-] & Hn); [lia|]. by apply own_code_not_none in Hc. }
  cbn [follow]. destruct (next r) as [r'|] eqn:En; [|split; [done|by intros [_ [? ?]]]].
  rewrite IH. cbn [mbind option_bind]. split; intros [Hs Hf]; (split; [|done]).
  - intros [|n] Hn; [by exists r|]. apply (silent_S r r' n En), Hs. lia.
  - intros n Hn. apply (silent_S r r' n En), Hs. lia.
Qed.

Lemma follow_shorter m n r : m ≤ n → is_Some (follow n r) → is_Some (follow m r).
Proof.
  revert n r. induction m as [|m IH]; intros [|n] r Hm Hf; [by eexists..|lia|]. cbn [follow] in *.
  destruct (next r) as [r'|]; [|by destruct Hf]. apply (IH n r'); [lia|done].
Qed.
End chain.

(** C40: the code of an error is that of the first object along its causes that has one.  An object's
    own code is the first of [response.data.code], [response.data.data.code],
    [data.code], [data.data.code] and [code] that is a text, not blank and without the
    prefix of transport errors, trimmed.  The call returns if a code is found or
    the causes end (an object that is its own cause ends them), after as many
    calls as there are objects up to there; and it never returns exactly when the causes go
    on for ever without a code, as they do for two errors without code that are the cause of one another. *)
Theorem admin_error_code_spec object r :
  (∀ fuel code, getPaymentAdminErrorCode fuel object (Object r) = Some code → reports object r code) ∧
  (∀ n, follow object n r = None ∨ (∃ r' c, follow object n r = Some r' ∧ own_code (e_members (object r')) c) →
     ∀ fuel, n < fuel → is_Some (getPaymentAdminErrorCode fuel object (Object r))) ∧
  ((∀ fuel, getPaymentAdminErrorCode fuel object (Object r) = None) ↔ ∀ n, silent object r n) ∧
  (∀ r', r' ≠ r → e_cause (object r) = Object r' → e_cause (object r') = Object r →
     no_code (e_members (object r)) → no_code (e_members (object r')) →
     ∀ fuel, getPaymentAdminErrorCode fuel object (Object r) = None).
Proof.
  split; [intros f code; apply code_reports|]. split; [|split].
  - intros n Hn fuel Hf. destruct (getPaymentAdminErrorCode fuel object (Object r)) eqn:E; [by eexists|exfalso].
    apply code_runs in E as [Hs Hm]. destruct Hn as [Hn|(r' & c & Hr' & Hc)].
    + destruct (follow_shorter object n fuel r ltac:(lia) Hm) as [x Hx]. congruence.
    + destruct (Hs n Hf) as (r'' & Hr'' & Hnone). rewrite Hr' in Hr''. injection Hr'' as <-. by apply own_code_not_none in Hc.
  - split.
    + intros H n. by apply (proj1 (proj1 (code_runs object (S n) r) (H (S n)))); lia.
    + intros H fuel. apply code_runs. split; [auto|]. destruct (H fuel) as (r' & -> & _). by eexists.
  - intros r' Hne Hr Hr' Hn Hn'. assert (H1 : next object r = Some r') by (unfold next; rewrite Hr; by rewrite bool_decide_false).
    assert (H2 : next object r' = Some r) by (unfold next; rewrite Hr'; by rewrite bool_decide_false).
    assert (Hboth : ∀ fuel, getPaymentAdminErrorCode fuel object (Object r) = None ∧ getPaymentAdminErrorCode fuel object (Object r') = None).
    { induction fuel as [|f [IH1 IH2]]; [done|]. rewrite !code_step, H1, H2. pose proof (first_code_spec (e_members (object r))) as C1.
      pose proof (first_code_spec (e_members (object r'))) as C2.
      destruct (first_code (code_candidates (e_members (object r)))); [by apply own_code_not_none in C1|].
      destruct (first_code (code_candidates (e_members (object r')))); [by apply own_code_not_none in C2|done]. }
    intros fuel. apply Hboth.
Qed.

(** Two errors that name one another as cause: the lookup recurses without end. *)
Example mutual_causes_never_return :
  let object i := MkErrorObject (JObj [("message"%js, JStr "failed")]) (Object (1 - i)) in
  ∀ fuel, getPaymentAdminErrorCode fuel object (Object 0) = None.
Proof.
  intros object fuel. cut (∀ r, r = 0 ∨ r = 1 → getPaymentAdminErrorCode fuel object (Object r) = None); [auto|].
  induction fuel as [|f IH]; intros r Hr; [done|]. rewrite code_step. destruct Hr as [-> | ->].
  - exact (IH 1 (or_intror eq_refl)).
  - exact (IH 0 (or_introl eq_refl)).
Qed.

(** *** Trees *)

Lemma nth_cause_depth i v : depth (nth_cause i v) + i ≤ depth v ∨ nth_cause i v = JUndefined.
Proof.
  revert v. induction i as [|i IH]; intros v; cbn [nth_cause]; [left; lia|].
  destruct (IH (get "cause" v)) as [H|H]; [|by right]. destruct (get_depth "cause" v) as [H'|H']; [left; lia|].
  rewrite H'. right. clear. induction i; [done|by cbn].
Qed.

(** A tree has no endless causes: its depth is fuel enough. *)
Lemma tree_code_returns v : ∃ code, getPaymentAdminErrorCode (S (depth v)) (objects_of v) (thrown_value 0 v) = Some code.
Proof.
  assert (H : ∀ f i, depth v < f + i →
    is_Some (getPaymentAdminErrorCode f (objects_of v) (thrown_value i (nth_cause i v)))).
  { induction f as [|f IH]; intros i Hi.
    - destruct (nth_cause_depth i v) as [H|H]; [|rewrite H; by eexists]. unfold thrown_value.
      destruct (is_objectlike (nth_cause i v)) eqn:E; [|by eexists]. lia.
    - unfold thrown_value. destruct (is_objectlike (nth_cause i v)) eqn:E; [|by eexists]. rewrite code_step.
      destruct (first_code _); [by eexists|]. destruct (next (objects_of v) i) as [r'|] eqn:En; [|by eexists].
      unfold next, objects_of in En. cbn [e_cause] in En. specialize (IH (S i) ltac:(lia)).
      unfold thrown_value in En, IH. destruct (is_objectlike (nth_cause (S i) v)); [|done].
      case_bool_decide; [done|]. by injection En as <-. }
  exact (H (S (depth v)) 0 ltac:(lia)).
Qed.

(** A created error is read back: its code when it is usable, and its message. *)
Lemma created_error_reads code message fallback f :
  let e := createPaymentAdminError code message fallback in
  tree_error_code e = code ≫= (fun c => usable_code (JStr c)) ∧
  getApiErrorMessage true e f =
    jor (match message with Some m => jor m fallback | None => fallback end) f.
Proof.
  cbv zeta. unfold tree_error_code, createPaymentAdminError. split.
  - destruct code as [[|c code]|]; [done| |done].
    cbn [truthy mbind option_bind]. set (e := JObj _). change (thrown_value 0 e) with (Object 0). rewrite code_step.
    assert (code_candidates (e_members (objects_of e 0)) = [JUndefined; JUndefined; JUndefined; JUndefined; JStr (c :: code)]) as ->
      by reflexivity.
    assert (next (objects_of e) 0 = None) as -> by reflexivity. cbn [first_code].
    change (usable_code JUndefined) with (@None jstr). cbn iota. by destruct (usable_code (JStr (c :: code))).
  - set (text := match message with Some m => _ | None => _ end). by destruct text, code as [[|]|].
Qed.
