(* ===== verification/SecureVerification.v ===== *)
(** * Secure verification

    Model of [features/auth/secure-verification]: [api.ts] (the verification
    methods of a user, and what verifying with a one-time code or a passkey asks of
    the server) and [hooks/use-secure-verification.ts] (the dialog that verifies the
    user before a protected operation runs), with [lib/secure-verification.ts].

    The server, the authenticator and the browser answer through the fields of
    [Environment].  A promise that is waited for is a list entry of the hook's
    state; events settle it.  Operations are numbered in the order in which they
    are handed to the hook; [log] holds what happened, the newest first.  Callbacks
    of the caller ([onSuccess], [onError]) do not throw. *)

From S2P Require Import Prelude JsValue Passkey PaymentAdmin.

Inductive VerificationMethod := two_fa | passkey.

#[global] Instance VerificationMethod_eq_dec : EqDecision VerificationMethod.
Proof. solve_decision. Defined.

Record VerificationMethods := MkMethods { has2FA : bool; hasPasskey : bool; passkeySupported : bool }.

Record StartVerificationOptions := MkStartOptions {
  preferredMethod : option VerificationMethod; title : option jstr; description : option jstr;
}.

(** ** Errors *)

(** What is passed to [i18next.t]: a text, or a member of [Object.prototype] that a
    lookup found. *)
Inductive MessageKey := key (text : jstr) | inherited (member : jstr).

Inductive Failure :=
  | SecureVerificationError (message : MessageKey) (code : option jstr)
  | DOMException (name message : jstr)
  | OtherError (is_error : bool) (value : jsval).

Definition secureVerificationErrorKeys : list (jstr * jstr) := [
  ("secure_verification_auth_required", "Sign in again before completing security verification.");
  ("secure_verification_request_invalid", "The security verification request is invalid. Try again.");
  ("secure_verification_user_unavailable", "Security verification is temporarily unavailable. Try again.");
  ("secure_verification_account_disabled", "This account cannot complete security verification.");
  ("secure_verification_method_unavailable",
   "This verification method is unavailable. Choose another method or try again.");
  ("secure_verification_not_configured", "Enable Two-factor Authentication or Passkey before continuing.");
  ("secure_verification_code_required", "Please enter the verification code or backup code.");
  ("secure_verification_passkey_state_invalid", "Passkey verification expired or is invalid. Start again.");
  ("secure_verification_passkey_required", "Complete Passkey verification before continuing.");
  ("secure_verification_session_unavailable", "Security verification could not be saved. Try again.");
  ("secure_verification_method_invalid", "This security verification method is not supported.");
  ("secure_verification_failed", "The verification code or backup code is incorrect.")].

Definition secureVerificationError (response : jsval) (fallbackKey : jstr) : Failure :=
  let code := match get "code" response with
              | JStr c => if truthy (trim c) then Some (trim c) else None
              | _ => None
              end in
  let messageKey :=
    match code with
    | Some c =>
      match map_get c secureVerificationErrorKeys with
      | Some k => Some (key k)
      | None => if has c OBJECT_PROTOTYPE then Some (inherited c) else None
      end
    | None => None
    end in
  SecureVerificationError (default (key fallbackKey) messageKey) code.

Definition secureVerificationResponseFromError (error : Failure) : jsval :=
  match error with
  | OtherError _ v =>
    let data := get "data" (get "response" v) in
    if is_objectlike data then data else JUndefined
  | _ => JUndefined
  end.

(** ** lib/secure-verification.ts *)

Definition isVerificationRequiredError (error : Failure) : bool :=
  match error with
  | OtherError _ v =>
    match get "status" (get "response" v), get "code" (get "data" (get "response" v)) with
    | JNum status, JStr code =>
      num_eqb status (num_of_Z 403) && truthy code &&
      has code ["VERIFICATION_REQUIRED"; "VERIFICATION_EXPIRED"; "VERIFICATION_INVALID"]
    | _, _ => false
    end
  | _ => false
  end.

Record VerificationRequiredInfo := MkInfo { i_code : jsval; i_message : jsval; i_required : bool }.

(** [None] for the error that reading a property of nothing throws. *)
Definition extractVerificationInfo (error : jsval) : option VerificationRequiredInfo :=
  match error with
  | JUndefined | JNull => None
  | _ =>
    let data := get "data" (get "response" error) in
    Some (MkInfo (get "code" data) (coalesce (get "message" data) (JStr "Secure verification is required")) true)
  end.

(** ** api.ts *)

(** What the outside answers; [inr] is a rejected promise. *)
Record Environment := MkEnvironment {
  post_code : jstr → jsval + Failure;                  (* /api/verify with a code *)
  credentials_available : bool;                        (* navigator.credentials *)
  beginPasskeyVerification : jsval + Failure;
  credentials_get : CredentialRequest → option (Credential AssertionResponse) + Failure;
  finishPasskeyVerification : CredentialResult AssertionTexts → jsval + Failure;
  post_passkey : jsval + Failure;                      (* /api/verify with the passkey *)
}.

Definition answer_enabled (response : jsval) : bool :=
  val_truthy (get "success" response) && val_truthy (get "enabled" (get "data" response)).

(** The answers of [get2FAStatus], [getPasskeyStatus] and the detection. *)
Definition checkVerificationMethods (twoFA passkeyStatus : jsval + Failure) (supported : bool + Failure) :
    VerificationMethods :=
  match twoFA, passkeyStatus, supported with
  | inl r2, inl rp, inl b => MkMethods (answer_enabled r2) (answer_enabled rp) b
  | _, _, _ => MkMethods false false false
  end.

Definition verifyTwoFA (env : Environment) (code : option jstr) : unit + Failure :=
  match code with
  | None => inr (secureVerificationError JUndefined "Please enter the verification code or backup code.")
  | Some c =>
    if negb (truthy (trim c))
    then inr (secureVerificationError JUndefined "Please enter the verification code or backup code.")
    else
      match post_code env (trim c) with
      | inl data =>
        if val_truthy (get "success" data) then inl tt
        else inr (secureVerificationError data "Verification failed")
      | inr (SecureVerificationError m c as e) => inr e
      | inr e => inr (secureVerificationError (secureVerificationResponseFromError e) "Verification failed")
      end
  end.

(** [response.success], which throws when there is no response. *)
Definition success_of (response : jsval) : bool + Failure :=
  match response with
  | JUndefined | JNull => inr (OtherError true JUndefined)
  | _ => inl (val_truthy (get "success" response))
  end.

(** The [try] block of [verifyPasskey]. *)
Definition verifyPasskey_body (env : Environment) : unit + Failure :=
  match beginPasskeyVerification env with
  | inr e => inr e
  | inl beginResponse =>
    match success_of beginResponse with
    | inr e => inr e
    | inl false => inr (secureVerificationError beginResponse "Passkey verification could not be started. Try again.")
    | inl true =>
      let data := get "data" beginResponse in
      match prepareCredentialRequestOptions (coalesce (get "options" data) data) with
      | None => inr (OtherError true JUndefined)
      | Some publicKey =>
        match credentials_get env publicKey with
        | inr e => inr e
        | inl None => inr (secureVerificationError JUndefined "Passkey verification was cancelled.")
        | inl credential =>
          match buildAssertionResult credential with
          | None =>
            inr (secureVerificationError JUndefined "Passkey verification could not be completed. Try again.")
          | Some assertion =>
            match finishPasskeyVerification env assertion with
            | inr e => inr e
            | inl finishResponse =>
              match success_of finishResponse with
              | inr e => inr e
              | inl false => inr (secureVerificationError finishResponse "Passkey verification failed. Try again.")
              | inl true =>
                match post_passkey env with
                | inr e => inr e
                | inl verifyResponse =>
                  if val_truthy (get "success" verifyResponse) then inl tt
                  else inr (secureVerificationError verifyResponse
                              "Security verification could not be completed. Try again.")
                end
              end
            end
          end
        end
      end
    end
  end.

(** Its [catch] block. *)
Definition passkey_failure (error : Failure) : Failure :=
  match error with
  | SecureVerificationError _ _ => error
  | DOMException name _ =>
    if name === "NotAllowedError"
    then secureVerificationError JUndefined "Passkey verification was cancelled or timed out."
    else if name === "InvalidStateError"
    then secureVerificationError JUndefined "Passkey verification is not available in the current state."
    else secureVerificationError JUndefined "Passkey verification failed. Try again."
  | OtherError _ _ =>
    let response := secureVerificationResponseFromError error in
    if val_truthy response then secureVerificationError response "Passkey verification failed. Try again."
    else secureVerificationError JUndefined "Passkey verification failed. Try again."
  end.

Definition verifyPasskey (env : Environment) : unit + Failure :=
  if negb (credentials_available env)
  then inr (secureVerificationError JUndefined "Passkey verification is not supported in this environment.")
  else match verifyPasskey_body env with inl u => inl u | inr e => inr (passkey_failure e) end.

Definition verify (env : Environment) (method : VerificationMethod) (code : option jstr) : unit + Failure :=
  match method with two_fa => verifyTwoFA env code | passkey => verifyPasskey env end.

(** ** The hook *)

(** A run of [executeVerification] that verifies, or waits for its operation. *)
Record Execution := MkExecution { x_id : nat; x_method : VerificationMethod; x_code : option jstr }.

Inductive Effect :=
  | Tried (op : nat)                      (* the first call of [withVerification] *)
  | Called (op : nat)                     (* [apiCall()] after a verification *)
  | ToastError (message : jstr)
  | ToastSuccess (message : jstr)
  | OnError (error : Failure)
  | OnSuccess (op : nat) (result : jsval) (method : VerificationMethod).

Record Hook := MkHook {
  methods : VerificationMethods;
  h_method : option VerificationMethod;   (* state.method *)
  loading : bool;
  h_code : jstr;
  h_title : option jstr;
  h_description : option jstr;
  apiCall : option nat;
  isOpen : bool;
  pendingApiCall : option nat;            (* pendingApiCallRef.current *)
  verificationExecution : bool;           (* verificationExecutionRef.current *)
  nextId : nat;
  trying : list (nat * StartVerificationOptions);
  starting : list (nat * StartVerificationOptions);
  verifying : list Execution;
  running : list (Execution * nat);
  log : list Effect;
}.

Definition defaultMethods : VerificationMethods := MkMethods false false false.

Definition initial : Hook :=
  MkHook defaultMethods None false [] None None None false None false 0 [] [] [] [] [].

Definition set_methods (m : VerificationMethods) (s : Hook) : Hook :=
  MkHook m (h_method s) (loading s) (h_code s) (h_title s) (h_description s) (apiCall s) (isOpen s) (pendingApiCall s)
    (verificationExecution s) (nextId s) (trying s) (starting s) (verifying s) (running s) (log s).
Definition set_state (m : option VerificationMethod) (l : bool) (c : jstr) (ti de : option jstr) (a : option nat)
    (s : Hook) : Hook :=
  MkHook (methods s) m l c ti de a (isOpen s) (pendingApiCall s) (verificationExecution s) (nextId s) (trying s)
    (starting s) (verifying s) (running s) (log s).
Definition set_open (b : bool) (s : Hook) : Hook :=
  MkHook (methods s) (h_method s) (loading s) (h_code s) (h_title s) (h_description s) (apiCall s) b (pendingApiCall s)
    (verificationExecution s) (nextId s) (trying s) (starting s) (verifying s) (running s) (log s).
Definition set_refs (p : option nat) (x : bool) (s : Hook) : Hook :=
  MkHook (methods s) (h_method s) (loading s) (h_code s) (h_title s) (h_description s) (apiCall s) (isOpen s) p x
    (nextId s) (trying s) (starting s) (verifying s) (running s) (log s).
Definition set_waiting (n : nat) (tr st : list (nat * StartVerificationOptions)) (ve : list Execution)
    (ru : list (Execution * nat)) (s : Hook) : Hook :=
  MkHook (methods s) (h_method s) (loading s) (h_code s) (h_title s) (h_description s) (apiCall s) (isOpen s)
    (pendingApiCall s) (verificationExecution s) n tr st ve ru (log s).
Definition emit (e : Effect) (s : Hook) : Hook :=
  MkHook (methods s) (h_method s) (loading s) (h_code s) (h_title s) (h_description s) (apiCall s) (isOpen s)
    (pendingApiCall s) (verificationExecution s) (nextId s) (trying s) (starting s) (verifying s) (running s)
    (e :: log s).

Definition set_loading (b : bool) (s : Hook) : Hook :=
  set_state (h_method s) b (h_code s) (h_title s) (h_description s) (apiCall s) s.

Section hook.
Context (t : MessageKey → jstr) (successMessage : option jstr) (autoReset : bool).

Definition reset (s : Hook) : Hook :=
  set_open false (set_state None false [] None None None (set_refs None false s)).

(** [getApiErrorMessage(error, t('Verification failed'))] *)
Definition failure_message (error : Failure) : jstr :=
  let fallback := t (key "Verification failed") in
  match error with
  | SecureVerificationError m _ => getApiErrorMessage true (JObj [("message" : jstr, JStr (t m))]) fallback
  | DOMException _ m => getApiErrorMessage true (JObj [("message" : jstr, JStr m)]) fallback
  | OtherError is_error v => getApiErrorMessage is_error v fallback
  end.

Definition fail_with (error : Failure) (s : Hook) : Hook :=
  emit (OnError error) (emit (ToastError (failure_message error)) s).

(** *** startVerification *)

Definition startVerification (config : StartVerificationOptions) (s : Hook) : Hook :=
  set_waiting (S (nextId s)) (trying s) ((nextId s, config) :: starting s) (verifying s) (running s) s.

Definition without {A} (id : nat) (l : list (nat * A)) : list (nat * A) := filter (fun x => x.1 ≠ id) l.

Definition passkey_available (m : VerificationMethods) : bool := hasPasskey m && passkeySupported m.

Definition choose_method (preferred : option VerificationMethod) (m : VerificationMethods) :
    option VerificationMethod :=
  let fallback :=
    if passkey_available m then Some passkey else if has2FA m then Some two_fa else None in
  match preferred with
  | Some two_fa => if has2FA m then Some two_fa else fallback
  | Some passkey => if passkey_available m then Some passkey else fallback
  | None => fallback
  end.

Definition no_methods : Failure :=
  OtherError true (JObj [("message" : jstr, JStr "No verification methods available. Enable 2FA or Passkey to continue.")]).

(** [startVerification] after [fetchVerificationMethods] answered. *)
Definition startVerification_settled (op : nat) (config : StartVerificationOptions)
    (available : VerificationMethods) (s : Hook) : Hook :=
  let s := set_methods available
    (set_waiting (nextId s) (trying s) (without op (starting s)) (verifying s) (running s) s) in
  if negb (has2FA available) && negb (passkey_available available)
  then
    emit (OnError no_methods)
      (emit (ToastError (t (key "Please enable Two-factor Authentication or Passkey before proceeding"))) s)
  else
    set_open true
      (set_state (choose_method (preferredMethod config) available) (loading s) (h_code s) (title config)
         (description config) (Some op) (set_refs (Some op) (verificationExecution s) s)).

(** *** executeVerification *)

Definition executeVerification (method : option VerificationMethod) (code : option jstr) (s : Hook) : Hook :=
  match pendingApiCall s with
  | None => emit (ToastError (t (key "Verification is not configured properly"))) s
  | Some _ =>
    match (match method with Some m => Some m | None => h_method s end) with
    | None => emit (ToastError (t (key "Select a verification method first"))) s
    | Some actualMethod =>
      if verificationExecution s then s
      else
        let x := MkExecution (nextId s) actualMethod (Some (default (h_code s) code)) in
        set_waiting (S (nextId s)) (trying s) (starting s) (x :: verifying s) (running s)
          (set_loading true (set_refs (pendingApiCall s) true s))
    end
  end.

Definition finally (s : Hook) : Hook := set_loading false (set_refs (pendingApiCall s) false s).

(** After [await verify(...)]. *)
Definition execute_verified (x : Execution) (result : unit + Failure) (s : Hook) : Hook :=
  let s := set_waiting (nextId s) (trying s) (starting s) (filter (fun y => x_id y ≠ x_id x) (verifying s))
             (running s) s in
  match result with
  | inr e => finally (fail_with e s)
  | inl _ =>
    match pendingApiCall s with
    | None => finally (reset s)
    | Some op =>
      let s := set_refs None (verificationExecution s) s in
      let s := set_state (h_method s) (loading s) (h_code s) (h_title s) (h_description s) None s in
      set_waiting (nextId s) (trying s) (starting s) (verifying s) ((x, op) :: running s) (emit (Called op) s)
    end
  end.

(** After [await apiCall()]. *)
Definition execute_called (x : Execution) (op : nat) (result : jsval + Failure) (s : Hook) : Hook :=
  let s := set_waiting (nextId s) (trying s) (starting s) (verifying s)
             (filter (fun y => x_id y.1 ≠ x_id x) (running s)) s in
  match result with
  | inl v =>
    let s := match successMessage with
             | Some m => if truthy m then emit (ToastSuccess m) s else s
             | None => s
             end in
    let s := emit (OnSuccess op v (x_method x)) s in
    finally (if autoReset then reset s else set_open false s)
  | inr e => finally (fail_with e (reset s))
  end.

(** *** The rest *)

Definition setCode (code : jstr) (s : Hook) : Hook :=
  set_state (h_method s) (loading s) code (h_title s) (h_description s) (apiCall s) s.
Definition switchMethod (m : VerificationMethod) (s : Hook) : Hook :=
  set_state (Some m) (loading s) [] (h_title s) (h_description s) (apiCall s) s.
Definition cancel (s : Hook) : Hook := reset s.

Definition withVerification (config : StartVerificationOptions) (s : Hook) : Hook :=
  emit (Tried (nextId s))
    (set_waiting (S (nextId s)) ((nextId s, config) :: trying s) (starting s) (verifying s) (running s) s).

(** [withVerification] after its call: the operation is handed on. *)
Definition withVerification_settled (op : nat) (config : StartVerificationOptions) (result : jsval + Failure)
    (s : Hook) : Hook :=
  let s := set_waiting (nextId s) (without op (trying s)) (starting s) (verifying s) (running s) s in
  match result with
  | inl _ => s
  | inr e =>
    if isVerificationRequiredError e
    then set_waiting (nextId s) (trying s) ((op, config) :: starting s) (verifying s) (running s) s
    else s
  end.

Definition canUseMethod (m : VerificationMethod) (s : Hook) : bool :=
  match m with two_fa => has2FA (methods s) | passkey => passkey_available (methods s) end.

Definition recommendedMethod (s : Hook) : option VerificationMethod :=
  if passkey_available (methods s) then Some passkey else if has2FA (methods s) then Some two_fa else None.

(** *** Events *)

Inductive Event :=
  | EvMounted (m : VerificationMethods)
  | EvStart (config : StartVerificationOptions)
  | EvWith (config : StartVerificationOptions)
  | EvTried (op : nat) (result : jsval + Failure)
  | EvMethods (op : nat) (m : VerificationMethods)
  | EvExecute (method : option VerificationMethod) (code : option jstr)
  | EvVerify (id : nat) (env : Environment)
  | EvReturn (id : nat) (result : jsval + Failure)
  | EvCancel
  | EvOpen (b : bool)
  | EvCode (code : jstr)
  | EvSwitch (m : VerificationMethod).

Definition handle (ev : Event) (s : Hook) : Hook :=
  match ev with
  | EvMounted m => set_methods m s
  | EvStart config => startVerification config s
  | EvWith config => withVerification config s
  | EvTried op result =>
    match List.find (fun x => x.1 =? op) (trying s) with
    | Some (_, config) => withVerification_settled op config result s
    | None => s
    end
  | EvMethods op m =>
    match List.find (fun x => x.1 =? op) (starting s) with
    | Some (_, config) => startVerification_settled op config m s
    | None => s
    end
  | EvExecute method code => executeVerification method code s
  | EvVerify id env =>
    match List.find (fun x => x_id x =? id) (verifying s) with
    | Some x => execute_verified x (verify env (x_method x) (x_code x)) s
    | None => s
    end
  | EvReturn id result =>
    match List.find (fun x => x_id x.1 =? id) (running s) with
    | Some (x, op) => execute_called x op result s
    | None => s
    end
  | EvCancel => cancel s
  | EvOpen b => set_open b s
  | EvCode code => setCode code s
  | EvSwitch m => switchMethod m s
  end.

Definition run (evs : list Event) (s : Hook) : Hook := foldl (fun s ev => handle ev s) s evs.
End hook.

(** ** Lemmas *)

(** *** Verifying *)

(** The server confirmed the verification. *)
Definition confirmed (env : Environment) (method : VerificationMethod) (code : option jstr) : Prop :=
  match method with
  | two_fa => ∃ c data, code = Some c ∧ trim c ≠ [] ∧ post_code env (trim c) = inl data ∧
      val_truthy (get "success" data) = true
  | passkey => credentials_available env = true ∧
      ∃ b publicKey credential assertion f v,
        beginPasskeyVerification env = inl b ∧ success_of b = inl true ∧
        prepareCredentialRequestOptions (coalesce (get "options" (get "data" b)) (get "data" b)) = Some publicKey ∧
        credentials_get env publicKey = inl (Some credential) ∧
        buildAssertionResult (Some credential) = Some assertion ∧
        finishPasskeyVerification env assertion = inl f ∧ success_of f = inl true ∧
        post_passkey env = inl v ∧ val_truthy (get "success" v) = true
  end.

Lemma verify_two_fa env code : verifyTwoFA env code = inl tt ↔ confirmed env two_fa code.
Proof.
  unfold verifyTwoFA, confirmed. split.
  - intros E. destruct code as [c|]; [|done]. destruct (truthy (trim c)) eqn:Et; [|done]. cbn [negb] in E.
    destruct (post_code env (trim c)) as [data|[]] eqn:Ep; try done.
    destruct (val_truthy (get "success" data)) eqn:Es; [|done]. exists c, data. by destruct (trim c).
  - intros (c & data & -> & Hc & -> & ->). by destruct (trim c).
Qed.

Lemma verify_passkey_body env :
  verifyPasskey_body env = inl tt ↔
  ∃ b publicKey credential assertion f v,
    beginPasskeyVerification env = inl b ∧ success_of b = inl true ∧
    prepareCredentialRequestOptions (coalesce (get "options" (get "data" b)) (get "data" b)) = Some publicKey ∧
    credentials_get env publicKey = inl (Some credential) ∧
    buildAssertionResult (Some credential) = Some assertion ∧
    finishPasskeyVerification env assertion = inl f ∧ success_of f = inl true ∧
    post_passkey env = inl v ∧ val_truthy (get "success" v) = true.
Proof.
  unfold verifyPasskey_body. split.
  - intros E. repeat (case_match; try done). do 6 eexists. by eauto 12.
  - intros (b & pk & c & a & f & v & H1 & H2 & H3 & H4 & H5 & H6 & H7 & H8 & H9).
    rewrite H1, H2. cbn zeta iota. rewrite H3, H4. cbn iota. rewrite H5, H6, H7, H8, H9. done.
Qed.

Lemma verify_confirmed env m code : verify env m code = inl tt ↔ confirmed env m code.
Proof.
  destruct m; cbn [verify]; [apply verify_two_fa|]. unfold verifyPasskey, confirmed.
  rewrite <- verify_passkey_body. destruct (credentials_available env); cbn [negb]; [|naive_solver].
  destruct (verifyPasskey_body env) as [[]|]; naive_solver.
Qed.

(** The texts that verification errors show. *)
Definition verification_texts : list jstr :=
  map snd secureVerificationErrorKeys ++
  ["Please enter the verification code or backup code."; "Verification failed";
   "Passkey verification is not supported in this environment.";
   "Passkey verification could not be started. Try again."; "Passkey verification was cancelled.";
   "Passkey verification could not be completed. Try again."; "Passkey verification failed. Try again.";
   "Security verification could not be completed. Try again.";
   "Passkey verification was cancelled or timed out.";
   "Passkey verification is not available in the current state."].

Definition known_error (e : Failure) : Prop :=
  ∃ m code, e = SecureVerificationError m code ∧
    match m with key k => k ∈ verification_texts | inherited n => n ∈ OBJECT_PROTOTYPE end.

Lemma created_known response fallback :
  fallback ∈ verification_texts → known_error (secureVerificationError response fallback).
Proof.
  intros Hf. unfold secureVerificationError. eexists _, _. split; [reflexivity|].
  set (code := match get "code" response with JStr _ => _ | _ => None end). destruct code as [c|]; [|done].
  destruct (map_get c secureVerificationErrorKeys) as [k|] eqn:E.
  - change (k ∈ verification_texts). unfold verification_texts. apply elem_of_app. left. apply map_get_elem in E.
    apply list_elem_of_fmap. by exists (c, k).
  - destruct (has c OBJECT_PROTOTYPE) eqn:Eh; cbn; [by apply has_true|done].
Qed.

(** Nothing outside this file throws a [SecureVerificationError]. *)
Definition foreign {A} (r : A + Failure) : Prop :=
  match r with inr (SecureVerificationError _ _) => False | _ => True end.

Record foreign_errors (env : Environment) : Prop := {
  foreign_post : ∀ c, foreign (post_code env c);
  foreign_begin : foreign (beginPasskeyVerification env);
  foreign_get : ∀ r, foreign (credentials_get env r);
  foreign_finish : ∀ a, foreign (finishPasskeyVerification env a);
  foreign_passkey : foreign (post_passkey env);
}.

Ltac known := apply created_known; unfold verification_texts; apply elem_of_app; right; set_solver.

Lemma passkey_failure_known e : known_error e ∨ foreign (A := unit) (inr e) → known_error (passkey_failure e).
Proof.
  intros He. destruct e as [m c|n m|b v]; cbn [passkey_failure]; [by destruct He|..].
  - repeat case_match; known.
  - case_match; known.
Qed.

Lemma verifyTwoFA_known env code e : foreign_errors env → verifyTwoFA env code = inr e → known_error e.
Proof.
  intros [Hp _ _ _ _]. unfold verifyTwoFA. destruct code as [c|]; [|intros [= <-]; known].
  destruct (negb (truthy (trim c))); [intros [= <-]; known|]. specialize (Hp (trim c)).
  destruct (post_code env (trim c)) as [data|[]]; [|done|intros [= <-]; known..].
  destruct (val_truthy _); [done|]. intros [= <-]. known.
Qed.

Lemma success_of_known r e : success_of r = inr e → known_error e ∨ foreign (A := unit) (inr e).
Proof. destruct r; cbn; intros [= <-]; by right. Qed.

Lemma verifyPasskey_body_known env e :
  foreign_errors env → verifyPasskey_body env = inr e → known_error e ∨ foreign (A := unit) (inr e).
Proof.
  intros [_ Hb Hg Hf Hv]. unfold verifyPasskey_body.
  destruct (beginPasskeyVerification env) as [b|e1]; [|intros [= <-]; by right].
  destruct (success_of b) as [[]|e1] eqn:Eb; [|intros [= <-]; left; known|intros [= <-]; by eapply success_of_known].
  cbv zeta. destruct (prepareCredentialRequestOptions _) as [pk|]; [|intros [= <-]; by right].
  specialize (Hg pk). destruct (credentials_get env pk) as [[c|]|e1]; [|intros [= <-]; left; known|intros [= <-]; by right].
  destruct (buildAssertionResult (Some c)) as [a|]; [|intros [= <-]; left; known].
  specialize (Hf a). destruct (finishPasskeyVerification env a) as [f|e1]; [|intros [= <-]; by right].
  destruct (success_of f) as [[]|e1] eqn:Ef; [|intros [= <-]; left; known|intros [= <-]; by eapply success_of_known].
  destruct (post_passkey env) as [v|e1]; [|intros [= <-]; by right].
  destruct (val_truthy _); [done|]. intros [= <-]. left. known.
Qed.

(** *** Operations *)

(** The operations that ran after a verification. *)
Fixpoint called (l : list Effect) : list nat :=
  match l with
  | [] => []
  | Called op :: l' => op :: called l'
  | _ :: l' => called l'
  end.

(** The operations the hook knows of. *)
Definition ops (s : Hook) : list nat :=
  map fst (trying s) ++ map fst (starting s) ++ option_list (pendingApiCall s) ++ called (log s).

Record Inv (s : Hook) : Prop := {
  inv_ops : NoDup (ops s);
  inv_next : ∀ op, op ∈ ops s → op < nextId s;
  inv_lock : verificationExecution s = true ∨ loading s = true → verifying s ≠ [] ∨ running s ≠ [];
}.

(** What an event does to the operations: it forgets some, or takes a new one. *)
Definition ops_step (s s' : Hook) : Prop :=
  ops s' ⊆+ ops s ∧ nextId s ≤ nextId s' ∨ ops s' ≡ₚ nextId s :: ops s ∧ nextId s' = S (nextId s).

Section invariants.
Context (t : MessageKey → jstr) (successMessage : option jstr) (autoReset : bool).
Abbreviation handle' := (handle t successMessage autoReset).
Abbreviation run' evs := (run t successMessage autoReset evs initial).

Lemma without_sub {A} (op : nat) (l : list (nat * A)) : map fst (without op l) ⊆+ map fst l.
Proof.
  induction l as [|[k x] l IH]; [done|]. unfold without in *. rewrite filter_cons. case_decide; cbn.
  - by apply submseteq_skip.
  - by apply submseteq_cons.
Qed.

(** Taking an entry out of a list. *)
Lemma without_take {A} (op : nat) (x : A) (l : list (nat * A)) :
  (op, x) ∈ l → op :: map fst (without op l) ⊆+ map fst l.
Proof.
  induction l as [|[k y] l IH]; intros Hin; [by apply not_elem_of_nil in Hin|]. unfold without in *.
  rewrite filter_cons. cbn [fst]. apply elem_of_cons in Hin as [[= <- <-]|Hin].
  - rewrite decide_False by (intros E; by apply E). cbn. apply submseteq_skip. apply (without_sub op l).
  - case_decide as E; cbn.
    + etrans; [apply submseteq_swap|]. by apply submseteq_skip, IH.
    + apply submseteq_cons. by apply IH.
Qed.

Lemma found_key {A} op (l : list (nat * A)) k x : List.find (fun x => x.1 =? op) l = Some (k, x) → (op, x) ∈ l.
Proof.
  intros [Hin E]%List.find_some. apply Nat.eqb_eq in E. cbn in E. subst k. by apply list_elem_of_In.
Qed.

Lemma ops_same s s' :
  trying s' = trying s → starting s' = starting s → pendingApiCall s' = pendingApiCall s ∨ pendingApiCall s' = None →
  called (log s') = called (log s) → nextId s ≤ nextId s' → ops_step s s'.
Proof.
  intros E1 E2 E3 E4 Hn. left. split; [|done]. unfold ops. rewrite E1, E2, E4.
  apply submseteq_app; [done|]. apply submseteq_app; [done|]. apply submseteq_app; [|done].
  destruct E3 as [->| ->]; [done|apply submseteq_nil_l].
Qed.

Lemma start_ops config s : ops_step s (startVerification config s).
Proof. right. split; [|done]. unfold ops. cbn. by rewrite <- Permutation_middle. Qed.

Lemma with_ops config s : ops_step s (withVerification config s).
Proof. by right. Qed.

Lemma with_settled_ops op config result s :
  (op, config) ∈ trying s → ops_step s (withVerification_settled op config result s).
Proof.
  intros Hin. left. unfold withVerification_settled, ops. destruct result as [v|e]; [|case_match]; (split; [|done]); cbn.
  1,3: by apply submseteq_app; [apply without_sub|].
  rewrite <- (Permutation_middle (map fst (without op (trying s))) _ op), app_comm_cons.
  apply submseteq_app; [|done]. by apply (without_take op config).
Qed.

Lemma start_settled_ops op config m s :
  (op, config) ∈ starting s → ops_step s (startVerification_settled t op config m s).
Proof.
  intros Hin. left. unfold startVerification_settled, ops. case_match; (split; [|done]); cbn.
  - apply submseteq_app; [done|]. apply submseteq_app; [apply without_sub|done].
  - apply submseteq_app; [done|].
    rewrite <- (Permutation_middle (map fst (without op (starting s))) _ op), app_comm_cons.
    apply submseteq_app; [by apply (without_take op config)|]. apply submseteq_inserts_l. done.
Qed.

Lemma verified_ops x result s : ops_step s (execute_verified t x result s).
Proof.
  unfold execute_verified. destruct result as [u|e]; [|apply ops_same; by auto].
  cbn [pendingApiCall set_waiting]. destruct (pendingApiCall s) as [op|] eqn:Ep; [|apply ops_same; by auto].
  left. split; [|done]. unfold ops. cbn. by rewrite Ep.
Qed.

Lemma called_ops x op result s : ops_step s (execute_called t successMessage autoReset x op result s).
Proof.
  unfold execute_called. destruct result as [v|e]; [|apply ops_same; by auto].
  destruct successMessage as [m|]; [destruct (truthy m)|]; destruct autoReset; apply ops_same; by auto.
Qed.

Lemma execute_ops m code s : ops_step s (executeVerification t m code s).
Proof.
  unfold executeVerification. repeat case_match; apply ops_same; try (by auto); cbn; auto.
Qed.

Lemma handle_ops ev s : ops_step s (handle' ev s).
Proof.
  destruct ev as [m|c|c|op r|op m|m c|id env|id r| |b|c|m]; cbn [SecureVerification.handle];
    try (apply ops_same; by auto).
  - apply start_ops.
  - apply with_ops.
  - destruct (List.find _ _) as [[k c]|] eqn:E; [|apply ops_same; by auto].
    apply found_key in E. by apply with_settled_ops.
  - destruct (List.find _ _) as [[k c]|] eqn:E; [|apply ops_same; by auto].
    apply found_key in E. by apply start_settled_ops.
  - apply execute_ops.
  - case_match; [|apply ops_same; by auto]. apply verified_ops.
  - case_match; [|apply ops_same; by auto]. case_match. apply called_ops.
Qed.

Lemma handle_lock ev s :
  (verificationExecution s = true ∨ loading s = true → verifying s ≠ [] ∨ running s ≠ []) →
  let s' := handle' ev s in
  verificationExecution s' = true ∨ loading s' = true → verifying s' ≠ [] ∨ running s' ≠ [].
Proof.
  intros HL s'. subst s'. destruct ev as [m|c|c|op r|op m|m c|id env|id r| |b|c|m]; cbn [SecureVerification.handle]; try done.
  - unfold withVerification_settled. repeat case_match; exact HL.
  - unfold startVerification_settled. repeat case_match; exact HL.
  - unfold executeVerification. destruct (pendingApiCall s); [|exact HL].
    destruct (match m with Some _ => _ | None => _ end); [|exact HL].
    destruct (verificationExecution s) eqn:E; intros _; [apply HL; by left|left; discriminate].
  - destruct (List.find _ _) as [x|]; [|exact HL]. unfold execute_verified.
    destruct (verify _ _ _) as [u|e]; [|by intros [E|E]; cbn in E]. cbn [pendingApiCall set_waiting].
    destruct (pendingApiCall s); [intros _; right; discriminate|by intros [E|E]; cbn in E].
  - destruct (List.find _ _) as [[x op]|]; [|exact HL]. unfold execute_called, finally.
    destruct r as [v|e]; by intros [E|E]; cbn in E.
  - by intros [E|E]; cbn in E.
Qed.

Lemma verify_handle_Inv ev s : Inv s → Inv (handle' ev s).
Proof.
  intros [H1 H2 H3]. constructor; [..|by apply handle_lock].
  - destruct (handle_ops ev s) as [[Hs _]|[-> _]]; [by eapply NoDup_sub|]. constructor; [|done].
    intros Hin%H2. lia.
  - intros op Hop. destruct (handle_ops ev s) as [[Hs Hn]|[Hs Hn]].
    + apply (elem_of_submseteq _ _ _ Hop), H2 in Hs. lia.
    + rewrite Hs in Hop. apply elem_of_cons in Hop as [->|Hop%H2]; lia.
Qed.

Lemma verify_run_snoc evs ev s : run t successMessage autoReset (evs ++ [ev]) s = handle' ev (run t successMessage autoReset evs s).
Proof. unfold run. by rewrite foldl_app. Qed.

Lemma run_Inv evs : Inv (run' evs).
Proof.
  induction evs as [|ev evs IH] using rev_ind; [|rewrite verify_run_snoc; by apply verify_handle_Inv].
  constructor; cbn; [constructor|intros op ?%not_elem_of_nil; done|by intros []].
Qed.

(** An operation the hook has forgotten never comes back. *)
Lemma forgotten op evs s :
  op < nextId s → op ∉ ops s → op ∉ ops (run t successMessage autoReset evs s).
Proof.
  intros Hn Ho. cut (op < nextId (run t successMessage autoReset evs s) ∧ op ∉ ops (run t successMessage autoReset evs s));
    [by intros []|].
  induction evs as [|ev evs [IH1 IH2]] using rev_ind; [done|]. rewrite verify_run_snoc.
  destruct (handle_ops ev (run t successMessage autoReset evs s)) as [[Hs Hl]|[Hs ->]].
  - split; [lia|]. intros Hin. by apply IH2, (elem_of_submseteq _ _ _ Hin).
  - split; [lia|]. rewrite Hs. intros [E|Hin]%elem_of_cons; [lia|done].
Qed.

(** Only a confirmed verification runs an operation, the pending one. *)
Lemma called_step ev s :
  called (log (handle' ev s)) = called (log s) ∨
  ∃ id env x op, ev = EvVerify id env ∧ x ∈ verifying s ∧ x_id x = id ∧ verify env (x_method x) (x_code x) = inl tt ∧
    pendingApiCall s = Some op ∧ called (log (handle' ev s)) = op :: called (log s).
Proof.
  destruct ev as [m|c|c|op r|op m|m c|id env|id r| |b|c|m]; cbn [SecureVerification.handle]; try (left; done).
  - left. unfold withVerification_settled. by repeat case_match.
  - left. unfold startVerification_settled. by repeat case_match.
  - left. unfold executeVerification. by repeat case_match.
  - destruct (List.find _ _) as [x|] eqn:Ef; [|by left]. apply List.find_some in Ef as [Hin Eid].
    unfold execute_verified. destruct (verify _ _ _) as [[]|e] eqn:Ev; [|by left].
    cbn [pendingApiCall set_waiting]. destruct (pendingApiCall s) as [op|] eqn:Ep; [|by left]. right.
    exists id, env, x, op. rewrite <- list_elem_of_In in Hin. apply Nat.eqb_eq in Eid. done.
  - left. destruct (List.find _ _) as [[x op]|]; [|done]. unfold execute_called, finally.
    destruct r as [v|e]; [|done]. destruct successMessage as [m|]; [destruct (truthy m)|]; by destruct autoReset.
Qed.

(** *** Where verifications and attempts come from *)

(** The user asked for the verification [x]: from an open dialog with a pending operation,
    with the method given or the one the dialog shows, and with the code given or typed. *)
Definition asked_for (s : Hook) (method : option VerificationMethod) (code : option jstr) (x : Execution) : Prop :=
  is_Some (pendingApiCall s) ∧ verificationExecution s = false ∧ x_id x = nextId s ∧
  match method with Some m => x_method x = m | None => h_method s = Some (x_method x) end ∧
  x_code x = Some (match code with Some c => c | None => h_code s end).

Lemma verifying_step ev s x :
  x ∈ verifying (handle' ev s) →
  x ∈ verifying s ∨ ∃ method code, ev = EvExecute method code ∧ asked_for s method code x.
Proof.
  destruct ev as [m|c|c|op r|op m|m c|id env|id r| |b|c|m]; cbn [SecureVerification.handle]; try (by left).
  - destruct (List.find _ _) as [[k c]|]; [|by left]. unfold withVerification_settled. repeat case_match; by left.
  - destruct (List.find _ _) as [[k c]|]; [|by left]. unfold startVerification_settled. repeat case_match; by left.
  - unfold executeVerification. destruct (pendingApiCall s) as [op|] eqn:Ep; [|by left].
    destruct (match m with Some _ => _ | None => _ end) as [actual|] eqn:Em; [|by left].
    destruct (verificationExecution s) eqn:Ev; [by left|]. cbn [verifying set_waiting]. intros [->|Hin]%elem_of_cons; [right|by left].
    exists m, c. split; [done|]. split; [by eexists|]. split; [done|]. split; [done|]. cbn [x_method x_code].
    split; [destruct m; congruence|by destruct c].
  - destruct (List.find _ _) as [y|]; [|by left]. unfold execute_verified. intros Hin. left. revert Hin.
    destruct (verify _ _ _); cbn [pendingApiCall set_waiting]; repeat case_match; cbn; by intros [_ ?]%list_elem_of_filter.
  - destruct (List.find _ _) as [[y op]|]; [|by left]. unfold execute_called. left. revert H.
    destruct r as [v|e]; [|done]. destruct successMessage as [w|]; [destruct (truthy w)|]; by destruct autoReset.
Qed.

Lemma verifying_asked evs x :
  x ∈ verifying (run' evs) →
  ∃ pre method code post, evs = pre ++ EvExecute method code :: post ∧ asked_for (run' pre) method code x.
Proof.
  induction evs as [|ev evs IH] using rev_ind; [by intros ?%not_elem_of_nil|]. rewrite verify_run_snoc.
  intros [Hin|(method & code & -> & Hx)]%verifying_step.
  - destruct (IH Hin) as (pre & method & code & post & -> & Hx). exists pre, method, code, (post ++ [ev]). by rewrite <- app_assoc.
  - by exists evs, method, code, [].
Qed.

(** The first attempts. *)
Lemma tried_step ev s op :
  Tried op ∈ log (handle' ev s) → Tried op ∈ log s ∨ (∃ config, ev = EvWith config ∧ op = nextId s).
Proof.
  destruct ev as [m|c|c|k r|k m|m c|id env|id r| |b|c|m]; cbn [SecureVerification.handle]; try (by left).
  - cbn. intros [[= ->]|Hin]%elem_of_cons; [right; by eexists|by left].
  - destruct (List.find _ _) as [[j c]|]; [|by left]. unfold withVerification_settled. repeat case_match; by left.
  - destruct (List.find _ _) as [[j c]|]; [|by left]. unfold startVerification_settled.
    case_match; cbn; rewrite ?elem_of_cons; naive_solver.
  - unfold executeVerification. repeat case_match; cbn; rewrite ?elem_of_cons; naive_solver.
  - destruct (List.find _ _) as [y|]; [|by left]. unfold execute_verified.
    destruct (verify _ _ _); cbn [pendingApiCall set_waiting]; repeat case_match; cbn; rewrite ?elem_of_cons; naive_solver.
  - destruct (List.find _ _) as [[y k]|]; [|by left]. unfold execute_called.
    destruct r as [v|e]; [|cbn; rewrite ?elem_of_cons; naive_solver].
    destruct successMessage as [w|]; [destruct (truthy w)|]; destruct autoReset; cbn; rewrite ?elem_of_cons; naive_solver.
Qed.

Lemma trying_step ev s op :
  op ∈ map fst (trying s) →
  op ∈ map fst (trying (handle' ev s)) ∨ ∃ result, ev = EvTried op result ∧
    ((∃ e, result = inr e ∧ isVerificationRequiredError e = true) ∨ ops (handle' ev s) ⊆+ map fst (without op (trying s)) ++ map fst (starting s) ++ option_list (pendingApiCall s) ++ called (log s)).
Proof.
  intros Hop. destruct ev as [m|c|c|k r|k m|m c|id env|id r| |b|c|m]; cbn [SecureVerification.handle]; try (by left).
  - left. cbn. by right.
  - destruct (List.find _ _) as [[j c]|] eqn:Ef; [|by left]. destruct (decide (k = op)) as [->|Hne].
    + right. exists r. split; [done|]. unfold withVerification_settled. destruct r as [v|e]; [by right|].
      destruct (isVerificationRequiredError e) eqn:Ee; [left; by exists e|by right].
    + left. assert (Hw : op ∈ map fst (without k (trying s))).
      { apply list_elem_of_fmap in Hop as ([i y] & -> & Hin). apply list_elem_of_fmap. exists (i, y). split; [done|].
        apply list_elem_of_filter. split; [cbn in *; congruence|done]. }
      unfold withVerification_settled. repeat case_match; exact Hw.
  - destruct (List.find _ _) as [[j c]|]; [|by left]. unfold startVerification_settled. repeat case_match; by left.
  - unfold executeVerification. repeat case_match; by left.
  - destruct (List.find _ _) as [y|]; [|by left]. unfold execute_verified.
    destruct (verify _ _ _); cbn [pendingApiCall set_waiting]; repeat case_match; by left.
  - destruct (List.find _ _) as [[y k]|]; [|by left]. unfold execute_called.
    destruct r as [v|e]; [|by left]. destruct successMessage as [w|]; [destruct (truthy w)|]; destruct autoReset; by left.
Qed.

Definition refused (evs : list Event) (op : nat) : Prop :=
  ∃ pre e post, evs = pre ++ EvTried op (inr e) :: post ∧ isVerificationRequiredError e = true.

Lemma without_out {A} op (l : list (nat * A)) : op ∉ map fst (without op l).
Proof. intros ([i y] & -> & [Hne _]%list_elem_of_filter)%list_elem_of_fmap. by apply Hne. Qed.

(** An operation that was attempted is still being attempted, was refused, or is gone. *)
Lemma tried_where evs op :
  Tried op ∈ log (run' evs) →
  op < nextId (run' evs) ∧ (op ∈ map fst (trying (run' evs)) ∨ refused evs op ∨ op ∉ ops (run' evs)).
Proof.
  induction evs as [|ev evs IH] using rev_ind; [by intros ?%not_elem_of_nil|]. rewrite verify_run_snoc.
  intros [Hin|(config & -> & ->)]%tried_step; [|cbn; split; [lia|left; by left]].
  destruct (IH Hin) as [Hlt Hcases]. pose proof (run_Inv evs) as [Hnd Hnext _].
  assert (Hlt' : op < nextId (handle' ev (run' evs))) by (destruct (handle_ops ev (run' evs)) as [[_ ?]|[_ ?]]; lia).
  split; [done|]. destruct Hcases as [Htry|[(pre & e & post & -> & He)|Hout]].
  - destruct (trying_step ev _ _ Htry) as [?|(result & -> & [(e & -> & He)|Hsub])]; [by left|..].
    + right. left. by exists evs, e, [].
    + right. right. intros Hop. apply (elem_of_submseteq _ _ _ Hop) in Hsub. apply elem_of_app in Hsub as [?%without_out|Hrest]; [done|].
      unfold ops in Hnd. apply NoDup_app in Hnd as (_ & Hdis & _). by apply (Hdis op).
  - right. left. exists pre, e, (post ++ [ev]). by rewrite <- app_assoc.
  - right. right. destruct (handle_ops ev (run' evs)) as [[Hs _]|[Hs _]].
    + intros Hop. by apply Hout, (elem_of_submseteq _ _ _ Hop).
    + rewrite Hs. intros [->|?]%elem_of_cons; [lia|done].
Qed.

(** ** Properties *)

(** C7: a protected operation runs after a verification only if the server confirmed one that
    the user asked for.  When an operation has run from the dialog, the user had asked for a
    verification while some operation was pending, with the method given or the one the dialog
    showed and with the code given or typed; for exactly this method and code the server
    answered with success (for a one-time code, to a non-empty code; for a passkey, to the
    options, the signed assertion and the final request); the operation was the pending one at
    that moment, and it had not run from the dialog before.  (It need not be the operation that
    was pending when the user asked.)  An operation that [withVerification] had attempted first,
    without verification, runs from the dialog only if that attempt was refused with a demand
    for verification. *)
Theorem operation_confirmed evs op :
  op ∈ called (log (run' evs)) →
  (∃ pre method code mid env post x,
    evs = (pre ++ EvExecute method code :: mid) ++ EvVerify (x_id x) env :: post ∧
    asked_for (run' pre) method code x ∧ confirmed env (x_method x) (x_code x) ∧
    pendingApiCall (run' (pre ++ EvExecute method code :: mid)) = Some op ∧
    op ∉ called (log (run' (pre ++ EvExecute method code :: mid)))) ∧
  (Tried op ∈ log (run' evs) → refused evs op).
Proof.
  intros Hop. split.
  - revert Hop. induction evs as [|ev evs IH] using rev_ind; [by intros ?%not_elem_of_nil|]. rewrite verify_run_snoc.
    destruct (called_step ev (run' evs)) as [->|(id & env & x & op' & -> & Hin & <- & Hv & Hp & ->)].
    + intros (pre & m & c & mid & env & post & x & -> & H)%IH. exists pre, m, c, mid, env, (post ++ [ev]), x.
      by rewrite <- app_assoc.
    + intros [->|Hop]%elem_of_cons.
      * destruct (verifying_asked _ _ Hin) as (pre & m & c & mid & -> & Hx). exists pre, m, c, mid, env, [], x.
        split; [done|]. split; [done|]. split; [by apply verify_confirmed|]. split; [done|].
        pose proof (inv_ops _ (run_Inv (pre ++ EvExecute m c :: mid))) as Hnd. unfold ops in Hnd. rewrite Hp in Hnd. cbn in Hnd.
        apply NoDup_app in Hnd as (_ & _ & (_ & _ & Hnd)%NoDup_app). by apply NoDup_cons in Hnd as [? _].
      * destruct (IH Hop) as (pre & m & c & mid & env' & post & x' & -> & H).
        exists pre, m, c, mid, env', (post ++ [EvVerify (x_id x) env]), x'. by rewrite <- app_assoc.
  - intros Ht. destruct (tried_where _ _ Ht) as [_ [Htry|[?|Hout]]]; [|done|].
    + exfalso. pose proof (inv_ops _ (run_Inv evs)) as Hnd. unfold ops in Hnd. apply NoDup_app in Hnd as (_ & Hdis & _).
      apply (Hdis op Htry). set_solver.
    + exfalso. apply Hout. unfold ops. set_solver.
Qed.

(** C12: an operation runs at most once, and one that was cancelled while it was
    pending never runs, whatever verification is still in flight. *)
Theorem operation_once pre post op :
  NoDup (called (log (run' pre))) ∧
  (pendingApiCall (run' pre) = Some op →
   op ∉ called (log (run t successMessage autoReset post (cancel (run' pre))))).
Proof.
  pose proof (run_Inv pre) as [H1 H2 _]. split.
  - unfold ops in H1. by apply NoDup_app in H1 as (_ & _ & (_ & _ & (_ & _ & ?)%NoDup_app)%NoDup_app).
  - intros Hp Hin. apply (forgotten op post (cancel (run' pre))).
    + cbn. apply H2. unfold ops. rewrite Hp. set_solver.
    + unfold ops in *. cbn. rewrite Hp in H1. cbn in H1.
      rewrite !app_assoc in *. rewrite <- Permutation_middle in H1. by apply NoDup_cons in H1 as [? _].
    + unfold ops. set_solver.
Qed.

(** The dialog is never stuck.  While the hook says that it is loading or that
    a verification is running, a verification or an operation is in flight; a
    failed verification and the end of an operation, however it ends, release
    both, so that the user can try again. *)
Theorem verification_released evs :
  let s := run' evs in
  (verificationExecution s = true ∨ loading s = true → verifying s ≠ [] ∨ running s ≠ []) ∧
  (∀ id env x, List.find (fun x => x_id x =? id) (verifying s) = Some x → ¬ confirmed env (x_method x) (x_code x) →
     let s' := handle' (EvVerify id env) s in
     verificationExecution s' = false ∧ loading s' = false ∧ pendingApiCall s' = pendingApiCall s) ∧
  (∀ id r x op, List.find (fun x => x_id x.1 =? id) (running s) = Some (x, op) →
     let s' := handle' (EvReturn id r) s in verificationExecution s' = false ∧ loading s' = false ∧
       (autoReset = true → pendingApiCall s' = None ∧ isOpen s' = false)).
Proof.
  cbv zeta. split; [apply run_Inv|]. split.
  - intros id env x Hf Hc. cbn [SecureVerification.handle]. rewrite Hf. unfold execute_verified.
    destruct (verify env (x_method x) (x_code x)) as [[]|e] eqn:Ev; [|by cbn].
    by apply verify_confirmed in Ev.
  - intros id r x op Hf. cbn [SecureVerification.handle]. rewrite Hf. unfold execute_called.
    destruct r as [v|e]; [|by cbn]. cbn. split; [done|]. split; [done|]. by intros ->.
Qed.
End invariants.

(** C36: verifying fails only with a verification error that shows a known text.
    Whatever the server, the browser and the authenticator answer or throw, no
    other error reaches the hook, and the text is one of the table, a fallback of
    this file, or what a code that names a member of every object looks up. *)
Theorem verification_errors_closed env method code e :
  foreign_errors env → verify env method code = inr e → known_error e.
Proof.
  intros Hf. destruct method; cbn [verify]; [by apply verifyTwoFA_known|]. unfold verifyPasskey.
  destruct (negb _); [intros [= <-]; known|].
  destruct (verifyPasskey_body env) as [[]|e'] eqn:Eb; [done|]. intros [= <-].
  apply passkey_failure_known. by apply (verifyPasskey_body_known env).
Qed.

(** ** Witnesses *)

Definition demo_env (success : bool) : Environment :=
  MkEnvironment (fun _ => inl (JObj [("success" : jstr, JBool success); ("code" : jstr, JStr "secure_verification_failed")]))
    false (inr (DOMException "NotAllowedError" [])) (fun _ => inl None)
    (fun _ => inl (JObj [])) (inl (JObj [])).
Definition demo_t (k : MessageKey) : jstr := match k with key s | inherited s => s end.
Definition demo_config : StartVerificationOptions := MkStartOptions None None None.
Definition demo_methods : VerificationMethods := MkMethods true false false.
Abbreviation demo_run evs := (run demo_t None true evs initial).

Definition verified_run : list Event :=
  [EvStart demo_config; EvMethods 0 demo_methods; EvCode "123456"; EvExecute None None; EvVerify 1 (demo_env true)].

Lemma operation_confirmed_witness :
  called (log (demo_run verified_run)) = [0] ∧
  ∃ pre x env method code, asked_for (demo_run pre) method code x ∧ confirmed env (x_method x) (x_code x).
Proof.
  assert (Hc : called (log (demo_run verified_run)) = [0]) by (vm_compute; reflexivity).
  split; [exact Hc|].
  destruct (operation_confirmed demo_t None true verified_run 0) as [(pre & m & c & mid & env & post & x & _ & H1 & H2 & _) _].
  { rewrite Hc. by left. }
  by exists pre, x, env, m, c.
Defined.

Lemma operation_once_witness :
  let pre := [EvStart demo_config; EvMethods 0 demo_methods; EvExecute (Some two_fa) (Some ("123456" : jstr))] in
  pendingApiCall (demo_run pre) = Some 0 ∧
  0 ∉ called (log (run demo_t None true [EvVerify 1 (demo_env true)] (cancel (demo_run pre)))).
Proof.
  intros pre. assert (Hp : pendingApiCall (demo_run pre) = Some 0) by (vm_compute; reflexivity).
  split; [exact Hp|].
  exact (proj2 (operation_once demo_t None true pre [EvVerify 1 (demo_env true)] 0) Hp).
Defined.

Lemma verification_released_witness :
  let pre := [EvStart demo_config; EvMethods 0 demo_methods; EvExecute (Some two_fa) (Some ("123456" : jstr))] in
  loading (demo_run pre) = true ∧ (verifying (demo_run pre) ≠ [] ∨ running (demo_run pre) ≠ []).
Proof.
  intros pre. assert (Hl : loading (demo_run pre) = true) by (vm_compute; reflexivity).
  split; [exact Hl|]. apply (proj1 (verification_released demo_t None true pre)). right. exact Hl.
Defined.

Lemma verification_errors_closed_witness :
  verify (demo_env false) two_fa (Some ("000000" : jstr)) =
    inr (SecureVerificationError (key "The verification code or backup code is incorrect.")
           (Some ("secure_verification_failed" : jstr))) ∧
  known_error (SecureVerificationError (key "The verification code or backup code is incorrect.")
           (Some ("secure_verification_failed" : jstr))).
Proof.
  assert (Hv : verify (demo_env false) two_fa (Some ("000000" : jstr)) =
    inr (SecureVerificationError (key "The verification code or backup code is incorrect.")
           (Some ("secure_verification_failed" : jstr)))) by (vm_compute; reflexivity).
  split; [exact Hv|]. apply (verification_errors_closed (demo_env false) two_fa (Some ("000000" : jstr))); [|exact Hv].
  by constructor.
Defined.

(** A verification that is in flight when its operation is cancelled confirms the
    operation that is pending when it succeeds: here the second operation runs
    although the user never confirmed it. *)
Example stale_verification_confirms_next :
  let evs := [EvStart demo_config; EvMethods 0 demo_methods; EvExecute (Some two_fa) (Some ("123456" : jstr));
              EvCancel; EvStart demo_config; EvMethods 2 demo_methods; EvVerify 1 (demo_env true)] in
  called (log (demo_run evs)) = [2].
Proof. vm_compute. reflexivity. Qed.
