(* ===== verification/AdminAccess.v ===== *)
(** * Administrator permissions

    Model of [lib/admin-permissions.ts] and of the roles of [lib/roles.ts].  A
    permission matrix is a JavaScript object used as a map from resources to
    maps from actions to booleans; an [undefined] entry is an absent key.  The
    catalog of resources, actions and role grants comes from the server. *)

From S2P Require Import Prelude.
From stdpp Require Import gmap.

(** ** Data *)

Definition ROLE_GUEST : Z := 0.
Definition ROLE_USER : Z := 1.
Definition ROLE_ADMIN : Z := 10.
Definition ROLE_SUPER_ADMIN : Z := 100.

(** [ROLE_LABEL_KEYS[role] ?? ROLE_LABEL_KEYS[DEFAULT_ROLE]] *)
Definition getRoleLabelKey (role : option Z) : jstr :=
  match role with
  | Some 100%Z => "Super Admin"
  | Some 10%Z => "Admin"
  | Some 1%Z => "User"
  | _ => "Guest"
  end.

Abbreviation AdminPermissionMatrix := (gmap jstr (gmap jstr bool)).

(** What the checks read of the signed-in user. *)
Record AuthUser := MkUser { role : Z; admin_permissions : option AdminPermissionMatrix }.

Record PermissionActionDef := MkAction { action : jstr; a_label_key : jstr; description_key : jstr }.
Record PermissionResourceDef := MkResource { resource : jstr; r_label_key : jstr; actions : list PermissionActionDef }.
Record PermissionRoleDef := MkRole {
  role_key : jstr; role_name : jstr; built_in : bool; superuser : bool; grants : AdminPermissionMatrix;
}.
Record PermissionCatalog := MkCatalog { resources : list PermissionResourceDef; roles : list PermissionRoleDef }.

Definition CHANNEL : jstr := "channel".
Definition PAYMENT_GATEWAY : jstr := "payment_gateway".
Definition PAYMENT_OPERATIONS : jstr := "payment_operations".
Definition SYSTEM_SETTING : jstr := "system_setting".
Definition MANAGE : jstr := "manage".
Definition ADMIN_ROLE_KEY : jstr := "admin".

Definition EMPTY_PERMISSION_CATALOG : PermissionCatalog := MkCatalog [] [].

(** ** Operations *)

(** [m?.[resource]?.[action]] *)
Definition entry (m : AdminPermissionMatrix) (res act : jstr) : option bool :=
  match m !! res with Some acts => acts !! act | None => None end.

Definition hasPermission (user : option AuthUser) (res act : jstr) : bool :=
  match user with
  | None => false
  | Some user =>
    if (role user =? ROLE_SUPER_ADMIN)%Z then true
    else match admin_permissions user with
         | Some m => bool_decide (entry m res act = Some true)
         | None => false
         end
  end.

Definition canManageSystemSettings (user : option AuthUser) : bool := hasPermission user SYSTEM_SETTING MANAGE.
Definition canManagePaymentOperations (user : option AuthUser) : bool := hasPermission user PAYMENT_OPERATIONS MANAGE.
Definition canManagePaymentGateway (user : option AuthUser) : bool := hasPermission user PAYMENT_GATEWAY MANAGE.

Definition getSystemSettingsEntryUrl (user : option AuthUser) : option jstr :=
  if canManageSystemSettings user then Some "/system-settings/site"
  else if canManagePaymentOperations user then Some "/system-settings/billing/payment-operations"
  else None.

(** [catalog.roles.find(...)?.grants ?? {}] *)
Definition roleGrants (catalog : PermissionCatalog) (roleKey : jstr) : AdminPermissionMatrix :=
  match List.find (fun r => role_key r === roleKey) (roles catalog) with
  | Some r => grants r
  | None => ∅
  end.

(** The inner loop: the actions of one resource. *)
Definition normalized_actions (value baseline : AdminPermissionMatrix) (def : PermissionResourceDef) :
    gmap jstr bool :=
  foldl (fun acts a =>
    let v := match entry value (resource def) (action a) with
             | Some b => b
             | None => default false (entry baseline (resource def) (action a))
             end in
    <[action a := v]> acts) ∅ (actions def).

Definition normalizeAdminPermissions (value : option AdminPermissionMatrix) (catalog : PermissionCatalog) :
    AdminPermissionMatrix :=
  let baseline := roleGrants catalog ADMIN_ROLE_KEY in
  foldl (fun normalized def =>
    <[resource def := normalized_actions (default ∅ value) baseline def]> normalized) ∅ (resources catalog).

(** ** Reference *)

(** The definition of a resource that counts: the last one of that name. *)
Definition resource_def (catalog : PermissionCatalog) (res : jstr) : option PermissionResourceDef :=
  last (List.filter (fun d => resource d === res) (resources catalog)).

Definition declares (d : PermissionResourceDef) (act : jstr) : bool :=
  existsb (fun a => action a === act) (actions d).

(** ** Lemmas *)

Lemma foldl_insert_lookup {A B} (k : A → jstr) (f : A → B) (l : list A) (m : gmap jstr B) (i : jstr) :
  foldl (fun m a => <[k a := f a]> m) m l !! i =
  match last (List.filter (fun a => k a === i) l) with Some a => Some (f a) | None => m !! i end.
Proof.
  induction l as [|a l IH] using rev_ind; [done|].
  rewrite foldl_app, List.filter_app. simpl. destruct (jeqb_spec (k a) i) as [<-|Hne].
  - by rewrite lookup_insert_eq, last_snoc.
  - by rewrite lookup_insert_ne, app_nil_r.
Qed.

Lemma last_filter_existsb {A} (p : A → bool) l :
  existsb p l = bool_decide (is_Some (last (List.filter p l))).
Proof.
  apply eq_iff_eq_true. rewrite existsb_exists, bool_decide_eq_true. split.
  - intros (x & Hx & Hp). destruct (List.filter p l) eqn:E.
    + assert (x ∈ List.filter p l) as Hin by by rewrite list_elem_of_In, filter_In. rewrite E in Hin. by apply elem_of_nil in Hin.
    + apply last_is_Some. done.
  - intros [x Hx%last_Some_elem_of]. apply list_elem_of_In, filter_In in Hx. eauto.
Qed.

Lemma last_filter_true {A} (p : A → bool) l x : last (List.filter p l) = Some x → p x = true.
Proof. intros Hx%last_Some_elem_of. by apply list_elem_of_In, filter_In in Hx as [_ ?]. Qed.

Lemma normalized_actions_lookup value baseline d act :
  normalized_actions value baseline d !! act =
  if declares d act
  then Some (match entry value (resource d) act with
             | Some b => b
             | None => default false (entry baseline (resource d) act)
             end)
  else None.
Proof.
  unfold normalized_actions, declares. rewrite (foldl_insert_lookup action), last_filter_existsb.
  destruct (last _) as [a|] eqn:E.
  - apply last_filter_true, jeqb_true in E as <-. rewrite bool_decide_true by eauto. done.
  - rewrite bool_decide_false by by intros []. done.
Qed.

Lemma normalize_lookup value catalog res :
  normalizeAdminPermissions value catalog !! res =
  normalized_actions (default ∅ value) (roleGrants catalog ADMIN_ROLE_KEY) <$> resource_def catalog res.
Proof.
  unfold normalizeAdminPermissions, resource_def. rewrite foldl_insert_lookup. by destruct (last _).
Qed.

Lemma resource_def_name catalog res d : resource_def catalog res = Some d → resource d = res.
Proof. intros H. by apply last_filter_true, jeqb_true in H. Qed.

(** ** Properties *)

(** Normalizing completes a permission matrix over the catalog and does
    nothing else: an entry exists exactly for the actions the catalog declares,
    it is the given value where there is one, else the grant of the admin role,
    else [false]; normalizing twice changes nothing. *)
Theorem normalize_permissions_spec value catalog :
  (∀ res act, entry (normalizeAdminPermissions value catalog) res act =
     match resource_def catalog res with
     | Some d => if declares d act
                 then Some (match entry (default ∅ value) res act with
                            | Some b => b
                            | None => default false (entry (roleGrants catalog ADMIN_ROLE_KEY) res act)
                            end)
                 else None
     | None => None
     end) ∧
  normalizeAdminPermissions (Some (normalizeAdminPermissions value catalog)) catalog
  = normalizeAdminPermissions value catalog.
Proof.
  assert (Hentry : ∀ res act, entry (normalizeAdminPermissions value catalog) res act =
     match resource_def catalog res with
     | Some d => if declares d act
                 then Some (match entry (default ∅ value) res act with
                            | Some b => b
                            | None => default false (entry (roleGrants catalog ADMIN_ROLE_KEY) res act)
                            end)
                 else None
     | None => None
     end).
  { intros res act. unfold entry at 1. rewrite normalize_lookup.
    destruct (resource_def catalog res) as [d|] eqn:E; [|done]. simpl.
    rewrite normalized_actions_lookup. by rewrite (resource_def_name _ _ _ E). }
  split; [exact Hentry|]. apply map_eq. intros res. rewrite !normalize_lookup.
  destruct (resource_def catalog res) as [d|] eqn:E; [|done]. simpl. f_equal. apply map_eq. intros act.
  rewrite !normalized_actions_lookup. destruct (declares d act) eqn:Ed; [|done].
  rewrite (resource_def_name _ _ _ E), Hentry, E, Ed. done.
Qed.

(** A settings page is offered only to who may open it: super administrators
    hold every permission, anyone else exactly what the matrix grants with
    [true], and the entry page is one the user may manage. *)
Theorem settings_entry_permitted user url :
  (∀ u res act, user = Some u → role u = ROLE_SUPER_ADMIN → hasPermission user res act = true) ∧
  (∀ u res act, user = Some u → role u ≠ ROLE_SUPER_ADMIN → hasPermission user res act = true →
     ∃ m, admin_permissions u = Some m ∧ entry m res act = Some true) ∧
  (getSystemSettingsEntryUrl user = Some url →
     user ≠ None ∧
     (url = "/system-settings/site" ∧ hasPermission user SYSTEM_SETTING MANAGE = true ∨
      url = "/system-settings/billing/payment-operations" ∧
      hasPermission user SYSTEM_SETTING MANAGE = false ∧ hasPermission user PAYMENT_OPERATIONS MANAGE = true)).
Proof.
  split; [|split].
  - intros u res act -> Hr. unfold hasPermission. by rewrite Hr.
  - intros u res act -> Hr. unfold hasPermission. rewrite (proj2 (Z.eqb_neq _ _) Hr).
    destruct (admin_permissions u) as [m|]; [|done]. intros Hm%bool_decide_eq_true. eauto.
  - unfold getSystemSettingsEntryUrl, canManageSystemSettings, canManagePaymentOperations.
    destruct user as [u|]; [|done]. destruct (hasPermission (Some u) SYSTEM_SETTING MANAGE); [naive_solver|].
    destruct (hasPermission (Some u) PAYMENT_OPERATIONS MANAGE); naive_solver.
Qed.
