(* ===== verification/BillingExpr.v ===== *)
(** * Billing expressions

    Model of [features/pricing/lib/billing-expr.ts]: the tiers of a pricing
    expression, the request rules that multiply it, and the texts the rule editor
    writes.  A quotation mark inside a text is written [Q]; a call that can throw
    (a [SyntaxError] of [JSON.parse] that nobody catches) returns [Throws]. *)

From S2P Require Import Prelude JsRegExp JsValue JsText.

Definition Q : jstr := [34%N].

(** ** Variables *)

Inductive side := input_side | output_side | condition_side.

Record BillingVar := MkVar {
  bv_key : jstr; bv_field : option jstr; tierField : option jstr; bv_label : jstr; shortLabel : jstr;
  bv_side : side; isBase : bool; isConditionOnly : bool; bv_group : option jstr;
}.

Definition BILLING_VARS : list BillingVar := [
  MkVar "p" (Some "inputPrice") (Some "input_unit_cost") "Input price" "Input" input_side true false None;
  MkVar "c" (Some "outputPrice") (Some "output_unit_cost") "Completion price" "Output" output_side true false None;
  MkVar "len" None None "Input length" "Length" condition_side false true None;
  MkVar "cr" (Some "cacheReadPrice") (Some "cache_read_unit_cost") "Cache read price" "Cache Read"
    input_side false false (Some "cache");
  MkVar "cc" (Some "cacheCreatePrice") (Some "cache_create_unit_cost") "Cache create price" "Cache Write"
    input_side false false (Some "cache");
  MkVar "cc1h" (Some "cacheCreate1hPrice") (Some "cache_create_1h_unit_cost") "Cache create (1h) price"
    "Cache Write (1h)" input_side false false (Some "cache");
  MkVar "img" (Some "imagePrice") (Some "image_unit_cost") "Image input price" "Image In"
    input_side false false (Some "media");
  MkVar "img_o" (Some "imageOutputPrice") (Some "image_output_unit_cost") "Image output price" "Image Out"
    output_side false false (Some "media");
  MkVar "ai" (Some "audioInputPrice") (Some "audio_input_unit_cost") "Audio input price" "Audio In"
    input_side false false (Some "media");
  MkVar "ao" (Some "audioOutputPrice") (Some "audio_output_unit_cost") "Audio output price" "Audio Out"
    output_side false false (Some "media")
].

Definition BILLING_PRICING_VARS : list BillingVar := List.filter (fun v => negb (isConditionOnly v)) BILLING_VARS.

Definition BILLING_CONDITION_VARS : list jstr :=
  map bv_key (List.filter (fun v => isBase v || isConditionOnly v) BILLING_VARS).

Definition BILLING_VAR_KEY_TO_FIELD : list (jstr * jstr) :=
  map (fun v => (bv_key v, default [] (bv_field v))) BILLING_PRICING_VARS.

Definition BILLING_EXTRA_VARS : list BillingVar :=
  List.filter (fun v => negb (isBase v) && negb (isConditionOnly v)) BILLING_VARS.

Record CacheVar := MkCacheVar { cv_field : jstr; exprVar : jstr }.

Definition BILLING_CACHE_VAR_MAP : list CacheVar :=
  map (fun v => MkCacheVar (default [] (tierField v)) (bv_key v)) BILLING_EXTRA_VARS.

(** ** Patterns *)

Definition ws : regex := rstar (RUnit is_ws).
(** [[\d.eE+-]] and [[\d.eE+]] *)
Definition num_unit (c : N) : bool := is_digit c || one_of ".eE+-" c.
Definition unsigned_unit (c : N) : bool := is_digit c || one_of ".eE+" c.
Definition not_quote : N → bool := none_of Q.
(** [.] without and with the [s] flag *)
Definition dot : N → bool := none_of [10; 13; 0x2028; 0x2029]%N.
Definition any (c : N) : bool := true.

(** A variable, a product sign and a number. *)
Definition BILLING_VAR_REGEX : regex :=
  (RWordB · RGroup 1 (ralts (map bv_key BILLING_PRICING_VARS)) · ws · rlit "*" · ws ·
   RGroup 2 (rplus (RUnit num_unit)))%re.

(** An optional sign, digits with an optional point, an optional exponent. *)
Definition NUMERIC_LITERAL_REGEX : regex :=
  (RBol · ropt (rlit "-") ·
   ((rplus (RUnit is_digit) · ropt (rlit ".") · rstar (RUnit is_digit)) <+>
    (rlit "." · rplus (RUnit is_digit))) ·
   ropt (RUnit (one_of "eE") · ropt (RUnit (one_of "+-")) · rplus (RUnit is_digit)) · REol)%re.

(** ** Conditions and rules *)

Definition SOURCE_PARAM : jstr := "param".
Definition SOURCE_HEADER : jstr := "header".
Definition SOURCE_TIME : jstr := "time".
Definition MATCH_EQ : jstr := "eq".
Definition MATCH_CONTAINS : jstr := "contains".
Definition MATCH_GT : jstr := "gt".
Definition MATCH_GTE : jstr := "gte".
Definition MATCH_LT : jstr := "lt".
Definition MATCH_LTE : jstr := "lte".
Definition MATCH_EXISTS : jstr := "exists".
Definition MATCH_RANGE : jstr := "range".

Definition TIME_FUNCS : list jstr := ["hour"; "minute"; "weekday"; "month"; "day"].

Inductive ph_source := param | header.

Definition source_text (s : ph_source) : jstr := match s with param => SOURCE_PARAM | header => SOURCE_HEADER end.

Record ParamHeaderCondition := MkPH { source : ph_source; path : jstr; ph_mode : jstr; ph_value : jstr }.

Record TimeCondition := MkTime {
  timeFunc : jstr; timezone : jstr; t_mode : jstr; t_value : jstr; rangeStart : jstr; rangeEnd : jstr;
}.

Inductive RequestCondition := CTime (c : TimeCondition) | CPH (c : ParamHeaderCondition).

Record RequestRuleGroup := MkGroup { conditions : list RequestCondition; multiplier : jstr }.

Record TierCondition := MkTierCondition { tc_var : jstr; tc_op : jstr; tc_value : num }.

(** [tier[field]] are the prices. *)
Record ParsedTier := MkTier { pt_label : jstr; pt_conditions : list TierCondition; prices : list (jstr * num) }.

(** ** Tiers *)

(** A version prefix such as [v1:], and the rest. *)
Definition re_version : regex :=
  (RBol · rlit "v" · RGroup 1 (rplus (RUnit is_digit)) · rlit ":" · RGroup 2 (rstar (RUnit any)) · REol)%re.

Definition stripExprVersion (exprStr : jstr) : num * jstr :=
  if negb (truthy exprStr) then (num_of_Z 1, [])
  else match exec re_version exprStr with
       | Some m => (string_to_number (default [] (cap 1 m)), default [] (cap 2 m))
       | None => (num_of_Z 1, exprStr)
       end.

(** [x || 0] for an optional number *)
Definition or_zero (o : option num) : num :=
  match o with Some x => if num_truthy x then x else num_of_Z 0 | None => num_of_Z 0 end.

Definition parseTierBody (bodyStr : jstr) : list (jstr * num) :=
  let coeffs := foldl (fun cs m =>
      let k := default [] (cap 1 m) in
      match map_get k cs with
      | Some _ => cs
      | None => map_set k (string_to_number (default [] (cap 2 m))) cs
      end) [] (matchAll BILLING_VAR_REGEX bodyStr) in
  map (fun vf => (vf.2, or_zero (map_get vf.1 coeffs))) BILLING_VAR_KEY_TO_FIELD.

(** One comparison, [(?:p|c|len)\s*(?:<|<=|>|>=)\s*[\d.eE+]+] *)
Definition re_comparison : regex :=
  (ralts ["p"; "c"; "len"] · ws · ralts ["<"; "<="; ">"; ">="] · ws · rplus (RUnit unsigned_unit))%re.

Definition re_and : regex := (ws · rlit "&&" · ws)%re.

Definition condGroup (i : nat) : regex := RGroup i (re_comparison · rstar (re_and · re_comparison))%re.

(** An optional condition with its question mark, then the call of [tier] with a
    quoted label and a body without closing parenthesis. *)
Definition tierRe : regex :=
  (ropt (condGroup 1 · ws · rlit "?" · ws) · rlit ("tier(" ++ Q) · RGroup 2 (rstar (RUnit not_quote)) ·
   rlit (Q ++ ",") · ws · RGroup 3 (rplus (RUnit (none_of ")"))) · rlit ")")%re.

(** [/^(p|c|len)\s*(<|<=|>|>=)\s*([\d.eE+]+)$/] *)
Definition re_tier_condition : regex :=
  (RBol · RGroup 1 (ralts ["p"; "c"; "len"]) · ws · RGroup 2 (ralts ["<"; "<="; ">"; ">="]) · ws ·
   RGroup 3 (rplus (RUnit unsigned_unit)) · REol)%re.

(** [s.split(re)] for a pattern that matches no empty text *)
Definition split_re (r : regex) (s : jstr) : list jstr :=
  let '(pieces, from) := foldl (fun '(pieces, from) m =>
      (pieces ++ [slice from (m_index m) s], m_index m + length (m_text m))) ([], 0) (matchAll r s) in
  pieces ++ [drop from s].

(** [s.replaceAll(re, by)] *)
Definition replace_re (r : regex) (by_ s : jstr) : jstr := join by_ (split_re r s).

Definition parse_tier_conditions (condStr : jstr) : list TierCondition :=
  if negb (truthy condStr) then []
  else
    concat (map (fun cp =>
      match exec re_tier_condition (trim cp) with
      | Some cm => [MkTierCondition (default [] (cap 1 cm)) (default [] (cap 2 cm))
                      (string_to_number (default [] (cap 3 cm)))]
      | None => []
      end) (split_re re_and condStr)).

Definition parseTiersFromExpr (exprStr : jstr) : list ParsedTier :=
  if negb (truthy exprStr) then []
  else
    let body := (stripExprVersion exprStr).2 in
    map (fun m => MkTier (default [] (cap 2 m)) (parse_tier_conditions (default [] (cap 1 m)))
                    (parseTierBody (default [] (cap 3 m)))) (matchAll tierRe body).

(** [/<[=＝]?|≤|＜[=＝]?/g] and its mirror image *)
Definition re_less : regex :=
  ((rlit "<" · ropt (RUnit (one_of "=＝"))) <+> rlit "≤" <+> (rlit "＜" · ropt (RUnit (one_of "=＝"))))%re.
Definition re_greater : regex :=
  ((rlit ">" · ropt (RUnit (one_of "=＝"))) <+> rlit "≥" <+> (rlit "＞" · ropt (RUnit (one_of "=＝"))))%re.

Definition normalizeTierLabel `{UnicodeCase} (label : option jstr) : jstr :=
  match label with
  | None => []
  | Some label =>
    if negb (truthy label) then []
    else toLowerCase (replace_units is_ws [] (replace_re re_greater ">" (replace_re re_less "<" label)))
  end.

Example tiers_example :
  parseTiersFromExpr ("v1:p <= 2e5 && len > 10 ? tier(" ++ Q ++ "small" ++ Q ++ ", p * 1.5 + c*2 + cr * 0.1) : tier("
    ++ Q ++ "big" ++ Q ++ ", p * 3 + c * 4)")
  = [MkTier "small" [MkTierCondition "p" "<=" (num_of_Z 200000); MkTierCondition "len" ">" (num_of_Z 10)]
       [("inputPrice", num_of_decimal false 15 (-1)); ("outputPrice", num_of_Z 2);
        ("cacheReadPrice", num_of_decimal false 1 (-1)); ("cacheCreatePrice", num_of_Z 0);
        ("cacheCreate1hPrice", num_of_Z 0); ("imagePrice", num_of_Z 0); ("imageOutputPrice", num_of_Z 0);
        ("audioInputPrice", num_of_Z 0); ("audioOutputPrice", num_of_Z 0)];
     MkTier "big" []
       [("inputPrice", num_of_Z 3); ("outputPrice", num_of_Z 4); ("cacheReadPrice", num_of_Z 0);
        ("cacheCreatePrice", num_of_Z 0); ("cacheCreate1hPrice", num_of_Z 0); ("imagePrice", num_of_Z 0);
        ("imageOutputPrice", num_of_Z 0); ("audioInputPrice", num_of_Z 0); ("audioOutputPrice", num_of_Z 0)]].
Proof. by vm_compute. Qed.

(** ** Request rules: reading *)

(** The scan of [splitTopLevelMultiply] and [splitTopLevelAnd]: [cur] is the
    current part, reversed; [skip] counts the units of a separator still to be
    passed over. *)
Definition paren (c : N) : Z := if (c =? 40)%N then 1%Z else if (c =? 41)%N then (-1)%Z else 0%Z.

Fixpoint split_top (sep : jstr) (depth : Z) (cur : jstr) (skip : nat) (expr : jstr) : list jstr :=
  match expr with
  | [] => [trim (reverse cur)]
  | c :: r =>
    match skip with
    | S k => split_top sep depth cur k r
    | O =>
      let depth := (depth + paren c)%Z in
      if (depth =? 0)%Z && startsWith sep expr
      then trim (reverse cur) :: split_top sep depth [] (length sep - 1) r
      else split_top sep depth (c :: cur) 0 r
    end
  end.

Definition splitTopLevelMultiply (expr : jstr) : list jstr := List.filter truthy (split_top " * " 0 [] 0 expr).
Definition splitTopLevelAnd (expr : jstr) : list jstr := List.filter truthy (split_top " && " 0 [] 0 expr).

(** [None] is [null]; the result of [JSON.parse] may be any value. *)
Definition parseExprLiteral (raw : jstr) : option jsval :=
  let text := trim raw in
  if (text === "true") || (text === "false") then Some (JStr text)
  else if test NUMERIC_LITERAL_REGEX text then Some (JStr text)
  else match JSON_parse text with
       | Some JNull | None => None
       | Some v => Some v
       end.

Definition re_call (fn : regex) (arg : regex) : regex := (fn · rlit ("(" ++ Q) · arg · rlit (Q ++ ")"))%re.

(** [fn("tz") >= a || fn("tz") < b], quotation marks omitted *)
Definition re_range : regex :=
  (RGroup 1 (ralts TIME_FUNCS) · rlit ("(" ++ Q) · RGroup 2 (rplus (RUnit not_quote)) · rlit (Q ++ ") >= ") ·
   RGroup 3 (rplus (RUnit num_unit)) · rlit " || " · RBackref 1 · rlit ("(" ++ Q) · RBackref 2 ·
   rlit (Q ++ ") < ") · RGroup 4 (rplus (RUnit num_unit)))%re.

Definition re_time_range : regex := (RBol · re_range · REol)%re.
Definition re_time_range_parens : regex := (RBol · rlit "(" · re_range · rlit ")" · REol)%re.
Definition re_time_compare : regex :=
  (RBol · RGroup 1 (ralts TIME_FUNCS) · rlit ("(" ++ Q) · RGroup 2 (rplus (RUnit not_quote)) · rlit (Q ++ ") ") ·
   RGroup 3 (ralts ["=="; ">="; "<"]) · rlit " " · RGroup 4 (rplus (RUnit num_unit)) · REol)%re.

Definition group_text (i : nat) (m : rmatched) : jstr := default [] (cap i m).

Definition tryParseTimeCondition (expr : jstr) : option RequestCondition :=
  let range m := Some (CTime (MkTime (group_text 1 m) (group_text 2 m) MATCH_RANGE [] (group_text 3 m) (group_text 4 m))) in
  match exec re_time_range expr with
  | Some m => range m
  | None =>
    match exec re_time_range_parens expr with
    | Some m => range m
    | None =>
      match exec re_time_compare expr with
      | Some m =>
        let op := group_text 3 m in
        let mode := if op === "==" then MATCH_EQ else if op === ">=" then MATCH_GTE
                    else if op === "<" then MATCH_LT else MATCH_EQ in
        Some (CTime (MkTime (group_text 1 m) (group_text 2 m) mode (group_text 4 m) [] []))
      | None => None
      end
    end
  end.

Definition re_quoted (i : nat) : regex := (rlit ("(" ++ Q) · RGroup i (rplus (RUnit not_quote)) · rlit (Q ++ ")"))%re.
(** A quoted text with escapes. *)
Definition re_string (i : nat) : regex :=
  RGroup i (rlit Q · rstar (RUnit (none_of (Q ++ "\")) <+> (rlit "\" · RUnit dot)) · rlit Q)%re.

Definition re_header_exists : regex := (RBol · rlit "header" · re_quoted 1 · rlit (" != " ++ Q ++ Q) · REol)%re.
Definition re_param_exists : regex := (RBol · rlit "param" · re_quoted 1 · rlit " != nil" · REol)%re.
Definition re_header_contains : regex :=
  (RBol · rlit "has(header" · re_quoted 1 · rlit ", " · re_string 2 · rlit ")" · REol)%re.
Definition re_param_contains : regex :=
  (RBol · rlit "param" · re_quoted 1 · rlit " != nil && has(param" · re_quoted 2 · rlit ", " · re_string 3 ·
   rlit ")" · REol)%re.
Definition re_param_compare : regex :=
  (RBol · rlit "param" · re_quoted 1 · rlit " != nil && param" · re_quoted 2 · rlit " " ·
   RGroup 3 (ralts [">"; ">="; "<"; "<="]) · rlit " " · RGroup 4 (rplus (RUnit num_unit)) · REol)%re.
Definition re_equals : regex :=
  (RBol · RGroup 1 (ralts ["param"; "header"]) · rlit ("(" ++ Q) · RGroup 2 (rplus (RUnit not_quote)) ·
   rlit (Q ++ ") == ") · RGroup 3 (rplus (RUnit dot)) · REol)%re.

(** [JSON.parse(m)], uncaught *)
Definition parse_or_throw (s : jstr) : outcome jstr :=
  match JSON_parse s with
  | Some (JStr t) => Ret t
  | Some v => Ret (value_to_string v)
  | None => Throws
  end.

Definition tryParseRequestCondition (expr : jstr) : outcome (option RequestCondition) :=
  match tryParseTimeCondition expr with
  | Some tc => Ret (Some tc)
  | None =>
    match exec re_header_exists expr with
    | Some m => Ret (Some (CPH (MkPH header (group_text 1 m) MATCH_EXISTS [])))
    | None =>
    match exec re_param_exists expr with
    | Some m => Ret (Some (CPH (MkPH param (group_text 1 m) MATCH_EXISTS [])))
    | None =>
    match exec re_header_contains expr with
    | Some m => v ⇐ parse_or_throw (group_text 2 m);
                Ret (Some (CPH (MkPH header (group_text 1 m) MATCH_CONTAINS v)))
    | None =>
    let equals :=
      match exec re_equals expr with
      | Some m =>
        match parseExprLiteral (group_text 3 m) with
        | None => Ret None
        | Some v => Ret (Some (CPH (MkPH (if group_text 1 m === "param" then param else header)
                                      (group_text 2 m) MATCH_EQ (value_to_string v))))
        end
      | None => Ret None
      end in
    let compare :=
      match exec re_param_compare expr with
      | Some m =>
        if group_text 1 m === group_text 2 m then
          let op := group_text 3 m in
          let mode := if op === ">" then MATCH_GT else if op === ">=" then MATCH_GTE
                      else if op === "<" then MATCH_LT else MATCH_LTE in
          Ret (Some (CPH (MkPH param (group_text 1 m) mode (group_text 4 m))))
        else equals
      | None => equals
      end in
    match exec re_param_contains expr with
    | Some m =>
      if group_text 1 m === group_text 2 m
      then v ⇐ parse_or_throw (group_text 3 m);
           Ret (Some (CPH (MkPH param (group_text 1 m) MATCH_CONTAINS v)))
      else compare
    | None => compare
    end
    end end end
  end.

(** The condition, the multiplier, and the neutral alternative [1]. *)
Definition re_factor : regex :=
  (RBol · rlit "(" · RGroup 1 (rplus (RUnit any)) · rlit " ? " · RGroup 2 (rplus (RUnit num_unit)) ·
   rlit " : 1)" · REol)%re.

Fixpoint parse_conditions (parts : list jstr) : outcome (option (list RequestCondition)) :=
  match parts with
  | [] => Ret (Some [])
  | ap :: parts' =>
    cond ⇐ tryParseRequestCondition (trim ap);
    match cond with
    | None => Ret None
    | Some cond => conds ⇐ parse_conditions parts'; Ret (cons cond <$> conds)
    end
  end.

Definition tryParseRuleGroupFactor (part : jstr) : outcome (option RequestRuleGroup) :=
  match exec re_factor part with
  | None => Ret None
  | Some m =>
    conds ⇐ parse_conditions (splitTopLevelAnd (group_text 1 m));
    match conds with
    | None | Some [] => Ret None
    | Some conds => Ret (Some (MkGroup conds (group_text 2 m)))
    end
  end.

Fixpoint parse_groups (parts : list jstr) : outcome (option (list RequestRuleGroup)) :=
  match parts with
  | [] => Ret (Some [])
  | part :: parts' =>
    group ⇐ tryParseRuleGroupFactor part;
    match group with
    | None => Ret None
    | Some group => groups ⇐ parse_groups parts'; Ret (cons group <$> groups)
    end
  end.

Definition tryParseRequestRuleExpr (expr : jstr) : outcome (option (list RequestRuleGroup)) :=
  let trimmed := trim expr in
  if negb (truthy trimmed) then Ret (Some []) else parse_groups (splitTopLevelMultiply trimmed).

(** ** Combining and splitting *)

(** The loop of [hasFullOuterParens]: the depth never returns to zero before the
    last unit. *)
Fixpoint outer_go (depth : Z) (s : jstr) : bool :=
  match s with
  | [] => (depth =? 0)%Z
  | c :: s' =>
    let depth := (depth + paren c)%Z in
    if (depth =? 0)%Z && truthy s' then false else outer_go depth s'
  end.

Definition hasFullOuterParens (expr : jstr) : bool :=
  startsWith "(" expr && endsWith ")" expr && outer_go 0 expr.

(** [current.slice(1, -1)] *)
Definition inner (s : jstr) : jstr := take (length s - 2) (drop 1 s).

Fixpoint unwrap_go (fuel : nat) (current : jstr) : jstr :=
  match fuel with
  | O => current
  | S f => if hasFullOuterParens current then unwrap_go f (trim (inner current)) else current
  end.

Definition unwrapOuterParens (expr : jstr) : jstr := unwrap_go (length expr) (trim expr).

Record SplitExpr := MkSplit { billingExpr : jstr; requestRuleExpr : jstr }.

Fixpoint partition_parts (parts : list jstr) : outcome (list jstr * list jstr) :=
  match parts with
  | [] => Ret ([], [])
  | part :: parts' =>
    parsed ⇐ tryParseRequestRuleExpr part;
    rest ⇐ partition_parts parts';
    Ret (match parsed with
         | Some (_ :: _) => (part :: rest.1, rest.2)
         | _ => (rest.1, part :: rest.2)
         end)
  end.

Definition splitBillingExprAndRequestRules (expr : jstr) : outcome SplitExpr :=
  let trimmed := trim expr in
  if negb (truthy trimmed) then Ret (MkSplit [] [])
  else
    let parts := splitTopLevelMultiply trimmed in
    if length parts <=? 1 then Ret (MkSplit trimmed [])
    else
      rb ⇐ partition_parts parts;
      let '(ruleParts, baseParts) := rb in
      Ret (match ruleParts, baseParts with
           | [], _ => MkSplit trimmed []
           | _, [base] => MkSplit (unwrapOuterParens base) (join " * " ruleParts)
           | _, _ => MkSplit trimmed []
           end).

Definition combineBillingExpr (baseExpr requestRuleExpr : jstr) : jstr :=
  let base := trim baseExpr in
  let rules := trim requestRuleExpr in
  if negb (truthy base) then []
  else if negb (truthy rules) then base
  else "(" ++ base ++ ") * " ++ rules.

(** ** Request rules: editing and writing *)

Definition createEmptyCondition : ParamHeaderCondition := MkPH param [] MATCH_EQ [].
Definition createEmptyTimeCondition : TimeCondition := MkTime "hour" "Asia/Shanghai" MATCH_GTE [] [] [].
Definition createEmptyRuleGroup : RequestRuleGroup := MkGroup [CPH createEmptyCondition] [].
Definition createEmptyTimeRuleGroup : RequestRuleGroup := MkGroup [CTime createEmptyTimeCondition] [].

Record MatchOption := MkOption { o_value : jstr; labelKey : jstr }.

Definition getRequestRuleMatchOptions (source : jstr) : list MatchOption :=
  if source === SOURCE_TIME then
    [MkOption MATCH_EQ "Equals"; MkOption MATCH_GTE "Greater than or equal"; MkOption MATCH_LT "Less than";
     MkOption MATCH_RANGE "Overnight range"]
  else
    let base := [MkOption MATCH_EQ "Equals"; MkOption MATCH_CONTAINS "Contains"; MkOption MATCH_EXISTS "Exists"] in
    if source === SOURCE_HEADER then base
    else base ++ [MkOption MATCH_GT "Greater than"; MkOption MATCH_GTE "Greater than or equal";
                  MkOption MATCH_LT "Less than"; MkOption MATCH_LTE "Less than or equal"].

(** [Partial<RequestCondition>]: the fields of both kinds, each optional. *)
Record PartialCondition := MkPartial {
  p_source : option jstr; p_timeFunc : option jstr; p_timezone : option jstr; p_mode : option jstr;
  p_value : option jstr; p_rangeStart : option jstr; p_rangeEnd : option jstr; p_path : option jstr;
}.

Definition partial_of (cond : RequestCondition) : PartialCondition :=
  match cond with
  | CTime c => MkPartial (Some SOURCE_TIME) (Some (timeFunc c)) (Some (timezone c)) (Some (t_mode c))
                 (Some (t_value c)) (Some (rangeStart c)) (Some (rangeEnd c)) None
  | CPH c => MkPartial (Some (source_text (source c))) None None (Some (ph_mode c)) (Some (ph_value c)) None None
               (Some (path c))
  end.

Definition isTimeFunc (value : jstr) : bool := has value TIME_FUNCS.

(** The mode when it is one of the options, else the default. *)
Definition mode_or (options : list MatchOption) (mode : option jstr) (fallback : jstr) : jstr :=
  match mode with
  | Some m => if existsb (fun item => o_value item === m) options then m else fallback
  | None => fallback
  end.

Definition normalizeCondition (cond : option PartialCondition) : RequestCondition :=
  let field (f : PartialCondition → option jstr) := match cond with Some c => f c | None => None end in
  match field p_source with
  | Some s =>
    if s === "time" then
      CTime {|
        timeFunc := match field p_timeFunc with Some f => if isTimeFunc f then f else "hour" | None => "hour" end;
        timezone := jor (default [] (field p_timezone)) "Asia/Shanghai";
        t_mode := mode_or (getRequestRuleMatchOptions SOURCE_TIME) (field p_mode) MATCH_GTE;
        t_value := default [] (field p_value);
        rangeStart := default [] (field p_rangeStart);
        rangeEnd := default [] (field p_rangeEnd) |}
    else
      let src := if s === "header" then header else param in
      CPH (MkPH src (default [] (field p_path))
             (mode_or (getRequestRuleMatchOptions (source_text src)) (field p_mode) MATCH_EQ)
             (default [] (field p_value)))
  | None =>
    CPH (MkPH param (default [] (field p_path))
           (mode_or (getRequestRuleMatchOptions SOURCE_PARAM) (field p_mode) MATCH_EQ)
           (default [] (field p_value)))
  end.

Definition buildExprLiteral (mode value : jstr) : jstr :=
  let text := trim value in
  if mode === MATCH_CONTAINS then JSON_quote text
  else if (text === "true") || (text === "false") then text
  else if test NUMERIC_LITERAL_REGEX text then text
  else JSON_quote text.

(** The comparison sign of a time condition. *)
Definition time_op (mode : jstr) : jstr :=
  if mode === MATCH_EQ then "==" else if mode === MATCH_GTE then ">=" else if mode === MATCH_LT then "<" else "==".

Definition buildTimeConditionExpr (cond : TimeCondition) : jstr :=
  match normalizeCondition (Some (partial_of (CTime cond))) with
  | CTime n =>
    let fn := timeFunc n ++ "(" ++ JSON_quote (timezone n) ++ ")" in
    if t_mode n === MATCH_RANGE then
      let s := trim (rangeStart n) in
      let e := trim (rangeEnd n) in
      if negb (test NUMERIC_LITERAL_REGEX s) || negb (test NUMERIC_LITERAL_REGEX e) then []
      else fn ++ " >= " ++ s ++ " || " ++ fn ++ " < " ++ e
    else
      let v := trim (t_value n) in
      if negb (test NUMERIC_LITERAL_REGEX v) then []
      else fn ++ " " ++ time_op (t_mode n) ++ " " ++ v
  | CPH _ => []
  end.

Definition compare_op (mode : jstr) : jstr :=
  if mode === MATCH_GT then ">" else if mode === MATCH_GTE then ">=" else if mode === MATCH_LT then "<" else "<=".

Definition buildParamHeaderExpr (cond : ParamHeaderCondition) : jstr :=
  match normalizeCondition (Some (partial_of (CPH cond))) with
  | CPH n =>
    let path := trim (path n) in
    if negb (truthy path) then []
    else
      let sourceExpr := source_text (source n) ++ "(" ++ JSON_quote path ++ ")" in
      let mode := ph_mode n in
      if mode === MATCH_EXISTS then
        match source n with header => sourceExpr ++ " != " ++ Q ++ Q | param => sourceExpr ++ " != nil" end
      else if mode === MATCH_CONTAINS then
        match source n with
        | header => "has(" ++ sourceExpr ++ ", " ++ buildExprLiteral mode (ph_value n) ++ ")"
        | param => sourceExpr ++ " != nil && has(" ++ sourceExpr ++ ", " ++ buildExprLiteral mode (ph_value n) ++ ")"
        end
      else if (mode === MATCH_GT) || (mode === MATCH_GTE) || (mode === MATCH_LT) || (mode === MATCH_LTE) then
        let numText := trim (ph_value n) in
        if negb (test NUMERIC_LITERAL_REGEX numText) then []
        else sourceExpr ++ " != nil && " ++ sourceExpr ++ " " ++ compare_op mode ++ " " ++ numText
      else sourceExpr ++ " == " ++ buildExprLiteral mode (ph_value n)
  | CTime _ => []
  end.

Definition buildRequestConditionExpr (cond : RequestCondition) : jstr :=
  match cond with
  | CTime c => buildTimeConditionExpr c
  | CPH c => buildParamHeaderExpr c
  end.

(** A condition among others: an alternative is put in parentheses. *)
Definition wrap_or (e : jstr) : jstr := if includes " || " e then "(" ++ e ++ ")" else e.

Definition buildRuleGroupFactor (group : RequestRuleGroup) : jstr :=
  let multiplier := trim (multiplier group) in
  if negb (test NUMERIC_LITERAL_REGEX multiplier) then []
  else
    let condExprs := List.filter truthy (map buildRequestConditionExpr (conditions group)) in
    match condExprs with
    | [] => []
    | _ =>
      let combined := match condExprs with
                      | [e] => e
                      | _ => join " && " (map wrap_or condExprs)
                      end in
      "(" ++ combined ++ " ? " ++ multiplier ++ " : 1)"
    end.

Definition buildRequestRuleExpr (groups : list RequestRuleGroup) : jstr :=
  join " * " (List.filter truthy (map buildRuleGroupFactor groups)).

(** Some texts and what is read from them. *)
Definition demo_groups : list RequestRuleGroup := [
  MkGroup [CTime (MkTime "hour" "Asia/Shanghai" MATCH_RANGE [] "21" "6"); CPH (MkPH header "x-tier" MATCH_EXISTS [])] "1.5";
  MkGroup [CPH (MkPH param "service_tier" MATCH_EQ "fast")] "2"
].

Example demo_groups_read_back :
  tryParseRequestRuleExpr (buildRequestRuleExpr demo_groups) = Ret (Some demo_groups) ∧
  splitBillingExprAndRequestRules (combineBillingExpr "tier(x) * 2" (buildRequestRuleExpr demo_groups))
  = Ret (MkSplit "tier(x) * 2" (buildRequestRuleExpr demo_groups)).
Proof. by vm_compute. Qed.

(** ** What the patterns read *)

(** [fn("arg")] *)
Definition call (fn arg : jstr) : jstr := fn ++ "(" ++ Q ++ arg ++ Q ++ ")".

(** A non-empty run of a class. *)
Definition run (p : N → bool) (w : jstr) : Prop := forallb p w = true ∧ w ≠ [].

Lemma run_of_length p w : forallb p w = true → 1 <= length w → run p w.
Proof. intros H1 H2. split; [done|]. by destruct w; [simpl in H2; lia|]. Qed.

Lemma run_length p w : run p w → 1 <= length w.
Proof. intros [_ H]. destruct w; [done|]. simpl. lia. Qed.

(** Evaluates the captures of a match. *)
Ltac caps_simpl :=
  repeat first [rewrite set_cap_eq | rewrite set_cap_ne by lia]; cbn [default from_option id].
Ltac groups_of Hcaps := unfold group_text, cap; first [rewrite Hcaps | rewrite <- Hcaps]; caps_simpl.

(** Closes the shape equations left by [MR_read]. *)
Ltac shape := unfold call; rewrite <- ?app_assoc, ?app_nil_r; done.

#[local] Hint Resolve run_of_length : core.

Definition range_text (f tz a b : jstr) : jstr := call f tz ++ " >= " ++ a ++ " || " ++ call f tz ++ " < " ++ b.

Lemma MR_range s cs s' cs' :
  MR re_range s cs s' cs' →
  ∃ f tz a b, f ∈ TIME_FUNCS ∧ run not_quote tz ∧ run num_unit a ∧ run num_unit b ∧
    s = range_text f tz a b ++ s' ∧ cs' = set_cap 4 b (set_cap 3 a (set_cap 2 tz (set_cap 1 f cs))).
Proof.
  unfold re_range. intros HM. MR_read. subst. caps_simpl.
  match goal with |- context [set_cap 4 ?b (set_cap 3 ?a (set_cap 2 ?tz (set_cap 1 ?f cs)))] =>
    exists f, tz, a, b end.
  split; [done|]. do 3 (split; [by auto|]). split; [|done]. unfold range_text. shape.
Qed.

Lemma time_range_sound s m :
  exec re_time_range s = Some m →
  ∃ f tz a b, f ∈ TIME_FUNCS ∧ run not_quote tz ∧ run num_unit a ∧ run num_unit b ∧ s = range_text f tz a b ∧
    group_text 1 m = f ∧ group_text 2 m = tz ∧ group_text 3 m = a ∧ group_text 4 m = b.
Proof.
  intros H. exec_read H. apply MR_range in H as (f & tz & a & b & Hf & Htz & Ha & Hb & -> & Hc).
  subst. exists f, tz, a, b. rewrite app_nil_r. groups_of Hc. done.
Qed.

Lemma time_range_parens_sound s m :
  exec re_time_range_parens s = Some m →
  ∃ f tz a b, f ∈ TIME_FUNCS ∧ run not_quote tz ∧ run num_unit a ∧ run num_unit b ∧
    s = "(" ++ range_text f tz a b ++ ")" ∧
    group_text 1 m = f ∧ group_text 2 m = tz ∧ group_text 3 m = a ∧ group_text 4 m = b.
Proof.
  intros H. exec_read H.
  match goal with H : MR re_range _ _ _ _ |- _ =>
    apply MR_range in H as (f & tz & a & b & Hf & Htz & Ha & Hb & -> & Hc) end.
  subst. exists f, tz, a, b. groups_of Hc. done.
Qed.

Definition compare_text (f tz op v : jstr) : jstr := call f tz ++ " " ++ op ++ " " ++ v.

Lemma time_compare_sound s m :
  exec re_time_compare s = Some m →
  ∃ f tz op v, f ∈ TIME_FUNCS ∧ run not_quote tz ∧ op ∈ ["=="; ">="; "<"] ∧ run num_unit v ∧
    s = compare_text f tz op v ∧
    group_text 1 m = f ∧ group_text 2 m = tz ∧ group_text 3 m = op ∧ group_text 4 m = v.
Proof.
  intros H. exec_read H.
  match goal with Hc : _ = set_cap 4 ?v (set_cap 3 ?op (set_cap 2 ?tz (set_cap 1 ?f []))) |- _ =>
    exists f, tz, op, v; groups_of Hc end.
  split; [done|]. split; [by auto|]. split; [done|]. split; [by auto|]. split; [|done].
  unfold compare_text. shape.
Qed.

Lemma header_exists_sound s m :
  exec re_header_exists s = Some m →
  run not_quote (group_text 1 m) ∧ s = call "header" (group_text 1 m) ++ " != " ++ Q ++ Q.
Proof.
  intros H. unfold re_header_exists, re_quoted in H. exec_read H.
  match goal with Hc : _ = set_cap 1 ?p [] |- _ => groups_of Hc end. split; [by auto|]. shape.
Qed.

Lemma param_exists_sound s m :
  exec re_param_exists s = Some m →
  run not_quote (group_text 1 m) ∧ s = call "param" (group_text 1 m) ++ " != nil".
Proof.
  intros H. unfold re_param_exists, re_quoted in H. exec_read H.
  match goal with Hc : _ = set_cap 1 ?p [] |- _ => groups_of Hc end. split; [by auto|]. shape.
Qed.

Lemma header_contains_sound s m :
  exec re_header_contains s = Some m →
  run not_quote (group_text 1 m) ∧ s = "has(" ++ call "header" (group_text 1 m) ++ ", " ++ group_text 2 m ++ ")".
Proof.
  intros H. unfold re_header_contains, re_quoted, re_string in H. exec_read H.
  match goal with H : MR (RRep _ _ _) _ _ _ _ |- _ => apply MR_no_groups in H; [subst|done] end.
  match goal with Hc : _ = set_cap 2 _ (set_cap 1 _ []) |- _ => groups_of Hc end. split; [by auto|]. shape.
Qed.

(** The remaining conditions start with a test for [nil] and hold an [and]. *)
Lemma param_contains_sound s m :
  exec re_param_contains s = Some m →
  ∃ p r, run not_quote p ∧ s = call "param" p ++ " != nil" ++ r.
Proof.
  intros H. unfold re_param_contains, re_quoted in H. exec_read H.
  match goal with |- context [("(" ++ Q) ++ ?p ++ (Q ++ ")") ++ ?lit ++ ?r] =>
    exists p, (drop (length (" != nil"%js)) lit ++ r) end.
  split; [by auto|]. shape.
Qed.

Lemma param_compare_sound s m :
  exec re_param_compare s = Some m →
  ∃ p r, run not_quote p ∧ s = call "param" p ++ " != nil" ++ r.
Proof.
  intros H. unfold re_param_compare, re_quoted in H. exec_read H.
  match goal with |- context [("(" ++ Q) ++ ?p ++ (Q ++ ")") ++ ?lit ++ ?r] =>
    exists p, (drop (length (" != nil"%js)) lit ++ r) end.
  split; [by auto|]. shape.
Qed.

Lemma equals_sound s m :
  exec re_equals s = Some m →
  group_text 1 m ∈ ["param"; "header"] ∧ run not_quote (group_text 2 m) ∧ run dot (group_text 3 m) ∧
  s = call (group_text 1 m) (group_text 2 m) ++ " == " ++ group_text 3 m.
Proof.
  intros H. unfold re_equals in H. exec_read H.
  match goal with Hc : _ = set_cap 3 _ (set_cap 2 _ (set_cap 1 _ [])) |- _ => groups_of Hc end.
  split; [done|]. do 2 (split; [by auto|]). shape.
Qed.

Lemma factor_sound s m :
  exec re_factor s = Some m →
  group_text 1 m ≠ [] ∧ run num_unit (group_text 2 m) ∧
  s = "(" ++ group_text 1 m ++ " ? " ++ group_text 2 m ++ " : 1)".
Proof.
  intros H. unfold re_factor in H. exec_read H.
  match goal with Hc : _ = set_cap 2 _ (set_cap 1 _ []) |- _ => groups_of Hc end.
  split; [|split; [by auto|shape]].
  match goal with H : 1 <= length ?x |- ?x ≠ [] => destruct x; [simpl in H; lia|done] end.
Qed.

(** ** Conditions that are read back *)

Definition numeric (v : jstr) : Prop := test NUMERIC_LITERAL_REGEX v = true.

Lemma numeric_run v : numeric v → run num_unit v.
Proof.
  intros Hv. split; [|intros ->; by vm_compute in Hv].
  apply (test_units num_unit) in Hv; [done|done|].
  assert (Hd : ∀ c, is_digit c = true → num_unit c = true) by (intros c H; unfold num_unit; by rewrite H).
  assert (Ho : ∀ l c, forallb num_unit l = true → one_of l c = true → num_unit c = true).
  { intros l c Hl Hc. unfold one_of in Hc. apply existsb_exists in Hc as (d & Hd' & ->%N.eqb_eq).
    by apply (proj1 (forallb_forall _ _) Hl). }
  cbn [units_in]. repeat split; 
    first [exact I | exact Hd | intros c Hc; by eapply Ho in Hc | by intros c <-%N.eqb_eq].
Qed.

Lemma num_unit_not_ws c : num_unit c = true → is_ws c = false.
Proof.
  unfold num_unit. intros [H|H]%orb_true_iff; [by apply is_digit_not_ws|].
  apply existsb_exists in H as (d & Hd & ->%N.eqb_eq). simpl in Hd. destruct_or? Hd; subst; done.
Qed.

Lemma numeric_trim v : numeric v → trim v = v.
Proof.
  intros [H _]%numeric_run. apply trim_no_ws, Forall_forall. intros c Hc. apply num_unit_not_ws.
  by apply (forallb_elem _ _ _ H).
Qed.

(** Characters that need no escape and take no part in the grammar. *)
Definition plain_unit (c : N) : bool :=
  (32 <=? c)%N && (c <? 65536)%N && negb (in_range 0xD800 0xDFFF c) && none_of (Q ++ "\()&|") c && dot c.

Definition plain (s : jstr) : Prop := forallb plain_unit s = true.

Lemma plain_spec s : plain s → forall c, c ∈ s →
  (32 <= c < 65536)%N ∧ in_range 0xD800 0xDFFF c = false ∧ (c ∉ Q ++ "\()&|") ∧ dot c = true.
Proof.
  intros Hs c Hc. apply (forallb_elem _ _ _ Hs) in Hc. unfold plain_unit in Hc. bool_hyps.
  repeat split; try done. intros Hin. unfold none_of, one_of in *.
  match goal with H : negb (existsb _ _) = true |- _ => apply negb_true_iff, not_true_iff_false in H; apply H end.
  apply existsb_exists. exists c. split; [by apply list_elem_of_In|by apply N.eqb_eq].
Qed.

Lemma quote_plain s : plain s → JSON_quote s = Q ++ s ++ Q.
Proof.
  intros Hs. unfold JSON_quote. change (34%N :: quote_body s ++ [34%N]) with (Q ++ quote_body s ++ Q).
  f_equal. f_equal. pose proof (plain_spec s Hs) as H. clear Hs. induction s as [|c s IH]; [done|].
  rewrite quote_body_cons. destruct (H c) as (Hr & Hsur & Hno & _); [left|].
  rewrite IH by (intros d Hd; apply H; by right).
  repeat match goal with |- context [(c =? ?k)%N] => rewrite (proj2 (N.eqb_neq c k)) by
    (first [lia | intros ->; apply Hno; vm_compute; set_solver]) end.
  rewrite (proj2 (N.ltb_ge c 32)) by lia. unfold in_range in *.
  destruct ((0xD800 <=? c)%N && (c <=? 0xDBFF)%N) eqn:E1.
  { bool_hyps. rewrite (proj2 (N.leb_le _ _)), (proj2 (N.leb_le c 0xDFFF)) in Hsur by lia. done. }
  destruct ((0xDC00 <=? c)%N && (c <=? 0xDFFF)%N) eqn:E2; [|done].
  bool_hyps. rewrite (proj2 (N.leb_le 0xD800 c)), (proj2 (N.leb_le c 0xDFFF)) in Hsur by lia. done.
Qed.

Lemma plain_not_quote s : plain s → forallb not_quote s = true.
Proof.
  intros Hs. apply forallb_forall. intros c Hc%list_elem_of_In. destruct (plain_spec s Hs c Hc) as (_ & _ & Hn & _).
  unfold not_quote, none_of, one_of, Q. simpl. rewrite orb_false_r. apply negb_true_iff, N.eqb_neq. intros ->.
  apply Hn. vm_compute. left.
Qed.

Lemma plain_dot s : plain s → forallb dot s = true.
Proof.
  intros Hs. apply forallb_forall. intros c Hc%list_elem_of_In. by destruct (plain_spec s Hs c Hc) as (_ & _ & _ & ?).
Qed.

(** Names of functions and sources. *)
Definition names : list jstr := TIME_FUNCS ++ ["param"; "header"].

Lemma names_lower f : f ∈ names → forallb is_lower f = true.
Proof. intros Hf. by apply (forallb_elem (forallb is_lower) names); [vm_compute|]. Qed.

Lemma call_inj f a f' a' x y :
  f ∈ names → f' ∈ names → forallb not_quote a = true → forallb not_quote a' = true →
  call f a ++ x = call f' a' ++ y → f = f' ∧ a = a' ∧ x = y.
Proof.
  intros Hf%names_lower Hf'%names_lower Ha Ha'. unfold call. rewrite <- !app_assoc. intros E.
  apply (unique_run is_lower) in E as [-> E]; [|done|done|by intros ? ? [= <- _]|by intros ? ? [= <- _]].
  injection E as E. apply (unique_run not_quote) in E as [-> E];
    [|done|done|by intros ? ? [= <- _]|by intros ? ? [= <- _]].
  by injection E as ->.
Qed.

Lemma time_names f : f ∈ TIME_FUNCS → f ∈ names.
Proof. intros. apply elem_of_app. by left. Qed.
Lemma param_name : ("param"%js) ∈ names.
Proof. vm_compute. set_solver. Qed.
Lemma header_name : ("header"%js) ∈ names.
Proof. vm_compute. set_solver. Qed.
#[local] Hint Resolve time_names param_name header_name plain_not_quote : core.

Lemma run_not_quote s : run not_quote s → forallb not_quote s = true.
Proof. by intros []. Qed.
#[local] Hint Resolve run_not_quote : core.

Lemma range_inj f tz a b f' tz' a' b' :
  f ∈ names → f' ∈ names → forallb not_quote tz = true → forallb not_quote tz' = true →
  forallb num_unit a = true → forallb num_unit a' = true →
  range_text f tz a b = range_text f' tz' a' b' → f = f' ∧ tz = tz' ∧ a = a' ∧ b = b'.
Proof.
  intros Hf Hf' Htz Htz' Ha Ha' E. unfold range_text in E.
  apply call_inj in E as (-> & -> & E); [|done..]. injection E as E.
  apply (unique_run num_unit) in E as [-> E]; [|done|done|by intros ? ? [= <- _]|by intros ? ? [= <- _]].
  injection E as E. apply call_inj in E as (_ & _ & E); [|done..]. by injection E as ->.
Qed.

Lemma reads_range f tz a b s cs :
  f ∈ TIME_FUNCS → run not_quote tz → run num_unit a → run num_unit b →
  reads re_range (range_text f tz a b ++ s) cs s (set_cap 4 b (set_cap 3 a (set_cap 2 tz (set_cap 1 f cs)))).
Proof.
  intros Hf [Ht Ht'] [Ha Ha'] [Hb Hb']. unfold re_range, range_text, call. rewrite <- !app_assoc.
  pose proof (run_length not_quote tz (conj Ht Ht')). pose proof (run_length num_unit a (conj Ha Ha')).
  pose proof (run_length num_unit b (conj Hb Hb')).
  eapply reads_seq; [by apply reads_group, reads_alts|].
  eapply reads_seq; [apply (reads_lit ("(" ++ Q))|].
  eapply reads_seq; [by apply reads_group, reads_class|].
  eapply reads_seq; [apply (reads_lit (Q ++ ") >= "))|].
  eapply reads_seq; [by apply reads_group, reads_class|].
  eapply reads_seq; [apply reads_lit|].
  eapply reads_seq; [apply reads_backref; by caps_simpl|].
  eapply reads_seq; [apply (reads_lit ("(" ++ Q))|].
  eapply reads_seq; [apply reads_backref; by caps_simpl|].
  eapply reads_seq; [apply (reads_lit (Q ++ ") < "))|].
  by apply reads_group, reads_class.
Qed.

(** *** Time conditions *)

Lemma name_not_paren f r r' : f ∈ names → f ++ r ≠ "(" ++ r'.
Proof.
  intros Hf E. pose proof (names_lower f Hf) as Hl. destruct f as [|c f]; simpl in *.
  - vm_compute in Hf. set_solver.
  - injection E as -> _. done.
Qed.

Lemma time_range_read f tz a b :
  f ∈ TIME_FUNCS → run not_quote tz → run num_unit a → run num_unit b →
  tryParseTimeCondition (range_text f tz a b) = Some (CTime (MkTime f tz MATCH_RANGE [] a b)).
Proof.
  intros Hf Htz Ha Hb. unfold tryParseTimeCondition.
  destruct (exec_reads (re_range · REol) (range_text f tz a b)
    (set_cap 4 b (set_cap 3 a (set_cap 2 tz (set_cap 1 f []))))) as [m Hm].
  { eapply reads_seq; [|apply reads_eol]. rewrite <- (app_nil_r (range_text f tz a b)). by apply reads_range. }
  change (exec re_time_range (range_text f tz a b) = Some m) in Hm. rewrite Hm.
  apply time_range_sound in Hm as (f' & tz' & a' & b' & Hf' & Ht' & [Ha' _] & _ & E & -> & -> & -> & ->).
  destruct Ha as [Ha _]. apply range_inj in E as (-> & -> & -> & ->); auto.
Qed.

Lemma time_range_parens_read f tz a b :
  f ∈ TIME_FUNCS → run not_quote tz → run num_unit a → run num_unit b →
  tryParseTimeCondition ("(" ++ range_text f tz a b ++ ")") = Some (CTime (MkTime f tz MATCH_RANGE [] a b)).
Proof.
  intros Hf Htz Ha Hb. unfold tryParseTimeCondition.
  destruct (exec re_time_range _) as [m|] eqn:E0.
  { apply time_range_sound in E0 as (f' & tz' & a' & b' & Hf' & _ & _ & _ & E & _). exfalso.
    unfold range_text at 2, call in E. rewrite <- !app_assoc in E. symmetry in E.
    eapply name_not_paren; [by apply time_names|exact E]. }
  destruct (exec_reads (rlit "(" · re_range · rlit ")" · REol) ("(" ++ range_text f tz a b ++ ")")
    (set_cap 4 b (set_cap 3 a (set_cap 2 tz (set_cap 1 f []))))) as [m Hm].
  { eapply reads_seq; [apply reads_lit|]. eapply reads_seq; [by apply reads_range|].
    eapply reads_seq; [apply (reads_lit ")" [])|apply reads_eol]. }
  change (exec re_time_range_parens ("(" ++ range_text f tz a b ++ ")") = Some m) in Hm. rewrite Hm.
  apply time_range_parens_sound in Hm as (f' & tz' & a' & b' & Hf' & Ht' & [Ha' _] & _ & E & -> & -> & -> & ->).
  apply app_inv_head, app_inv_tail in E.
  destruct Ha as [Ha _]. apply range_inj in E as (-> & -> & -> & ->); auto.
Qed.

Lemma compare_not_range f tz op v f' tz' a b :
  f ∈ names → f' ∈ names → forallb not_quote tz = true → forallb not_quote tz' = true →
  op ∈ ["=="; ">="; "<"] → forallb num_unit v = true →
  compare_text f tz op v ≠ range_text f' tz' a b.
Proof.
  intros Hf Hf' Ht Ht' Hop Hv E. unfold compare_text, range_text in E.
  apply call_inj in E as (_ & _ & E); [|done..].
  rewrite !elem_of_cons, elem_of_nil in Hop. destruct Hop as [->|[->|[->|[]]]]; simpl in E; try done.
  injection E as E. assert (Hin : 32%N ∈ v) by (rewrite E; set_solver).
  by pose proof (forallb_elem _ _ _ Hv Hin).
Qed.

Definition mode_of_op (op : jstr) : jstr :=
  if op === "==" then MATCH_EQ else if op === ">=" then MATCH_GTE else if op === "<" then MATCH_LT else MATCH_EQ.

Lemma time_compare_read f tz op v :
  f ∈ TIME_FUNCS → run not_quote tz → op ∈ ["=="; ">="; "<"] → run num_unit v →
  tryParseTimeCondition (compare_text f tz op v) = Some (CTime (MkTime f tz (mode_of_op op) v [] [])).
Proof.
  intros Hf Htz Hop Hv. unfold tryParseTimeCondition.
  destruct (exec re_time_range _) as [m|] eqn:E0.
  { apply time_range_sound in E0 as (f' & tz' & a' & b' & Hf' & Ht' & _ & _ & E & _). exfalso.
    destruct Hv as [Hv _]. eapply compare_not_range in E; eauto. }
  destruct (exec re_time_range_parens _) as [m|] eqn:E1.
  { apply time_range_parens_sound in E1 as (f' & tz' & a' & b' & _ & _ & _ & _ & E & _). exfalso.
    unfold compare_text, call in E. rewrite <- !app_assoc in E.
    eapply name_not_paren; [by apply time_names|exact E]. }
  assert (Htz' := run_length _ _ Htz). assert (Hv' := run_length _ _ Hv). destruct Htz as [Ht Ht0], Hv as [Hv Hv0].
  destruct (exec_reads (RGroup 1 (ralts TIME_FUNCS) · rlit ("(" ++ Q) · RGroup 2 (rplus (RUnit not_quote)) ·
    rlit (Q ++ ") ") · RGroup 3 (ralts ["=="; ">="; "<"]) · rlit " " · RGroup 4 (rplus (RUnit num_unit)) · REol)
    (compare_text f tz op v) (set_cap 4 v (set_cap 3 op (set_cap 2 tz (set_cap 1 f []))))) as [m Hm].
  { unfold compare_text, call. rewrite <- !app_assoc. rewrite <- (app_nil_r v) at 1.
    eapply reads_seq; [by apply reads_group, reads_alts|].
    eapply reads_seq; [apply (reads_lit ("(" ++ Q))|].
    eapply reads_seq; [by apply reads_group, reads_class|].
    eapply reads_seq; [apply (reads_lit (Q ++ ") "))|].
    eapply reads_seq; [by apply reads_group, reads_alts|].
    eapply reads_seq; [apply reads_lit|].
    eapply reads_seq; [by apply reads_group, reads_class|apply reads_eol]. }
  change (exec re_time_compare (compare_text f tz op v) = Some m) in Hm. rewrite Hm.
  apply time_compare_sound in Hm as (f' & tz' & op' & v' & Hf' & [Ht' _] & Hop' & [Hv1 _] & E & -> & -> & -> & ->).
  unfold compare_text in E. apply call_inj in E as (-> & -> & E); [|by auto..]. injection E as E.
  assert (op = op' ∧ v = v') as [-> ->]; [|done].
  rewrite !elem_of_cons, elem_of_nil in Hop, Hop'.
  destruct Hop as [->|[->|[->|[]]]], Hop' as [->|[->|[->|[]]]]; simpl in E; by simplify_eq.
Qed.

(** A text that starts with no time function and no parenthesis is none. *)
Lemma time_none s :
  (∀ f r, f ∈ TIME_FUNCS → s ≠ f ++ "(" ++ r) → (∀ r, s ≠ "(" ++ r) → tryParseTimeCondition s = None.
Proof.
  intros Hf Hp. unfold tryParseTimeCondition.
  destruct (exec re_time_range s) as [m|] eqn:E0.
  { apply time_range_sound in E0 as (f & tz & a & b & Hin & _ & _ & _ & E & _). exfalso.
    unfold range_text, call in E. rewrite <- !app_assoc in E. by apply Hf in E. }
  destruct (exec re_time_range_parens s) as [m|] eqn:E1.
  { apply time_range_parens_sound in E1 as (? & ? & ? & ? & _ & _ & _ & _ & E & _). by apply Hp in E. }
  destruct (exec re_time_compare s) as [m|] eqn:E2; [|done].
  apply time_compare_sound in E2 as (f & tz & a & b & Hin & _ & _ & _ & E & _). exfalso.
  unfold compare_text, call in E. rewrite <- !app_assoc in E. by apply Hf in E.
Qed.

(** *** Conditions on parameters and headers *)

Lemma reads_quoted i a s cs :
  run not_quote a → reads (re_quoted i) ("(" ++ Q ++ a ++ Q ++ ")" ++ s) cs s (set_cap i a cs).
Proof.
  intros Ha. pose proof (run_length _ _ Ha) as Hl. destruct Ha as [Ha Hn]. unfold re_quoted.
  eapply reads_seq; [apply (reads_lit ("(" ++ Q))|].
  eapply reads_seq; [by apply reads_group, reads_class|]. apply (reads_lit (Q ++ ")")).
Qed.

Lemma header_exists_iff s : (∃ m, exec re_header_exists s = Some m) ↔
  ∃ p, run not_quote p ∧ s = call "header" p ++ " != " ++ Q ++ Q.
Proof.
  split.
  - intros [m H]. apply header_exists_sound in H as []. eauto.
  - intros (p & Hp & ->). eapply exec_reads. unfold call. rewrite <- !app_assoc.
    eapply reads_seq; [apply reads_lit|]. eapply reads_seq; [by apply reads_quoted|].
    eapply reads_seq; [apply (reads_lit (" != " ++ Q ++ Q) [])|apply reads_eol].
Qed.

Lemma param_exists_iff s : (∃ m, exec re_param_exists s = Some m) ↔
  ∃ p, run not_quote p ∧ s = call "param" p ++ " != nil".
Proof.
  split.
  - intros [m H]. apply param_exists_sound in H as []. eauto.
  - intros (p & Hp & ->). eapply exec_reads. unfold call. rewrite <- !app_assoc.
    eapply reads_seq; [apply reads_lit|]. eapply reads_seq; [by apply reads_quoted|].
    eapply reads_seq; [apply (reads_lit " != nil" [])|apply reads_eol].
Qed.

Lemma equals_found src p l :
  src ∈ ["param"; "header"] → run not_quote p → run dot l → ∃ m, exec re_equals (call src p ++ " == " ++ l) = Some m.
Proof.
  intros Hs Hp Hl. pose proof (run_length _ _ Hp). pose proof (run_length _ _ Hl).
  destruct Hp as [Hp _], Hl as [Hl _]. rewrite <- (app_nil_r l). unfold call. rewrite <- !app_assoc.
  eapply exec_reads.
  eapply reads_seq; [by apply reads_group, reads_alts|].
  eapply reads_seq; [apply (reads_lit ("(" ++ Q))|].
  eapply reads_seq; [by apply reads_group, reads_class|].
  eapply reads_seq; [apply (reads_lit (Q ++ ") == "))|].
  eapply reads_seq; [by apply reads_group, reads_class|apply reads_eol].
Qed.

(** A text that starts with a call of another name is no time condition. *)
Lemma time_none_call f a r : f ∈ ["param"; "header"; "has"] → tryParseTimeCondition (f ++ "(" ++ a ++ r) = None.
Proof.
  intros Hf. apply time_none.
  - intros g r' Hg E. apply (unique_run is_lower) in E as [-> _];
      [| | |by intros ? ? [= <- _]|by intros ? ? [= <- _]].
    + vm_compute in Hf, Hg. set_solver.
    + apply (forallb_elem (forallb is_lower) ["param"; "header"; "has"]); done.
    + by apply names_lower, time_names.
  - intros r' E. rewrite !elem_of_cons, elem_of_nil in Hf. destruct Hf as [->|[->|[->|[]]]]; by inversion E.
Qed.

Lemma plain_none_of s : plain s → ∀ c, c ∈ s → none_of (Q ++ "\") c = true.
Proof.
  intros Hs c Hc. destruct (plain_spec s Hs c Hc) as (_ & _ & Hn & _).
  unfold none_of, one_of. apply negb_true_iff, not_true_iff_false. intros (d & Hd & ->%N.eqb_eq)%existsb_exists.
  apply Hn. simpl in Hd. destruct_or? Hd; subst; vm_compute; set_solver.
Qed.

Lemma header_contains_found p v :
  run not_quote p → plain v →
  ∃ m, exec re_header_contains ("has(" ++ call "header" p ++ ", " ++ (Q ++ v ++ Q) ++ ")") = Some m.
Proof.
  intros Hp Hv. unfold call. rewrite <- !app_assoc. eapply exec_reads.
  eapply reads_seq; [apply (reads_lit "has(header")|]. eapply reads_seq; [by apply reads_quoted|].
  eapply reads_seq; [apply reads_lit|].
  eapply reads_seq; [|eapply reads_seq; [apply (reads_lit ")" [])|apply reads_eol]].
  replace (Q ++ v ++ Q ++ ")") with ((Q ++ v ++ Q) ++ ")") by by rewrite <- !app_assoc.
  apply reads_group. rewrite <- !app_assoc.
  eapply reads_seq; [apply reads_lit|]. eapply reads_seq; [|apply reads_lit].
  apply reads_star; [done|]. intros c t Hc. apply reads_alt_l, reads_unit. by apply (plain_none_of v).
Qed.

(** ** The texts of conditions *)

Definition exists_text (s : ph_source) : jstr := match s with header => Q ++ Q | param => "nil" end.

(** The conditions whose text is read back, with the text. *)
Inductive written : RequestCondition → jstr → Prop :=
  | written_range f tz a b : f ∈ TIME_FUNCS → plain tz → tz ≠ [] → numeric a → numeric b →
      written (CTime (MkTime f tz MATCH_RANGE [] a b)) (range_text f tz a b)
  | written_compare f tz op v : f ∈ TIME_FUNCS → plain tz → tz ≠ [] → op ∈ ["=="; ">="; "<"] → numeric v →
      written (CTime (MkTime f tz (mode_of_op op) v [] [])) (compare_text f tz op v)
  | written_exists src p : plain p → p ≠ [] → trimmed p →
      written (CPH (MkPH src p MATCH_EXISTS [])) (call (source_text src) p ++ " != " ++ exists_text src)
  | written_contains p v : plain p → p ≠ [] → trimmed p → plain v → trimmed v →
      written (CPH (MkPH header p MATCH_CONTAINS v))
        ("has(" ++ call "header" p ++ ", " ++ (Q ++ v ++ Q) ++ ")")
  | written_equals src p v : plain p → p ≠ [] → trimmed p → plain v → trimmed v →
      written (CPH (MkPH src p MATCH_EQ v)) (call (source_text src) p ++ " == " ++ buildExprLiteral MATCH_EQ v).

Lemma plain_run s : plain s → s ≠ [] → run not_quote s.
Proof. intros. split; auto. Qed.
Lemma source_name src : source_text src ∈ names.
Proof. destruct src; auto. Qed.
#[local] Hint Resolve plain_run numeric_run source_name : core.

Lemma source_call src : source_text src ∈ ["param"; "header"; "has"].
Proof. destruct src; vm_compute; set_solver. Qed.

(** Closes a branch whose pattern reads a call of another name or another
    comparison. *)
Ltac other_call E :=
  exfalso; first
  [ apply call_inj in E as (? & _ & ?); [|by auto..]; by simplify_eq
  | unfold call in E; rewrite <- ?app_assoc in E; by inversion E ].

Lemma exists_read src p :
  run not_quote p →
  tryParseRequestCondition (call (source_text src) p ++ " != " ++ exists_text src)
  = Ret (Some (CPH (MkPH src p MATCH_EXISTS []))).
Proof.
  intros Hp. unfold tryParseRequestCondition.
  replace (tryParseTimeCondition _) with (@None RequestCondition).
  2:{ unfold call. rewrite <- !app_assoc. symmetry. apply (time_none_call _ Q), source_call. }
  destruct (exec re_header_exists _) as [m|] eqn:E1.
  { apply header_exists_sound in E1 as [Hm E]. destruct src; [other_call E|].
    apply call_inj in E as (_ & <- & _); auto. }
  destruct src; cbn [source_text exists_text] in *.
  - destruct (proj2 (param_exists_iff (call "param" p ++ " != nil"))) as [m Hm]; [by exists p|].
    change (exec re_param_exists (call SOURCE_PARAM p ++ " != " ++ "nil") = Some m) in Hm. rewrite Hm.
    apply param_exists_sound in Hm as [Hm E]. apply (call_inj "param" _ "param") in E as (_ & <- & _); auto.
  - destruct (proj2 (header_exists_iff (call "header" p ++ " != " ++ Q ++ Q))) as [m Hm]; [by exists p|].
    change (exec re_header_exists (call SOURCE_HEADER p ++ " != " ++ Q ++ Q) = Some m) in Hm. by rewrite E1 in Hm.
Qed.

Lemma parse_plain v : plain v → JSON_parse (Q ++ v ++ Q) = Some (JStr v).
Proof.
  intros Hv. rewrite <- quote_plain by done. apply JSON_parse_quote, Forall_forall.
  intros c Hc. by destruct (plain_spec v Hv c Hc) as ([_ ?] & _).
Qed.

(** The patterns before the last two read nothing but calls of [header] and
    [param]. *)
Lemma contains_read p v :
  run not_quote p → plain v →
  tryParseRequestCondition ("has(" ++ call "header" p ++ ", " ++ (Q ++ v ++ Q) ++ ")")
  = Ret (Some (CPH (MkPH header p MATCH_CONTAINS v))).
Proof.
  intros Hp Hv. unfold tryParseRequestCondition.
  replace (tryParseTimeCondition _) with (@None RequestCondition).
  2:{ symmetry. apply (time_none_call "has" []). vm_compute. set_solver. }
  destruct (exec re_header_exists _) as [m|] eqn:E1.
  { apply header_exists_sound in E1 as [Hm E]. other_call E. }
  destruct (exec re_param_exists _) as [m|] eqn:E2.
  { apply param_exists_sound in E2 as [Hm E]. other_call E. }
  destruct (header_contains_found p v Hp Hv) as [m Hm]. rewrite Hm.
  apply header_contains_sound in Hm as [Hm E]. apply app_inv_head in E.
  apply call_inj in E as (_ & <- & E); [|by auto..]. apply app_inv_head, app_inv_tail in E. rewrite <- E.
  unfold parse_or_throw. by rewrite parse_plain.
Qed.

Lemma literal_read v : plain v → trimmed v → parseExprLiteral (buildExprLiteral MATCH_EQ v) = Some (JStr v).
Proof.
  intros Hp Hv. unfold buildExprLiteral. rewrite Hv. change (MATCH_EQ === MATCH_CONTAINS) with false.
  destruct ((v === "true") || (v === "false")) eqn:E1.
  { unfold parseExprLiteral. by rewrite Hv, E1. }
  destruct (test NUMERIC_LITERAL_REGEX v) eqn:E2.
  { unfold parseExprLiteral. by rewrite Hv, E1, E2. }
  rewrite quote_plain by done. unfold parseExprLiteral.
  rewrite trim_id; [|by intros c [= <-]|].
  2:{ intros c. rewrite app_assoc. change ((Q ++ v) ++ Q) with ((Q ++ v) ++ [34%N]). rewrite last_snoc.
      by intros [= <-]. }
  change (((Q ++ v ++ Q) === "true") || ((Q ++ v ++ Q) === "false")) with false.
  replace (test NUMERIC_LITERAL_REGEX _) with false.
  2:{ destruct (test NUMERIC_LITERAL_REGEX (Q ++ v ++ Q)) eqn:E3; [|done].
      apply numeric_run in E3 as [E3 _]. by vm_compute in E3. }
  by rewrite parse_plain.
Qed.

Lemma literal_run v : plain v → trimmed v → run dot (buildExprLiteral MATCH_EQ v).
Proof.
  intros Hp Hv. unfold buildExprLiteral. rewrite Hv. change (MATCH_EQ === MATCH_CONTAINS) with false.
  destruct ((v === "true") || (v === "false")) eqn:E1.
  { split; [by apply plain_dot|]. intros ->. by vm_compute in E1. }
  destruct (test NUMERIC_LITERAL_REGEX v) eqn:E2.
  { split; [by apply plain_dot|]. by apply numeric_run in E2 as []. }
  rewrite quote_plain by done. split; [|done]. rewrite !forallb_app, (plain_dot v) by done. done.
Qed.

Lemma equals_read src p v :
  run not_quote p → plain v → trimmed v →
  tryParseRequestCondition (call (source_text src) p ++ " == " ++ buildExprLiteral MATCH_EQ v)
  = Ret (Some (CPH (MkPH src p MATCH_EQ v))).
Proof.
  intros Hp Hv Ht. unfold tryParseRequestCondition.
  replace (tryParseTimeCondition _) with (@None RequestCondition).
  2:{ unfold call. rewrite <- !app_assoc. symmetry. apply (time_none_call _ Q), source_call. }
  destruct (exec re_header_exists _) as [m|] eqn:E1.
  { apply header_exists_sound in E1 as [Hm E]. other_call E. }
  destruct (exec re_param_exists _) as [m|] eqn:E2.
  { apply param_exists_sound in E2 as [Hm E]. other_call E. }
  destruct (exec re_header_contains _) as [m|] eqn:E3.
  { apply header_contains_sound in E3 as [Hm E]. destruct src; other_call E. }
  destruct (exec re_param_contains _) as [m|] eqn:E4.
  { apply param_contains_sound in E4 as (? & ? & Hm & E). other_call E. }
  destruct (exec re_param_compare _) as [m|] eqn:E5.
  { apply param_compare_sound in E5 as (? & ? & Hm & E). other_call E. }
  destruct (equals_found (source_text src) p (buildExprLiteral MATCH_EQ v)) as [m Hm].
  { destruct src; vm_compute; set_solver. } { done. } { by apply literal_run. }
  rewrite Hm. apply equals_sound in Hm as (Hs & Hp' & _ & E).
  apply call_inj in E as (<- & <- & E); [|by auto using source_name|apply elem_of_app; by right|by auto..].
  apply app_inv_head in E. rewrite <- E, literal_read by done. by destruct src.
Qed.

Lemma written_read c s : written c s → tryParseRequestCondition s = Ret (Some c).
Proof.
  intros [f tz a b|f tz op v|src p|p v|src p v];
    [| |apply exists_read; auto|apply contains_read; auto|apply equals_read; auto].
  - unfold tryParseRequestCondition. rewrite time_range_read; auto.
  - unfold tryParseRequestCondition. rewrite time_compare_read; auto.
Qed.

Lemma range_parens_read f tz a b :
  f ∈ TIME_FUNCS → plain tz → tz ≠ [] → numeric a → numeric b →
  tryParseRequestCondition ("(" ++ range_text f tz a b ++ ")") = Ret (Some (CTime (MkTime f tz MATCH_RANGE [] a b))).
Proof. intros. unfold tryParseRequestCondition. rewrite time_range_parens_read; auto. Qed.

(** The conditions of the editor whose texts stay clear of the grammar: names and
    values without quotes, backslashes, parentheses and operators of conditions. *)
Definition canonical (c : RequestCondition) : bool :=
  match c with
  | CTime t =>
    has (timeFunc t) TIME_FUNCS && forallb plain_unit (timezone t) && truthy (timezone t) &&
    (if t_mode t === MATCH_RANGE
     then test NUMERIC_LITERAL_REGEX (rangeStart t) && test NUMERIC_LITERAL_REGEX (rangeEnd t) &&
          negb (truthy (t_value t))
     else has (t_mode t) [MATCH_EQ; MATCH_GTE; MATCH_LT] && test NUMERIC_LITERAL_REGEX (t_value t) &&
          negb (truthy (rangeStart t)) && negb (truthy (rangeEnd t)))
  | CPH p =>
    forallb plain_unit (path p) && truthy (path p) && (trim (path p) === path p) &&
    forallb plain_unit (ph_value p) && (trim (ph_value p) === ph_value p) &&
    ((ph_mode p === MATCH_EQ) || ((ph_mode p === MATCH_EXISTS) && negb (truthy (ph_value p))) ||
     ((ph_mode p === MATCH_CONTAINS) && match source p with header => true | param => false end))
  end.

Definition canonical_group (g : RequestRuleGroup) : bool :=
  test NUMERIC_LITERAL_REGEX (multiplier g) && negb (length (conditions g) =? 0) && forallb canonical (conditions g).

Lemma normalize_time t :
  has (timeFunc t) TIME_FUNCS = true → truthy (timezone t) = true →
  has (t_mode t) [MATCH_EQ; MATCH_GTE; MATCH_LT; MATCH_RANGE] = true →
  normalizeCondition (Some (partial_of (CTime t))) = CTime t.
Proof.
  intros Hf Htz Hm. destruct t as [f tz m v a b]. unfold normalizeCondition. cbn in *. unfold isTimeFunc, jor.
  rewrite Hf, Htz. do 2 f_equal. apply has_true in Hm. 
  rewrite !elem_of_cons, elem_of_nil in Hm. destruct_or? Hm; subst; done.
Qed.

Lemma normalize_ph p :
  has (ph_mode p) [MATCH_EQ; MATCH_EXISTS; MATCH_CONTAINS] = true →
  normalizeCondition (Some (partial_of (CPH p))) = CPH p.
Proof.
  intros Hm. destruct p as [src q m v]. apply has_true in Hm. rewrite !elem_of_cons, elem_of_nil in Hm. cbn in Hm.
  destruct Hm as [->|[->|[->|[]]]]; by destruct src.
Qed.

Lemma quoted_call f a : plain a → f ++ "(" ++ JSON_quote a ++ ")" = call f a.
Proof. intros Ha. unfold call. rewrite quote_plain by done. by rewrite <- !app_assoc. Qed.

Lemma build_range f tz a b :
  f ∈ TIME_FUNCS → plain tz → tz ≠ [] → numeric a → numeric b →
  buildTimeConditionExpr (MkTime f tz MATCH_RANGE [] a b) = range_text f tz a b.
Proof.
  intros Hf Htz Hn Ha Hb. unfold buildTimeConditionExpr.
  rewrite normalize_time; [|by apply has_true|by destruct tz|done]. cbn -[trim test JSON_quote].
  rewrite !numeric_trim by done. rewrite Ha, Hb. cbn -[JSON_quote]. unfold range_text. rewrite <- quoted_call by done.
  done.
Qed.

Lemma build_compare f tz m v :
  f ∈ TIME_FUNCS → plain tz → tz ≠ [] → m ∈ [MATCH_EQ; MATCH_GTE; MATCH_LT] → numeric v →
  buildTimeConditionExpr (MkTime f tz m v [] []) = compare_text f tz (time_op m) v ∧
  mode_of_op (time_op m) = m ∧ time_op m ∈ ["=="; ">="; "<"].
Proof.
  intros Hf Htz Hn Hm Hv. rewrite !elem_of_cons, elem_of_nil in Hm.
  split; [|destruct Hm as [->|[->|[->|[]]]]; (split; [done|vm_compute; set_solver])].
  unfold buildTimeConditionExpr.
  rewrite normalize_time; [|by apply has_true|by destruct tz|cbn; destruct Hm as [->|[->|[->|[]]]]; done].
  cbn -[trim test JSON_quote time_op]. rewrite (numeric_trim v), Hv by done. unfold compare_text. rewrite <- quoted_call by done.
  clear Hv. destruct Hm as [->|[->|[->|[]]]]; done.
Qed.

Lemma canonical_written c : canonical c = true → written c (buildRequestConditionExpr c).
Proof.
  destruct c as [[f tz m v a b]|[src q m v]]; cbn -[trim test has]; intros H.
  - bool_hyps. repeat match goal with H : has _ _ = true |- _ => apply has_true in H end.
    destruct (jeqb_spec m MATCH_RANGE) as [->|_]; cbn match in *.
    + bool_hyps. subst v.
      rewrite build_range; auto. constructor; auto.
    + bool_hyps. subst a b.
      match goal with H : has m _ = true |- _ => apply has_true in H end.
      destruct (build_compare f tz m v) as (-> & Em & Hop); auto.
      rewrite <- Em at 1. constructor; auto.
  - bool_hyps.
    assert (Hm : has m [MATCH_EQ; MATCH_EXISTS; MATCH_CONTAINS] = true).
    { apply has_true. match goal with H : _ || _ = true |- _ =>
        rewrite !orb_true_iff, !andb_true_iff, !jeqb_true in H; set_solver end. }
    unfold buildParamHeaderExpr. rewrite (normalize_ph (MkPH src q m v)) by done. cbv zeta. cbn [path source ph_mode ph_value].
    match goal with H : trim q = q |- _ => rewrite H end.
    rewrite (proj2 (truthy_true q)) by done. cbn [negb]. rewrite quoted_call by done.
    match goal with H : _ || _ = true |- _ => rewrite !orb_true_iff, !andb_true_iff, !jeqb_true in H;
      destruct H as [[->|[-> Hv]]|[-> Hs]] end; cbn -[JSON_quote call trim test buildExprLiteral].
    + constructor; auto.
    + apply negb_true_iff, truthy_false in Hv as ->. destruct src.
      * by apply (written_exists param); auto.
      * by apply (written_exists header); auto.
    + destruct src; [done|]. unfold buildExprLiteral. cbn -[JSON_quote call trim].
      match goal with H : trim v = v |- _ => rewrite H end. rewrite (quote_plain v) by done. by constructor; auto.
Qed.

(** ** Splitting at the top level *)

(** Parentheses that match, none closed before it is opened. *)
Fixpoint nested (d : Z) (s : jstr) : bool :=
  match s with
  | [] => (d =? 0)%Z
  | c :: s' => (0 <=? d + paren c)%Z && nested (d + paren c) s'
  end.

Definition flat_unit (c : N) : bool := none_of "()" c.

Lemma flat_paren c : flat_unit c = true → paren c = 0%Z.
Proof.
  unfold flat_unit, none_of, one_of, paren. simpl. intros H. bool_hyps.
  destruct (c =? 40)%N, (c =? 41)%N; done.
Qed.

Lemma nested_app d d' a b : (0 <= d)%Z → nested d' a = true → nested d b = true → nested (d' + d) (a ++ b) = true.
Proof.
  intros Hd. revert d'. induction a as [|c a IH]; intros d' Ha Hb; simpl in *.
  - apply Z.eqb_eq in Ha as ->. done.
  - bool_hyps. apply andb_true_iff. split; [apply Z.leb_le; lia|].
    replace (d' + d + paren c)%Z with (d' + paren c + d)%Z by lia. by apply IH.
Qed.

Definition balanced (s : jstr) : Prop := nested 0 s = true.

Lemma balanced_app a b : balanced a → balanced b → balanced (a ++ b).
Proof. apply (nested_app 0 0). lia. Qed.

Lemma balanced_flat s : forallb flat_unit s = true → balanced s.
Proof.
  unfold balanced. induction s as [|c s IH]; simpl; [done|]. intros H. bool_hyps.
  rewrite (flat_paren c) by done. simpl. auto.
Qed.

Lemma balanced_parens s : balanced s → balanced ("(" ++ s ++ ")").
Proof. intros Hs. by apply (nested_app 1 0 s ")"). Qed.

#[local] Hint Resolve balanced_app balanced_flat : core.

(** Scanning [w] before [r] meets no separator. *)
Fixpoint no_sep (sep : jstr) (d : Z) (w r : jstr) : bool :=
  match w with
  | [] => true
  | c :: w' =>
    negb ((d + paren c =? 0)%Z && startsWith sep (c :: w' ++ r)) && no_sep sep (d + paren c) w' r
  end.

Fixpoint depth_after (d : Z) (w : jstr) : Z :=
  match w with [] => d | c :: w' => depth_after (d + paren c) w' end.

Lemma split_top_piece sep d cur w r :
  no_sep sep d w r = true →
  split_top sep d cur 0 (w ++ r) = split_top sep (depth_after d w) (reverse w ++ cur) 0 r.
Proof.
  revert d cur. induction w as [|c w IH]; intros d cur H; [done|]. cbn [no_sep] in H. bool_hyps.
  cbn [app split_top depth_after].
  match goal with H : _ && _ = false |- _ => rewrite H end. rewrite IH by done. f_equal.
  by rewrite reverse_cons, <- app_assoc.
Qed.

Lemma nested_depth d s : nested d s = true → depth_after d s = 0%Z.
Proof.
  revert d. induction s as [|c s IH]; intros d H; simpl in *; [by apply Z.eqb_eq|]. bool_hyps. auto.
Qed.

Lemma depth_after_app d a b : depth_after d (a ++ b) = depth_after (depth_after d a) b.
Proof. revert d. induction a as [|c a IH]; intros d; simpl; auto. Qed.

Definition is_sep (sep : jstr) : Prop := sep = " * " ∨ sep = " && ".

Lemma split_top_sep sep cur r :
  is_sep sep → split_top sep 0 cur 0 (sep ++ r) = trim (reverse cur) :: split_top sep 0 [] 0 r.
Proof. intros [-> | ->]; done. Qed.

(** The parts between separators, each passed over as a whole. *)
Definition piece (sep w : jstr) : Prop :=
  depth_after 0 w = 0%Z ∧ trimmed w ∧ ∀ r, r = [] ∨ startsWith sep r = true → no_sep sep 0 w r = true.

Lemma split_top_join sep ws :
  is_sep sep → Forall (piece sep) ws → ws ≠ [] → split_top sep 0 [] 0 (join sep ws) = ws.
Proof.
  intros Hsep Hws Hne. induction Hws as [|w ws [Hd [Ht Hn]] Hws IH]; [done|].
  destruct ws as [|w' ws].
  - cbn [join]. rewrite <- (app_nil_r w) at 1. rewrite split_top_piece by (apply Hn; by left).
    rewrite Hd. simpl. rewrite app_nil_r, reverse_involutive. by rewrite Ht.
  - rewrite join_cons2, split_top_piece by (apply Hn; right; apply startsWith_app).
    rewrite Hd, split_top_sep by done. rewrite app_nil_r, reverse_involutive, Ht, IH; done.
Qed.

Lemma and_piece w : 38%N ∉ w → trimmed w → balanced w → piece " && " w.
Proof.
  intros Hno Ht Hb. split; [by apply nested_depth|]. split; [done|]. intros r Hr.
  clear Ht Hb. generalize 0%Z as d. induction w as [|c w IH]; intros d; [done|]. cbn [no_sep].
  rewrite IH by set_solver. rewrite andb_true_r. apply negb_true_iff, andb_false_iff. right.
  cbn [startsWith]. apply andb_false_iff. right. destruct w as [|c' w]; cbn [app].
  - destruct Hr as [->|Hr]; [done|]. apply startsWith_true in Hr as [r' ->]. done.
  - cbn [startsWith]. apply andb_false_iff. left. apply N.eqb_neq. intros <-. set_solver.
Qed.

Lemma parens_trimmed s : trimmed ("(" ++ s ++ ")").
Proof.
  apply trim_id; [by intros c [= <-]|]. rewrite app_assoc. intros c. change ")"%js with [41%N]. rewrite last_snoc.
  by intros [= <-].
Qed.

Lemma no_sep_inside sep d s r :
  startsWith sep (41%N :: r) = false → (0 <= d)%Z → nested d s = true → 
  no_sep sep (d + 1) (s ++ ")") r = true.
Proof.
  intros Hr. revert d. induction s as [|c s IH]; intros d Hd Hs; cbn [nested no_sep app] in *.
  - rewrite Hr. by rewrite andb_false_r.
  - bool_hyps. replace (d + 1 + paren c)%Z with (d + paren c + 1)%Z by lia. rewrite IH by done.
    rewrite (proj2 (Z.eqb_neq _ _)) by lia. done.
Qed.

Lemma times_piece s : balanced s → piece " * " ("(" ++ s ++ ")").
Proof.
  intros Hs. split; [by apply nested_depth, balanced_parens|]. split; [apply parens_trimmed|].
  intros r _. cbn [app no_sep]. apply (no_sep_inside _ 0); done.
Qed.

(** Units without a meaning in a condition. *)
Definition safe_unit (c : N) : bool := none_of "()&|" c.

Lemma plain_safe s : plain s → forallb safe_unit s = true.
Proof.
  intros Hs. apply forallb_forall. intros c Hc%list_elem_of_In. destruct (plain_spec s Hs c Hc) as (_ & _ & Hn & _).
  unfold safe_unit, none_of, one_of. apply negb_true_iff, not_true_iff_false.
  intros (d & Hd & ->%N.eqb_eq)%existsb_exists. apply Hn. simpl in Hd. destruct_or? Hd; subst; vm_compute; set_solver.
Qed.

Lemma num_safe s : numeric s → forallb safe_unit s = true.
Proof.
  intros [Hs _]%numeric_run. apply forallb_forall. intros c Hc%list_elem_of_In.
  apply (forallb_elem _ _ _ Hs) in Hc. unfold num_unit in Hc. apply orb_true_iff in Hc as [Hc|Hc].
  - unfold is_digit, in_range in Hc. bool_hyps. unfold safe_unit, none_of, one_of. simpl.
    repeat rewrite (proj2 (N.eqb_neq c _)) by lia. done.
  - apply existsb_exists in Hc as (d & Hd & ->%N.eqb_eq). simpl in Hd. destruct_or? Hd; subst; done.
Qed.

Lemma lower_safe s : forallb is_lower s = true → forallb safe_unit s = true.
Proof.
  intros Hs. apply forallb_forall. intros c Hc%list_elem_of_In. apply (forallb_elem _ _ _ Hs) in Hc.
  unfold is_lower, in_range in Hc. bool_hyps. unfold safe_unit, none_of, one_of. simpl.
  repeat rewrite (proj2 (N.eqb_neq c _)) by lia. done.
Qed.

(** Balanced texts that avoid some units. *)
Definition clean (u s : jstr) : Prop := balanced s ∧ forallb (none_of u) s = true.

Lemma clean_app u a b : clean u a → clean u b → clean u (a ++ b).
Proof. intros [? Ha] [? Hb]. split; [by apply balanced_app|]. by rewrite forallb_app, Ha, Hb. Qed.

Lemma none_of_weaken u v s : u ⊆ v → forallb (none_of v) s = true → forallb (none_of u) s = true.
Proof.
  intros Huv Hs. apply forallb_forall. intros c Hc%list_elem_of_In. apply (forallb_elem _ _ _ Hs) in Hc.
  unfold none_of, one_of in *. apply negb_true_iff, not_true_iff_false. intros (d & Hd & ->%N.eqb_eq)%existsb_exists.
  apply negb_true_iff, not_true_iff_false in Hc. apply Hc, existsb_exists. exists d.
  split; [|by apply N.eqb_eq]. apply list_elem_of_In, Huv. by apply list_elem_of_In.
Qed.

Lemma clean_safe u s : u ⊆ "()&|"%js → forallb safe_unit s = true → clean u s.
Proof.
  intros Hu Hs. split; [|by eapply none_of_weaken].
  apply balanced_flat. eapply (none_of_weaken "()"); [|exact Hs]. intros c. vm_compute. set_solver.
Qed.

Lemma clean_parens u s : clean u "()" → clean u s → clean u ("(" ++ s ++ ")").
Proof.
  intros [_ Hu] [Hb Hs]. split; [by apply balanced_parens|]. cbn in Hu. bool_hyps. rewrite !forallb_app, Hs. cbn.
  repeat match goal with H : none_of u _ = true |- _ => rewrite H end. done.
Qed.

Lemma clean_call u f a :
  u ⊆ "&|"%js → forallb safe_unit f = true → forallb safe_unit a = true → clean u (call f a).
Proof.
  intros Hu Hf Ha. assert (Hu' : u ⊆ "()&|"%js) by (intros c Hc%Hu; vm_compute in Hc |- *; set_solver).
  unfold call. apply clean_app; [by apply clean_safe|].
  rewrite (app_assoc Q), (app_assoc (Q ++ a)). apply clean_parens.
  - split; [done|]. by apply (none_of_weaken u "&|").
  - apply clean_safe; [done|]. by rewrite !forallb_app, Ha.
Qed.

Lemma literal_clean v : plain v → trimmed v → clean "&|" (buildExprLiteral MATCH_EQ v).
Proof.
  intros Hp Hv. assert (Hs := plain_safe v Hp). unfold buildExprLiteral. rewrite Hv.
  change (MATCH_EQ === MATCH_CONTAINS) with false.
  assert (Hq : forallb safe_unit (JSON_quote v) = true) by by rewrite quote_plain, !forallb_app, Hs.
  repeat case_match; apply clean_safe; try done; intros c; vm_compute; set_solver.
Qed.

Lemma name_safe f : f ∈ names → forallb safe_unit f = true.
Proof. intros. by apply lower_safe, names_lower. Qed.
#[local] Hint Resolve plain_safe num_safe name_safe : core.

Lemma and_or_sub : ("&"%js : list N) ⊆ "&|"%js.
Proof. intros c. vm_compute. set_solver. Qed.
Lemma and_sub : ("&"%js : list N) ⊆ "()&|"%js.
Proof. intros c. vm_compute. set_solver. Qed.
Lemma both_sub : ("&|"%js : list N) ⊆ "()&|"%js.
Proof. intros c. vm_compute. set_solver. Qed.
#[local] Hint Resolve and_or_sub and_sub both_sub : core.

Ltac clean_parts :=
  repeat first [ apply clean_call; by auto | apply clean_safe; by auto | by apply literal_clean | by split
               | apply clean_app ].

Lemma range_clean f tz a b :
  f ∈ TIME_FUNCS → plain tz → numeric a → numeric b → clean "&" (range_text f tz a b).
Proof.
  intros. unfold range_text.
  clean_parts.
Qed.

(** Every text but that of a range avoids the alternative too. *)
Lemma written_clean c s :
  written c s → (∃ f tz a b, c = CTime (MkTime f tz MATCH_RANGE [] a b) ∧ s = range_text f tz a b) ∨ clean "&|" s.
Proof.
  intros [f tz a b|f tz op v ???? Hop|src p|p v|src p v]; [left; by exists f, tz, a, b|right..].
  - assert (forallb safe_unit op = true).
    { by apply (forallb_elem (forallb safe_unit) ["=="; ">="; "<"]). }
    unfold compare_text. clean_parts.
  - clean_parts. by destruct src.
  - change ("has("%js) with ("has" ++ "(")%js. rewrite <- app_assoc. apply clean_app; [by split|].
    rewrite (app_assoc ", "), (app_assoc (call _ _)). apply clean_parens; [by split|].
    clean_parts.
  - clean_parts.
Qed.

Lemma lower_not_ws c : is_lower c = true → is_ws c = false.
Proof.
  unfold is_lower, in_range. intros H. bool_hyps. apply not_true_iff_false. unfold is_ws.
  rewrite !orb_true_iff, !andb_true_iff, !N.eqb_eq, !N.leb_le. lia.
Qed.

Lemma trimmed_ends f m b s :
  s = f ++ m ++ b → run is_lower f → b ≠ [] → (∀ c, last b = Some c → is_ws c = false) → trimmed s ∧ s ≠ [].
Proof.
  intros -> [Hf Hne] Hb Hl. destruct f as [|c f]; [done|]. split; [|done]. apply trim_id.
  - intros d [= <-]. simpl in Hf. bool_hyps. by apply lower_not_ws.
  - intros d. destruct b as [|e b _] using rev_ind; [done|]. rewrite !app_assoc, last_snoc. intros [= ->].
    apply Hl. by rewrite last_snoc.
Qed.

Lemma name_run f : f ∈ names → run is_lower f.
Proof. intros Hf. split; [by apply names_lower|]. intros ->. vm_compute in Hf. set_solver. Qed.
#[local] Hint Resolve name_run : core.

Lemma numeric_last v c : numeric v → last v = Some c → is_ws c = false.
Proof.
  intros [Hv _]%numeric_run Hc. apply num_unit_not_ws, (forallb_elem _ _ _ Hv).
  apply last_Some in Hc as [l ->]. set_solver.
Qed.

Lemma literal_last v c : plain v → trimmed v → last (buildExprLiteral MATCH_EQ v) = Some c → is_ws c = false.
Proof.
  intros Hp Hv. unfold buildExprLiteral. rewrite Hv. change (MATCH_EQ === MATCH_CONTAINS) with false.
  destruct ((v === "true") || (v === "false")) eqn:E1.
  { apply orb_true_iff in E1 as [->%jeqb_true| ->%jeqb_true]; by intros [= <-]. }
  destruct (test NUMERIC_LITERAL_REGEX v) eqn:E2; [by apply numeric_last|].
  rewrite quote_plain, app_assoc by done. change ((Q ++ v) ++ Q) with ((Q ++ v) ++ [34%N]). rewrite last_snoc.
  by intros [= <-].
Qed.

Definition arg (a : jstr) : jstr := "(" ++ Q ++ a ++ Q ++ ")".

Lemma written_trimmed c s : written c s → trimmed s ∧ s ≠ [].
Proof.
  intros [f tz a b|f tz op v ???? Hop|src p|p v|src p v].
  - apply (trimmed_ends f (arg tz ++ " >= " ++ a ++ " || " ++ call f tz ++ " < ") b); auto.
    + unfold range_text, call, arg. by rewrite <- !app_assoc.
    + by apply (numeric_run b).
    + intros d. by apply numeric_last.
  - apply (trimmed_ends f (arg tz ++ " " ++ op ++ " ") v); auto.
    + unfold compare_text, call, arg. by rewrite <- !app_assoc.
    + by apply (numeric_run v).
    + intros d. by apply numeric_last.
  - apply (trimmed_ends (source_text src) (arg p ++ " != ") (exists_text src)); auto.
    + unfold call, arg. by rewrite <- !app_assoc.
    + by destruct src.
    + destruct src; by intros d [= <-].
  - apply (trimmed_ends "has" ("(" ++ call "header" p ++ ", " ++ (Q ++ v ++ Q)) ")"); [|done..|by intros d [= <-]].
    by rewrite <- !app_assoc.
  - apply (trimmed_ends (source_text src) (arg p ++ " == ") (buildExprLiteral MATCH_EQ v)); auto.
    + unfold call, arg. by rewrite <- !app_assoc.
    + by apply literal_run.
    + intros d. by apply literal_last.
Qed.

(** A condition alone and among others. *)
Lemma clean_no_and t : clean "&" t → 38%N ∉ t.
Proof. intros [_ Hc] Hin. by apply (forallb_elem _ _ _ Hc) in Hin. Qed.

Lemma written_piece c s : written c s → clean "&" s ∧ piece " && " s.
Proof.
  intros Hw. destruct (written_trimmed c s Hw) as [Ht _].
  assert (Hc : clean "&" s); [|split; [done|apply and_piece; [by apply clean_no_and|done|by apply Hc]]].
  destruct (written_clean c s Hw) as [(f & tz & a & b & -> & ->)|[? ?]];
    [|split; [done|by apply (none_of_weaken "&" "&|")]].
  inversion Hw; subst; [by apply range_clean|].
  match goal with H : mode_of_op ?op = MATCH_RANGE |- _ => exfalso; unfold mode_of_op in H; repeat case_match; done end.
Qed.

Lemma written_or c s :
  written c s → includes " || " s = true → tryParseRequestCondition ("(" ++ s ++ ")") = Ret (Some c).
Proof.
  intros Hw (x & y & E)%includes_true. destruct (written_clean c s Hw) as [(f & tz & a & b & -> & ->)|[_ Hc]].
  - inversion Hw; subst; [by apply range_parens_read|].
    match goal with H : mode_of_op ?op = MATCH_RANGE |- _ => exfalso; unfold mode_of_op in H; repeat case_match; done end.
  - rewrite E, !forallb_app in Hc. bool_hyps. done.
Qed.

Lemma wrap_written c s :
  written c s →
  tryParseRequestCondition (wrap_or s) = Ret (Some c) ∧ piece " && " (wrap_or s) ∧ wrap_or s ≠ [] ∧ balanced (wrap_or s).
Proof.
  intros Hw. destruct (written_trimmed c s Hw) as [Ht Hne], (written_piece c s Hw) as [Hc Hp]. unfold wrap_or.
  destruct (includes " || " s) eqn:E; [|pose proof (written_read c s Hw); by destruct Hc].
  assert (Hc' : clean "&" ("(" ++ s ++ ")")) by (apply clean_parens; [by split|done]).
  split; [by apply written_or|]. split; [|split; [done|by apply Hc']].
  apply and_piece; [by apply clean_no_and|apply parens_trimmed|by apply Hc'].
Qed.

Lemma factor_inj c m c' m' :
  forallb num_unit m = true → forallb num_unit m' = true →
  "(" ++ c ++ " ? " ++ m ++ " : 1)" = "(" ++ c' ++ " ? " ++ m' ++ " : 1)" → c = c' ∧ m = m'.
Proof.
  intros Hm Hm' E. apply app_inv_head in E. rewrite !(app_assoc _ _ " : 1)"), !(app_assoc c), !(app_assoc c') in E.
  apply app_inv_tail in E. apply (f_equal reverse) in E. rewrite !reverse_app in E.
  assert (Hrev : ∀ w, forallb num_unit w = true → forallb num_unit (reverse w) = true).
  { intros w Hw. apply forallb_forall. intros d Hd%list_elem_of_In. rewrite elem_of_reverse in Hd.
    by apply (forallb_elem _ _ _ Hw). }
  change (reverse " ? ") with (" ? "%js) in E.
  apply (unique_run num_unit) in E as [E1 E2]; [|by auto|by auto|by intros ? ? [= <- _]|by intros ? ? [= <- _]].
  apply app_inv_head in E2. split; by apply (inj reverse).
Qed.

(** ** Rules that are read back *)

Lemma parse_parts cs es :
  Forall2 (fun c e => tryParseRequestCondition e = Ret (Some c) ∧ piece " && " e) cs es →
  parse_conditions es = Ret (Some cs).
Proof.
  induction 1 as [|c e cs es [Hc (_ & Ht & _)] _ IH]; [done|]. cbn [parse_conditions]. rewrite Ht, Hc. cbn [obind].
  by rewrite IH.
Qed.

Lemma split_filter_join sep es :
  is_sep sep → Forall (fun e => piece sep e ∧ e ≠ []) es → es ≠ [] →
  List.filter truthy (split_top sep 0 [] 0 (join sep es)) = es.
Proof.
  intros Hsep Hes Hne. rewrite split_top_join; [|done| |done].
  - clear Hne. induction Hes as [|e es [_ He] _ IH]; [done|]. cbn [List.filter].
    apply truthy_true in He as ->. by rewrite IH.
  - eapply Forall_impl; [exact Hes|]. by intros e [].
Qed.

Lemma split_and_join es :
  Forall (fun e => piece " && " e ∧ e ≠ []) es → es ≠ [] → splitTopLevelAnd (join " && " es) = es.
Proof. intros. apply split_filter_join; [by right|done..]. Qed.

Lemma join_balanced sep ws : balanced sep → Forall balanced ws → balanced (join sep ws).
Proof.
  intros Hsep. induction 1 as [|w ws Hb Hws IH]; [done|]. destruct ws as [|w' ws]; [done|].
  rewrite join_cons2. by repeat apply balanced_app.
Qed.

Lemma wrap_all cs es :
  Forall2 written cs es →
  Forall2 (fun c e => tryParseRequestCondition e = Ret (Some c) ∧ piece " && " e) cs (map wrap_or es) ∧
  Forall (fun e => piece " && " e ∧ e ≠ []) (map wrap_or es) ∧ Forall balanced (map wrap_or es).
Proof.
  induction 1 as [|c e cs es Hce _ (IH1 & IH2 & IH3)]; [done|].
  destruct (wrap_written c e Hce) as (? & ? & ? & ?). cbn [map].
  split; [|split]; by constructor.
Qed.

Definition combined_text (es : list jstr) : jstr :=
  match es with [e] => e | _ => join " && " (map wrap_or es) end.

(** The combined condition of a group: its parts, balanced and not empty. *)
Lemma combined_written cs es :
  Forall2 written cs es → es ≠ [] →
  parse_conditions (splitTopLevelAnd (combined_text es)) = Ret (Some cs) ∧ balanced (combined_text es) ∧
  combined_text es ≠ [].
Proof.
  intros Hw Hne. destruct (wrap_all cs es Hw) as (H1 & H2 & H3).
  destruct Hw as [|c e cs es Hce Hw]; [done|]. destruct Hw as [|c' e' cs es Hce' Hw]; unfold combined_text.
  - destruct (written_trimmed c e Hce) as [Ht Hn], (written_piece c e Hce) as [Hc Hp].
    split; [|split; [apply Hc|done]]. change e with (join " && " [e]).
    rewrite split_and_join; [|by constructor|done]. apply parse_parts. constructor; [|done].
    split; [by apply written_read|done].
  - split; [|split; [by apply join_balanced|]].
    + rewrite split_and_join by done. by apply parse_parts.
    + cbn [map] in *. apply Forall_cons in H2 as [[_ He] _]. cbn [join]. intros [? _]%app_nil. done.
Qed.

Definition factor_text (combined m : jstr) : jstr := "(" ++ combined ++ " ? " ++ m ++ " : 1)".

(** What reading a factor comes to. *)
Lemma factor_exec combined m :
  combined ≠ [] → numeric m →
  tryParseRuleGroupFactor (factor_text combined m) =
    (conds ⇐ parse_conditions (splitTopLevelAnd combined);
     match conds with
     | None | Some [] => Ret None
     | Some conds => Ret (Some (MkGroup conds m))
     end).
Proof.
  intros Hn Hm. destruct (numeric_run m Hm) as [Hr Hr']. pose proof (run_length _ _ (conj Hr Hr')) as Hl.
  unfold tryParseRuleGroupFactor. assert (∃ mt, exec re_factor (factor_text combined m) = Some mt) as [mt Hmt].
  { eapply exec_reads. unfold factor_text.
    eapply reads_seq; [apply reads_lit|].
    eapply reads_seq; [apply reads_group, reads_class; [done|by apply forallb_forall| |done]|].
    { destruct combined; [done|simpl; lia]. }
    eapply reads_seq; [apply reads_lit|]. eapply reads_seq; [by apply reads_group, reads_class|].
    eapply reads_seq; [apply (reads_lit " : 1)" [])|apply reads_eol]. }
  rewrite Hmt. apply factor_sound in Hmt as (_ & [Hr2 _] & E). by apply factor_inj in E as [<- <-].
Qed.

Lemma factor_read cs es m :
  Forall2 written cs es → es ≠ [] → numeric m →
  tryParseRuleGroupFactor (factor_text (combined_text es) m) = Ret (Some (MkGroup cs m)).
Proof.
  intros Hw Hne Hm. destruct (combined_written cs es Hw Hne) as (Hp & _ & Hn).
  rewrite factor_exec, Hp by done. by destruct Hw.
Qed.

(** A text in parentheses. *)
Definition parens (e : jstr) : Prop := ∃ x, balanced x ∧ e = "(" ++ x ++ ")".

Lemma parens_piece e : parens e → piece " * " e ∧ e ≠ [].
Proof. intros (x & Hx & ->). split; [by apply times_piece|done]. Qed.

Lemma join_parens es : Forall parens es → es ≠ [] → ∃ x, join " * " es = "(" ++ x ++ ")".
Proof.
  induction 1 as [|e es (x & _ & ->) Hes IH]; [done|]. intros _. destruct es as [|e' es]; [by exists x|].
  destruct IH as [y Hy]; [done|]. exists (x ++ ") * (" ++ y).
  rewrite join_cons2, Hy. by rewrite <- !app_assoc.
Qed.

Lemma split_times_join es : Forall parens es → es ≠ [] → splitTopLevelMultiply (join " * " es) = es.
Proof.
  intros Hes. apply split_filter_join; [by left|]. eapply Forall_impl; [exact Hes|]. apply parens_piece.
Qed.

Lemma factor_parens c m : balanced c → numeric m → parens (factor_text c m).
Proof.
  intros Hc Hm. exists (c ++ " ? " ++ m ++ " : 1"). split; [|unfold factor_text; by rewrite <- !app_assoc].
  apply balanced_app; [done|]. apply balanced_app; [done|]. apply balanced_app; [|done].
  eapply (clean_safe []); [set_solver|]. by apply num_safe.
Qed.

Lemma canonical_conditions cs :
  forallb canonical cs = true → Forall2 written cs (map buildRequestConditionExpr cs) ∧
  List.filter truthy (map buildRequestConditionExpr cs) = map buildRequestConditionExpr cs.
Proof.
  induction cs as [|c cs IH]; cbn [forallb map List.filter]; intros H; [done|]. bool_hyps.
  destruct IH as [IH1 IH2]; [done|].
  assert (Hc : written c (buildRequestConditionExpr c)) by by apply canonical_written.
  destruct (written_trimmed _ _ Hc) as [_ Hn%truthy_true]. rewrite Hn, IH2. split; [by constructor|done].
Qed.

(** A group of canonical conditions: its text, which is one factor and is read
    back. *)
Lemma group_built g :
  canonical_group g = true →
  tryParseRuleGroupFactor (buildRuleGroupFactor g) = Ret (Some g) ∧
  parens (buildRuleGroupFactor g).
Proof.
  destruct g as [cs m]. unfold canonical_group. cbn. intros H. bool_hyps.
  assert (Hm : numeric m) by done. destruct (canonical_conditions cs) as [Hw Hf]; [done|].
  assert (Hne : map buildRequestConditionExpr cs ≠ []) by (destruct cs; [done|by cbn [map]]).
  assert (Heq : buildRuleGroupFactor (MkGroup cs m) = factor_text (combined_text (map buildRequestConditionExpr cs)) m).
  { unfold buildRuleGroupFactor. cbn [multiplier conditions]. rewrite numeric_trim, Hf by done.
    change (test NUMERIC_LITERAL_REGEX m = true) in Hm. rewrite Hm. cbn [negb].
    by destruct (map buildRequestConditionExpr cs) as [|e [|e' es]]. }
  rewrite Heq. split; [by apply factor_read|].
  apply factor_parens; [|done]. by apply (combined_written cs).
Qed.

Lemma groups_built gs :
  forallb canonical_group gs = true →
  List.filter truthy (map buildRuleGroupFactor gs) = map buildRuleGroupFactor gs ∧
  Forall parens (map buildRuleGroupFactor gs) ∧
  Forall2 (fun g e => tryParseRuleGroupFactor e = Ret (Some g)) gs (map buildRuleGroupFactor gs).
Proof.
  induction gs as [|g gs IH]; cbn [forallb map List.filter]; intros H; [done|]. bool_hyps.
  destruct (group_built g) as [H1 H2], IH as (IH1 & IH2 & IH3); [done..|].
  rewrite (proj2 (truthy_true _) (proj2 (parens_piece _ H2))), IH1. split; [done|]. split; by constructor.
Qed.

Lemma parse_factors gs es :
  Forall2 (fun g e => tryParseRuleGroupFactor e = Ret (Some g)) gs es → parse_groups es = Ret (Some gs).
Proof.
  induction 1 as [|g e gs es Hg _ IH]; [done|]. cbn [parse_groups]. rewrite Hg. cbn [obind]. by rewrite IH.
Qed.

(** ** Whole expressions *)

Lemma rules_read gs : 
  forallb canonical_group gs = true → tryParseRequestRuleExpr (buildRequestRuleExpr gs) = Ret (Some gs).
Proof.
  intros Hgs. destruct (groups_built gs Hgs) as (Hf & Hp & Hr). unfold tryParseRequestRuleExpr, buildRequestRuleExpr.
  rewrite Hf. destruct gs as [|g gs]; [done|].
  assert (Hne : map buildRuleGroupFactor (g :: gs) ≠ []) by done.
  destruct (join_parens _ Hp Hne) as [x Hx]. rewrite Hx, parens_trimmed, <- Hx, split_times_join by done.
  rewrite Hx at 1. by apply parse_factors.
Qed.

Lemma outer_inside d s : (0 <= d)%Z → nested d s = true → outer_go (d + 1) (s ++ ")") = true.
Proof.
  revert d. induction s as [|c s IH]; intros d Hd Hs; cbn [nested outer_go app] in *.
  - apply Z.eqb_eq in Hs as ->. done.
  - bool_hyps. rewrite (proj2 (Z.eqb_neq _ _)) by lia. cbn [andb].
    replace (d + 1 + paren c)%Z with (d + paren c + 1)%Z by lia. by apply IH.
Qed.

Lemma full_outer s : balanced s → hasFullOuterParens ("(" ++ s ++ ")") = true.
Proof.
  intros Hs. unfold hasFullOuterParens, endsWith. rewrite startsWith_app, app_assoc, reverse_snoc.
  cbn [andb]. rewrite <- app_assoc. cbn [app outer_go]. 
  change ((0 + paren 40)%Z) with (0 + 1)%Z. destruct s; [done|]. by apply outer_inside.
Qed.

Lemma inner_parens s : inner ("(" ++ s ++ ")") = s.
Proof. unfold inner. rewrite !length_app. cbn. rewrite drop_0, take_app_length' by lia. done. Qed.

Lemma unwrap_parens s :
  balanced s → trimmed s → hasFullOuterParens s = false → unwrapOuterParens ("(" ++ s ++ ")") = s.
Proof.
  intros Hb Ht Hf. unfold unwrapOuterParens. rewrite parens_trimmed, length_app.
  change (length "("%js + length (s ++ ")"%js)) with (S (length (s ++ ")"%js))). cbn [unwrap_go].
  rewrite full_outer, inner_parens, Ht by done.
  destruct (length _); [done|]. cbn [unwrap_go]. by rewrite Hf.
Qed.

(** A base expression that is no rule itself. *)
Lemma base_no_rule s :
  balanced s → endsWith " : 1" s = false → tryParseRequestRuleExpr ("(" ++ s ++ ")") = Ret None.
Proof.
  intros Hb He. unfold tryParseRequestRuleExpr. rewrite parens_trimmed. cbn [truthy negb app].
  change (40%N :: s ++ ")") with (join " * " ["(" ++ s ++ ")"]). rewrite split_times_join; [|constructor; [by exists s|done]|done].
  cbn [parse_groups]. unfold tryParseRuleGroupFactor. destruct (exec re_factor _) as [m|] eqn:E; [|done].
  apply factor_sound in E as (_ & _ & E). exfalso. apply app_inv_head in E.
  change (" : 1)"%js) with (" : 1" ++ ")")%js in E. rewrite !app_assoc in E. apply app_inv_tail in E as ->.
  unfold endsWith in He. by rewrite reverse_app, startsWith_app in He.
Qed.

Lemma rule_part g : canonical_group g = true → tryParseRequestRuleExpr (buildRuleGroupFactor g) = Ret (Some [g]).
Proof.
  intros Hg. pose proof (rules_read [g]) as H. cbn [forallb] in H. rewrite Hg in H. specialize (H eq_refl).
  unfold buildRequestRuleExpr in H. cbn [map List.filter] in H.
  destruct (group_built g Hg) as [_ Hp%parens_piece]. by rewrite (proj2 (truthy_true _) (proj2 Hp)) in H.
Qed.

Lemma partition_rules gs :
  forallb canonical_group gs = true →
  partition_parts (map buildRuleGroupFactor gs) = Ret (map buildRuleGroupFactor gs, []).
Proof.
  induction gs as [|g gs IH]; cbn [forallb map partition_parts]; intros H; [done|]. bool_hyps.
  rewrite rule_part by done. cbn [obind]. by rewrite IH.
Qed.

Lemma combined_split base gs :
  base ≠ [] → trimmed base → balanced base → hasFullOuterParens base = false → endsWith " : 1" base = false →
  gs ≠ [] → forallb canonical_group gs = true →
  splitBillingExprAndRequestRules (combineBillingExpr base (buildRequestRuleExpr gs))
  = Ret (MkSplit base (buildRequestRuleExpr gs)).
Proof.
  intros Hb Ht Hbal Hf He Hne Hgs. destruct (groups_built gs Hgs) as (Hfil & Hp & _).
  assert (Hne' : map buildRuleGroupFactor gs ≠ []) by (by destruct gs).
  unfold buildRequestRuleExpr. rewrite Hfil. destruct (join_parens _ Hp Hne') as [x Hx].
  set (parts := ("(" ++ base ++ ")") :: map buildRuleGroupFactor gs).
  assert (Hparts : Forall parens parts) by (constructor; [by exists base|done]).
  assert (Hc : combineBillingExpr base (join " * " (map buildRuleGroupFactor gs)) = join " * " parts).
  { unfold combineBillingExpr. rewrite Ht, Hx, parens_trimmed, <- Hx. rewrite (proj2 (truthy_true base)) by done.
    rewrite (proj2 (truthy_true (join _ _))) by by rewrite Hx. cbn [negb].
    unfold parts. destruct (map buildRuleGroupFactor gs) eqn:E; [done|]. by cbn [join]; rewrite <- !app_assoc. }
  rewrite Hc. destruct (join_parens parts Hparts) as [y Hy]; [done|].
  unfold splitBillingExprAndRequestRules. rewrite Hy, parens_trimmed. cbn [truthy negb app].
  change (40%N :: y ++ ")") with ("(" ++ y ++ ")"). rewrite <- Hy, split_times_join by done.
  unfold parts at 1. destruct gs as [|g gs]; [done|]. cbn [map length Nat.leb].
  unfold parts. cbn [partition_parts]. rewrite base_no_rule by done. cbn [obind].
  rewrite partition_rules by done. cbn [obind fst snd map]. by rewrite unwrap_parens.
Qed.

(** The parts of an expression lie in it. *)
Lemma split_top_infix sep s : ∀ d cur skip w,
  w ∈ split_top sep d cur skip s → ∃ a b, reverse cur ++ drop skip s = a ++ w ++ b.
Proof.
  induction s as [|c r IH]; intros d cur skip w; cbn [split_top].
  - intros ->%list_elem_of_singleton. rewrite drop_nil, app_nil_r. apply trim_infix.
  - destruct skip as [|k]; [|cbn [drop]; apply IH]. cbn [drop]. case_if.
    + intros [->|Hw]%elem_of_cons.
      * destruct (trim_infix (reverse cur)) as (a & b & Hab). exists a, (b ++ c :: r). rewrite Hab at 1. by rewrite <- !app_assoc.
      * destruct (IH _ _ _ _ Hw) as (a & b & Hab). rewrite reverse_nil in Hab. cbn [app] in Hab.
        exists (reverse cur ++ c :: take (length sep - 1) r ++ a), b. rewrite <- app_assoc. cbn [app]. rewrite <- app_assoc, <- Hab.
        by rewrite take_drop.
    + intros Hw. destruct (IH _ _ _ _ Hw) as (a & b & Hab). exists a, b. cbn [drop] in Hab. by rewrite reverse_cons, <- app_assoc in Hab.
Qed.

Lemma multiply_part_infix s w : w ∈ splitTopLevelMultiply s → ∃ a b, s = a ++ w ++ b.
Proof.
  unfold splitTopLevelMultiply. rewrite elem_of_filterb. intros [Hw _]. by destruct (split_top_infix _ _ _ _ _ _ Hw) as (a & b & ?); exists a, b.
Qed.

(** A text without the end of a rule is no rule, and neither are its parts. *)
Lemma no_rule_inside s : includes " : 1)" s = false → tryParseRequestRuleExpr s = Ret None ∨ tryParseRequestRuleExpr s = Ret (Some []).
Proof.
  intros Hs. unfold tryParseRequestRuleExpr. case_if; [by right|].
  destruct (splitTopLevelMultiply (trim s)) as [|w ws] eqn:Ep; [by right|left]. cbn [parse_groups].
  unfold tryParseRuleGroupFactor. destruct (exec re_factor w) as [m|] eqn:Em; [|done]. exfalso.
  apply factor_sound in Em as (_ & _ & Hw). destruct (multiply_part_infix (trim s) w) as (a & b & Hab); [rewrite Ep; by left|].
  destruct (trim_infix s) as (a' & b' & Hs'). apply includes_false in Hs. apply Hs.
  exists (a' ++ a ++ "(" ++ group_text 1 m ++ " ? " ++ group_text 2 m), (b ++ b'). rewrite Hs' at 1. rewrite Hab, Hw. by rewrite <- !app_assoc.
Qed.

(** A base without rules is stored and read back as it is. *)
Lemma plain_split base :
  base ≠ [] → trimmed base → includes " : 1)" base = false → splitBillingExprAndRequestRules base = Ret (MkSplit base []).
Proof.
  intros Hb Ht Hno. unfold splitBillingExprAndRequestRules. rewrite Ht, (proj2 (truthy_true base)) by done. cbn [negb].
  case_if; [done|]. assert (Hall : ∀ w, w ∈ splitTopLevelMultiply base → includes " : 1)" w = false).
  { intros w (a & b & Hab)%multiply_part_infix. apply includes_false. intros (x & y & Hw). apply includes_false in Hno. apply Hno.
    exists (a ++ x), (y ++ b). rewrite Hab at 1. rewrite Hw. by rewrite <- !app_assoc. }
  assert (Hp : partition_parts (splitTopLevelMultiply base) = Ret ([], splitTopLevelMultiply base)).
  { revert Hall. generalize (splitTopLevelMultiply base). intros ws. induction ws as [|w ws IH]; intros Hall; [done|]. cbn [partition_parts].
    rewrite IH by (intros; apply Hall; by right). destruct (no_rule_inside w) as [-> | ->]; [apply Hall; by left|done|done]. }
  by rewrite Hp.
Qed.

(** The loop of [unwrapOuterParens] ends before the fuel does. *)
Lemma full_length s : hasFullOuterParens s = true → 2 <= length s.
Proof.
  destruct s as [|a [|b s]]; [done| |simpl; lia]. unfold hasFullOuterParens. intros H. bool_hyps.
  match goal with H : startsWith _ _ = true |- _ => apply startsWith_true in H as [r [= -> <-]] end. done.
Qed.

Lemma unwrap_go_full fuel s : length s <= fuel → hasFullOuterParens (unwrap_go fuel s) = false.
Proof.
  revert s. induction fuel as [|f IH]; intros s Hs; cbn [unwrap_go].
  - by destruct s; [|simpl in Hs; lia].
  - destruct (hasFullOuterParens s) eqn:E; [|done]. apply IH. apply full_length in E.
    pose proof (trim_length (inner s)) as H. unfold inner in H |- *. rewrite length_take, length_drop in H. lia.
Qed.

(** *** Conditions on parameters with a comparison or a containment

    Their text holds an [and] of its own, at which [splitTopLevelAnd] cuts. *)

Lemma param_second p t :
  run not_quote p → (∃ op v, op ∈ [">"; ">="; "<"; "<="] ∧ t = call "param" p ++ " " ++ op ++ " " ++ v) ∨
    (∃ r, t = "has(" ++ call "param" p ++ r) →
  tryParseRequestCondition t = Ret None.
Proof.
  intros Hp Ht.
  assert (Hcase : (∃ op v, op ∈ [">"; ">="; "<"; "<="] ∧ t = call "param" p ++ " " ++ op ++ " " ++ v ∧
    tryParseTimeCondition t = None) ∨ (∃ r, t = "has(" ++ call "param" p ++ r ∧ tryParseTimeCondition t = None)).
  { destruct Ht as [(op & v & Hop & ->)|[r ->]].
    - left. exists op, v. split; [done|]. split; [done|]. unfold call. rewrite <- !app_assoc.
      apply (time_none_call "param" Q). vm_compute. set_solver.
    - right. exists r. split; [done|]. apply (time_none_call "has" []). vm_compute. set_solver. }
  clear Ht. assert (Hother : ∀ src r, src ∈ ["param"; "header"] →
    ∀ q, run not_quote q → t = call src q ++ " == " ++ r ∨ t = call src q ++ " != " ++ r → False).
  { intros src r Hsrc q Hq Ht. destruct Hcase as [(op & v & Hop & -> & _)|(r' & -> & _)].
    - destruct Ht as [E|E]; (apply call_inj in E as (_ & _ & E); [|by auto|apply elem_of_app; by right|by auto..]);
        rewrite !elem_of_cons, elem_of_nil in Hop; destruct Hop as [->|[->|[->|[->|[]]]]]; done.
    - rewrite !elem_of_cons, elem_of_nil in Hsrc. destruct Hsrc as [->|[->|[]]], Ht as [E|E]; done. }
  assert (Hpa : "param"%js ∈ ["param"%js; "header"%js]) by left.
  assert (Hhe : "header"%js ∈ ["param"%js; "header"%js]) by (right; left).
  unfold tryParseRequestCondition.
  replace (tryParseTimeCondition t) with (@None RequestCondition) by (destruct Hcase as [(?&?&?&?&?)|(?&?&?)]; done).
  destruct (exec re_header_exists t) as [m|] eqn:E1.
  { apply header_exists_sound in E1 as [Hm E]. exfalso. eapply (Hother _ _ Hhe); [exact Hm|]. right. exact E. }
  destruct (exec re_param_exists t) as [m|] eqn:E2.
  { apply param_exists_sound in E2 as [Hm E]. exfalso. eapply (Hother _ "nil" Hpa); [exact Hm|]. by right. }
  destruct (exec re_header_contains t) as [m|] eqn:E3.
  { apply header_contains_sound in E3 as [Hm E]. exfalso. destruct Hcase as [(op & v & Hop & -> & _)|(r' & -> & _)]; [done|].
    apply app_inv_head, call_inj in E as (E & _); [done|by auto..]. }
  destruct (exec re_param_contains t) as [m|] eqn:E4.
  { apply param_contains_sound in E4 as (q & r & Hm & E). exfalso. eapply (Hother _ ("nil" ++ r) Hpa); [exact Hm|]. by right. }
  destruct (exec re_param_compare t) as [m|] eqn:E5.
  { apply param_compare_sound in E5 as (q & r & Hm & E). exfalso. eapply (Hother _ ("nil" ++ r) Hpa); [exact Hm|]. by right. }
  destruct (exec re_equals t) as [m|] eqn:E6; [|done].
  apply equals_sound in E6 as (Hs & Hq & _ & E). exfalso. eapply (Hother _ _ Hs); [exact Hq|]. left. exact E.
Qed.

(** The second half of the text of such a condition. *)
Inductive second_half (p : jstr) : jstr → jstr → jstr → Prop :=
  | half_compare mode v : mode ∈ [MATCH_GT; MATCH_GTE; MATCH_LT; MATCH_LTE] → numeric v →
      second_half p mode v (call "param" p ++ " " ++ compare_op mode ++ " " ++ v)
  | half_contains v : plain v → trimmed v →
      second_half p MATCH_CONTAINS v ("has(" ++ call "param" p ++ ", " ++ (Q ++ v ++ Q) ++ ")").

Lemma compare_op_elem mode :
  mode ∈ [MATCH_GT; MATCH_GTE; MATCH_LT; MATCH_LTE] → compare_op mode ∈ [">"; ">="; "<"; "<="].
Proof. rewrite !elem_of_cons, elem_of_nil. intros [->|[->|[->|[->|[]]]]]; vm_compute; set_solver. Qed.

Lemma half_facts p mode v t :
  plain p → p ≠ [] → second_half p mode v t →
  tryParseRequestCondition t = Ret None ∧ piece " && " t ∧ t ≠ [] ∧ balanced t.
Proof.
  intros Hp Hne Ht.
  assert (Hcl : clean "&" t ∧ trimmed t).
  { destruct Ht as [mode v Hm Hv|v Hv Hv'].
    - assert (forallb safe_unit (compare_op mode) = true).
      { apply (forallb_elem (forallb safe_unit) [">"; ">="; "<"; "<="]); [done|by apply compare_op_elem]. }
      split; [clean_parts|]. eapply (trimmed_ends "param" (arg p ++ " " ++ compare_op mode ++ " ") v); auto.
      + unfold call, arg. by rewrite <- !app_assoc.
      + by apply (numeric_run v).
      + intros d. by apply numeric_last.
    - split.
      + change ("has("%js) with ("has" ++ "(")%js. rewrite <- app_assoc. apply clean_app; [by split|].
        rewrite (app_assoc ", "), (app_assoc (call _ _)). apply clean_parens; [by split|]. clean_parts.
      + eapply (trimmed_ends "has" ("(" ++ call "param" p ++ ", " ++ (Q ++ v ++ Q)) ")"); [|done..|by intros d [= <-]].
        by rewrite <- !app_assoc. }
  destruct Hcl as [Hcl Htr]. split; [|split; [|split; [by destruct Ht|by apply Hcl]]].
  - apply (param_second p); [by auto|]. destruct Ht as [mode v Hm Hv|v Hv Hv']; [left|right; by eexists].
    exists (compare_op mode), v. split; [by apply compare_op_elem|done].
  - apply and_piece; [by apply clean_no_and|done|by apply Hcl].
Qed.

Lemma build_half p mode v t :
  plain p → p ≠ [] → trimmed p → second_half p mode v t →
  buildRequestConditionExpr (CPH (MkPH param p mode v)) = join " && " [call "param" p ++ " != nil"; t].
Proof.
  intros Hp Hne Ht Hh. cbn [join]. rewrite <- app_assoc. cbn [buildRequestConditionExpr]. unfold buildParamHeaderExpr.
  replace (normalizeCondition _) with (CPH (MkPH param p mode v)).
  2:{ destruct Hh as [mode v Hm Hv|v Hv Hv']; [|done].
      rewrite !elem_of_cons, elem_of_nil in Hm. by destruct Hm as [->|[->|[->|[->|[]]]]]. }
  cbv zeta. cbn [path source ph_mode ph_value]. rewrite Ht, (proj2 (truthy_true p)) by done. cbn [negb].
  rewrite quoted_call by done. destruct Hh as [mode v Hm Hv|v Hv Hv'].
  - rewrite numeric_trim by done. change (test NUMERIC_LITERAL_REGEX v = true) in Hv. rewrite Hv. cbn [negb].
    rewrite !elem_of_cons, elem_of_nil in Hm. by destruct Hm as [->|[->|[->|[->|[]]]]].
  - change (MATCH_CONTAINS === MATCH_EXISTS) with false. rewrite jeqb_refl. unfold buildExprLiteral.
    rewrite jeqb_refl, Hv', quote_plain by done. done.
Qed.

Lemma half_lost p mode v t m :
  plain p → p ≠ [] → trimmed p → numeric m → second_half p mode v t →
  tryParseRequestRuleExpr (buildRequestRuleExpr [MkGroup [CPH (MkPH param p mode v)] m]) = Ret None.
Proof.
  intros Hp Hne Ht Hm Hh. destruct (half_facts p mode v t Hp Hne Hh) as (Hnone & Hpiece & Htne & Hbal).
  assert (Hw : written (CPH (MkPH param p MATCH_EXISTS [])) (call "param" p ++ " != nil")).
  { by apply (written_exists param). }
  destruct (written_piece _ _ Hw) as [Hcl Hwp], (written_trimmed _ _ Hw) as [Htw _].
  set (combined := join " && " [call "param" p ++ " != nil"; t]).
  assert (Hbuild : buildRuleGroupFactor (MkGroup [CPH (MkPH param p mode v)] m) = factor_text combined m).
  { unfold buildRuleGroupFactor. cbn [multiplier conditions map]. rewrite (build_half p mode v t) by done.
    rewrite numeric_trim by done. change (test NUMERIC_LITERAL_REGEX m = true) in Hm. by rewrite Hm. }
  assert (Hpar : parens (factor_text combined m)).
  { apply factor_parens; [|done]. apply join_balanced; [done|]. constructor; [apply Hcl|by constructor]. }
  assert (Htr : trim (factor_text combined m) = factor_text combined m).
  { destruct Hpar as (x & _ & ->). apply parens_trimmed. }
  unfold buildRequestRuleExpr. cbn [map]. rewrite Hbuild.
  change (List.filter truthy [factor_text combined m]) with [factor_text combined m].
  unfold tryParseRequestRuleExpr. change (join " * " [factor_text combined m]) with (factor_text combined m).
  rewrite Htr. change (negb (truthy (factor_text combined m))) with false. cbv iota.
  assert (Hs : splitTopLevelMultiply (factor_text combined m) = [factor_text combined m]).
  { apply (split_times_join [factor_text combined m]); [by constructor|done]. }
  rewrite Hs. cbn [parse_groups]. rewrite factor_exec by done. unfold combined.
  rewrite split_and_join; [|constructor; [by split|constructor; [by split|done]]|done].
  cbn [parse_conditions]. rewrite Htw, (written_read _ _ Hw). cbn [obind].
  rewrite (proj1 (proj2 Hpiece)), Hnone. done.
Qed.

(** ** Properties *)

(** C3: what the rule editor writes is read back as it was.  For any list of rule
    groups whose multipliers are numeric literals and whose conditions have names
    and values free of quotes, backslashes, parentheses, ampersands and bars (time
    comparisons and overnight ranges, presence of a header or parameter, equality,
    containment in a header), the text of [buildRequestRuleExpr] is parsed by
    [tryParseRequestRuleExpr] into exactly those groups, in order and with every
    field. *)
Theorem request_rules_roundtrip (gs : list RequestRuleGroup) :
  forallb canonical_group gs = true → tryParseRequestRuleExpr (buildRequestRuleExpr gs) = Ret (Some gs).
Proof. apply rules_read. Qed.

Lemma request_rules_roundtrip_witness :
  forallb canonical_group demo_groups = true ∧
  tryParseRequestRuleExpr (buildRequestRuleExpr demo_groups) = Ret (Some demo_groups).
Proof. split; [by vm_compute|]. apply request_rules_roundtrip. by vm_compute. Defined.

(** A billing expression put together from a base and rules is taken apart
    again.  For a trimmed base with matching parentheses that are not all in one
    outer pair and that does not end like a rule, and for a non-empty list of
    canonical groups, [splitBillingExprAndRequestRules] of [combineBillingExpr]
    gives back the base without the parentheses it was put in, and the rules. *)
Theorem combine_split_roundtrip (base : jstr) (gs : list RequestRuleGroup) :
  base ≠ [] → trim base = base → nested 0 base = true → hasFullOuterParens base = false →
  endsWith " : 1" base = false → gs ≠ [] → forallb canonical_group gs = true →
  splitBillingExprAndRequestRules (combineBillingExpr base (buildRequestRuleExpr gs))
  = Ret (MkSplit base (buildRequestRuleExpr gs)).
Proof. apply combined_split. Qed.

Lemma combine_split_roundtrip_witness :
  let base := ("p <= 200000 ? tier(" ++ Q ++ "s" ++ Q ++ ", p * 1) : tier(" ++ Q ++ "b" ++ Q ++ ", p * 2)")%js in
  splitBillingExprAndRequestRules (combineBillingExpr base (buildRequestRuleExpr demo_groups))
  = Ret (MkSplit base (buildRequestRuleExpr demo_groups)).
Proof. apply combine_split_roundtrip; by vm_compute. Defined.

(** The loop of [unwrapOuterParens] ends: as many rounds as the text has
    units are enough, for the result has no outer pair of parentheses left. *)
Theorem unwrap_ends (expr : jstr) : hasFullOuterParens (unwrapOuterParens expr) = false.
Proof. apply unwrap_go_full, trim_length. Qed.

(** A rule on a request parameter that compares a number or tests containment
    is written but not read back: its text has an [and] of its own, at which
    [splitTopLevelAnd] cuts it, and the second half is no condition.  The
    patterns for both kinds in [tryParseRequestCondition] are never reached this
    way. *)
Theorem param_rules_not_read_back (p mode v m : jstr) :
  forallb plain_unit p = true → p ≠ [] → trim p = p → test NUMERIC_LITERAL_REGEX m = true →
  (mode ∈ [MATCH_GT; MATCH_GTE; MATCH_LT; MATCH_LTE] ∧ test NUMERIC_LITERAL_REGEX v = true) ∨
  (mode = MATCH_CONTAINS ∧ forallb plain_unit v = true ∧ trim v = v) →
  tryParseRequestRuleExpr (buildRequestRuleExpr [MkGroup [CPH (MkPH param p mode v)] m]) = Ret None.
Proof.
  intros Hp Hne Ht Hm [[Hmode Hv]|(-> & Hv & Hv')]; eapply half_lost; try done; by constructor.
Qed.

Lemma param_rules_not_read_back_witness :
  tryParseRequestRuleExpr (buildRequestRuleExpr [MkGroup [CPH (MkPH param "max_tokens" MATCH_GT "1000")] "2"]) = Ret None.
Proof.
  apply param_rules_not_read_back; [by vm_compute..|]. left. split; [vm_compute; set_solver|by vm_compute].
Defined.

(** Without spaces around the plus sign a tier's prices are lost: the class of
    a number's characters holds the sign, which ends up in the number and makes it
    none. *)
Theorem tier_prices_need_spaces :
  map_get "inputPrice"%js (parseTierBody "p*1.5 + c*2") = Some (num_of_decimal false 15 (-1)) ∧
  map_get "inputPrice"%js (parseTierBody "p*1.5+c*2") = Some (num_of_Z 0).
Proof. by vm_compute. Qed.

(** A rule with a malformed escape in a quoted value is not rejected but
    throws: the pattern admits any escape and [JSON.parse] is not guarded. *)
Theorem malformed_escape_throws :
  tryParseRequestRuleExpr ("(has(header(" ++ Q ++ "x" ++ Q ++ "), " ++ Q ++ "\q" ++ Q ++ ") ? 2 : 1)") = Throws.
Proof. by vm_compute. Qed.
