(* ===== verification/TierExpr.v ===== *)
(** * The visual price editor

    Model of [features/pricing/lib/tier-expr.ts]: the tiers of the visual editor,
    the expression it writes for them, and the reading of an expression back into
    tiers.  [evalExprLocally] hands the text to the JavaScript engine and is left
    out.

    The seven optional costs of a tier are a list from field names to numbers, in
    the order of [BILLING_CACHE_VAR_MAP]. *)

From S2P Require Import Prelude JsRegExp JsValue JsText BillingExpr.

Inductive CacheMode := timed | generic.

#[global] Instance CacheMode_eq_dec : EqDecision CacheMode.
Proof. solve_decision. Defined.

Inductive ConditionValue := VNum (n : num) | VStr (s : jstr).

Record TierConditionInput := MkCondition { c_var : jstr; c_op : jstr; c_value : option ConditionValue }.

Record VisualTier := MkVisualTier {
  v_label : jstr; v_conditions : list TierConditionInput; input_unit_cost : num; output_unit_cost : num;
  cache_mode : CacheMode; extra_costs : list (jstr * num);
}.

(** [Partial<VisualTier>]: the properties that are present. *)
Record PartialTier := MkPartial {
  q_label : option jstr; q_conditions : option (list TierConditionInput); q_input : option num; q_output : option num;
  q_mode : option CacheMode; q_extra : list (jstr * num);
}.

Definition CACHE_1H : jstr := "cache_create_1h_unit_cost".

Definition getTierCacheMode (tier : PartialTier) : CacheMode :=
  match q_mode tier with
  | Some m => m
  | None =>
    if num_ltb (S754_zero false) (default S754_nan (map_get CACHE_1H (q_extra tier))) then timed else generic
  end.

(** The properties that are present win; the seven costs are numbers. *)
Definition normalizeVisualTier (tier : PartialTier) : VisualTier :=
  MkVisualTier (default [] (q_label tier)) (default [] (q_conditions tier))
    (default (S754_zero false) (q_input tier)) (default (S754_zero false) (q_output tier))
    (default (getTierCacheMode tier) (q_mode tier))
    (map (fun cv => (cv_field cv, or_zero (map_get (cv_field cv) (q_extra tier)))) BILLING_CACHE_VAR_MAP).

Definition as_partial (v : VisualTier) : PartialTier :=
  MkPartial (Some (v_label v)) (Some (v_conditions v)) (Some (input_unit_cost v)) (Some (output_unit_cost v))
    (Some (cache_mode v)) (extra_costs v).

Definition createDefaultVisualConfig : list VisualTier :=
  [normalizeVisualTier (MkPartial (Some ("base" : jstr)) (Some []) (Some (num_of_Z 0)) (Some (num_of_Z 0)) (Some generic) [])].

(** [VisualConfig] by its tiers. *)
Definition normalizeVisualConfig (tiers : list PartialTier) : list VisualTier :=
  match tiers with [] => createDefaultVisualConfig | _ => map normalizeVisualTier tiers end.

(** ** Writing *)

Definition value_text (v : ConditionValue) : jstr := match v with VNum n => number_to_string n | VStr s => s end.

Definition condition_filled (c : TierConditionInput) : bool :=
  truthy (c_var c) && truthy (c_op c) &&
  match c_value c with None => false | Some (VStr s) => truthy s | Some (VNum _) => true end.

Definition condition_text (c : TierConditionInput) : jstr :=
  c_var c ++ " " ++ c_op c ++ " " ++ match c_value c with Some v => value_text v | None => [] end.

Definition buildConditionStr (conditions : list TierConditionInput) : jstr :=
  join " && " (map condition_text (List.filter condition_filled conditions)).

Definition number_or_zero (x : num) : num := if num_truthy x then x else num_of_Z 0.

Definition buildTierBodyExpr (tier : VisualTier) : jstr :=
  join " + "
    (("p * " ++ number_to_string (number_or_zero (input_unit_cost tier)))
     :: ("c * " ++ number_to_string (number_or_zero (output_unit_cost tier)))
     :: concat (map (fun cv =>
          let v := or_zero (map_get (cv_field cv) (extra_costs tier)) in
          if num_truthy v then [exprVar cv ++ " * " ++ number_to_string v] else []) BILLING_CACHE_VAR_MAP)).

Definition tier_call (label : jstr) (tier : VisualTier) : jstr :=
  "tier(" ++ Q ++ label ++ Q ++ ", " ++ buildTierBodyExpr tier ++ ")".

(** The loop over several tiers; [i] is the index of the first of [tiers]. *)
Fixpoint tier_parts (i : nat) (tiers : list VisualTier) : list jstr :=
  match tiers with
  | [] => []
  | tier :: rest =>
    let label := if truthy (v_label tier) then v_label tier else "tier_" ++ js_of_N (N.of_nat (i + 1)) in
    let body := tier_call label tier in
    let cond := buildConditionStr (v_conditions tier) in
    (match rest with [] => body | _ => if truthy cond then cond ++ " ? " ++ body else body end) :: tier_parts (S i) rest
  end.

Definition generateExprFromVisualConfig (tiers : list VisualTier) : jstr :=
  match tiers with
  | [] => "p * 0 + c * 0"
  | [tier] =>
    let label := if truthy (v_label tier) then v_label tier else "default" in
    let body := tier_call label tier in
    let cond := buildConditionStr (v_conditions tier) in
    if truthy cond then cond ++ " ? " ++ body ++ " : p * 0 + c * 0" else body
  | _ => join " : " (tier_parts 0 tiers)
  end.

(** ** Reading *)

(** A version prefix such as [v1:], with the rest in group 1. *)
Definition re_prefix : regex :=
  (RBol · rlit "v" · rplus (RUnit is_digit) · rlit ":" · RGroup 1 (rstar (RUnit any)) · REol)%re.

Definition number_group (i : nat) : regex := RGroup i (rplus (RUnit num_unit)).

(** A variable, a product sign, and the number in group [i]. *)
Definition product (v : jstr) (i : nat) : regex := (rlit v · ws · rlit "*" · ws · number_group i)%re.

(** The optional summands, with their numbers in groups from [i] on. *)
Fixpoint optCache (i : nat) (vars : list jstr) : regex :=
  match vars with
  | [] => REps
  | v :: vars' => (ropt (ws · rlit "+" · ws · product v i) · optCache (S i) vars')%re
  end.

(** [bodyPat], with the two numbers in groups [i] and [i + 1]. *)
Definition bodyPat (i : nat) : regex :=
  (product "p" i · ws · rlit "+" · ws · product "c" (S i) · optCache (S (S i)) (map exprVar BILLING_CACHE_VAR_MAP))%re.

(** The call of [tier]: the label in group [i], the numbers after it. *)
Definition callPat (i : nat) : regex :=
  (rlit ("tier(" ++ Q) · RGroup i (rstar (RUnit not_quote)) · rlit (Q ++ ",") · ws · bodyPat (S i) · rlit ")")%re.

Definition singleRe : regex := (RBol · callPat 1 · REol)%re.
Definition visualTierRe : regex := (ropt (condGroup 1 · ws · rlit "?" · ws) · callPat 2)%re.

(** [Number(m[i])] of a group that took part in the match. *)
Definition group_number (i : nat) (m : rmatched) : option num := string_to_number <$> cap i m.

(** The tier of a match whose label is in group [i]. *)
Definition matched_tier (i : nat) (conditions : list TierConditionInput) (m : rmatched) : VisualTier :=
  normalizeVisualTier (MkPartial (cap i m) (Some conditions) (group_number (S i) m) (group_number (S (S i)) m) None
    (concat (imap (fun k cv =>
       match group_number (S (S (S i)) + k) m with Some n => [(cv_field cv, n)] | None => [] end)
       BILLING_CACHE_VAR_MAP))).

Definition read_conditions (condStr : jstr) : list TierConditionInput :=
  map (fun tc => MkCondition (tc_var tc) (tc_op tc) (Some (VNum (tc_value tc)))) (parse_tier_conditions condStr).

Definition without_spaces (s : jstr) : jstr := List.filter (fun c => negb (is_ws c)) s.

Definition renormalize (tiers : list VisualTier) : list VisualTier := normalizeVisualConfig (map as_partial tiers).

Definition tryParseVisualConfig (exprStr : option jstr) : option (list VisualTier) :=
  match exprStr with
  | None | Some [] => None
  | Some exprStr =>
    let body := match exec re_prefix exprStr with Some m => default [] (cap 1 m) | None => exprStr end in
    match exec singleRe body with
    | Some m => Some (renormalize [matched_tier 1 [] m])
    | None =>
      let tiers := map (fun m => matched_tier 2 (read_conditions (default [] (cap 1 m))) m) (matchAll visualTierRe body) in
      match tiers with
      | [] => None
      | _ =>
        let cfg := renormalize tiers in
        if without_spaces (generateExprFromVisualConfig cfg) === without_spaces body then Some cfg else None
      end
    end
  end.

Definition ESTIMATOR_VARS : list jstr := ["cr"; "cc"; "cc1h"; "img"; "img_o"; "ai"; "ao"].

Definition exprUsesExtraVars (exprStr : jstr) : bool :=
  truthy exprStr && test (RWordB · ralts ESTIMATOR_VARS · RWordB)%re exprStr.

Definition demo_tier (label : jstr) (conds : list TierConditionInput) (a b : Z) (extra : list (jstr * num)) : VisualTier :=
  normalizeVisualTier (MkPartial (Some label) (Some conds) (Some (num_of_Z a)) (Some (num_of_Z b)) None extra).

Example generated :
  let cfg := [demo_tier "small" [MkCondition "len" "<=" (Some (VNum (num_of_Z 200000)))] 3 15 [(CACHE_1H, num_of_Z 6)];
              demo_tier "big" [] 6 22 []] in
  generateExprFromVisualConfig cfg =
    "len <= 200000 ? tier(" ++ Q ++ "small" ++ Q ++ ", p * 3 + c * 15 + cc1h * 6) : tier(" ++ Q ++ "big" ++ Q ++ ", p * 6 + c * 22)"
  ∧ tryParseVisualConfig (Some (generateExprFromVisualConfig cfg)) = Some cfg.
Proof. by vm_compute. Qed.

(** A sum of two numbers is read as one number that is not one, and written back as 0:
    a single tier is not compared with the expression it would be written as. *)
Example single_tier_misread :
  let expr := "tier(" ++ Q ++ "base" ++ Q ++ ", p * 1+2 + c * 3)" in
  generateExprFromVisualConfig <$> tryParseVisualConfig (Some expr) =
    Some ("tier(" ++ Q ++ "base" ++ Q ++ ", p * 0 + c * 3)").
Proof. by vm_compute. Qed.

(** ** Lemmas *)

(** *** Spaces, literals and numerals *)

Lemma MR_opt r s cs s' cs' :
  MR (ropt r) s cs s' cs' → (s' = s ∧ cs' = cs) ∨ MR r s (filter (fun c => c.1 ∉ groups r) cs) s' cs'.
Proof.
  intros (b & b' & HM). inversion HM as [| | | | | | |? ? ? ? ? ? _ H1 _ H2| | | | |]; subst; [by left|right].
  inversion H2; subst; try done; by exists b, b'.
Qed.

(** Spaces before a text that starts with another unit are all skipped when a unit
    that is not a space has to follow. *)
Lemma ws_lit c l w x cs s1 cs1 s2 cs2 :
  forallb is_ws w = true → is_ws c = false →
  MR ws (w ++ x) cs s1 cs1 → MR (rlit (c :: l)) s1 cs1 s2 cs2 →
  (∀ d r, x = d :: r → is_ws d = false) → x = (c :: l) ++ s2 ∧ cs2 = cs.
Proof.
  intros Hw Hc H1 H2 Hx. unfold ws in H1. apply MR_class in H1 as (w1 & E & Hw1 & _ & _ & ->); [|done].
  apply MR_lit in H2 as [-> ->]. split; [|done].
  destruct (unique_run is_ws w w1 x ((c :: l) ++ s2)) as [_ ->]; try done. intros d r [= <- _]. done.
Qed.

(** And before a numeral. *)
Lemma ws_number i w a x cs s1 cs1 s2 cs2 :
  forallb is_ws w = true → forallb num_unit a = true → a ≠ [] →
  MR ws (w ++ a ++ x) cs s1 cs1 → MR (number_group i) s1 cs1 s2 cs2 →
  (∀ d r, x = d :: r → num_unit d = false) →
  ∃ a1 a2, a = a1 ++ a2 ∧ s2 = a2 ++ x ∧ cs2 = set_cap i a1 cs.
Proof.
  intros Hw Ha Hne H1 H2 Hx. unfold ws in H1. apply MR_class in H1 as (w1 & E & Hw1 & _ & _ & ->); [|done].
  unfold number_group in H2. apply MR_group_class in H2 as (n & -> & Hn & Hl & _ & ->); [|done].
  destruct (unique_run is_ws w w1 (a ++ x) (n ++ s2)) as [_ E']; try done.
  { destruct a as [|c a]; [done|]. intros d r [= <- _]. cbn in Ha. apply andb_true_iff in Ha as [Ha _].
    by apply num_unit_not_ws. }
  { destruct n as [|c n]; [cbn in Hl; lia|]. intros d r [= <- _]. cbn in Hn. apply andb_true_iff in Hn as [Hn _].
    by apply num_unit_not_ws. }
  clear E. revert n E' Hn Hl. clear Hne. induction a as [|c a IH]; intros n E' Hn Hl.
  - exfalso. destruct n as [|d n]; [cbn in Hl; lia|]. cbn in E'. apply andb_true_iff in Hn as [Hn _].
    rewrite (Hx d (n ++ s2) E') in Hn. done.
  - apply andb_true_iff in Ha as [Hc Ha]. destruct n as [|d n]; [cbn in Hl; lia|]. injection E' as <- E'.
    destruct n as [|d n].
    + exists [c], a. cbn in E'. by rewrite <- E'.
    + cbn in Hn. apply andb_true_iff in Hn as [Hd Hn].
      destruct (IH Ha (d :: n) E' Hn) as (a1 & a2 & -> & -> & Ecs); [cbn; lia|].
      exists (c :: a1), a2. split; [done|]. split; [done|].
      assert (En : d :: n = a1).
      { apply (f_equal (map_get i)) in Ecs. rewrite !set_cap_eq in Ecs. by injection Ecs. }
      by rewrite En.
Qed.

(** *** Sums of products *)

(** A name of a variable: word characters, the first not part of a numeral. *)
Definition name_ok (v : jstr) : bool :=
  match v with c :: _ => negb (num_unit c) | [] => false end && forallb is_word v.

Definition numeral (a : jstr) : bool := truthy a && forallb num_unit a.

(** What follows a numeral: another product, or the closing parenthesis. *)
Inductive Rest : jstr → Prop :=
  | rest_end z : Rest (")" ++ z)
  | rest_more v a x : name_ok v = true → numeral a = true → Rest x → Rest (" + " ++ v ++ " * " ++ a ++ x).

Lemma word_not_ws c : is_word c = true → is_ws c = false.
Proof.
  intros Hw. assert (Hc : (48 ≤ c ≤ 122)%N).
  { unfold is_word, is_alnum, is_alpha, is_digit, is_upper, is_lower, in_range in Hw.
    rewrite !orb_true_iff, !andb_true_iff, !N.leb_le, N.eqb_eq in Hw. lia. }
  unfold is_ws. repeat (apply orb_false_iff; split); rewrite ?andb_false_iff, ?N.leb_gt, ?N.eqb_neq; lia.
Qed.

Lemma name_head v : name_ok v = true → ∃ c l, v = c :: l ∧ num_unit c = false ∧ is_ws c = false ∧ is_word c = true.
Proof.
  unfold name_ok. destruct v as [|c l]; [done|]. intros [Hn Hw]%andb_true_iff. apply negb_true_iff in Hn.
  cbn in Hw. apply andb_true_iff in Hw as [Hw _]. exists c, l. auto using word_not_ws.
Qed.

Lemma numeral_cases a : numeral a = true → a ≠ [] ∧ forallb num_unit a = true.
Proof. unfold numeral. destruct a; [done|]. by intros. Qed.

Lemma Rest_head x : Rest x → ∃ d r, x = d :: r ∧ num_unit d = false.
Proof. by intros [z|v a x' _ _ _]; eexists _, _. Qed.

(** No name follows at once, not even after spaces. *)
Lemma Rest_no_name x v w r : Rest x → name_ok v = true → forallb is_ws w = true → x ≠ w ++ v ++ r.
Proof.
  intros Hx (c & l & -> & _ & Hc & Hw)%name_head Hws E.
  destruct Hx as [z|v' a x' _ _ _]; destruct w as [|d w]; cbn in E.
  - injection E as <- _. done.
  - injection E as <- _. done.
  - injection E as <- _. done.
  - injection E as <- E. destruct w as [|d w]; cbn in E; injection E as <- _; done.
Qed.

(** A product that is added to the numeral [y ++ ...]: the numeral was complete, and
    the product is the next one of the text. *)
Lemma summand_read v i y x cs s1 cs1 s2 cs2 s3 cs3 s4 cs4 :
  forallb num_unit y = true → Rest x → name_ok v = true →
  MR ws (y ++ x) cs s1 cs1 → MR (rlit "+") s1 cs1 s2 cs2 → MR ws s2 cs2 s3 cs3 → MR (product v i) s3 cs3 s4 cs4 →
  y = [] ∧ ∃ a x', x = " + " ++ v ++ " * " ++ a ++ x' ∧ numeral a = true ∧ Rest x' ∧
    ∃ a1 a2, a = a1 ++ a2 ∧ s4 = a2 ++ x' ∧ cs4 = set_cap i a1 cs.
Proof.
  intros Hy Hx Hv H1 H2 H3 H4. unfold product in H4. apply MR_seq in H4 as (s5 & cs5 & H4 & H5).
  destruct (name_head v Hv) as (c & l & Ev & Hcn & Hcw & Hcword).
  assert (Hnil : y = []).
  { destruct y as [|d y]; [done|exfalso]. cbn in Hy. apply andb_true_iff in Hy as [Hd Hy].
    destruct (ws_lit 43 [] [] ((d :: y) ++ x) cs s1 cs1 s2 cs2) as [E ->]; try done.
    { intros d' r [= <- _]. by apply num_unit_not_ws. }
    injection E as _ E. rewrite Ev in H4.
    destruct y as [|d' y].
    - unfold ws in H3. apply MR_class in H3 as (w & Ew & Hw & _ & _ & ->); [|done].
      apply MR_lit in H4 as [-> ->]. cbn in E. rewrite <- E in Ew. rewrite <- Ev in Ew. by apply (Rest_no_name x v w s5) in Ew.
    - cbn in Hy. apply andb_true_iff in Hy as [Hd' Hy].
      destruct (ws_lit c l [] s2 cs s3 cs3 s5 cs5) as [E' _]; try done.
      { rewrite <- E. intros e r [= <- _]. by apply num_unit_not_ws. }
      rewrite <- E in E'. injection E' as -> _. by rewrite Hcn in Hd'. }
  subst y. split; [done|]. cbn [app] in H1. destruct Hx as [z|v' a x' Hv' Ha Hx'].
  { exfalso. destruct (ws_lit 43 [] [] (")" ++ z) cs s1 cs1 s2 cs2) as [E _]; try done. by intros d r [= <- _]. }
  destruct (ws_lit 43 [] " " ("+ " ++ v' ++ " * " ++ a ++ x') cs s1 cs1 s2 cs2) as [E ->]; try done.
  { by intros d r [= <- _]. }
  injection E as E. subst s2. rewrite Ev in H4. destruct (name_head v' Hv') as (c' & l' & Ev' & _ & Hcw' & _).
  destruct (ws_lit c l " " (v' ++ " * " ++ a ++ x') cs s3 cs3 s5 cs5) as [E ->]; try done.
  { rewrite Ev'. intros d r [= <- _]. done. }
  rewrite <- Ev in E. apply MR_seq in H5 as (s6 & cs6 & H5 & H6). apply MR_seq in H6 as (s7 & cs7 & H6 & H7).
  apply MR_seq in H7 as (s8 & cs8 & H7 & H8).
  assert (Hname : ∀ u, name_ok u = true → forallb is_word u = true) by (by intros u [_ ?]%andb_true_iff).
  assert (Hs5 : ∀ d r, s5 = d :: r → is_word d = false).
  { intros d r ->. unfold ws in H5. apply MR_class in H5 as (w & Ew & Hw & _ & _ & ->); [|done].
    apply MR_lit in H6 as [-> _]. destruct w as [|e w]; [by injection Ew as -> _|]. injection Ew as <- _.
    cbn in Hw. apply andb_true_iff in Hw as [He _]. destruct (is_word d) eqn:Ew'; [|done].
    by rewrite (word_not_ws d Ew') in He. }
  destruct (unique_run is_word v' v (" * " ++ a ++ x') s5) as [-> <-]; auto; [by intros d r [= <- _]|].
  destruct (ws_lit 42 [] " " ("* " ++ a ++ x') cs s6 cs6 s7 cs7) as [E' ->]; try done.
  { by intros d r [= <- _]. }
  injection E' as E'. subst s7. destruct (numeral_cases a Ha) as [Hane Han].
  destruct (ws_number i " " a x' cs s8 cs8 s4 cs4) as (a1 & a2 & Ea & Es & Ecs); try done.
  { intros d r ->. by destruct (Rest_head _ Hx') as (d' & r' & [= <- <-] & Hd'). }
  exists a, x'. do 3 (split; [done|]). by exists a1, a2.
Qed.

(** The optional products of a sum: for each variable its numeral, if it has one. *)
Definition present (ps : list (jstr * option jstr)) : jstr :=
  concat (map (fun p => match p.2 with Some a => " + " ++ p.1 ++ " * " ++ a | None => [] end) ps).

Definition summands_ok (ps : list (jstr * option jstr)) : Prop :=
  Forall (fun p => name_ok p.1 = true ∧ ∀ a, p.2 = Some a → numeral a = true) ps ∧ NoDup (map fst ps).

Lemma present_cons v o ps x :
  present ((v, o) :: ps) ++ x =
  match o with Some a => " + " ++ v ++ " * " ++ a ++ present ps ++ x | None => present ps ++ x end.
Proof. unfold present. cbn [map concat fst snd]. destruct o; [|done]. by rewrite <- !app_assoc. Qed.

Lemma present_Rest ps z : summands_ok ps → Rest (present ps ++ ")" ++ z).
Proof.
  intros [Hp _]. induction Hp as [|[v o] ps [Hv Ha] _ IH]; [constructor|]. rewrite present_cons.
  destruct o as [a|]; [|done]. cbn in *. apply (rest_more v a (present ps ++ ")" ++ z)); auto.
Qed.

Lemma end_read y x cs s' cs' :
  forallb num_unit y = true → MR (rlit ")") (y ++ x) cs s' cs' → y = [] ∧ x = ")" ++ s' ∧ cs' = cs.
Proof.
  intros Hy [E ->]%MR_lit. destruct y as [|c y]; [done|]. injection E as -> _. done.
Qed.

Lemma summand_parts v i s cs s' cs' :
  MR (ws · rlit "+" · ws · product v i)%re s cs s' cs' →
  ∃ s1 cs1 s2 cs2 s3 cs3, MR ws s cs s1 cs1 ∧ MR (rlit "+") s1 cs1 s2 cs2 ∧ MR ws s2 cs2 s3 cs3 ∧
    MR (product v i) s3 cs3 s' cs'.
Proof.
  intros (s1 & cs1 & H1 & H2)%MR_seq. apply MR_seq in H2 as (s2 & cs2 & H2 & H3).
  apply MR_seq in H3 as (s3 & cs3 & H3 & H4). by exists s1, cs1, s2, cs2, s3, cs3.
Qed.

Lemma same_name u v r r' :
  name_ok u = true → name_ok v = true → " + " ++ u ++ " * " ++ r = " + " ++ v ++ " * " ++ r' → u = v ∧ r = r'.
Proof.
  intros [_ Hu]%andb_true_iff [_ Hv]%andb_true_iff E%app_inv_head.
  destruct (unique_run is_word u v (" * " ++ r) (" * " ++ r')) as [-> E']; auto; [by intros d t [= <- _]..|].
  by apply app_inv_head in E'.
Qed.

(** A product of the text cannot be passed over. *)
Lemma not_skipped vars : ∀ i v a x y cs s1 cs1 s' cs',
  Forall (fun u => name_ok u = true) vars → (v ∉ vars) → name_ok v = true → numeral a = true → Rest x →
  forallb num_unit y = true →
  MR (optCache i vars) (y ++ " + " ++ v ++ " * " ++ a ++ x) cs s1 cs1 → MR (rlit ")") s1 cs1 s' cs' → False.
Proof.
  induction vars as [|u vars IH]; intros i v a x y cs s1 cs1 s' cs' Hvars Hin Hv Ha Hx Hy H1 H2.
  - cbn [optCache] in H1. destruct H1 as (b & b' & [= -> -> ->]%M_eps_iff).
    apply end_read in H2 as (_ & [=] & _); done.
  - apply Forall_cons in Hvars as [Hu Hvars]. apply not_elem_of_cons in Hin as [Hne Hin].
    cbn [optCache] in H1. apply MR_seq in H1 as (s2 & cs2 & H1 & H3). apply MR_opt in H1 as [[-> ->]|H1].
    + by apply (IH (S i) v a x y cs s1 cs1 s' cs').
    + apply summand_parts in H1 as (s3 & cs3 & s4 & cs4 & s5 & cs5 & H4 & H5 & H6 & H7).
      destruct (summand_read u i y (" + " ++ v ++ " * " ++ a ++ x) _ _ _ _ _ _ _ _ _ Hy (rest_more v a x Hv Ha Hx) Hu H4 H5 H6 H7)
        as (_ & a' & x' & E & _).
      by apply same_name in E as [-> _].
Qed.

Lemma groups_lit w : groups (rlit w) = [].
Proof. by induction w. Qed.

Lemma summand_groups v i : groups (ws · rlit "+" · ws · product v i)%re = [i].
Proof. unfold product. cbn [groups app ws]. by rewrite !groups_lit. Qed.

Lemma map_get_without (gs : list nat) (cs : list (nat * jstr)) j :
  map_get j cs = None ∨ j ∉ gs → map_get j (filter (fun c => c.1 ∉ gs) cs) = map_get j cs.
Proof.
  intros Hj. induction cs as [|[k w] cs IH]; [done|]. rewrite filter_cons. cbn [fst map_get] in *.
  repeat case_decide; cbn [map_get]; repeat case_decide; subst; try done; try (by apply IH).
  - destruct Hj; [done|]. by destruct H.
Qed.

(** The captures of the optional products from group [i] on. *)
Fixpoint captured (i : nat) (ps : list (jstr * option jstr)) (old : nat → option jstr) (j : nat) : option jstr :=
  match ps with
  | [] => old j
  | (_, o) :: ps' => if decide (j = i) then o else captured (S i) ps' old j
  end.

Lemma captured_lt ps : ∀ i old j, j < i → captured i ps old j = old j.
Proof.
  induction ps as [|[v o] ps IH]; intros i old j Hj; [done|]. cbn. rewrite decide_False by lia. apply IH. lia.
Qed.

Lemma captured_old ps : ∀ i old old' j, old j = old' j → captured i ps old j = captured i ps old' j.
Proof. induction ps as [|[v o] ps IH]; intros i old old' j E; [done|]. cbn. case_decide; auto. Qed.

Lemma present_other ps v z r :
  Forall (fun p => name_ok p.1 = true ∧ ∀ a, p.2 = Some a → numeral a = true) ps → name_ok v = true → (v ∉ map fst ps) →
  present ps ++ ")" ++ z ≠ " + " ++ v ++ " * " ++ r.
Proof.
  intros Hps Hv Hin E. induction Hps as [|[u o] ps [Hu _] _ IH]; [done|]. rewrite present_cons in E. cbn in Hin, Hu.
  apply not_elem_of_cons in Hin as [Hne Hin]. destruct o as [a|]; [|by apply IH]. by apply same_name in E as [-> _].
Qed.

(** The optional products and the closing parenthesis are read exactly. *)
Lemma opt_read ps : ∀ i y z cs s1 cs1 s' cs',
  summands_ok ps → (∀ k, i ≤ k → map_get k cs = None) → forallb num_unit y = true →
  MR (optCache i (map fst ps)) (y ++ present ps ++ ")" ++ z) cs s1 cs1 → MR (rlit ")") s1 cs1 s' cs' →
  y = [] ∧ s' = z ∧ ∀ j, map_get j cs' = captured i ps (fun k => map_get k cs) j.
Proof.
  induction ps as [|[v o] ps IH]; intros i y z cs s1 cs1 s' cs' Hps Hcs Hy H1 H2.
  - cbn in H1. destruct H1 as (b & b' & [= -> -> ->]%M_eps_iff).
    apply end_read in H2 as (-> & E & ->); [|done]. by injection E as <-.
  - destruct Hps as [[[Hv Ho] Hps]%Forall_cons Hnd]. cbn in Hv, Ho, Hnd. apply NoDup_cons in Hnd as [Hin Hnd].
    assert (Hps' : summands_ok ps) by done.
    assert (Hnames : Forall (fun u => name_ok u = true) (map fst ps)).
    { apply Forall_map. eapply Forall_impl; [exact Hps|]. by intros p []. }
    cbn [map fst optCache] in H1. apply MR_seq in H1 as (s2 & cs2 & H1 & H3).
    rewrite present_cons in *. apply MR_opt in H1 as [[-> ->]|H1].
    + destruct o as [a|].
      * exfalso. eapply (not_skipped (map fst ps) (S i) v a (present ps ++ ")" ++ z) y); eauto using present_Rest.
      * destruct (IH (S i) y z cs s1 cs1 s' cs') as (-> & -> & Hj); auto; [intros k Hk; apply Hcs; lia|].
        split; [done|]. split; [done|]. intros j. rewrite Hj. cbn. case_decide; [subst; rewrite captured_lt by lia|done].
        by apply Hcs.
    + apply summand_parts in H1 as (s3 & cs3 & s4 & cs4 & s5 & cs5 & H4 & H5 & H6 & H7).
      rewrite summand_groups in H4. destruct o as [a|].
      * destruct (summand_read v i y (" + " ++ v ++ " * " ++ a ++ present ps ++ ")" ++ z) _ _ _ _ _ _ _ _ _ Hy
          (rest_more v a _ Hv (Ho a eq_refl) (present_Rest ps z Hps')) Hv H4 H5 H6 H7)
          as (-> & a' & x' & E & Ha' & Hx' & a1 & a2 & -> & -> & ->).
        split; [done|]. apply same_name in E as [_ E]; [|done..].
        destruct (numeral_cases _ Ha') as [_ Hn']. destruct (numeral_cases _ (Ho a eq_refl)) as [_ Hn].
        destruct (unique_run num_unit a (a1 ++ a2) (present ps ++ ")" ++ z) x') as [-> Ex]; auto.
        { intros d r Ed. destruct (Rest_head _ (present_Rest ps z Hps')) as (d' & r' & E' & Hd'). rewrite E' in Ed.
          by injection Ed as -> _. }
        { intros d r ->. by destruct (Rest_head _ Hx') as (d' & r' & [= <- <-] & Hd'). }
        rewrite <- Ex in H3. rewrite forallb_app in Hn. apply andb_true_iff in Hn as [_ Hn].
        destruct (IH (S i) a2 z (set_cap i a1 (filter (fun c => c.1 ∉ [i]) cs)) s1 cs1 s' cs') as (-> & -> & Hj); auto.
        { intros k Hk. rewrite set_cap_ne, map_get_without by (lia || (left; apply Hcs; lia)). apply Hcs. lia. }
        split; [done|]. intros j. rewrite Hj. cbn [captured]. case_decide as Ej.
        { subst j. rewrite captured_lt, set_cap_eq by lia. by rewrite app_nil_r. }
        apply captured_old. rewrite set_cap_ne, map_get_without by (done || set_solver). done.
      * exfalso. destruct (summand_read v i y (present ps ++ ")" ++ z) _ _ _ _ _ _ _ _ _ Hy (present_Rest ps z Hps') Hv H4 H5 H6 H7)
          as (-> & a' & x' & E & Ha' & Hx' & _).
        by apply present_other in E.
Qed.

(** *** Calls of [tier] *)

Lemma product_read v i a x cs s' cs' :
  numeral a = true → (∀ d r, x = d :: r → num_unit d = false) →
  MR (product v i) (v ++ " * " ++ a ++ x) cs s' cs' →
  ∃ a1 a2, a = a1 ++ a2 ∧ s' = a2 ++ x ∧ cs' = set_cap i a1 cs.
Proof.
  intros [Hne Ha]%numeral_cases Hx H. unfold product in H. apply MR_seq in H as (s1 & cs1 & H1 & H).
  apply MR_lit in H1 as [E ->]. apply app_inv_head in E. subst s1.
  apply MR_seq in H as (s2 & cs2 & H2 & H). apply MR_seq in H as (s3 & cs3 & H3 & H).
  apply MR_seq in H as (s4 & cs4 & H4 & H5).
  destruct (ws_lit 42 [] " " ("* " ++ a ++ x) cs s2 cs2 s3 cs3) as [E ->]; try done; [by intros d r [= <- _]|].
  injection E as E. subst s3. by apply (ws_number i " " a x cs s4 cs4 s' cs').
Qed.

Definition call_text (label a b : jstr) (ps : list (jstr * option jstr)) : jstr :=
  "tier(" ++ Q ++ label ++ Q ++ ", p * " ++ a ++ " + c * " ++ b ++ present ps ++ ")".

Lemma call_text_app label a b ps z :
  call_text label a b ps ++ z =
  ("tier(" ++ Q) ++ label ++ (Q ++ ",") ++ " " ++ "p" ++ " * " ++ a ++ " + " ++ "c" ++ " * " ++ b ++ present ps ++ ")" ++ z.
Proof. unfold call_text. rewrite <- !app_assoc. done. Qed.

Definition call_caps (i : nat) (label a b : jstr) (ps : list (jstr * option jstr)) (old : nat → option jstr) (j : nat) :
    option jstr :=
  if decide (j = i) then Some label else if decide (j = S i) then Some a else if decide (j = S (S i)) then Some b
  else captured (S (S (S i))) ps old j.

Record call_ok (label a b : jstr) (ps : list (jstr * option jstr)) : Prop := {
  ok_label : forallb not_quote label = true;
  ok_input : numeral a = true;
  ok_output : numeral b = true;
  ok_summands : summands_ok ps;
  ok_vars : map fst ps = map exprVar BILLING_CACHE_VAR_MAP;
}.

(** A call is read exactly. *)
Lemma call_read i label a b ps z cs s' cs' :
  call_ok label a b ps → (∀ k, i ≤ k → map_get k cs = None) →
  MR (callPat i) (call_text label a b ps ++ z) cs s' cs' →
  s' = z ∧ ∀ j, map_get j cs' = call_caps i label a b ps (fun k => map_get k cs) j.
Proof.
  intros [Hl Ha Hb Hps Hvars] Hcs H. rewrite call_text_app in H. unfold callPat in H.
  apply MR_seq in H as (s1 & cs1 & H1 & H). apply MR_lit in H1 as [E ->]. apply app_inv_head in E. subst s1.
  apply MR_seq in H as (s1 & cs1 & H1 & H). apply MR_group_class in H1 as (w & E & Hw & _ & _ & ->); [|done].
  apply MR_seq in H as (s2 & cs2 & H2 & H). apply MR_lit in H2 as [-> ->].
  eapply unique_run in E as [<- E']; [|exact Hl|exact Hw|by intros d r [= <- _]..].
  apply app_inv_head in E'. subst s2.
  apply MR_seq in H as (s3 & cs3 & H3 & H). apply MR_seq in H as (s4 & cs4 & H4 & H5). unfold bodyPat in H4.
  apply MR_seq in H4 as (s5 & cs5 & H4 & H6).
  assert (Hp : s3 = "p" ++ " * " ++ a ++ " + " ++ "c" ++ " * " ++ b ++ present ps ++ ")" ++ z ∧ cs3 = set_cap i label cs).
  { pose proof H4 as H4'. unfold product in H4'. apply MR_seq in H4' as (s6 & cs6 & H4' & _). apply MR_lit in H4' as [-> _].
    unfold ws in H3. apply MR_class in H3 as (u & E & Hu & _ & _ & ->); [|done].
    eapply (unique_run is_ws " " u) in E as [_ <-]; [done|done|exact Hu|by intros d r [= <- _]..]. }
  destruct Hp as [-> ->].
  set (tail := " + " ++ "c" ++ " * " ++ b ++ present ps ++ ")" ++ z) in *.
  assert (Htail : Rest tail) by (apply (rest_more "c" b); auto using present_Rest).
  apply product_read in H4 as (a1 & a2 & -> & -> & ->); [|done|].
  2:{ intros d r Ed. destruct (Rest_head _ Htail) as (d' & r' & E'' & Hd'). rewrite E'' in Ed. by injection Ed as -> _. }
  destruct (numeral_cases _ Ha) as [_ Han]. rewrite forallb_app in Han. apply andb_true_iff in Han as [_ Han].
  apply MR_seq in H6 as (s6 & cs6 & H6 & H7). apply MR_seq in H7 as (s7 & cs7 & H7 & H8).
  apply MR_seq in H8 as (s8 & cs8 & H8 & H9). apply MR_seq in H9 as (s9 & cs9 & H9 & H10).
  destruct (summand_read "c" (S (S i)) a2 tail _ _ _ _ _ _ _ _ _ Han Htail eq_refl H6 H7 H8 H9)
    as (-> & b' & x' & E'' & Hb' & Hx' & b1 & b2 & -> & -> & ->).
  apply same_name in E'' as [_ E'']; [|done..].
  destruct (numeral_cases _ Hb') as [_ Hn']. destruct (numeral_cases _ Hb) as [_ Hn].
  destruct (unique_run num_unit b (b1 ++ b2) (present ps ++ ")" ++ z) x') as [-> <-]; auto.
  { intros d r Ed. destruct (Rest_head _ (present_Rest ps z Hps)) as (d' & r' & E3 & Hd'). rewrite E3 in Ed. by injection Ed as -> _. }
  { intros d r ->. by destruct (Rest_head _ Hx') as (d' & r' & [= <- <-] & Hd'). }
  rewrite <- Hvars in H10. rewrite forallb_app in Hn. apply andb_true_iff in Hn as [_ Hn].
  destruct (opt_read ps (S (S (S i))) b2 z (set_cap (S (S i)) b1 (set_cap (S i) a1 (set_cap i label cs))) s4 cs4 s' cs')
    as (-> & -> & Hj); auto.
  { intros k Hk. rewrite !set_cap_ne by lia. apply Hcs. lia. }
  split; [done|]. intros j. rewrite Hj, !app_nil_r. unfold call_caps.
  repeat case_decide; subst; rewrite ?captured_lt by lia; rewrite ?set_cap_eq; try done;
    rewrite ?set_cap_ne, ?set_cap_eq by lia; try done; rewrite ?set_cap_ne, ?set_cap_eq by lia; try done.
  apply captured_old. by rewrite !set_cap_ne by done.
Qed.
