(* ===== verification/TierRoundtrip.v ===== *)
(** * What the visual price editor writes, it reads back

    Lemmas on the leftmost search of a pattern, on the conditions and calls that
    [generateExprFromVisualConfig] writes, and the round trip through
    [tryParseVisualConfig]. *)

From S2P Require Import Prelude JsRegExp JsValue JsText BillingExpr TierExpr.

(** ** Searching *)

(** [r] can read [s] down to [s'], whatever was captured before. *)
Definition accepts (r : regex) (s s' : jstr) : Prop := ∀ cs, ∃ cs', reads r s cs s' cs'.

Lemma accepts_seq a b s s1 s2 : accepts a s s1 → accepts b s1 s2 → accepts (a · b) s s2.
Proof. intros Ha Hb cs. destruct (Ha cs) as [cs1 H1], (Hb cs1) as [cs2 H2]. exists cs2. by eapply reads_seq. Qed.

Lemma accepts_lit w s : accepts (rlit w) (w ++ s) s.
Proof. intros cs. exists cs. apply reads_lit. Qed.

Lemma accepts_class p min max w s :
  within min max → forallb p w = true → min ≤ length w → within (length w) max →
  accepts (RRep (RUnit p) min max) (w ++ s) s.
Proof. intros ? ? ? ? cs. exists cs. by apply reads_class. Qed.

Lemma accepts_group i r w s : accepts r (w ++ s) s → accepts (RGroup i r) (w ++ s) s.
Proof. intros Hr cs. destruct (Hr cs) as [cs' H]. eexists. by apply reads_group. Qed.

Lemma accepts_alts ws w s : w ∈ ws → accepts (ralts ws) (w ++ s) s.
Proof. intros Hw cs. exists cs. by apply reads_alts. Qed.

Lemma accepts_rep_stop r max s : accepts (RRep r 0 max) s s.
Proof. intros cs. exists cs. intros b. exists b. apply M_rep_stop. Qed.

Lemma accepts_rep_step r max s s1 s2 :
  max ≠ Some 0 → accepts r s s1 → length s1 ≠ length s → accepts (RRep r 0 (pred <$> max)) s1 s2 → accepts (RRep r 0 max) s s2.
Proof.
  intros Hm H1 Hne H2 cs. destruct (H1 (filter (fun c => c.1 ∉ groups r) cs)) as [cs1 R1], (H2 cs1) as [cs2 R2].
  exists cs2. intros b. destruct (R1 b) as [b1 M1], (R2 b1) as [b2 M2]. exists b2. by eapply M_rep_step.
Qed.

Lemma accepts_opt r s s' : accepts r s s' → length s' ≠ length s → accepts (ropt r) s s'.
Proof. intros Hr Hne. eapply accepts_rep_step; [done|exact Hr|done|]. apply accepts_rep_stop. Qed.

(** A pattern that can match here is found here, by one of its readings. *)
Lemma search_here r bef s s' :
  accepts r s s' → ∃ st, search r bef s = Some (RMatched (length bef) (take (length s - length (rest st)) s) st) ∧
    M r (MState bef s []) st.
Proof.
  intros Hr. destruct (Hr []) as [cs Hcs], (Hcs bef) as [b' HM].
  destruct (rmatch_complete _ _ _ Some HM) as [st Hst]; [done|]. exists st.
  pose proof (rmatch_sound _ _ _ _ Hst) as (st' & HM' & [= ->]). split; [|done].
  destruct s; cbn [search]; by rewrite Hst.
Qed.

(** Positions where the pattern cannot match are passed over. *)
Lemma search_skip r x s : ∀ bef,
  (∀ a b, x = a ++ b → b ≠ [] → ∀ bef' st, ¬ M r (MState bef' (b ++ s) []) st) →
  search r bef (x ++ s) = search r (reverse x ++ bef) s.
Proof.
  induction x as [|c x IH]; intros bef Hx; [done|]. cbn [app search].
  destruct (rmatch r _ Some) as [st|] eqn:E.
  { apply rmatch_sound in E as (st' & HM & _). exfalso. by apply (Hx [] (c :: x) eq_refl) in HM. }
  rewrite IH, reverse_cons, <- app_assoc; [done|]. intros a b -> Hb. by apply (Hx (c :: a) b).
Qed.

Lemma search_none r s : ∀ bef, (∀ a b, s = a ++ b → ∀ bef' st, ¬ M r (MState bef' b []) st) → search r bef s = None.
Proof.
  intros bef H. destruct (search r bef s) as [m|] eqn:E; [|done].
  destruct (proj1 (search_M r bef s)) as (a & b & st & -> & HM); [by eexists|]. by apply (H a b) in HM.
Qed.

(** *** Where a match ends *)

Definition Ends (p : N → bool) (r : regex) : Prop := ∀ st st', M r st st' → ∃ c b, JsRegExp.before st' = c :: b ∧ p c = true.

Lemma Ends_seq p a b : Ends p b → Ends p (a · b).
Proof. intros Hb st st' (st1 & _ & HM)%M_seq_iff. by apply Hb in HM. Qed.

Lemma Ends_plus p : Ends p (rplus (RUnit p)).
Proof.
  intros st st' HM. apply M_class in HM as (w & s & _ & Hw & Hl & _ & ->); [|done]. cbn.
  destruct w as [|c w _] using rev_ind; [cbn in Hl; lia|]. exists c, (reverse w ++ JsRegExp.before st).
  rewrite reverse_app. split; [done|]. rewrite forallb_app in Hw. cbn in Hw. by bool_hyps.
Qed.

Lemma Ends_star p a r : Ends p a → Ends p r → Ends p (a · rstar r).
Proof.
  intros Ha Hr st st' (st1 & H1 & H2)%M_seq_iff. apply Ha in H1. remember (rstar r) as rr eqn:E.
  assert (∀ st1 st', M rr st1 st' → rr = rstar r → (∃ c b, JsRegExp.before st1 = c :: b ∧ p c = true) →
    ∃ c b, JsRegExp.before st' = c :: b ∧ p c = true) as H; [|by eapply H].
  clear -Hr. induction 1 as [| | | | | | |? ? ? ? ? ? _ Hm _ Hs _ IH| | | | |]; intros E' Hb; simplify_eq; try done.
  apply IH; [done|]. by apply Hr in Hm.
Qed.

(** ** Calls of [tier] can be read *)

Lemma accepts_ws w s : forallb is_ws w = true → accepts ws (w ++ s) s.
Proof. intros Hw. apply accepts_class; [done|done|lia|done]. Qed.

Lemma accepts_product v i a s : numeral a = true → accepts (product v i) (v ++ " * " ++ a ++ s) s.
Proof.
  intros [Hne Ha]%numeral_cases. unfold product. eapply accepts_seq; [apply accepts_lit|].
  eapply accepts_seq; [by apply (accepts_ws " ")|]. eapply accepts_seq; [apply (accepts_lit "*")|].
  eapply accepts_seq; [by apply (accepts_ws " ")|]. apply accepts_group, accepts_class; [done..| |done].
  destruct a; [done|cbn; lia].
Qed.

Lemma accepts_summand v i a s :
  numeral a = true → accepts (ws · rlit "+" · ws · product v i)%re (" + " ++ v ++ " * " ++ a ++ s) s.
Proof.
  intros Ha. eapply accepts_seq; [by apply (accepts_ws " ")|]. eapply accepts_seq; [apply (accepts_lit "+")|].
  eapply accepts_seq; [by apply (accepts_ws " ")|]. by apply accepts_product.
Qed.

Lemma accepts_optCache ps : ∀ i s, summands_ok ps → accepts (optCache i (map fst ps)) (present ps ++ s) s.
Proof.
  induction ps as [|[v o] ps IH]; intros i s Hps; cbn [map fst optCache].
  - intros cs. exists cs. intros b. exists b. constructor.
  - destruct Hps as [[[_ Ho] Hps]%Forall_cons Hnd]. cbn in Ho, Hnd. apply NoDup_cons in Hnd as [_ Hnd].
    rewrite present_cons. eapply accepts_seq; [|by apply IH].
    destruct o as [a|]; [|apply accepts_rep_stop].
    apply accepts_opt; [by apply accepts_summand, Ho|]. rewrite !length_app. cbn. lia.
Qed.

Lemma accepts_call i label a b ps z :
  call_ok label a b ps → accepts (callPat i) (call_text label a b ps ++ z) z.
Proof.
  intros [Hl Ha Hb Hps Hvars]. rewrite call_text_app. unfold callPat, bodyPat.
  eapply accepts_seq; [apply accepts_lit|].
  eapply accepts_seq; [apply accepts_group, accepts_class; [done..|lia|done]|].
  eapply accepts_seq; [apply accepts_lit|]. eapply accepts_seq; [by apply (accepts_ws " ")|].
  eapply accepts_seq; [|apply (accepts_lit ")")]. eapply accepts_seq; [by apply accepts_product|].
  eapply accepts_seq; [by apply (accepts_ws " ")|]. eapply accepts_seq; [apply (accepts_lit "+")|].
  eapply accepts_seq; [by apply (accepts_ws " ")|]. eapply accepts_seq; [by apply accepts_product|].
  rewrite <- Hvars. by apply accepts_optCache.
Qed.

(** ** Conditions *)

(** The cases of membership in a list that is written out. *)
Ltac elem_cases H :=
  apply list_elem_of_In in H; cbn [In] in H; repeat destruct H as [H|H]; try (exfalso; exact H);
  try match type of H with _ = ?x => rewrite <- H end.

Definition condition_vars : list jstr := ["p"; "c"; "len"].
Definition condition_ops : list jstr := ["<"; "<="; ">"; ">="].

Record comparison := MkComparison { k_var : jstr; k_op : jstr; k_num : jstr }.

Record comparison_ok (k : comparison) : Prop := {
  ok_var : k_var k ∈ condition_vars;
  ok_op : k_op k ∈ condition_ops;
  ok_num : k_num k ≠ [] ∧ forallb unsigned_unit (k_num k) = true;
}.

Definition comparison_text (k : comparison) : jstr := k_var k ++ " " ++ k_op k ++ " " ++ k_num k.

Lemma accepts_comparison k s : comparison_ok k → accepts re_comparison (comparison_text k ++ s) s.
Proof.
  intros [Hv Ho [Hne Hn]]. unfold comparison_text, re_comparison. rewrite <- !app_assoc.
  eapply accepts_seq; [by apply accepts_alts|]. eapply accepts_seq; [by apply (accepts_ws " ")|].
  eapply accepts_seq; [by apply accepts_alts|]. eapply accepts_seq; [by apply (accepts_ws " ")|].
  apply accepts_class; [done..| |done]. destruct (k_num k); [done|cbn; lia].
Qed.

Definition conjunction (ks : list comparison) : jstr := join " && " (map comparison_text ks).

Lemma accepts_more ks : ∀ s, Forall comparison_ok ks →
  accepts (rstar (re_and · re_comparison)%re) (concat (map (fun k => " && " ++ comparison_text k) ks) ++ s) s.
Proof.
  induction ks as [|k ks IH]; intros s Hks; [apply accepts_rep_stop|]. apply Forall_cons in Hks as [Hk Hks].
  cbn [map concat]. rewrite <- !app_assoc. eapply accepts_rep_step; [done| | |by apply IH].
  - eapply accepts_seq; [|by apply accepts_comparison]. unfold re_and.
    eapply accepts_seq; [by apply (accepts_ws " ")|]. eapply accepts_seq; [apply (accepts_lit "&&")|].
    by apply (accepts_ws " ").
  - rewrite (length_app " && "), (length_app (comparison_text k)). cbn. lia.
Qed.

Lemma join_concat sep (w : jstr) ws : join sep (w :: ws) = w ++ concat (map (fun x => sep ++ x) ws).
Proof.
  revert w. induction ws as [|x ws IH]; intros w; [cbn; by rewrite app_nil_r|].
  rewrite join_cons2, IH. cbn [map concat]. by rewrite <- app_assoc.
Qed.

Lemma accepts_conjunction i ks s : ks ≠ [] → Forall comparison_ok ks → accepts (condGroup i) (conjunction ks ++ s) s.
Proof.
  intros Hne Hks. unfold condGroup. apply accepts_group. destruct ks as [|k ks]; [done|].
  apply Forall_cons in Hks as [Hk Hks]. unfold conjunction. cbn [map].
  rewrite join_concat, map_map, <- app_assoc. eapply accepts_seq; [by apply accepts_comparison|].
  by apply accepts_more.
Qed.

Lemma unsigned_not_ws c : unsigned_unit c = true → is_ws c = false.
Proof.
  intros H. apply num_unit_not_ws. unfold unsigned_unit, num_unit in *. apply orb_true_iff in H as [->|H]; [done|].
  apply existsb_exists in H as (d & Hd & <-%N.eqb_eq). cbn in Hd. by destruct_or? Hd; subst.
Qed.

Lemma forallb_impl {A} (p q : A → bool) l : (∀ x, p x = true → q x = true) → forallb p l = true → forallb q l = true.
Proof. rewrite !forallb_forall. auto. Qed.

(** The units of a comparison, and of a conjunction: neither a question mark nor a
    parenthesis. *)
Definition comparison_unit (c : N) : bool := is_word c || one_of " <>=.+" c.
Definition cond_unit (c : N) : bool := comparison_unit c || one_of "&" c.

Lemma unsigned_comparison c : unsigned_unit c = true → comparison_unit c = true.
Proof.
  unfold unsigned_unit, comparison_unit. intros [Hd|Ho]%orb_true_iff.
  - unfold is_word, is_alnum. by rewrite Hd, !orb_true_r.
  - apply existsb_exists in Ho as (d & Hd & <-%N.eqb_eq). cbn in Hd. by destruct_or? Hd; subst.
Qed.

Lemma comparison_amp k : comparison_ok k → forallb comparison_unit (comparison_text k) = true.
Proof.
  intros [Hv Ho [_ Hn]]. unfold comparison_text. rewrite !forallb_app. repeat (apply andb_true_iff; split); try done.
  - by elem_cases Hv.
  - by elem_cases Ho.
  - rewrite forallb_forall in *. auto using unsigned_comparison.
Qed.

Lemma comparison_units k : comparison_ok k → forallb cond_unit (comparison_text k) = true.
Proof. intros Hk%comparison_amp. eapply forallb_impl; [|exact Hk]. unfold cond_unit. by intros c ->. Qed.

Lemma conjunction_units ks : Forall comparison_ok ks → forallb cond_unit (conjunction ks) = true.
Proof.
  destruct ks as [|k ks]; [done|]. intros [Hk Hks]%Forall_cons. unfold conjunction. cbn [map]. rewrite join_concat, map_map.
  rewrite forallb_app, comparison_units by done. induction Hks as [|k' ks' Hk' _ IH]; [done|].
  cbn [map concat]. cbn [andb] in *. by rewrite !forallb_app, comparison_units, IH.
Qed.

Lemma comparison_ends k : comparison_ok k → ∃ x c, comparison_text k = x ++ [c] ∧ unsigned_unit c = true.
Proof.
  intros [_ _ [Hne Hn]]. unfold comparison_text. destruct (k_num k) as [|c n _] using rev_ind; [done|].
  rewrite forallb_app in Hn. cbn in Hn. bool_hyps. exists (k_var k ++ " " ++ k_op k ++ " " ++ n), c. split; [|done].
  by rewrite <- !app_assoc.
Qed.

Lemma conjunction_ends ks :
  ks ≠ [] → Forall comparison_ok ks → ∃ x c, conjunction ks = x ++ [c] ∧ unsigned_unit c = true.
Proof.
  destruct ks as [|k ks _] using rev_ind; [done|]. intros _ Hks.
  apply Forall_app in Hks as [_ [Hk _]%Forall_cons]. unfold conjunction. rewrite map_app.
  destruct (comparison_ends k Hk) as (x & c & E & Hc). destruct (map comparison_text ks) as [|w ws].
  - exists x, c. by cbn.
  - cbn [app map]. rewrite join_concat, map_app, concat_app. cbn [map concat]. rewrite E, app_nil_r.
    exists (w ++ concat (map (fun x0 => " && " ++ x0) ws) ++ " && " ++ x), c. by rewrite <- !app_assoc.
Qed.

Lemma comparison_head k : comparison_ok k → ∃ c r, comparison_text k = c :: r ∧ c ∈ ("pcl" : jstr).
Proof.
  intros [Hv _ _]. unfold comparison_text.
  elem_cases Hv; (eexists _, _; split; [cbn; reflexivity|apply list_elem_of_In; cbn; tauto]).
Qed.

Lemma conjunction_head ks : ks ≠ [] → Forall comparison_ok ks → ∃ c r, conjunction ks = c :: r ∧ c ∈ ("pcl" : jstr).
Proof.
  destruct ks as [|k ks]; [done|]. intros _ [Hk _]%Forall_cons. unfold conjunction. cbn [map]. rewrite join_concat.
  destruct (comparison_head k Hk) as (c & r & -> & Hc). by eexists _, _.
Qed.

Lemma pcl_not_ws c : c ∈ ("pcl" : jstr) → is_ws c = false.
Proof. intros H. by elem_cases H. Qed.

(** *** A conjunction before a question mark is read exactly *)

Definition not_question : N → bool := none_of "?".

Lemma not_question_of (q : N → bool) c : q 63%N = false → q c = true → not_question c = true.
Proof.
  intros H63 Hc. unfold not_question, none_of, one_of. cbn. destruct (N.eqb_spec c 63) as [->|_]; [|done].
  by rewrite H63 in Hc.
Qed.

Lemma cond_units_in i : units_in not_question (condGroup i).
Proof.
  unfold condGroup, re_comparison, re_and, ws. cbn [units_in ralts rlit]. repeat split; intros c; by apply not_question_of.
Qed.

Lemma cond_read ks z cs s1 cs1 s2 cs2 s3 cs3 i :
  ks ≠ [] → Forall comparison_ok ks → MR (condGroup i) (conjunction ks ++ " ? " ++ z) cs s1 cs1 →
  MR ws s1 cs1 s2 cs2 → MR (rlit "?") s2 cs2 s3 cs3 →
  s3 = " " ++ z ∧ cs3 = set_cap i (conjunction ks) cs.
Proof.
  intros Hne Hks H1 H2 H3. apply MR_lit in H3 as [-> ->].
  unfold ws in H2. apply MR_class in H2 as (u & -> & Hu & _ & _ & ->); [|done].
  pose proof H1 as (w & cs' & E & -> & Hin)%MR_group. apply MR_no_groups in Hin as ->; [|done].
  destruct H1 as (b & b' & HM). destruct (M_units not_question _ _ _ HM (cond_units_in i)) as (w' & E' & Hw).
  destruct (M_consumes _ _ _ HM) as (w'' & E'' & Hb). cbn [rest JsRegExp.before] in E', E'', Hb.
  rewrite E in E', E''. apply app_inv_tail in E', E''. subst w' w''.
  assert (Hlast : ∃ c b0, b' = c :: b0 ∧ is_ws c = false).
  { unfold condGroup in HM. apply M_group_iff in HM as (st1 & HM' & Est).
    apply (Ends_star unsigned_unit) in HM' as (c & b0 & Hb0 & Hc).
    - exists c, b0. split; [|by apply unsigned_not_ws]. rewrite <- Hb0. by apply (f_equal JsRegExp.before) in Est.
    - unfold re_comparison. repeat apply Ends_seq. apply Ends_plus.
    - unfold re_comparison. repeat apply Ends_seq. apply Ends_plus. }
  destruct Hlast as (c & b0 & -> & Hc). clear HM.
  destruct (unique_run not_question (conjunction ks ++ " ") (w ++ u) ("? " ++ z) ("?" ++ s3)) as [Ew Es].
  { rewrite forallb_app. apply andb_true_iff. split; [|done]. eapply forallb_impl; [|by apply conjunction_units].
    intros d. apply (not_question_of cond_unit). done. }
  { rewrite forallb_app, Hw. eapply forallb_impl; [|exact Hu]. intros d. by apply (not_question_of is_ws). }
  { by intros d r [= <- _]. }
  { by intros d r [= <- _]. }
  { rewrite <- !app_assoc. exact E. }
  injection Es as <-. split; [done|].
  f_equal. destruct (conjunction_ends ks Hne Hks) as (x & d & Ex & Hd). rewrite Ex in *.
  assert (w ≠ []) as Hwne.
  { intros ->. cbn [app] in Ew. rewrite <- Ew, !forallb_app in Hu. cbn in Hu. bool_hyps.
    by rewrite (unsigned_not_ws d Hd) in *. }
  destruct w as [|c' w _] using rev_ind; [done|]. rewrite reverse_app in Hb. injection Hb as <- _.
  apply (f_equal reverse) in Ew. rewrite !reverse_app in Ew. cbn [reverse rev_append] in Ew.
  destruct (unique_run is_ws " " (reverse u) (d :: reverse x) (c :: reverse w)) as [_ [= <- Hx]]; try done.
  { rewrite forallb_forall in *. intros e He. by apply Hu, list_elem_of_In, elem_of_reverse, list_elem_of_In. }
  { intros d' r [= <- _]. by apply unsigned_not_ws. }
  { by intros d' r [= <- _]. }
  by apply (inj reverse) in Hx as ->.
Qed.

(** ** Tiers with an optional condition *)

Record segment := MkSegment {
  g_conds : list comparison; g_label : jstr; g_in : jstr; g_out : jstr; g_extra : list (jstr * option jstr);
}.

Record segment_ok (g : segment) : Prop := {
  ok_conds : Forall comparison_ok (g_conds g);
  ok_call : call_ok (g_label g) (g_in g) (g_out g) (g_extra g);
}.

Definition segment_call (g : segment) : jstr := call_text (g_label g) (g_in g) (g_out g) (g_extra g).

Definition segment_text (g : segment) : jstr :=
  match g_conds g with [] => segment_call g | ks => conjunction ks ++ " ? " ++ segment_call g end.

(** What the groups of [visualTierRe] hold for a segment. *)
Definition segment_caps (g : segment) : nat → option jstr :=
  call_caps 2 (g_label g) (g_in g) (g_out g) (g_extra g)
    (fun j => match g_conds g with [] => None | ks => if decide (j = 1) then Some (conjunction ks) else None end).

Lemma call_starts i s cs s' cs' : MR (callPat i) s cs s' cs' → ∃ r, s = "tier(" ++ r.
Proof. unfold callPat. intros (s1 & cs1 & [-> _]%MR_lit & _)%MR_seq. rewrite <- app_assoc. by eexists. Qed.

Lemma cond_starts i s cs s' cs' : MR (condGroup i) s cs s' cs' → ∃ c r, s = c :: r ∧ c ∈ ("pcl" : jstr).
Proof.
  unfold condGroup, re_comparison. intros (w & cs1 & _ & _ & HM)%MR_group.
  apply MR_seq in HM as (s1 & cs2 & HM & _). apply MR_seq in HM as (s2 & cs3 & (b & b' & HM) & _).
  apply M_ralts in HM as (v & x & Hv & E & _). cbn [rest] in E.
  elem_cases Hv; subst v; rewrite E; (eexists _, _; split; [cbn; reflexivity|apply list_elem_of_In; cbn; tauto]).
Qed.

Lemma tier_parse s cs s' cs' :
  MR visualTierRe s cs s' cs' → MR (callPat 2) s cs s' cs' ∨
    ∃ s1 cs1 s2 cs2 s3 cs3 s4 cs4, MR (condGroup 1) s (filter (fun c => c.1 ∉ [1]) cs) s1 cs1 ∧ MR ws s1 cs1 s2 cs2 ∧
      MR (rlit "?") s2 cs2 s3 cs3 ∧ MR ws s3 cs3 s4 cs4 ∧ MR (callPat 2) s4 cs4 s' cs'.
Proof.
  unfold visualTierRe. intros (s5 & cs5 & H1 & H2)%MR_seq. apply MR_opt in H1 as [[-> ->]|H1]; [by left|right].
  apply MR_seq in H1 as (s1 & cs1 & H1 & H3). apply MR_seq in H3 as (s2 & cs2 & H3 & H4).
  apply MR_seq in H4 as (s3 & cs3 & H4 & H5). by exists s1, cs1, s2, cs2, s3, cs3, s5, cs5.
Qed.

Lemma tier_starts bef s cs st : M visualTierRe (MState bef s cs) st → ∃ c r, s = c :: r ∧ c ∈ ("tpcl" : jstr).
Proof.
  destruct st as [b' s' cs']. intros HM. destruct (tier_parse s cs s' cs') as [H|H]; [by eexists _, _| |].
  - apply call_starts in H as [r ->]. eexists _, _. split; [cbn; reflexivity|]. apply list_elem_of_In. cbn. tauto.
  - destruct H as (s1 & cs1 & _ & _ & _ & _ & _ & _ & H & _). apply cond_starts in H as (c & r & -> & Hc).
    exists c, r. split; [done|]. by apply list_elem_of_further.
Qed.

(** A segment is read exactly. *)
Lemma segment_read g z s' cs' :
  segment_ok g → MR visualTierRe (segment_text g ++ z) [] s' cs' →
  s' = z ∧ ∀ j, map_get j cs' = segment_caps g j.
Proof.
  intros [Hk Hc] [HM|HM]%tier_parse; unfold segment_text, segment_caps in *; destruct (g_conds g) as [|k ks] eqn:Eg.
  - by apply call_read in HM.
  - exfalso. apply call_starts in HM as [r E].
    destruct (conjunction_head (k :: ks)) as (c & t & Et & Hct); [done..|]. rewrite Et in E. injection E as -> _.
    by elem_cases Hct.
  - exfalso. destruct HM as (s1 & cs1 & _ & _ & _ & _ & _ & _ & H & _). apply cond_starts in H as (c & r & E & Hct).
    injection E as <- _. by elem_cases Hct.
  - destruct HM as (s1 & cs1 & s2 & cs2 & s3 & cs3 & s4 & cs4 & H1 & H2 & H3 & H4 & H5).
    rewrite <- !app_assoc in H1. destruct (cond_read (k :: ks) _ _ _ _ _ _ _ _ _ ltac:(done) Hk H1 H2 H3) as [-> ->].
    pose proof H5 as [r Hr]%call_starts. unfold ws in H4. apply MR_class in H4 as (u & E & Hu & _ & _ & ->); [|done].
    rewrite Hr in E. apply (unique_run is_ws " " u) in E as [_ E]; [|done|done|by intros d t [= <- _]..].
    rewrite Hr, <- E in H5. apply call_read in H5 as [-> Hj]; [|done|].
    + split; [done|]. intros j. rewrite Hj. cbn [filter list_filter]. unfold call_caps.
      by repeat case_decide.
    + intros j Hj. cbn. rewrite decide_False by lia. done.
Qed.

Lemma accepts_segment g z : segment_ok g → accepts visualTierRe (segment_text g ++ z) z.
Proof.
  intros [Hk Hc]. unfold visualTierRe, segment_text. destruct (g_conds g) as [|k ks].
  - eapply accepts_seq; [apply accepts_rep_stop|]. by apply accepts_call.
  - rewrite <- !app_assoc. eapply accepts_seq; [apply accepts_opt|by apply accepts_call].
    + eapply accepts_seq; [by apply accepts_conjunction|]. eapply accepts_seq; [by apply (accepts_ws " ")|].
      eapply accepts_seq; [apply (accepts_lit "?")|]. by apply (accepts_ws " ").
    + rewrite (length_app (conjunction (k :: ks))), (length_app " ? "). unfold segment_call.
      change (length (" ? " : jstr)) with 3. lia.
Qed.

Definition holds (m : rmatched) (g : segment) : Prop := ∀ j, cap j m = segment_caps g j.

(** No match starts in the separator, and none in a text without a parenthesis. *)
Lemma separator_skipped sep s : sep ∈ [[]; (" : " : jstr)] →
  ∀ a b, sep = a ++ b → b ≠ [] → ∀ bef st, ¬ M visualTierRe (MState bef (b ++ s) []) st.
Proof.
  intros Hsep a b E Hb bef st (c & r & Er & Hc)%tier_starts. destruct b as [|c' b]; [done|]. injection Er as -> _.
  assert (Hin : c ∈ sep) by (rewrite E; set_solver).
  elem_cases Hsep; subst sep; [by apply elem_of_nil in Hin|]. elem_cases Hin; subst c; by elem_cases Hc.
Qed.

Lemma segment_nonempty g z : segment_ok g → ∃ c r, segment_text g ++ z = c :: r.
Proof.
  intros [Hk _]. unfold segment_text. destruct (g_conds g) as [|k ks]; [by eexists _, _|].
  destruct (conjunction_head (k :: ks)) as (c & t & -> & _); [done..|]. by eexists _, _.
Qed.

(** The tiers of a text are found one after the other. *)
Lemma find_segments (sgs : list (jstr * segment)) tail : ∀ fuel bef,
  Forall (fun x => x.1 ∈ [[]; (" : " : jstr)] ∧ segment_ok x.2) sgs → (∀ bef, search visualTierRe bef tail = None) →
  length sgs < fuel →
  Forall2 holds (exec_all fuel visualTierRe bef (concat (map (fun x => x.1 ++ segment_text x.2) sgs) ++ tail)) (map snd sgs).
Proof.
  induction sgs as [|[sep g] sgs IH]; intros fuel bef Hs Ht Hf; (destruct fuel as [|f]; [cbn in Hf; lia|]).
  - cbn [map concat app exec_all]. rewrite Ht. constructor.
  - apply Forall_cons in Hs as [[Hsep Hg] Hs]. cbn [map concat fst snd exec_all] in *. rewrite <- !app_assoc.
    rewrite search_skip by by apply separator_skipped.
    set (z := concat _ ++ tail).
    destruct (search_here visualTierRe (reverse sep ++ bef) (segment_text g ++ z) z) as (st & -> & HM);
      [by apply accepts_segment|].
    destruct st as [b' s' cs']. destruct (segment_read g z s' cs') as [-> Hj]; [done|by eexists _, _|].
    constructor; [exact Hj|]. cbn [m_text m_end rest JsRegExp.before].
    rewrite length_app, Nat.add_sub, take_app_length.
    destruct (segment_nonempty g [] Hg) as (c & r & E). rewrite app_nil_r in E. rewrite E. apply IH; [done..|cbn in Hf; lia].
Qed.

(** ** Conditions are read back *)

Lemma re_and_here bef q s :
  q ≠ [] → (∀ c r, q = c :: r → is_ws c = false) →
  rmatch re_and (MState bef (" && " ++ q ++ s) []) Some = Some (MState (reverse " && " ++ bef) (q ++ s) []).
Proof.
  intros Hq Hh. unfold re_and, ws. cbn [rmatch groups].
  apply (rep_unit_greedy is_ws _ 0 None " " ("&& " ++ q ++ s)); [done|by right|cbn; lia|done|cbn; lia|].
  rewrite rmatch_lit. cbn [rest app startsWith]. cbn [N.eqb Pos.eqb andb]. unfold advance. cbn [rest take drop JsRegExp.before caps length].
  apply (rep_unit_greedy is_ws _ 0 None " " (q ++ s)); [done| |cbn; lia|done|cbn; lia|done].
  right. destruct q as [|c q]; [done|]. cbn. by apply (Hh c q).
Qed.

Lemma re_and_text bef s st : M re_and (MState bef s []) st → ∃ w r, s = w ++ "&&" ++ r ∧ forallb is_ws w = true.
Proof.
  unfold re_and, ws. intros (st1 & H1 & H2)%M_seq_iff. apply M_seq_iff in H2 as (st2 & H2 & _).
  apply M_class in H1 as (w & x & E & Hw & _ & _ & ->); [|done]. apply M_lit in H2 as (r & E' & _). cbn [rest] in E, E'.
  subst x. eauto.
Qed.

Record piece (w : jstr) : Prop := {
  piece_amp : 38%N ∉ w;
  piece_head : ∃ c r, w = c :: r ∧ is_ws c = false;
  piece_last : ∃ x c, w = x ++ [c] ∧ is_ws c = false;
}.

Lemma inside_piece x c s bef st : 38%N ∉ x ++ [c] → is_ws c = false → ¬ M re_and (MState bef ((x ++ [c]) ++ s) []) st.
Proof.
  intros Hamp Hc (w & r & E & Hw)%re_and_text. revert x Hamp E. induction w as [|d w IH]; intros x Hamp E.
  - destruct x as [|e x]; injection E as -> _; set_solver.
  - cbn in Hw. bool_hyps. destruct x as [|e x]; injection E as -> E; [congruence|].
    apply (IH ltac:(done) x); [set_solver|done].
Qed.

Lemma slice_between pre w s : slice (length pre) (length pre + length w) (pre ++ w ++ s) = w.
Proof. unfold slice. by rewrite drop_app_length, Nat.add_comm, Nat.add_sub, take_app_length. Qed.

Lemma split_pieces_from ps : ∀ p pre bef pieces fuel,
  Forall piece (p :: ps) → length bef = length pre → length ps < fuel →
  let s := pre ++ join " && " (p :: ps) in
  let '(out, from) := foldl (fun '(pieces, from) m =>
      (pieces ++ [slice from (m_index m) s], m_index m + length (m_text m))) (pieces, length pre)
      (exec_all fuel re_and bef (join " && " (p :: ps))) in
  out ++ [drop from s] = pieces ++ p :: ps.
Proof.
  induction ps as [|q ps IH]; intros p pre bef pieces fuel Hps Hb Hf; (destruct fuel as [|f]; [cbn in Hf; lia|]);
    apply Forall_cons in Hps as [Hp Hps].
  - cbn [join exec_all]. rewrite search_none; [cbn [foldl]; by rewrite drop_app_length|].
    intros a b Ep bef' st (w & r & -> & _)%re_and_text. destruct Hp as [Hamp _ _]. apply Hamp. rewrite Ep. set_solver.
  - rewrite join_cons2. cbn [exec_all].
    assert (Hq : ∃ c r, join " && " (q :: ps) = c :: r ∧ is_ws c = false).
    { rewrite join_concat. apply Forall_cons in Hps as [[_ (c & r & -> & Hc) _] _]. by eexists _, _. }
    destruct Hq as (c & r & Hq & Hc). pose proof Hp as [Hamp _ (x & d & -> & Hd)].
    rewrite search_skip.
    2:{ intros a b E Hbne bef' st. destruct b as [|e b _] using rev_ind; [done|]. rewrite app_assoc in E.
        apply app_inj_tail in E as [-> <-]. apply inside_piece; [|done]. set_solver. }
    assert (Hs : ∀ bef0, search re_and bef0 (" && " ++ join " && " (q :: ps)) =
      Some (RMatched (length bef0) " && " (MState (reverse " && " ++ bef0) (join " && " (q :: ps)) []))).
    { intros bef0. pose proof (re_and_here bef0 (c :: r) []) as H. rewrite app_nil_r, <- Hq in H.
      change (" && " ++ join " && " (q :: ps)) with (32%N :: "&& " ++ join " && " (q :: ps)) in *. cbn [search].
      rewrite H; [|by rewrite Hq|by rewrite Hq; intros ? ? [= <- _]]. do 2 f_equal.
      change (32%N :: "&& " ++ join " && " (q :: ps)) with (" && " ++ join " && " (q :: ps)).
      cbn [rest]. by rewrite length_app, Nat.add_sub, take_app_length. }
    rewrite Hs. cbn [m_text m_end rest JsRegExp.before foldl m_index]. rewrite length_app, length_reverse, Hb, Nat.add_comm.
    rewrite slice_between.
    specialize (IH q (pre ++ (x ++ [d]) ++ " && ") (reverse " && " ++ reverse (x ++ [d]) ++ bef) (pieces ++ [x ++ [d]]) f).
    cbv zeta in IH. rewrite <- !app_assoc in IH. rewrite !length_app in IH. rewrite <- !app_assoc, !length_app, <- !Nat.add_assoc.
    apply IH; [done| |cbn in Hf; lia]. rewrite !length_reverse, Hb, length_app. cbn [length]. lia.
Qed.

Lemma split_conjunction ps : Forall piece ps → ps ≠ [] → split_re re_and (join " && " ps) = ps.
Proof.
  intros Hps Hne. destruct ps as [|p ps]; [done|]. unfold split_re, matchAll.
  assert (Hl : length ps < S (length (join " && " (p :: ps)))).
  { clear. rewrite join_concat, length_app. induction ps as [|q ps IH]; [cbn; lia|].
    cbn [map concat]. rewrite !length_app. cbn [length]. lia. }
  pose proof (split_pieces_from ps p [] [] [] _ Hps eq_refl Hl) as H. cbv zeta in H. cbn [app length] in H.
  by destruct (foldl _ _ _) as [out from].
Qed.

Lemma comparison_piece k : comparison_ok k → piece (comparison_text k).
Proof.
  intros Hk. constructor.
  - intros Hin%list_elem_of_In. pose proof (comparison_amp k Hk) as H. rewrite forallb_forall in H. by apply H in Hin.
  - destruct (comparison_head k Hk) as (c & r & E & Hc). exists c, r. auto using pcl_not_ws.
  - destruct (comparison_ends k Hk) as (x & c & E & Hc). exists x, c. auto using unsigned_not_ws.
Qed.

(** A comparison has one reading. *)
Lemma same_comparison k v u o u' n :
  comparison_ok k → v ∈ condition_vars → o ∈ condition_ops → forallb is_ws u = true → forallb is_ws u' = true →
  forallb unsigned_unit n = true → 1 ≤ length n → comparison_text k = v ++ u ++ o ++ u' ++ n →
  v = k_var k ∧ o = k_op k ∧ n = k_num k.
Proof.
  intros [Hkv Hko [Hkne Hkn]] Hv Ho Hu Hu' Hn Hl E. unfold comparison_text in E.
  assert (Hhead : ∀ m, forallb unsigned_unit m = true → ∀ d r, m = d :: r → is_ws d = false).
  { intros m Hm d r ->. cbn in Hm. bool_hyps. by apply unsigned_not_ws. }
  assert (Hop : ∀ op t, op ∈ condition_ops → ∀ d r, op ++ t = d :: r → is_ws d = false).
  { intros op t Hin d r Ed. by elem_cases Hin; subst op; injection Ed as <- _. }
  assert (v = k_var k ∧ " " ++ k_op k ++ " " ++ k_num k = u ++ o ++ u' ++ n) as [-> E'].
  { clear Hop Hhead. elem_cases Hkv; rewrite <- Hkv in E; elem_cases Hv; subst v; try done; by injection E. }
  apply (unique_run is_ws " " u) in E' as [_ E']; [|done|done|by apply Hop..].
  split; [done|].
  assert (o = k_op k ∧ " " ++ k_num k = u' ++ n) as [-> E''].
  { clear Hop E. elem_cases Hko; rewrite <- Hko in E'; elem_cases Ho; subst o; try done; injection E' as E'; try done.
    all: exfalso; destruct u' as [|d u']; [destruct n as [|d n]; [cbn in Hl; lia|]|]; injection E' as <- E'; try done. }
  split; [done|]. apply (unique_run is_ws " " u') in E'' as [_ ->]; [done|done|done|by apply Hhead..].
Qed.

Lemma comparison_exec k :
  comparison_ok k → ∃ m, exec re_tier_condition (comparison_text k) = Some m ∧
    cap 1 m = Some (k_var k) ∧ cap 2 m = Some (k_op k) ∧ cap 3 m = Some (k_num k).
Proof.
  intros Hk. pose proof Hk as [Hv Ho [Hne Hn]]. assert (∃ m, exec re_tier_condition (comparison_text k) = Some m) as [m Hm].
  { assert (accepts (RGroup 1 (ralts condition_vars) · ws · RGroup 2 (ralts condition_ops) · ws ·
      RGroup 3 (rplus (RUnit unsigned_unit)) · REol)%re (comparison_text k) []) as Ha.
    { unfold comparison_text. eapply accepts_seq; [by apply accepts_group, accepts_alts|].
      eapply accepts_seq; [by apply (accepts_ws " ")|]. eapply accepts_seq; [by apply accepts_group, accepts_alts|].
      eapply accepts_seq; [by apply (accepts_ws " ")|]. rewrite <- (app_nil_r (k_num k)) at 1.
      eapply accepts_seq; [apply accepts_group, accepts_class; [done..| |done]|].
      - destruct (k_num k); [done|cbn; lia].
      - intros cs. exists cs. apply reads_eol. }
    destruct (Ha []) as [cs Hcs]. by apply exec_reads in Hcs. }
  exists m. split; [done|]. unfold cap. unfold re_tier_condition in Hm. apply exec_MR in Hm as [s' Hm].
  remember (caps (m_end m)) as cs eqn:Ecs. clear Ecs. unfold ws in Hm. MR_read. subst.
  apply same_comparison in Hm as (-> & -> & Hx); [|done..|by rewrite app_nil_r|by rewrite app_nil_r].
  rewrite app_nil_r in Hx. subst. by rewrite !set_cap_ne, !set_cap_eq by done.
Qed.

Lemma read_conjunction ks :
  ks ≠ [] → Forall comparison_ok ks →
  read_conditions (conjunction ks) =
  map (fun k => MkCondition (k_var k) (k_op k) (Some (VNum (string_to_number (k_num k))))) ks.
Proof.
  intros Hne Hks. unfold read_conditions, parse_tier_conditions.
  destruct (conjunction_head ks Hne Hks) as (c & r & E & _). rewrite E. cbn [truthy negb]. rewrite <- E.
  unfold conjunction. rewrite split_conjunction; [|by apply Forall_map, (Forall_impl _ _ _ Hks), comparison_piece|by destruct ks].
  rewrite map_map. clear E Hne. induction Hks as [|k ks Hk _ IH]; [done|]. cbn [map concat].
  assert (trim (comparison_text k) = comparison_text k) as ->.
  { destruct (comparison_piece k Hk) as [_ (d & x & E & Hd) (y & e & E' & He)]. apply trim_id.
    - rewrite E. by intros ? [= <-].
    - rewrite E', last_snoc. by intros ? [= <-]. }
  destruct (comparison_exec k Hk) as (m & -> & -> & -> & ->). cbn [app map default]. by rewrite IH.
Qed.

(** ** Tiers that can be written *)

(** A number whose text is a numeral that reads back as the number. *)
Definition reads_back (x : num) : bool :=
  numeral (number_to_string x) && bool_decide (string_to_number (number_to_string x) = x).

Definition cost_ok (x : num) : bool := bool_decide (number_or_zero x = x) && reads_back x.

Definition condition_ok (c : TierConditionInput) : bool :=
  bool_decide (c_var c ∈ condition_vars) && bool_decide (c_op c ∈ condition_ops) &&
  match c_value c with
  | Some (VNum n) => reads_back n && forallb unsigned_unit (number_to_string n)
  | _ => false
  end.

Definition extra_cost (v : VisualTier) (cv : CacheVar) : num := or_zero (map_get (cv_field cv) (extra_costs v)).

Definition printable_tier (v : VisualTier) : bool :=
  truthy (v_label v) && forallb not_quote (v_label v) && forallb condition_ok (v_conditions v) &&
  cost_ok (input_unit_cost v) && cost_ok (output_unit_cost v) &&
  bool_decide (extra_costs v = map (fun cv => (cv_field cv, extra_cost v cv)) BILLING_CACHE_VAR_MAP) &&
  forallb (fun cv => negb (num_truthy (extra_cost v cv)) || reads_back (extra_cost v cv)) BILLING_CACHE_VAR_MAP &&
  bool_decide (cache_mode v = getTierCacheMode (MkPartial None None None None None (extra_costs v))).

(** The last of several tiers is written without its conditions. *)
Definition unconditional (v : VisualTier) : bool := match v_conditions v with [] => true | _ => false end.

Definition printable (tiers : list VisualTier) : bool :=
  match tiers with
  | [] => false
  | [v] => printable_tier v
  | _ => forallb printable_tier tiers && forallb unconditional (drop (length tiers - 1) tiers)
  end.

Definition comparison_of (c : TierConditionInput) : comparison :=
  MkComparison (c_var c) (c_op c) (match c_value c with Some v => value_text v | None => [] end).

Definition summand_of (v : VisualTier) (cv : CacheVar) : jstr * option jstr :=
  (exprVar cv, if num_truthy (extra_cost v cv) then Some (number_to_string (extra_cost v cv)) else None).

Definition segment_of (v : VisualTier) : segment :=
  MkSegment (map comparison_of (v_conditions v)) (v_label v) (number_to_string (input_unit_cost v))
    (number_to_string (output_unit_cost v)) (map (summand_of v) BILLING_CACHE_VAR_MAP).

Example printable_example :
  printable [demo_tier "small" [MkCondition "len" "<=" (Some (VNum (num_of_Z 200000)))] 3 15 [(CACHE_1H, num_of_Z 6)];
             demo_tier "big" [] 6 22 []] = true.
Proof. by vm_compute. Qed.

Lemma NoDup_vars : NoDup (map exprVar BILLING_CACHE_VAR_MAP) ∧ NoDup (map cv_field BILLING_CACHE_VAR_MAP).
Proof. split; by apply (bool_decide_unpack _). Qed.

Lemma names_ok : Forall (fun cv => name_ok (exprVar cv) = true) BILLING_CACHE_VAR_MAP.
Proof. by apply (bool_decide_unpack _). Qed.

Record printed (v : VisualTier) : Prop := {
  p_label : truthy (v_label v) = true;
  p_quote : forallb not_quote (v_label v) = true;
  p_conds : forallb condition_ok (v_conditions v) = true;
  p_in : cost_ok (input_unit_cost v) = true;
  p_out : cost_ok (output_unit_cost v) = true;
  p_extra : extra_costs v = map (fun cv => (cv_field cv, extra_cost v cv)) BILLING_CACHE_VAR_MAP;
  p_costs : ∀ cv, cv ∈ BILLING_CACHE_VAR_MAP → num_truthy (extra_cost v cv) = true → reads_back (extra_cost v cv) = true;
  p_mode : cache_mode v = getTierCacheMode (MkPartial None None None None None (extra_costs v));
}.

Lemma printable_spec v : printable_tier v = true → printed v.
Proof.
  unfold printable_tier. rewrite !andb_true_iff. intros [[[[[[[H1 H2] H3] H4] H5] H6%bool_decide_eq_true] H7] H8%bool_decide_eq_true].
  constructor; auto. intros cv Hin Ht. rewrite forallb_forall in H7. specialize (H7 cv (proj1 (list_elem_of_In _ _) Hin)).
  by rewrite Ht in H7.
Qed.

Lemma cost_text x : cost_ok x = true → number_or_zero x = x ∧ numeral (number_to_string x) = true ∧
  string_to_number (number_to_string x) = x.
Proof.
  unfold cost_ok, reads_back. by intros [H1%bool_decide_eq_true [H2 H3%bool_decide_eq_true]%andb_true_iff]%andb_true_iff.
Qed.

Lemma comparisons_ok v : printed v → Forall comparison_ok (map comparison_of (v_conditions v)).
Proof.
  intros [_ _ H _ _ _ _ _]. apply Forall_map, Forall_forall. intros c Hc%list_elem_of_In. rewrite forallb_forall in H.
  apply H in Hc. unfold condition_ok in Hc. rewrite !andb_true_iff in Hc.
  destruct Hc as [[Hv%bool_decide_eq_true Ho%bool_decide_eq_true] Hn]. constructor; [done..|]. cbn.
  destruct (c_value c) as [[n|]|]; [|done..]. unfold reads_back in Hn. rewrite !andb_true_iff in Hn. destruct Hn as [[Hn _] Hu].
  split; [|done]. by apply numeral_cases in Hn as [].
Qed.

Lemma segment_of_ok v : printed v → segment_ok (segment_of v).
Proof.
  intros Hv. constructor; [by apply comparisons_ok|]. destruct Hv as [_ Hq _ Hi Ho _ Hc _].
  constructor; cbn [segment_of g_label g_in g_out g_extra].
  - done.
  - by apply cost_text.
  - by apply cost_text.
  - split.
    + apply Forall_map, Forall_forall. intros cv Hin. pose proof names_ok as Hn. rewrite Forall_forall in Hn.
      split; [by apply Hn|]. unfold summand_of. cbn [snd]. intros a Ha.
      destruct (num_truthy (extra_cost v cv)) eqn:Et; [|done]. injection Ha as <-.
      apply Hc in Et; [|done]. unfold reads_back in Et. by apply andb_true_iff in Et as [].
    + rewrite map_map. apply NoDup_vars.
  - by rewrite map_map.
Qed.

(** *** The text of a tier *)

Lemma join_sum (a b : jstr) ws : join " + " (a :: b :: ws) = a ++ " + " ++ b ++ concat (map (fun w => " + " ++ w) ws).
Proof. by rewrite join_cons2, join_concat. Qed.

Lemma present_products v l :
  present (map (summand_of v) l) =
  concat (map (fun w => " + " ++ w) (concat (map (fun cv =>
    if num_truthy (extra_cost v cv) then [exprVar cv ++ " * " ++ number_to_string (extra_cost v cv)] else []) l))).
Proof.
  unfold present. induction l as [|cv l IH]; [done|]. cbn [map concat]. rewrite IH, map_app, concat_app. f_equal.
  unfold summand_of. cbn [snd fst]. destruct (num_truthy _); [|done]. cbn [map concat]. by rewrite app_nil_r.
Qed.

Lemma tier_call_text v : printed v → tier_call (v_label v) v = segment_call (segment_of v).
Proof.
  intros [_ _ _ Hi Ho _ _ _]. apply cost_text in Hi as [Hi _], Ho as [Ho _].
  unfold tier_call, segment_call, call_text, buildTierBodyExpr. rewrite Hi, Ho, join_sum.
  cbn [segment_of g_label g_in g_out g_extra]. rewrite present_products. by rewrite <- !app_assoc.
Qed.

Lemma condition_filled_ok c : condition_ok c = true → condition_filled c = true.
Proof.
  unfold condition_ok, condition_filled. rewrite !andb_true_iff.
  intros [[Hv%bool_decide_eq_true Ho%bool_decide_eq_true] Hn]. destruct (c_value c) as [[n|]|]; [|done..].
  split; [|done]. split; [by elem_cases Hv|by elem_cases Ho].
Qed.

Lemma condition_str v : printed v → buildConditionStr (v_conditions v) = conjunction (map comparison_of (v_conditions v)).
Proof.
  intros [_ _ H _ _ _ _ _]. unfold buildConditionStr, conjunction. f_equal. rewrite map_map.
  induction (v_conditions v) as [|c cs IH]; [done|]. cbn in H. apply andb_true_iff in H as [Hc H].
  cbn [List.filter]. rewrite condition_filled_ok by done. cbn [map]. by rewrite IH.
Qed.

Lemma condition_str_truthy v : printed v → truthy (buildConditionStr (v_conditions v)) = negb (unconditional v).
Proof.
  intros Hv. rewrite condition_str by done. unfold unconditional. pose proof (comparisons_ok v Hv) as Hks.
  destruct (v_conditions v) as [|c cs]; [done|]. destruct (conjunction_head (map comparison_of (c :: cs))) as (d & r & -> & _); done.
Qed.

(** *** The tier of a match *)

Lemma captured_at ps : ∀ i old k p, ps !! k = Some p → captured i ps old (i + k) = p.2.
Proof.
  induction ps as [|[v o] ps IH]; intros i old k p Hk; [done|]. cbn. destruct k as [|k]; cbn in Hk.
  - rewrite decide_True by lia. by injection Hk as <-.
  - rewrite decide_False by lia. rewrite <- Nat.add_succ_comm. by apply IH.
Qed.

Lemma map_get_fields (g : CacheVar → option num) l cv :
  NoDup (map cv_field l) → cv ∈ l →
  map_get (cv_field cv) (concat (map (fun cv => match g cv with Some n => [(cv_field cv, n)] | None => [] end) l)) = g cv.
Proof.
  intros Hnd Hin. induction l as [|u l IH]; [by apply elem_of_nil in Hin|]. cbn in Hnd. apply NoDup_cons in Hnd as [Hu Hnd].
  assert (Hrest : ∀ f, f ∉ map cv_field l →
    map_get f (concat (map (fun cv => match g cv with Some n => [(cv_field cv, n)] | None => [] end) l)) = None).
  { clear. intros f Hf. induction l as [|u l IH]; [done|]. cbn in Hf. apply not_elem_of_cons in Hf as [Hne Hf].
    cbn [map concat]. destruct (g u); [|by apply IH]. cbn. rewrite decide_False by done. by apply IH. }
  cbn [map concat]. apply elem_of_cons in Hin as [->|Hin].
  - destruct (g u); [cbn; by rewrite decide_True|]. by apply Hrest.
  - assert (cv_field cv ≠ cv_field u).
    { intros E. apply Hu. rewrite <- E. apply list_elem_of_In, in_map, list_elem_of_In. done. }
    destruct (g u); [cbn; rewrite decide_False by done|]; by apply IH.
Qed.

Lemma imap_map {A B} (f : nat → A → B) (g : A → B) l : (∀ k x, l !! k = Some x → f k x = g x) → imap f l = map g l.
Proof.
  revert f. induction l as [|x l IH]; intros f H; [done|]. rewrite imap_cons. cbn [map]. f_equal; [by apply (H 0)|].
  apply IH. intros k y Hk. by apply (H (S k)).
Qed.

Definition read_extra (v : VisualTier) (cv : CacheVar) : option num :=
  if num_truthy (extra_cost v cv) then Some (extra_cost v cv) else None.

Lemma or_zero_read v cv : or_zero (read_extra v cv) = extra_cost v cv.
Proof.
  unfold read_extra, extra_cost. destruct (map_get _ _) as [x|]; [|done]. cbn [or_zero].
  destruct (num_truthy x) eqn:E; [rewrite E; cbn [or_zero]; by rewrite E|done].
Qed.

Lemma extra_read i v m old :
  printed v →
  (∀ j, i ≤ j → cap j m = call_caps i (v_label v) (number_to_string (input_unit_cost v)) (number_to_string (output_unit_cost v))
     (map (summand_of v) BILLING_CACHE_VAR_MAP) old j) →
  concat (imap (fun k cv => match group_number (S (S (S i)) + k) m with Some n => [(cv_field cv, n)] | None => [] end)
    BILLING_CACHE_VAR_MAP) =
  concat (map (fun cv => match read_extra v cv with Some n => [(cv_field cv, n)] | None => [] end) BILLING_CACHE_VAR_MAP).
Proof.
  intros Hv Hm. f_equal. apply imap_map. intros k cv Hk. unfold group_number. rewrite Hm by lia. unfold call_caps.
  rewrite !decide_False by lia. rewrite (captured_at _ _ _ _ (summand_of v cv)) by (by rewrite list_lookup_fmap, Hk).
  unfold summand_of, read_extra. cbn [snd]. destruct (num_truthy _) eqn:Et; [|done]. cbn [fmap option_fmap option_map].
  apply (p_costs v Hv) in Et; [|by eapply list_elem_of_lookup_2]. unfold reads_back in Et.
  apply andb_true_iff in Et as [_ ->%bool_decide_eq_true]. done.
Qed.

Lemma call_caps_own i label a b ps old :
  call_caps i label a b ps old i = Some label ∧ call_caps i label a b ps old (S i) = Some a ∧
  call_caps i label a b ps old (S (S i)) = Some b.
Proof. unfold call_caps. repeat split; repeat case_decide; try done; lia. Qed.

Lemma matched_back i v m old :
  printed v →
  (∀ j, i ≤ j → cap j m = call_caps i (v_label v) (number_to_string (input_unit_cost v)) (number_to_string (output_unit_cost v))
     (map (summand_of v) BILLING_CACHE_VAR_MAP) old j) →
  matched_tier i (v_conditions v) m = v.
Proof.
  intros Hv Hm. pose proof Hv as [_ _ _ Hi Ho He _ Hmode]. apply cost_text in Hi as (_ & _ & Hi), Ho as (_ & _ & Ho).
  unfold matched_tier. rewrite (extra_read i v m old) by done. unfold group_number. rewrite !Hm by lia.
  destruct (call_caps_own i (v_label v) (number_to_string (input_unit_cost v)) (number_to_string (output_unit_cost v))
    (map (summand_of v) BILLING_CACHE_VAR_MAP) old) as (-> & -> & ->). cbn [fmap option_fmap option_map]. rewrite Hi, Ho.
  set (extra := concat _). assert (Hextra : ∀ cv, cv ∈ BILLING_CACHE_VAR_MAP → map_get (cv_field cv) extra = read_extra v cv).
  { intros cv Hcv. apply (map_get_fields (read_extra v)); [apply NoDup_vars|done]. }
  assert (Hlist : map (fun cv => (cv_field cv, or_zero (map_get (cv_field cv) extra))) BILLING_CACHE_VAR_MAP = extra_costs v).
  { rewrite He. apply map_ext_in. intros cv Hcv%list_elem_of_In. by rewrite Hextra, or_zero_read by done. }
  assert (Hm1h : getTierCacheMode (MkPartial (Some (v_label v)) (Some (v_conditions v)) (Some (input_unit_cost v))
    (Some (output_unit_cost v)) None extra) = cache_mode v).
  { rewrite Hmode. unfold getTierCacheMode. cbn [q_mode q_extra].
    assert (H1h : MkCacheVar CACHE_1H "cc1h" ∈ BILLING_CACHE_VAR_MAP) by by do 2 right; left.
    apply Hextra in H1h. cbn [cv_field] in H1h. rewrite H1h. unfold read_extra, extra_cost. cbn [cv_field].
    destruct (map_get CACHE_1H (extra_costs v)) as [x|]; [|done]. unfold or_zero. destruct (num_truthy x) eqn:Ex; [by rewrite Ex|].
    cbn [num_truthy num_of_Z default]. destruct x as [[]|[]| |]; done. }
  unfold normalizeVisualTier. cbn [q_label q_conditions q_input q_output q_mode q_extra default]. rewrite Hlist, Hm1h.
  by destruct v.
Qed.

(** ** The round trip *)

Lemma conditions_back v :
  printed v →
  map (fun k => MkCondition (k_var k) (k_op k) (Some (VNum (string_to_number (k_num k))))) (map comparison_of (v_conditions v)) =
  v_conditions v.
Proof.
  intros [_ _ H _ _ _ _ _]. rewrite map_map. induction (v_conditions v) as [|[x o w] cs IH]; [done|].
  cbn [forallb] in H. apply andb_true_iff in H as [Hc H]. cbn [map]. rewrite (IH H). f_equal.
  unfold condition_ok in Hc. cbn [c_value] in Hc. destruct w as [[n|]|]; [|by rewrite andb_false_r in Hc..].
  cbn. unfold reads_back in Hc. rewrite !andb_true_iff in Hc. destruct Hc as [_ [[_ ->%bool_decide_eq_true] _]]. done.
Qed.

Lemma segment_back m v :
  printed v → holds m (segment_of v) → matched_tier 2 (read_conditions (default [] (cap 1 m))) m = v.
Proof.
  intros Hv Hm. assert (read_conditions (default [] (cap 1 m)) = v_conditions v) as ->.
  { rewrite (Hm 1). unfold segment_caps, call_caps. rewrite !decide_False by lia. rewrite captured_lt by lia.
    pose proof (conditions_back v Hv) as Hb. pose proof (comparisons_ok v Hv) as Hk. cbn [segment_of g_conds].
    destruct (map comparison_of (v_conditions v)) as [|k ks] eqn:E; [by cbn in *|].
    rewrite decide_True by done. cbn [default]. rewrite <- Hb. by apply read_conjunction. }
  eapply matched_back; [done|]. intros j _. apply Hm.
Qed.

Lemma segments_back ms vs :
  Forall printed vs → Forall2 holds ms (map segment_of vs) →
  map (fun m => matched_tier 2 (read_conditions (default [] (cap 1 m))) m) ms = vs.
Proof.
  revert ms. induction vs as [|v vs IH]; intros ms Hvs Hms; cbn [map] in Hms.
  - apply Forall2_nil_inv_r in Hms as ->. done.
  - apply Forall_cons in Hvs as [Hv Hvs]. apply Forall2_cons_inv_r in Hms as (m & ms' & Hm & Hms & ->).
    cbn [map]. f_equal; [by apply segment_back|by apply IH].
Qed.

Lemma renormalize_printed vs : vs ≠ [] → Forall printed vs → renormalize vs = vs.
Proof.
  intros Hne Hvs. assert (H : map normalizeVisualTier (map as_partial vs) = vs).
  { clear Hne. induction Hvs as [|v vs Hv _ IH]; [done|]. cbn [map]. rewrite IH. f_equal.
    unfold normalizeVisualTier, as_partial. cbn [q_label q_conditions q_input q_output q_mode q_extra default].
    pose proof (p_extra v Hv) as He. unfold extra_cost in He. rewrite <- He. by destruct v. }
  unfold renormalize, normalizeVisualConfig. by destruct vs.
Qed.

(** The text of some tiers, with what is written after them. *)
Definition chain (v : VisualTier) (vs : list VisualTier) (tail : jstr) : jstr :=
  join " : " (map (fun v => segment_text (segment_of v)) (v :: vs)) ++ tail.

Lemma chain_matches v vs tail :
  Forall printed (v :: vs) → (∀ bef, search visualTierRe bef tail = None) →
  map (fun m => matched_tier 2 (read_conditions (default [] (cap 1 m))) m) (matchAll visualTierRe (chain v vs tail)) = v :: vs.
Proof.
  intros Hvs Ht. apply segments_back; [done|]. unfold matchAll, chain. cbn [map]. rewrite join_concat.
  set (sgs := ([], segment_of v) :: map (fun v => ((" : " : jstr), segment_of v)) vs).
  assert (E : segment_text (segment_of v) ++ concat (map (fun x => " : " ++ x) (map (fun v => segment_text (segment_of v)) vs)) =
    concat (map (fun x => x.1 ++ segment_text x.2) sgs)).
  { unfold sgs. cbn [map concat fst snd app]. by rewrite !map_map. }
  rewrite E. change (segment_of v :: map segment_of vs) with (map segment_of (v :: vs)).
  replace (map segment_of (v :: vs)) with (map snd sgs) by (unfold sgs; cbn [map]; by rewrite map_map).
  apply find_segments; [|done|].
  - unfold sgs. apply Forall_cons in Hvs as [Hv Hvs]. constructor; [split; [left|by apply segment_of_ok]|].
    apply Forall_map. eapply Forall_impl; [exact Hvs|]. intros w Hw. split; [by right; left|by apply segment_of_ok].
  - rewrite <- E. unfold sgs. cbn [length]. rewrite !length_app, length_map. destruct (segment_nonempty (segment_of v) []) as (c & r & E').
    { apply Forall_cons in Hvs as [Hv _]. by apply segment_of_ok. }
    rewrite app_nil_r in E'. rewrite E'. clear. induction vs as [|w vs IH]; [cbn; lia|]. cbn [map concat length] in *.
    rewrite (length_app (" : " ++ _)). cbn [app length] in *. lia.
Qed.

Lemma chain_split v vs tail : ∃ z, chain v vs tail = segment_text (segment_of v) ++ z ∧ (z = [] → vs = [] ∧ tail = []).
Proof.
  unfold chain. cbn [map]. rewrite join_concat, <- app_assoc. eexists. split; [done|]. destruct vs; [|done]. by cbn.
Qed.

Lemma segment_head v z : printed v → ∃ c r, segment_text (segment_of v) ++ z = c :: r ∧ c ∈ ("tpcl" : jstr).
Proof.
  intros Hv. destruct (accepts_segment (segment_of v) z (segment_of_ok v Hv) []) as [cs Hcs].
  destruct (Hcs []) as [b HM]. by apply tier_starts in HM.
Qed.

Lemma no_version s c r : s = c :: r → c ∈ ("tpcl" : jstr) → exec re_prefix s = None.
Proof.
  intros -> Hc. apply exec_bol_none. intros [b s' cs] (st1 & H & _)%M_seq_iff. apply M_lit in H as (x & E & _).
  cbn [rest] in E. injection E as -> _. by elem_cases Hc.
Qed.

(** More than one bare call is not read as a single tier. *)
Lemma not_single v z : printed v → unconditional v = false ∨ z ≠ [] → exec singleRe (segment_text (segment_of v) ++ z) = None.
Proof.
  intros Hv Hz. apply exec_bol_none. intros [b s' cs] ([b1 s1 cs1] & H1 & [E _]%M_eol_iff)%M_seq_iff. cbn [rest] in E. subst s1.
  assert (HM : MR (callPat 1) (segment_text (segment_of v) ++ z) [] [] cs1) by by eexists _, _. clear H1.
  pose proof (segment_of_ok v Hv) as [Hk Hc]. unfold segment_text in HM.
  destruct (g_conds (segment_of v)) as [|k ks] eqn:Eg.
  - apply call_read in HM as [<- _]; [|done|done]. destruct Hz as [Hz|]; [|done]. unfold unconditional in Hz.
    cbn [segment_of g_conds] in Eg. by destruct (v_conditions v).
  - apply call_starts in HM as [r E]. destruct (conjunction_head (k :: ks)) as (c & t & Et & Hct); [done..|].
    rewrite Et in E. injection E as -> _. by elem_cases Hct.
Qed.

Lemma parse_chain v vs tail :
  Forall printed (v :: vs) → (∀ bef, search visualTierRe bef tail = None) →
  unconditional v = false ∨ vs ≠ [] ∨ tail ≠ [] → generateExprFromVisualConfig (v :: vs) = chain v vs tail →
  tryParseVisualConfig (Some (chain v vs tail)) = Some (v :: vs).
Proof.
  intros Hvs Ht Hnot Hg. pose proof Hvs as [Hv _]%Forall_cons. destruct (chain_split v vs tail) as (z & Ez & Hz).
  destruct (segment_head v z Hv) as (c & r & Ec & Hc). rewrite <- Ez in Ec.
  assert (Hs : exec singleRe (chain v vs tail) = None).
  { rewrite Ez. apply not_single; [done|]. destruct Hnot as [|Hnot]; [by left|right]. intros ->.
    destruct Hz as [-> ->]; [done|]. by destruct Hnot. }
  pose proof (no_version _ _ _ Ec Hc) as Hp. pose proof (chain_matches v vs tail Hvs Ht) as Hm.
  unfold tryParseVisualConfig. rewrite Ec in *. rewrite Hp, Hs. cbv zeta. rewrite Hm.
  rewrite renormalize_printed by done. by rewrite Hg, jeqb_refl.
Qed.

Lemma parse_single v :
  printed v → unconditional v = true → tryParseVisualConfig (Some (segment_call (segment_of v))) = Some [v].
Proof.
  intros Hv Hu. pose proof (segment_of_ok v Hv) as [_ Hc].
  assert (E : segment_text (segment_of v) = segment_call (segment_of v)).
  { unfold segment_text. cbn [segment_of g_conds]. unfold unconditional in Hu. by destruct (v_conditions v). }
  destruct (segment_head v [] Hv) as (c & r & Ec & Hc'). rewrite app_nil_r, E in Ec.
  pose proof (no_version _ _ _ Ec Hc') as Hp.
  assert (∃ m, exec singleRe (segment_call (segment_of v)) = Some m) as [m Hm].
  { destruct (accepts_call 1 _ _ _ _ [] Hc []) as [cs Hcs]. rewrite app_nil_r in Hcs.
    eapply exec_reads, reads_seq; [exact Hcs|apply reads_eol]. }
  unfold tryParseVisualConfig. rewrite Ec in *. rewrite Hp, Hm. f_equal.
  rewrite <- Ec in Hm. apply exec_MR in Hm as [s' (s1 & cs1 & Hm & Heol)%MR_seq]. apply MR_eol in Heol as (-> & -> & Hcs).
  rewrite <- (app_nil_r (segment_call _)) in Hm. apply call_read in Hm as [_ Hj]; [|done|done].
  assert (Hnil : v_conditions v = []) by (unfold unconditional in Hu; by destruct (v_conditions v)).
  rewrite <- Hnil. rewrite (matched_back 1 v m (fun _ => None)); [|done|].
  { apply (renormalize_printed [v]); [done|]. constructor; [done|constructor]. }
  intros j _. unfold cap. rewrite Hcs. apply Hj.
Qed.

(** What the editor writes for a single tier with a condition after it. *)
Lemma tail_no_tier bef : search visualTierRe bef " : p * 0 + c * 0" = None.
Proof.
  apply search_none. intros a b E bef' [b' s' cs'] HM.
  assert (Hpar : (40%N : N) ∈ b).
  { destruct (tier_parse b [] s' cs') as [H|H]; [by eexists _, _|by apply call_starts in H as [r ->]; set_solver|].
    destruct H as (s1 & cs1 & s2 & cs2 & s3 & cs3 & s4 & cs4 & H1 & H2 & H3 & H4 & H5).
    apply call_starts in H5 as [r ->]. unfold ws in *. apply MR_group in H1 as (w & ? & -> & _).
    apply MR_class in H2 as (u & -> & _); [|done]. apply MR_lit in H3 as [-> _]. apply MR_class in H4 as (u' & -> & _); [|done].
    set_solver. }
  assert (Hin : (40%N : N) ∈ (" : p * 0 + c * 0" : jstr)) by (rewrite E; set_solver).
  by elem_cases Hin.
Qed.

Lemma parts_text vs : ∀ v i,
  Forall printed (v :: vs) → forallb unconditional (drop (length vs) (v :: vs)) = true →
  tier_parts i (v :: vs) = map (fun v => segment_text (segment_of v)) (v :: vs).
Proof.
  assert (Hone : ∀ v, printed v → (if truthy (buildConditionStr (v_conditions v))
    then buildConditionStr (v_conditions v) ++ " ? " ++ segment_call (segment_of v) else segment_call (segment_of v)) =
    segment_text (segment_of v)).
  { intros v Hv. rewrite condition_str_truthy, condition_str by done. unfold segment_text, unconditional. cbn [segment_of g_conds].
    by destruct (v_conditions v). }
  induction vs as [|w vs IH]; intros v i Hvs Hu; apply Forall_cons in Hvs as [Hv Hvs]; cbn [tier_parts map];
    rewrite (p_label v Hv), tier_call_text by done.
  - rewrite <- Hone, condition_str_truthy by done. cbn in Hu. rewrite andb_true_r in Hu. by rewrite Hu.
  - rewrite (Hone v Hv). f_equal. apply IH; [done|]. exact Hu.
Qed.

Lemma printable_printed tiers : printable tiers = true → tiers ≠ [] ∧ Forall printed tiers.
Proof.
  unfold printable. destruct tiers as [|v [|w vs]]; [done|intros H; split; [done|constructor; [by apply printable_spec|constructor]]|].
  intros [H _]%andb_true_iff. split; [done|]. rewrite Forall_forall. intros x Hx%list_elem_of_In. rewrite forallb_forall in H.
  by apply printable_spec, H.
Qed.

(** C4: What the visual price editor writes, it reads back: for tiers whose labels, prices
    and conditions have a faithful text, [tryParseVisualConfig] applied to the expression
    that [generateExprFromVisualConfig] writes gives exactly these tiers. *)
Theorem visual_roundtrip tiers :
  printable tiers = true → tryParseVisualConfig (Some (generateExprFromVisualConfig tiers)) = Some tiers.
Proof.
  intros H. pose proof (printable_printed tiers H) as [_ Hall]. destruct tiers as [|v [|w vs]]; [done| |].
  - pose proof Hall as [Hv _]%Forall_cons. destruct (unconditional v) eqn:Hu.
    + cbn [generateExprFromVisualConfig]. rewrite condition_str_truthy, Hu, (p_label v Hv), tier_call_text by done.
      by apply parse_single.
    + assert (E : generateExprFromVisualConfig [v] = chain v [] " : p * 0 + c * 0").
      { cbn [generateExprFromVisualConfig]. rewrite condition_str_truthy, Hu, (p_label v Hv), tier_call_text, condition_str by done.
        unfold chain, segment_text. cbn [map join segment_of g_conds]. unfold unconditional in Hu.
        destruct (v_conditions v); [done|]. cbn [map negb]. by rewrite <- !app_assoc. }
      rewrite E. apply parse_chain; [done|apply tail_no_tier|by left|done].
  - assert (E : generateExprFromVisualConfig (v :: w :: vs) = chain v (w :: vs) []).
    { cbn [printable] in H. apply andb_true_iff in H as [_ Hu]. cbn [length] in Hu. rewrite Nat.sub_succ, Nat.sub_0_r in Hu.
      unfold chain. rewrite app_nil_r, <- (parts_text (w :: vs) v 0) by done. done. }
    rewrite E. apply parse_chain; [done| |by right; left|done]. intros bef. apply search_none.
    intros a b [-> ->]%eq_sym%app_nil bef' st (c & r & [=] & _)%tier_starts.
Qed.

Definition witness_tiers : list VisualTier :=
  [demo_tier "small" [MkCondition "len" "<=" (Some (VNum (num_of_Z 200000))); MkCondition "c" "<" (Some (VNum (num_of_Z 9)))]
     3 15 [(CACHE_1H, num_of_Z 6)]; demo_tier "big" [] 6 22 []].

Lemma visual_roundtrip_witness :
  tryParseVisualConfig (Some (generateExprFromVisualConfig witness_tiers)) = Some witness_tiers.
Proof.
  assert (H : printable witness_tiers = true) by (vm_compute; reflexivity). exact (visual_roundtrip witness_tiers H).
Defined.
