(* ===== verification/Navigation.v ===== *)
(** * Navigation: which entries are shown and which pages open

    Model of [lib/nav-modules.ts] (modules of the header, the guard of the pages behind
    them and of the playground, the cached status) and of
    [hooks/use-sidebar-config.ts] (which entries of the sidebar a user sees).

    Configurations come from the server as JSON texts and are kept as values of unknown
    shape.  [localStorage] holds the last status as a text; [None] is an absent or
    unreadable entry. *)

From S2P Require Import Prelude JsValue JsText AdminAccess.

(** [{...v}]: the own members of any value. *)
Definition spread (v : jsval) : list (jstr * jsval) :=
  match v with
  | JObj fs => fs
  | JArr l => imap (fun i x => (js_of_N (N.of_nat i), x)) l
  | JStr s => imap (fun i c => (js_of_N (N.of_nat i), JStr [c])) s
  | _ => []
  end.

Definition is_false (v : jsval) : bool := match v with JBool false => true | _ => false end.
Definition is_true (v : jsval) : bool := match v with JBool true => true | _ => false end.

(** ** lib/nav-modules.ts *)

Record ModuleAccess := MkAccess { enabled : bool; requireAuth : bool }.

Inductive HeaderNavModule := RankingsModule | PricingModule.

(** The two modules with an access rule, and the switches of the others by name. *)
Record HeaderNavModules := MkModules { pricing : ModuleAccess; rankings : ModuleAccess; switches : list (jstr * bool) }.

Definition DEFAULT_HEADER_NAV_MODULES : HeaderNavModules :=
  MkModules (MkAccess true false) (MkAccess true false) [("home", true); ("console", true); ("docs", true); ("about", true)].

(** [String(raw).trim() === ''] after a test for falsy values *)
Definition blank_value (raw : jsval) : bool := negb (val_truthy raw) || (trim (value_to_string raw) === []).

Section nav.
Context `{UnicodeCase}.

Definition parseHeaderNavBoolean (raw : jsval) (fallback : bool) : bool :=
  match raw with
  | JBool b => b
  | JNum n => if num_eqb n (num_of_Z 1) then true else if num_eqb n (num_of_Z 0) then false else fallback
  | JStr s =>
    let normalized := toLowerCase (trim s) in
    if (normalized === "true") || (normalized === "1") then true
    else if (normalized === "false") || (normalized === "0") then false
    else fallback
  | _ => fallback
  end.

Definition parseAccess (raw : jsval) (fallback : ModuleAccess) : ModuleAccess :=
  match raw with
  | JBool _ | JNum _ | JStr _ => MkAccess (parseHeaderNavBoolean raw (enabled fallback)) (requireAuth fallback)
  | JArr _ | JObj _ =>
    MkAccess (parseHeaderNavBoolean (get "enabled" raw) (enabled fallback))
      (parseHeaderNavBoolean (get "requireAuth" raw) (requireAuth fallback))
  | _ => fallback
  end.

(** [None] is [null]. *)
Definition parseHeaderNavRecord (raw : jsval) : option jsval :=
  if blank_value raw then None
  else if is_objectlike raw then Some raw
  else JSON_parse (value_to_string raw).

(** One entry of the configuration.  A member [__proto__] of the result cannot be set to a
    boolean: the assignment does nothing. *)
Definition nav_entry (result : HeaderNavModules) (kv : jstr * jsval) : HeaderNavModules :=
  let '(key, value) := kv in
  if key === "pricing" then MkModules (parseAccess value (pricing result)) (rankings result) (switches result)
  else if key === "rankings" then MkModules (pricing result) (parseAccess value (rankings result)) (switches result)
  else
    let fallback := map_get key (switches result) in
    let simple := match value with JBool _ | JNum _ | JStr _ => true | _ => false end in
    if match fallback with Some _ => true | None => simple end then
      if key === "__proto__" then result
      else MkModules (pricing result) (rankings result)
             (map_set key (parseHeaderNavBoolean value (default true fallback)) (switches result))
    else result.

Definition parseHeaderNavModules (raw : jsval) : HeaderNavModules :=
  match parseHeaderNavRecord raw with
  | Some parsed =>
    if val_truthy parsed then foldl nav_entry DEFAULT_HEADER_NAV_MODULES (spread parsed) else DEFAULT_HEADER_NAV_MODULES
  | None => DEFAULT_HEADER_NAV_MODULES
  end.

(** [status?.k] *)
Definition parseHeaderNavModulesFromStatus (status : jsval) : HeaderNavModules :=
  parseHeaderNavModules (get "HeaderNavModules" status).

Definition getCachedStatus (stored : option jstr) : jsval :=
  match stored with
  | Some raw => if truthy raw then default JNull (JSON_parse raw) else JNull
  | None => JNull
  end.

(** [accepts] says whether the browser stores a text. *)
Definition cacheStatus (accepts : jstr → bool) (status : jsval) (stored : option jstr) : option jstr :=
  if val_truthy status then
    match JSON_compact status with
    | Some text => if accepts text then Some text else stored
    | None => stored
    end
  else stored.

Definition module_of (modules : HeaderNavModules) (m : HeaderNavModule) : ModuleAccess :=
  match m with RankingsModule => rankings modules | PricingModule => pricing modules end.

Definition getModuleAccessFromStatus (status : jsval) (m : HeaderNavModule) : ModuleAccess :=
  module_of (parseHeaderNavModulesFromStatus status) m.

Definition getModuleAccess (stored : option jstr) (m : HeaderNavModule) : ModuleAccess :=
  getModuleAccessFromStatus (getCachedStatus stored) m.

(** The answer of the status request, [None] when it throws; the access and what is stored. *)
Definition getFreshModuleAccess (accepts : jstr → bool) (answer : option jsval) (m : HeaderNavModule) (stored : option jstr) :
    ModuleAccess * option jstr :=
  match answer with
  | Some status => (getModuleAccessFromStatus status m, cacheStatus accepts status stored)
  | None => (MkAccess false true, stored)
  end.
End nav.

Definition isSidebarModuleEnabled (stored : option jstr) (section module : jstr) : bool :=
  let status := getCachedStatus stored in
  if negb (val_truthy status) then true
  else
    let raw := get "SidebarModulesAdmin" status in
    if blank_value raw then true
    else match JSON_parse (value_to_string raw) with
         | None | Some JNull => true
         | Some parsed =>
           let sectionConfig := get section parsed in
           if negb (val_truthy sectionConfig) then true
           else if is_false (get "enabled" sectionConfig) then false
           else if is_false (get module sectionConfig) then false
           else true
         end.

(** ** hooks/use-sidebar-config.ts *)

Definition switches_on (keys : list jstr) : jsval := JObj (map (fun k => (k, JBool true)) keys).

Definition DEFAULT_SIDEBAR_MODULES : list (jstr * jsval) :=
  [("chat", switches_on ["enabled"; "playground"; "chat"]);
   ("console", switches_on ["enabled"; "detail"; "token"; "log"; "midjourney"; "task"]);
   ("personal", switches_on ["enabled"; "topup"; "invite_rewards"; "personal"]);
   ("admin", switches_on ["enabled"; "channel"; "models"; "redemption"; "user"; "setting"; "subscription"])].

(** [{...a, ...b}] *)
Definition spread_over (a b : list (jstr * jsval)) : list (jstr * jsval) := foldl (fun fs kv => obj_set kv.1 kv.2 fs) a b.

(** The inner loop: a member that is undefined takes the default. *)
Definition fill_undefined (defaults members : list (jstr * jsval)) : list (jstr * jsval) :=
  foldl (fun fs kv => match default JUndefined (map_get kv.1 fs) with JUndefined => obj_set kv.1 kv.2 fs | _ => fs end)
    members defaults.

Definition merge_section (defaultSection existingSection : jsval) : jsval :=
  if negb (val_truthy existingSection) then defaultSection
  else JObj (fill_undefined (spread defaultSection) (spread_over (spread defaultSection) (spread existingSection))).

Definition mergeWithDefaultSidebarModules (config : jsval) : list (jstr * jsval) :=
  foldl (fun merged kv => obj_set kv.1 (merge_section kv.2 (default JUndefined (map_get kv.1 merged))) merged)
    (spread config) DEFAULT_SIDEBAR_MODULES.

Definition URL_TO_CONFIG_MAP : list (jstr * (jstr * jstr)) :=
  [("/playground", ("chat", "playground")); ("/dashboard", ("console", "detail"));
   ("/dashboard/overview", ("console", "detail")); ("/dashboard/models", ("console", "detail"));
   ("/dashboard/users", ("console", "detail")); ("/keys", ("console", "token")); ("/usage-logs", ("console", "log"));
   ("/usage-logs/common", ("console", "log")); ("/usage-logs/drawing", ("console", "midjourney"));
   ("/usage-logs/task", ("console", "task")); ("/wallet", ("personal", "topup"));
   ("/invite-rewards", ("personal", "invite_rewards")); ("/profile", ("personal", "personal"));
   ("/channels", ("admin", "channel")); ("/models", ("admin", "models")); ("/models/metadata", ("admin", "models"));
   ("/models/deployments", ("admin", "models")); ("/users", ("admin", "user"));
   ("/redemption-codes", ("admin", "redemption")); ("/subscriptions", ("admin", "subscription"));
   ("/system-settings", ("admin", "setting")); ("/system-settings/site", ("admin", "setting"))].

(** [URL_TO_CONFIG_MAP[url]]: an inherited member has no section and no module, which are
    then looked up as [undefined]. *)
Definition mapping_of (url : jstr) : option (jstr * jstr) :=
  match map_get url URL_TO_CONFIG_MAP with
  | Some m => Some m
  | None => if has url OBJECT_PROTOTYPE then Some ("undefined", "undefined") else None
  end.

Definition blank_text (value : option jstr) : bool :=
  match value with Some s => negb (truthy s) || (trim s === []) | None => true end.

Definition parseSidebarConfig (value : option jstr) : list (jstr * jsval) :=
  if blank_text value then DEFAULT_SIDEBAR_MODULES
  else match value ≫= JSON_parse with
       | Some parsed => mergeWithDefaultSidebarModules parsed
       | None => DEFAULT_SIDEBAR_MODULES
       end.

(** [None] is [null]: no narrowing. *)
Definition parseUserSidebarConfig (value : option jstr) : option jsval :=
  if blank_text value then None
  else match value ≫= JSON_parse with
       | Some parsed => if is_objectlike parsed then Some parsed else None
       | None => None
       end.

(** [Boolean(section && section.enabled && section[module] === true)] *)
Definition admin_allows (adminConfig : list (jstr * jsval)) (section module : jstr) : bool :=
  let adminSection := get section (JObj adminConfig) in
  val_truthy adminSection && val_truthy (get "enabled" adminSection) && is_true (get module adminSection).

(** The overlay: hidden only by an explicit [false]. *)
Definition user_allows (userConfig : jsval) (section module : jstr) : bool :=
  let userSection := get section userConfig in
  if negb (val_truthy userSection) then true
  else if is_false (get "enabled" userSection) then false
  else negb (is_false (get module userSection)).

Definition isModuleEnabled (url : jstr) (adminConfig : list (jstr * jsval)) (userConfig : option jsval)
    (canAccessSystemSettings : bool) : bool :=
  match mapping_of url with
  | None => true
  | Some (section, module) =>
    if negb (admin_allows adminConfig section module) then false
    else match userConfig with
         | None => true
         | Some user =>
           if canAccessSystemSettings && (section === "admin") && (module === "setting") then true
           else user_allows user section module
         end
  end.

(** What every item has; its icon is a React component and left out. *)
Record BaseNavItem := MkBase {
  title : jstr; badge : option jstr; activeUrls : option (list jstr); configUrls : option (list jstr); requiredRole : option num;
}.

Inductive NavItem :=
  | NavLink (base : BaseNavItem) (url : jstr)
  | NavCollapsible (base : BaseNavItem) (items : list (BaseNavItem * jstr))
  | NavChatPresets (base : BaseNavItem).

Record NavGroup := MkGroup { g_id : option jstr; g_title : jstr; g_items : list NavItem }.

Definition isNavItemVisible (item : NavItem) (adminConfig : list (jstr * jsval)) (userConfig : option jsval)
    (canAccessSystemSettings : bool) : bool :=
  match item with
  | NavChatPresets _ =>
    if negb (admin_allows adminConfig "chat" "chat") then false
    else match userConfig with None => true | Some user => user_allows user "chat" "chat" end
  | NavLink base url =>
    if truthy url then
      if startsWith "/system-settings" url && negb canAccessSystemSettings then false
      else existsb (fun u => isModuleEnabled u adminConfig userConfig canAccessSystemSettings) (default [url] (configUrls base))
    else true
  | NavCollapsible _ items =>
    existsb (fun sub => isModuleEnabled sub.2 adminConfig userConfig canAccessSystemSettings) items
  end.

Definition filterNavItems (items : list NavItem) (adminConfig : list (jstr * jsval)) (userConfig : option jsval)
    (canAccessSystemSettings : bool) : list NavItem :=
  List.filter (fun item => isNavItemVisible item adminConfig userConfig canAccessSystemSettings)
    (map (fun item => match item with
                      | NavCollapsible base subs =>
                        NavCollapsible base
                          (List.filter (fun sub => isModuleEnabled sub.2 adminConfig userConfig canAccessSystemSettings) subs)
                      | _ => item
                      end) items).

(** The signed-in user: the permissions of [AdminAccess], and the members the sidebar reads. *)
Record SidebarUser := MkSidebarUser { su_user : AuthUser; sidebar_settings : option bool; sidebar_modules : option jstr }.

Definition user_overlay (user : option SidebarUser) : option jsval :=
  match user ≫= sidebar_settings with
  | Some false => None
  | _ => parseUserSidebarConfig (user ≫= sidebar_modules)
  end.

Definition canAccessSettings (user : option SidebarUser) : bool :=
  canManageSystemSettings (su_user <$> user) || canManagePaymentOperations (su_user <$> user).

Definition filterNavGroups (navGroups : list NavGroup) (adminConfig : list (jstr * jsval)) (userConfig : option jsval)
    (canAccessSystemSettings : bool) : list NavGroup :=
  List.filter (fun g => 0 <? length (g_items g))
    (map (fun g => MkGroup (g_id g) (g_title g) (filterNavItems (g_items g) adminConfig userConfig canAccessSystemSettings))
       navGroups).

(** [SidebarModulesAdmin] of the status, the user. *)
Definition useSidebarConfig (navGroups : list NavGroup) (modulesAdmin : option jstr) (user : option SidebarUser) : list NavGroup :=
  filterNavGroups navGroups (parseSidebarConfig modulesAdmin) (user_overlay user) (canAccessSettings user).

Definition useIsSidebarModuleVisible (url : jstr) (modulesAdmin : option jstr) (user : option SidebarUser) : bool :=
  isModuleEnabled url (parseSidebarConfig modulesAdmin) (user_overlay user) (canManageSystemSettings (su_user <$> user)).

(** ** Lemmas *)

Lemma existsb_elem {A} (p : A → bool) l : existsb p l = true ↔ ∃ x, x ∈ l ∧ p x = true.
Proof. rewrite existsb_exists. by setoid_rewrite list_elem_of_In. Qed.

(** *** Merging with the defaults *)

Lemma spread_over_get a b k :
  NoDup (map fst b) → map_get k (spread_over a b) = match map_get k b with Some v => Some v | None => map_get k a end.
Proof.
  unfold spread_over. revert a. induction b as [|[j v] b IH]; intros a Hb; [done|]. cbn [map fst] in Hb.
  apply NoDup_cons in Hb as [Hj Hb]. cbn [foldl fst snd map_get]. rewrite IH, map_get_obj_set by done.
  case_decide as Hk; [subst k|done]. rewrite ?decide_True by done. destruct (map_get j b) as [v'|] eqn:E; [|done].
  exfalso. apply Hj. apply list_elem_of_fmap. exists (j, v'). split; [done|by apply map_get_elem].
Qed.

Lemma fill_get ds k v : v ≠ JUndefined → ∀ fs, map_get k fs = Some v → map_get k (fill_undefined ds fs) = Some v.
Proof.
  intros Hv. unfold fill_undefined. induction ds as [|[j d] ds IH]; intros fs Hk; [done|]. cbn [foldl fst snd]. apply IH.
  destruct (default JUndefined (map_get j fs)) eqn:E; try done. rewrite map_get_obj_set. case_decide as Hj; [|done].
  subst k. rewrite Hk in E. by cbn in E; subst v.
Qed.

Lemma merged_get cfg s d :
  map_get s DEFAULT_SIDEBAR_MODULES = Some d →
  map_get s (mergeWithDefaultSidebarModules cfg) = Some (merge_section d (default JUndefined (map_get s (spread cfg)))).
Proof.
  unfold mergeWithDefaultSidebarModules. assert (Hnd : NoDup (map fst DEFAULT_SIDEBAR_MODULES)) by (by apply (bool_decide_unpack _); vm_compute).
  generalize (spread cfg). revert Hnd. generalize DEFAULT_SIDEBAR_MODULES. intros ds. induction ds as [|[j d'] ds IH]; [done|].
  intros [Hj Hnd]%NoDup_cons fs. cbn [map_get foldl fst snd]. case_decide as Hs.
  - intros [= ->]. subst s.
    assert (Hout : ∀ fs, map_get j (foldl (fun merged kv => obj_set kv.1 (merge_section kv.2 (default JUndefined (map_get kv.1 merged))) merged) fs ds) = map_get j fs).
    { clear -Hj. induction ds as [|[i e] ds IH]; intros fs; [done|]. cbn [foldl fst snd map] in *. rewrite not_elem_of_cons in Hj.
      destruct Hj as [Hi Hj]. rewrite IH by done. rewrite map_get_obj_set. by case_decide. }
    rewrite Hout, map_get_obj_set. by rewrite decide_True.
  - intros Hd. rewrite (IH Hnd _ Hd), map_get_obj_set. by rewrite decide_False.
Qed.

(** The members of a section: those of the configuration, and the defaults for the others. *)
Lemma merge_section_get d ex k v :
  proper (JObj (spread ex)) → val_truthy ex = true → v ≠ JUndefined →
  match map_get k (spread ex) with Some x => x = v | None => get k d = v end →
  get k (merge_section d ex) = v.
Proof.
  intros [Hs _]%proper_obj Hex Hv Hk. unfold merge_section. rewrite Hex. cbn [negb get].
  rewrite (fill_get _ k v Hv); [done|]. rewrite spread_over_get by (by apply before_NoDup).
  destruct (map_get k (spread ex)) as [x|]; [by subst|]. destruct d; cbn in *; try done. by destruct (map_get k fields); cbn in *; subst.
Qed.

(** A name is no index. *)
Lemma spread_none k v :
  existsb (fun c => negb (is_digit c)) k = true → (∀ fs, v ≠ JObj fs) → map_get k (spread v) = None.
Proof.
  intros Hk Hv. assert (Hno : ∀ (fs : list (jstr * jsval)), (∀ j, j ∈ map fst fs → ∃ n, j = js_of_N n) → map_get k fs = None).
  { intros fs Hfs. destruct (map_get k fs) as [x|] eqn:E; [|done]. exfalso. apply map_get_elem in E.
    destruct (Hfs k) as [n ->]; [apply list_elem_of_fmap; by exists (k, x)|]. destruct (js_of_N_spec n) as (_ & Hd & _).
    apply existsb_exists in Hk as (c & Hc & Hn). apply negb_true_iff in Hn. eapply forallb_elem in Hd; [|by apply list_elem_of_In]. congruence. }
  destruct v as [| | | | | |fs]; try done; [..|by destruct (Hv fs)]; cbn [spread]; apply Hno.
  all: intros j (kv & -> & Hin)%list_elem_of_fmap; apply list_elem_of_lookup in Hin as [i Hi]; rewrite list_lookup_imap in Hi;
    apply fmap_Some in Hi as (? & _ & ->); by eexists.
Qed.

Lemma spread_get k v : existsb (fun c => negb (is_digit c)) k = true → default JUndefined (map_get k (spread v)) = get k v.
Proof. intros Hk. destruct v; try done; by rewrite spread_none. Qed.

(** The defaults allow every page of the map. *)
Lemma mapped_defaults url s m :
  map_get url URL_TO_CONFIG_MAP = Some (s, m) →
  ∃ d, map_get s DEFAULT_SIDEBAR_MODULES = Some d ∧ get "enabled" d = JBool true ∧ get m d = JBool true ∧
       existsb (fun c => negb (is_digit c)) m = true ∧ existsb (fun c => negb (is_digit c)) s = true ∧ mapping_of url = Some (s, m).
Proof.
  intros Hu. pose proof (map_get_elem _ _ _ Hu) as Hin.
  assert (Hall : Forall (fun e => ∃ d, map_get e.2.1 DEFAULT_SIDEBAR_MODULES = Some d ∧ get "enabled" d = JBool true ∧
    get e.2.2 d = JBool true ∧ existsb (fun c => negb (is_digit c)) e.2.2 = true ∧ existsb (fun c => negb (is_digit c)) e.2.1 = true) URL_TO_CONFIG_MAP).
  { unfold URL_TO_CONFIG_MAP. repeat (constructor; [by eexists; repeat split; vm_compute|]). constructor. }
  rewrite Forall_forall in Hall. destruct (Hall _ Hin) as (d & H1 & H2 & H3 & H4 & H5). exists d. unfold mapping_of.
  by rewrite Hu.
Qed.

Definition boolean_members (v : jsval) : Prop := ∀ k x, map_get k (spread v) = Some x → ∃ b, x = JBool b.

(** A section that is left out or holds booleans only. *)
Definition boolean_section (section : jstr) (parsed : jsval) : Prop :=
  val_truthy (get section parsed) = false ∨ ((∃ es, get section parsed = JObj es) ∧ boolean_members (get section parsed)).

(** What the page's guard makes of a section of the configuration. *)
Definition section_opens (ex : jsval) (m : jstr) : bool :=
  if negb (val_truthy ex) then true
  else if is_false (get "enabled" ex) then false else if is_false (get m ex) then false else true.

Lemma proper_get k v : proper v → get k v ≠ JUndefined → proper (get k v).
Proof.
  destruct v as [| | | | | |fs]; try done. intros [_ Hf]%proper_obj. cbn [get].
  destruct (map_get k fs) as [x|] eqn:E; [|done]. intros _. apply map_get_elem in E. rewrite Forall_forall in Hf. exact (Hf _ E).
Qed.

Lemma section_proper raw parsed s : JSON_parse raw = Some parsed → get s parsed = JUndefined ∨ proper (get s parsed).
Proof.
  intros Ep. pose proof (proper_get s parsed (JSON_parse_proper _ _ Ep)) as H. destruct (get s parsed); [by left|right; by apply H..].
Qed.

(** The sidebar's view of a merged section against the guard's view of what was configured. *)
Lemma section_view d ex m :
  (ex = JUndefined ∨ proper ex) → get "enabled" d = JBool true → get m d = JBool true →
  let shown := val_truthy (get "enabled" (merge_section d ex)) && is_true (get m (merge_section d ex)) in
  (shown = true → section_opens ex m = true) ∧
  (val_truthy ex = false ∨ ((∃ es, ex = JObj es) ∧ boolean_members ex) → shown = section_opens ex m).
Proof.
  intros Hp He Hm shown. unfold shown, section_opens. clear shown. destruct (val_truthy ex) eqn:Ht; cbn [negb].
  2:{ unfold merge_section. rewrite Ht. cbn [negb]. by rewrite He, Hm. }
  destruct Hp as [->|Hp]; [done|]. destruct ex as [| | | | | |es].
  1-6: split; [intros _; done|]. 1-6: intros [|[[es Hes] _]]; done.
  pose proof (merge_section_get d (JObj es)) as Hget. cbn [spread val_truthy] in Hget.
  assert (Hset : ∀ k x, map_get k es = Some x → get k (merge_section d (JObj es)) = x).
  { intros k x Hk. apply Hget; [done|done| |by rewrite Hk]. intros ->. apply proper_obj in Hp as [_ Hf]. rewrite Forall_forall in Hf.
    by apply (Hf (k, JUndefined)), map_get_elem. }
  assert (Hun : ∀ k, map_get k es = None → get k d = JBool true → get k (merge_section d (JObj es)) = JBool true).
  { intros k Hk Hd. apply Hget; [done|done|done|by rewrite Hk]. }
  split.
  - intros [H1 H2]%andb_true_iff. cbn [get]. destruct (map_get "enabled" es) as [x|] eqn:E1; cbn [default].
    + rewrite (Hset _ _ E1) in H1. destruct x as [| |[]| | | |]; try done; cbn [is_false].
      all: destruct (map_get m es) as [y|] eqn:E2; cbn; [rewrite (Hset _ _ E2) in H2; by destruct y as [| |[]| | | |]|done].
    + cbn [is_false]. destruct (map_get m es) as [y|] eqn:E2; cbn; [rewrite (Hset _ _ E2) in H2; by destruct y as [| |[]| | | |]|done].
  - intros [|[_ Hb]]; [done|]. unfold boolean_members in Hb. cbn [spread] in Hb. cbn [get].
    destruct (map_get "enabled" es) as [x|] eqn:E1, (map_get m es) as [y|] eqn:E2; cbn [default].
    all: rewrite ?(Hset _ _ E1), ?(Hset _ _ E2), ?(Hun _ E1 He), ?(Hun _ E2 Hm).
    all: try (destruct (Hb _ _ E1) as [[] ->]); try (destruct (Hb _ _ E2) as [[] ->]); done.
Qed.

Lemma get_own k fs v : map_get k fs = Some v → get k (JObj fs) = v.
Proof. cbn [get]. by intros ->. Qed.

(** What the sidebar allows once the texts are read. *)
Lemma sidebar_admin text s m d :
  map_get s DEFAULT_SIDEBAR_MODULES = Some d → get "enabled" d = JBool true → get m d = JBool true →
  existsb (fun c => negb (is_digit c)) s = true →
  admin_allows (parseSidebarConfig text) s m =
  match (if blank_text text then None else text ≫= JSON_parse) with
  | Some parsed =>
    val_truthy (get "enabled" (merge_section d (get s parsed))) && is_true (get m (merge_section d (get s parsed)))
  | None => true
  end.
Proof.
  intros Hd He Hm Hs. assert (Hdef : admin_allows DEFAULT_SIDEBAR_MODULES s m = true).
  { unfold admin_allows. rewrite (get_own _ _ _ Hd), He, Hm. by destruct d. }
  unfold parseSidebarConfig. destruct (blank_text text); [done|]. destruct (text ≫= JSON_parse) as [parsed|]; [|done].
  unfold admin_allows. rewrite (get_own _ _ _ (merged_get parsed _ _ Hd)). rewrite spread_get by done.
  assert (Ht : val_truthy (merge_section d (get s parsed)) = true) by (unfold merge_section; case_if; [by destruct d|done]).
  by rewrite Ht.
Qed.

Lemma overlay_hides url A U c : isModuleEnabled url A U c = true → isModuleEnabled url A None c = true.
Proof. unfold isModuleEnabled. destruct (mapping_of url) as [[s m]|]; [|done]. by case_if. Qed.

(** The sidebar's check of a page of the map against [isSidebarModuleEnabled]. *)
Lemma shown_passes_check statusText status text url s m U c :
  JSON_parse statusText = Some status → get "SidebarModulesAdmin" status = JStr text →
  map_get url URL_TO_CONFIG_MAP = Some (s, m) →
  let shown U := isModuleEnabled url (parseSidebarConfig (Some text)) U c in
  let opens := isSidebarModuleEnabled (Some statusText) s m in
  (shown U = true → opens = true) ∧
  ((∀ parsed, JSON_parse text = Some parsed → boolean_section s parsed) → shown None = opens).
Proof.
  intros Hst Hadm Hu shown opens. destruct (mapped_defaults _ _ _ Hu) as (d & Hd & He & Hm & _ & Hs & Hmap).
  assert (Hopens : opens = match (if blank_text (Some text) then None else JSON_parse text) with
                           | Some parsed => section_opens (get s parsed) m
                           | None => true
                           end).
  { unfold opens, isSidebarModuleEnabled, getCachedStatus. destruct statusText as [|x st]; [by vm_compute in Hst|]. cbn [truthy].
    rewrite Hst. cbn [default]. destruct status; try done. cbn [id val_truthy negb]. cbv zeta. rewrite Hadm.
    unfold blank_value. cbn [val_truthy value_to_string blank_text]. case_if; [done|]. destruct (JSON_parse text) as [[]|]; done. }
  assert (Hshown : shown None = admin_allows (parseSidebarConfig (Some text)) s m).
  { unfold shown, isModuleEnabled. rewrite Hmap. by destruct (admin_allows _ s m). }
  rewrite (sidebar_admin _ _ _ _ Hd He Hm Hs) in Hshown. cbn [mbind option_bind] in Hshown.
  assert (Hview : (shown None = true → opens = true) ∧
                  ((∀ parsed, JSON_parse text = Some parsed → boolean_section s parsed) → shown None = opens)).
  { rewrite Hshown, Hopens. destruct (blank_text (Some text)); [done|]. destruct (JSON_parse text) as [parsed|] eqn:Ep; [|done].
    destruct (section_view d (get s parsed) m) as [H1 H2]; [|done|done|].
    { by eapply section_proper. }
    split; [exact H1|]. intros Hb. apply H2. by apply Hb. }
  destruct Hview as [H1 H2]. split; [|exact H2]. intros Hx. by apply H1, overlay_hides with U.
Qed.

(** C19: whoever sees the playground in the sidebar can open it.  The guard of its route
    ([routes/_authenticated/playground/index.tsx], the only route that asks
    [isSidebarModuleEnabled]) reads the cached status on its own, without the merge with the
    defaults: for every cached status that is a JSON text whose [SidebarModulesAdmin] is a
    text, and any overlay of the user, a sidebar that read the same configuration shows the playground only
    if the guard lets it open; and when the configuration of the chat section
    is left out or an object of booleans, the sidebar without overlay and the guard agree. *)
Theorem playground_within_guard statusText status text U c :
  JSON_parse statusText = Some status → get "SidebarModulesAdmin" status = JStr text →
  let shown U := isModuleEnabled "/playground" (parseSidebarConfig (Some text)) U c in
  let opens := isSidebarModuleEnabled (Some statusText) "chat" "playground" in
  (shown U = true → opens = true) ∧
  ((∀ parsed, JSON_parse text = Some parsed → boolean_section "chat" parsed) → shown None = opens).
Proof. intros Hst Hadm. exact (shown_passes_check _ _ _ "/playground" _ _ U c Hst Hadm eq_refl). Qed.

(** *** What is shown *)

(** What the administrators' text says of a module: when it is a JSON text with an object
    for the section, the object switches the section on and the module on, or does not
    mention them.  Any other text, and any other value of the section ([false] and [null]
    too), says nothing, and nothing is hidden. *)
Definition permits (text : option jstr) (section module : jstr) : Prop :=
  ∀ raw parsed es, text = Some raw → trim raw ≠ [] → JSON_parse raw = Some parsed → get section parsed = JObj es →
    (∀ v, map_get "enabled" es = Some v → val_truthy v = true) ∧ (∀ v, map_get module es = Some v → v = JBool true).

(** What the user's own text says, where the user may have one: no explicit [false]. *)
Definition user_keeps (user : option SidebarUser) (section module : jstr) : Prop :=
  ∀ u raw parsed, user = Some u → sidebar_settings u ≠ Some false → sidebar_modules u = Some raw → trim raw ≠ [] →
    JSON_parse raw = Some parsed →
    get "enabled" (get section parsed) ≠ JBool false ∧ get module (get section parsed) ≠ JBool false.

Definition may_open_settings (user : option SidebarUser) : Prop :=
  canManageSystemSettings (su_user <$> user) = true ∨ canManagePaymentOperations (su_user <$> user) = true.

(** A page without configuration is open. *)
Definition page_open (text : option jstr) (user : option SidebarUser) (url : jstr) : Prop :=
  match map_get url URL_TO_CONFIG_MAP with
  | Some (s, m) =>
    permits text s m ∧ (user_keeps user s m ∨ s = "admin" ∧ m = "setting" ∧ may_open_settings user)
  | None => True
  end.

(** What the sidebar makes of an item. *)
Definition shown_as (text : option jstr) (user : option SidebarUser) (item shown : NavItem) : Prop :=
  match item with
  | NavLink base url =>
    shown = item ∧
    (url ≠ [] → (startsWith "/system-settings" url = true → may_open_settings user) ∧
                ∃ u, u ∈ default [url] (configUrls base) ∧ page_open text user u)
  | NavCollapsible base subs =>
    ∃ p, (∀ sub, sub ∈ subs → p sub = true ↔ page_open text user sub.2) ∧
         shown = NavCollapsible base (List.filter p subs) ∧ List.filter p subs ≠ []
  | NavChatPresets _ => shown = item ∧ permits text "chat" "chat" ∧ user_keeps user "chat" "chat"
  end.

(** No address of an item is the name of a member that every object inherits. *)
Definition item_urls (item : NavItem) : list jstr :=
  match item with
  | NavLink base url => default [url] (configUrls base)
  | NavCollapsible _ subs => map snd subs
  | NavChatPresets _ => []
  end.
Definition plain_urls (navGroups : list NavGroup) : Prop :=
  ∀ g item url, g ∈ navGroups → item ∈ g_items g → url ∈ item_urls item → url ∉ OBJECT_PROTOTYPE.

Lemma non_object_section d ex k :
  existsb (fun c => negb (is_digit c)) k = true → val_truthy ex = true → (∀ es, ex ≠ JObj es) → get k d = JBool true →
  get k (merge_section d ex) = JBool true.
Proof.
  intros Hk Ht Hex Hd. unfold merge_section. rewrite Ht. cbn [negb get].
  assert (Hd' : map_get k (spread d) = Some (JBool true)).
  { pose proof (spread_get k d Hk) as E. rewrite Hd in E. destruct (map_get k (spread d)); cbn in E; congruence. }
  assert (Hover : ∀ b a, k ∉ map fst b → map_get k (spread_over a b) = map_get k a).
  { unfold spread_over. induction b as [|[j v] b IH]; intros a Hb; [done|]. cbn [map fst] in Hb. rewrite not_elem_of_cons in Hb.
    destruct Hb as [Hj Hb]. cbn [foldl fst snd]. rewrite IH, map_get_obj_set by done. by rewrite decide_False. }
  rewrite (fill_get _ k (JBool true)); [done..|]. rewrite Hover; [done|]. intros ([j v] & Hj & Hin)%list_elem_of_fmap.
  cbn in Hj. subst j. pose proof (spread_none k ex Hk Hex) as Hn. apply list_elem_of_In in Hin.
  clear -Hin Hn. induction (spread ex) as [|[j w] fs IH]; [done|]. cbn [map_get] in Hn. destruct Hin as [[= -> ->]|Hin]; case_decide; try done. by apply IH.
Qed.

(** The merged section against the configured one. *)
Lemma merged_permits d ex m :
  (ex = JUndefined ∨ proper ex) → get "enabled" d = JBool true → get m d = JBool true →
  existsb (fun c => negb (is_digit c)) m = true →
  val_truthy (get "enabled" (merge_section d ex)) && is_true (get m (merge_section d ex)) = true ↔
  ∀ es, ex = JObj es → (∀ v, map_get "enabled" es = Some v → val_truthy v = true) ∧ (∀ v, map_get m es = Some v → v = JBool true).
Proof.
  intros Hp He Hm Hk. rewrite andb_true_iff. destruct (val_truthy ex) eqn:Ht.
  2:{ unfold merge_section. rewrite Ht. cbn [negb]. rewrite He, Hm. split; [|done]. intros _ es ->. done. }
  assert (Hcase : (∃ es, ex = JObj es) ∨ ∀ es, ex ≠ JObj es) by (destruct ex; eauto).
  destruct Hcase as [[es ->]|Hne].
  2:{ rewrite !non_object_section by done. split; [|done]. intros _ es ->. by destruct (Hne es). }
  destruct Hp as [|Hp]; [done|]. pose proof (merge_section_get d (JObj es)) as Hget. cbn [spread val_truthy] in Hget.
  assert (Hset : ∀ k x, map_get k es = Some x → get k (merge_section d (JObj es)) = x).
  { intros k x Hx. apply Hget; [done|done| |by rewrite Hx]. intros ->. apply proper_obj in Hp as [_ Hf]. rewrite Forall_forall in Hf.
    by apply (Hf (k, JUndefined)), map_get_elem. }
  assert (Hun : ∀ k, map_get k es = None → get k d = JBool true → get k (merge_section d (JObj es)) = JBool true).
  { intros k Hn Hd. apply Hget; [done|done|done|by rewrite Hn]. }
  assert (Htrue : ∀ v, is_true v = true → v = JBool true) by (by intros [| |[]| | | |]).
  split.
  - intros [H1 H2] es' [= <-]. split; intros v Hv; [by rewrite (Hset _ _ Hv) in H1|rewrite (Hset _ _ Hv) in H2; by apply Htrue].
  - intros H. destruct (H es eq_refl) as [H1 H2]. split.
    + destruct (map_get "enabled" es) as [x|] eqn:E; [rewrite (Hset _ _ E); by apply H1|by rewrite (Hun _ E He)].
    + destruct (map_get m es) as [x|] eqn:E; [rewrite (Hset _ _ E); by rewrite (H2 x)|by rewrite (Hun _ E Hm)].
Qed.

Lemma blank_iff raw : blank_text (Some raw) = false ↔ trim raw ≠ [].
Proof. cbn [blank_text]. destruct raw as [|x raw]; [by vm_compute|]. cbn [truthy negb orb]. by rewrite jeqb_false. Qed.

Lemma allows_iff text s m d :
  map_get s DEFAULT_SIDEBAR_MODULES = Some d → get "enabled" d = JBool true → get m d = JBool true →
  existsb (fun c => negb (is_digit c)) m = true → existsb (fun c => negb (is_digit c)) s = true →
  admin_allows (parseSidebarConfig text) s m = true ↔ permits text s m.
Proof.
  intros Hd He Hm Hk Hs. rewrite (sidebar_admin _ _ _ _ Hd He Hm Hs). unfold permits. destruct text as [raw|]; [|cbn; naive_solver].
  pose proof (blank_iff raw) as Hb. cbn [mbind option_bind]. destruct (blank_text (Some raw)) eqn:Eb; cbn [mbind option_bind].
  { split; [|done]. intros _ raw' parsed es [= <-] Hne. apply Hb in Hne. congruence. }
  destruct (JSON_parse raw) as [parsed|] eqn:Ep; [|split; [congruence|done]].
  pose proof (section_proper _ _ s Ep) as Hp.
  rewrite (merged_permits d (get s parsed) m) by done. clear Hp.
  split; [|naive_solver]. intros H raw' p' es [= <-] _ Hp Hes. apply H. congruence.
Qed.

Lemma user_allows_iff U s m :
  user_allows U s m = true ↔ get "enabled" (get s U) ≠ JBool false ∧ get m (get s U) ≠ JBool false.
Proof.
  assert (Hf : ∀ v, is_false v = true ↔ v = JBool false) by (intros [| |[]| | | |]; cbn; naive_solver).
  unfold user_allows. rewrite <- !Hf. destruct (val_truthy (get s U)) eqn:Et; cbn [negb].
  - destruct (is_false (get "enabled" _)), (is_false (get m _)); cbn; naive_solver.
  - destruct (get s U); try done; cbn; naive_solver.
Qed.

Lemma overlay_iff user U :
  user_overlay user = Some U ↔
  ∃ u raw, user = Some u ∧ sidebar_settings u ≠ Some false ∧ sidebar_modules u = Some raw ∧ trim raw ≠ [] ∧
           JSON_parse raw = Some U ∧ is_objectlike U = true.
Proof.
  unfold user_overlay, parseUserSidebarConfig. destruct user as [u|]; [|cbn; naive_solver]. cbn [mbind option_bind].
  destruct (sidebar_settings u) as [[]|] eqn:Eset; [|naive_solver|].
  all: destruct (sidebar_modules u) as [raw|] eqn:Em; [|cbn; naive_solver].
  all: pose proof (blank_iff raw) as Hb; destruct (blank_text (Some raw)); [naive_solver|].
  all: cbn [mbind option_bind]; destruct (JSON_parse raw) as [parsed|] eqn:Ep; [|naive_solver].
  all: split; [destruct (is_objectlike parsed) eqn:Eo; [intros [= <-]; exists u, raw; naive_solver|done]|].
  all: intros (u' & raw' & [= <-] & _ & E & _ & E' & Ho); assert (raw' = raw) as -> by congruence.
  all: assert (U = parsed) as -> by congruence; by rewrite Ho.
Qed.

Lemma overlay_keeps user s m :
  match user_overlay user with Some U => user_allows U s m | None => true end = true ↔ user_keeps user s m.
Proof.
  unfold user_keeps. destruct (user_overlay user) as [U|] eqn:E.
  - apply overlay_iff in E as (u & raw & -> & Hset & Hm & Hne & Hp & _). rewrite user_allows_iff. split; [|by intros H; eapply H].
    intros H u' raw' parsed [= <-] _ Hm' _ Hp'. assert (raw' = raw) as -> by congruence. by assert (parsed = U) as -> by congruence.
  - split; [|done]. intros _ u raw parsed Hu Hset Hm Hne Hp. destruct (is_objectlike parsed) eqn:Eo; [|by destruct parsed].
    assert (user_overlay user = Some parsed) by (apply overlay_iff; eauto 10). congruence.
Qed.

Lemma settings_iff user : canAccessSettings user = true ↔ may_open_settings user.
Proof. unfold canAccessSettings, may_open_settings. by rewrite orb_true_iff. Qed.

Lemma page_open_iff text user url :
  url ∉ OBJECT_PROTOTYPE →
  isModuleEnabled url (parseSidebarConfig text) (user_overlay user) (canAccessSettings user) = true ↔ page_open text user url.
Proof.
  intros Hurl. unfold page_open, isModuleEnabled. destruct (map_get url URL_TO_CONFIG_MAP) as [[s m]|] eqn:Eu.
  2:{ unfold mapping_of. rewrite Eu. destruct (has url OBJECT_PROTOTYPE) eqn:E; [by apply has_true in E|done]. }
  destruct (mapped_defaults _ _ _ Eu) as (d & Hd & He & Hm & Hk & Hs & ->).
  rewrite <- (allows_iff text s m d), <- overlay_keeps, <- settings_iff by done.
  destruct (admin_allows (parseSidebarConfig text) s m); cbn [negb]; [|naive_solver].
  destruct (user_overlay user) as [U|]; [|naive_solver].
  destruct (decide (s = "admin")) as [->|Hs']; [destruct (decide (m = "setting")) as [->|Hm']|].
  - destruct (canAccessSettings user); cbn; naive_solver.
  - rewrite (proj2 (jeqb_false m "setting")), andb_false_r by done. naive_solver.
  - rewrite (proj2 (jeqb_false s "admin")), andb_false_r by done. cbn [andb]. naive_solver.
Qed.

(** What the sub-items of an item become. *)
Definition narrowed (A : list (jstr * jsval)) (U : option jsval) (c : bool) (item : NavItem) : NavItem :=
  match item with
  | NavCollapsible base subs => NavCollapsible base (List.filter (fun sub => isModuleEnabled sub.2 A U c) subs)
  | _ => item
  end.

Lemma filtered_item items A U c item :
  item ∈ filterNavItems items A U c ↔ ∃ item0, item0 ∈ items ∧ item = narrowed A U c item0 ∧ isNavItemVisible item A U c = true.
Proof.
  unfold filterNavItems. rewrite elem_of_filterb. split.
  - intros [(x & -> & Hin)%list_elem_of_fmap Hv]. by exists x.
  - intros (x & Hin & -> & Hv). split; [|done]. apply list_elem_of_fmap. by exists x.
Qed.

Lemma filter_ext_elem {A} (p q : A → bool) l : (∀ x, x ∈ l → p x = q x) → List.filter p l = List.filter q l.
Proof.
  induction l as [|x l IH]; intros H; [done|]. cbn. rewrite (H x) by (by left). rewrite IH; [done|]. intros y Hy. apply H. by right.
Qed.

Lemma shown_as_iff text user item shown :
  (∀ url, url ∈ item_urls item → url ∉ OBJECT_PROTOTYPE) →
  let A := parseSidebarConfig text in let U := user_overlay user in let c := canAccessSettings user in
  shown = narrowed A U c item ∧ isNavItemVisible shown A U c = true ↔ shown_as text user item shown.
Proof.
  intros Hurls A U c. destruct item as [base url|base subs|base]; cbn [shown_as narrowed item_urls] in *.
  - split; intros [-> Hv]; (split; [done|]); cbn [isNavItemVisible] in *.
    + intros Hu%truthy_true. rewrite Hu in Hv. rewrite <- settings_iff. fold c.
      destruct (startsWith "/system-settings" url && negb c) eqn:Es; [done|]. apply existsb_elem in Hv as (u & Hin & Hen). split.
      * intros Hs. rewrite Hs in Es. by apply negb_false_iff in Es.
      * exists u. split; [done|]. apply page_open_iff; [by apply Hurls|done].
    + destruct (truthy url) eqn:Eu; [|done]. apply truthy_true in Eu. destruct (Hv Eu) as (Hs & u & Hin & Ho).
      rewrite <- settings_iff in Hs. fold c in Hs.
      assert (Hc : startsWith "/system-settings" url && negb c = false) by (destruct (startsWith _ url); [by rewrite Hs|done]).
      rewrite Hc. apply existsb_elem. exists u. split; [done|]. apply page_open_iff; [by apply Hurls|done].
  - assert (Hp : ∀ sub, sub ∈ subs → isModuleEnabled sub.2 A U c = true ↔ page_open text user sub.2).
    { intros sub Hin. apply page_open_iff, Hurls, list_elem_of_fmap. by exists sub. }
    split.
    + intros [-> Hv]. exists (fun sub => isModuleEnabled sub.2 A U c). split; [done|]. split; [done|].
      cbn [isNavItemVisible] in Hv. apply existsb_elem in Hv as (sub & Hin & _). by destruct (List.filter _ subs); [apply elem_of_nil in Hin|].
    + intros (p & Hpo & -> & Hne).
      assert (Heq : List.filter p subs = List.filter (fun sub => isModuleEnabled sub.2 A U c) subs).
      { apply filter_ext_elem. intros x Hx. apply eq_bool_prop_intro. rewrite !Is_true_true, Hpo, <- Hp; done. }
      rewrite Heq in Hne |- *. split; [done|]. cbn [isNavItemVisible]. apply existsb_elem.
      destruct (List.filter _ subs) as [|x l] eqn:El; [done|]. exists x. split; [by left|].
      assert (Hx : x ∈ List.filter (fun sub => isModuleEnabled sub.2 A U c) subs) by (rewrite El; by left).
      by apply elem_of_filterb in Hx as [_ ?].
  - assert (Hd : admin_allows A "chat" "chat" = true ↔ permits text "chat" "chat") by (by eapply allows_iff).
    pose proof (overlay_keeps user "chat" "chat") as Hk. fold U in Hk. rewrite <- Hd, <- Hk.
    split; intros [-> Hv]; (split; [done|]); cbn [isNavItemVisible] in *;
      destruct (admin_allows A "chat" "chat"), U; cbn in *; naive_solver.
Qed.

(** C18: the sidebar shows exactly what the two configurations leave.  A shown group is one of
    the given groups with the same heading, is not empty, and holds for each item of that group what
    [shown_as] makes of it, and nothing else; and no item that is to be shown is lost with its group.  A page of
    the map is shown when the administrators' JSON text permits its module (no object for the section, or one
    whose [enabled] is truthy or absent and whose switch for the module is [true] or absent; a section set to
    [false] counts as absent) and the user's text does not say [false] to the section or
    the module, except that the user's text cannot hide the settings from someone who may
    open them; links into the settings need one of the two permissions; a collapsible entry keeps
    exactly its open pages and is shown if there is one. *)
Theorem sidebar_shows_allowed navGroups text user :
  plain_urls navGroups →
  (∀ g, g ∈ useSidebarConfig navGroups text user →
     g_items g ≠ [] ∧
     ∃ g0, g0 ∈ navGroups ∧ g_id g = g_id g0 ∧ g_title g = g_title g0 ∧
       ∀ shown, shown ∈ g_items g ↔ ∃ item, item ∈ g_items g0 ∧ shown_as text user item shown) ∧
  (∀ g0 item shown, g0 ∈ navGroups → item ∈ g_items g0 → shown_as text user item shown →
     ∃ g, g ∈ useSidebarConfig navGroups text user ∧ g_id g = g_id g0 ∧ g_title g = g_title g0 ∧ shown ∈ g_items g).
Proof.
  intros Hplain. unfold useSidebarConfig, filterNavGroups.
  set (A := parseSidebarConfig text). set (U := user_overlay user). set (c := canAccessSettings user).
  assert (Hshown : ∀ g0 shown, g0 ∈ navGroups →
    shown ∈ filterNavItems (g_items g0) A U c ↔ ∃ item, item ∈ g_items g0 ∧ shown_as text user item shown).
  { intros g0 shown Hg0. rewrite filtered_item. split; intros (item & Hin & H); exists item; (split; [done|]);
      (apply shown_as_iff in H || apply shown_as_iff); try done; eauto. }
  split.
  - intros g [(g0 & -> & Hg0)%list_elem_of_fmap Hne]%elem_of_filterb. cbn [g_items g_id g_title] in *.
    split; [by destruct (filterNavItems (g_items g0) A U c)|]. exists g0. do 3 (split; [done|]). intros shown. by apply Hshown.
  - intros g0 item shown Hg0 Hin Hs.
    assert (Hin' : shown ∈ filterNavItems (g_items g0) A U c) by (apply Hshown; eauto).
    exists (MkGroup (g_id g0) (g_title g0) (filterNavItems (g_items g0) A U c)). split; [|done].
    apply elem_of_filterb. split; [apply list_elem_of_fmap; by exists g0|]. cbn [g_items].
    destruct (filterNavItems (g_items g0) A U c); [by apply elem_of_nil in Hin'|done].
Qed.

(** Without configuration every page is shown, apart from the settings. *)
Lemma default_shows_all url c : isModuleEnabled url (parseSidebarConfig None) None c = true ∨ url ∈ OBJECT_PROTOTYPE.
Proof.
  unfold isModuleEnabled, mapping_of. destruct (map_get url URL_TO_CONFIG_MAP) as [[s m]|] eqn:E.
  - left. destruct (mapped_defaults _ _ _ E) as (d & Hd & He & Hm & _ & Hs & _). by rewrite (sidebar_admin _ _ _ _ Hd He Hm Hs).
  - destruct (has url OBJECT_PROTOTYPE) eqn:Eh; [right; by apply has_true in Eh|by left].
Qed.

(** *** The cached status *)

(** After a status was fetched and stored, the cache gives the same access as the fresh
    status. *)
Lemma fresh_access_cached `{UnicodeCase} accepts status m stored :
  textual status = true → val_truthy status = true → (∀ text, JSON_compact status = Some text → accepts text = true) →
  let '(access, stored') := getFreshModuleAccess accepts (Some status) m stored in
  getModuleAccess stored' m = access ∧ access = getModuleAccessFromStatus status m.
Proof.
  intros Ht Hv Hacc. destruct (JSON_parse_compact _ Ht) as (text & Hc & Hne & Hp).
  cbn [getFreshModuleAccess]. unfold cacheStatus. rewrite Hv, Hc, (Hacc _ Hc). split; [|done].
  unfold getModuleAccess, getCachedStatus. rewrite (proj2 (truthy_true text) Hne), Hp. done.
Qed.

(** ** Witnesses *)

Definition text_of (v : jsval) : jstr := default [] (JSON_compact v).
Definition status_with (config : jsval) : jstr := text_of (JObj [("SidebarModulesAdmin", JStr (text_of config))]).
Definition hide_logs : jsval := JObj [("console", JObj [("log", JBool false)])].
Definition hide_playground : jsval := JObj [("chat", JObj [("playground", JBool false)])].
Definition a_base : BaseNavItem := MkBase "t" None None None None.
Definition a_user : SidebarUser := MkSidebarUser (MkUser ROLE_USER None) None (Some (text_of (JObj [("console", JObj [("token", JBool false)])]))).
Definition a_group : NavGroup :=
  MkGroup None "Console" [NavLink a_base "/keys"; NavLink a_base "/dashboard"; NavLink a_base "/system-settings";
                          NavCollapsible a_base [(a_base, "/usage-logs"); (a_base, "/usage-logs/task")]].

Lemma a_group_plain : plain_urls [a_group].
Proof.
  intros g item url ->%list_elem_of_singleton Hitem Hurl.
  assert (Hall : Forall (fun i => Forall (fun u => u ∉ OBJECT_PROTOTYPE) (item_urls i)) (g_items a_group)).
  { apply (bool_decide_unpack _). vm_compute. exact I. }
  rewrite Forall_forall in Hall. specialize (Hall _ Hitem). rewrite Forall_forall in Hall. by apply Hall.
Qed.

Lemma playground_within_guard_witness :
  isModuleEnabled "/playground" (parseSidebarConfig (Some (text_of hide_playground))) None false = false ∧
  isModuleEnabled "/playground" (parseSidebarConfig (Some (text_of hide_playground))) None false =
  isSidebarModuleEnabled (Some (status_with hide_playground)) "chat" "playground".
Proof.
  split; [by vm_compute|].
  refine (proj2 (playground_within_guard (status_with hide_playground) (JObj [("SidebarModulesAdmin", JStr (text_of hide_playground))])
    (text_of hide_playground) None false _ _) _).
  - vm_compute. reflexivity.
  - reflexivity.
  - intros parsed Hp. assert (E : JSON_parse (text_of hide_playground) = Some hide_playground) by (vm_compute; reflexivity).
    rewrite E in Hp. injection Hp as <-. right. split; [by eexists|]. intros k x Hk. cbn [spread get hide_playground] in Hk.
    apply map_get_elem in Hk. apply list_elem_of_singleton in Hk as [= _ ->]. by exists false.
Defined.

Lemma sidebar_shows_allowed_witness :
  let shown := NavCollapsible a_base [(a_base, "/usage-logs/task")] in
  useSidebarConfig [a_group] (Some (text_of hide_logs)) (Some a_user)
  = [MkGroup None "Console" [NavLink a_base "/dashboard"; shown]] ∧
  ∃ item, item ∈ g_items a_group ∧ shown_as (Some (text_of hide_logs)) (Some a_user) item shown.
Proof.
  intros shown. assert (E : useSidebarConfig [a_group] (Some (text_of hide_logs)) (Some a_user)
  = [MkGroup None "Console" [NavLink a_base "/dashboard"; shown]]) by (vm_compute; reflexivity).
  split; [exact E|].
  destruct (proj1 (sidebar_shows_allowed [a_group] (Some (text_of hide_logs)) (Some a_user) ltac:(exact a_group_plain))
    (MkGroup None "Console" [NavLink a_base "/dashboard"; shown])) as (_ & g0 & Hg0 & _ & _ & Hiff).
  - rewrite E. by left.
  - apply list_elem_of_singleton in Hg0 as ->. apply (proj1 (Hiff shown)). right. by left.
Defined.

(** ** Where the checks differ *)

(** A section that is set to [false] is replaced by the defaults and stays visible. *)
Example falsy_section_shown :
  isModuleEnabled "/playground" (parseSidebarConfig (Some (text_of (JObj [("chat", JBool false)])))) None false = true.
Proof. by vm_compute. Qed.

(** A switch that is no boolean hides the entry and leaves the page open. *)
Example odd_switch_hides_open_page :
  let config := JObj [("chat", JObj [("playground", JNum (num_of_Z 0))])] in
  isModuleEnabled "/playground" (parseSidebarConfig (Some (text_of config))) None false = false ∧
  isSidebarModuleEnabled (Some (status_with config)) "chat" "playground" = true.
Proof. by vm_compute. Qed.

(** Someone who manages payment operations sees the settings in the sidebar whatever the
    overlay says; the check for entries outside of it knows only the other permission. *)
Example settings_visibility_differs :
  let overlay := Some (text_of (JObj [("admin", JObj [("setting", JBool false)])])) in
  let user := Some (MkSidebarUser (MkUser ROLE_ADMIN (Some {[PAYMENT_OPERATIONS := {[MANAGE := true]}]})) None overlay) in
  length (useSidebarConfig [MkGroup None "Admin" [NavLink a_base "/system-settings"]] None user) = 1 ∧
  useIsSidebarModuleVisible "/system-settings" None user = false.
Proof. by vm_compute. Qed.
