(* ===== verification/Notifications.v ===== *)
(** * Notifications: what has been read

    Model of [stores/notification-store.ts] and [hooks/use-notifications.ts]: the notice and
    the announcements, the keys by which announcements are remembered, and the handlers of
    the popover.  The hook is a sequence of renders: an event runs its handler, which reads the
    data of the last render, and is followed by a render, which keeps the memoized counts
    unless one of their dependencies changed.  Arrays that the server sent are known by
    reference, as the dependencies are compared; a handler that throws stops where it
    throws. *)

From S2P Require Import Prelude JsValue JsText.

(** ** Keys of announcements *)

(** [hash = (hash << 5) - hash + chr; hash |= 0] *)
Definition hash_step (hash : Z) (chr : N) : Z := to_int32 (to_int32 (Z.shiftl hash 5) - hash + Z.of_N chr).

Fixpoint base36_go (fuel : nat) (n : N) (acc : jstr) : jstr :=
  match fuel with
  | O => acc
  | S f =>
    let acc' := hex_lower (n mod 36) :: acc in
    if (n <? 36)%N then acc' else base36_go f (n / 36)%N acc'
  end.

(** [hash.toString(36)] *)
Definition toString36 (z : Z) : jstr :=
  let n := Z.to_N (Z.abs z) in
  let digits := base36_go (S (N.size_nat n)) n [] in
  if (z <? 0)%Z then 45%N :: digits else digits.

Definition hash_code (input : jstr) : Z := foldl hash_step 0%Z input.

Definition hashString (input : jstr) : jstr := if negb (truthy input) then "0" else toString36 (hash_code input).

(** [v || ''] *)
Definition or_empty (v : jsval) : jsval := if val_truthy v then v else JStr [].

(** [(v || '').trim()]; a value that is no string throws. *)
Definition trimmed_member (v : jsval) : option jsval := match or_empty v with JStr s => Some (JStr (trim s)) | _ => None end.

(** [None]: the function throws. *)
Definition getAnnouncementKey (item : jsval) : option jstr :=
  if negb (val_truthy item) then Some []
  else
    match get "id" item with
    | JUndefined | JNull =>
      content ← trimmed_member (get "content" item);
      extra ← trimmed_member (get "extra" item);
      title ← trimmed_member (get "title" item);
      link ← trimmed_member (get "link" item);
      fingerprint ← JSON_compact (JObj [("publishDate", or_empty (get "publishDate" item)); ("content", content); ("extra", extra);
                                        ("type", or_empty (get "type" item)); ("title", title); ("link", link)]);
      Some ("hash:" ++ hashString fingerprint)
    | id => Some ("id:" ++ value_to_string id)
    end.

(** ** The store *)

Record NotificationState := MkNotifications {
  lastReadNotice : jstr; readAnnouncementKeys : list jstr; closedUntilDate : option jstr;
}.

Definition notification_initial : NotificationState := MkNotifications [] [] None.

Definition markNoticeRead (noticeContent : jstr) (s : NotificationState) : NotificationState :=
  MkNotifications (trim noticeContent) (readAnnouncementKeys s) (closedUntilDate s).

Definition markAnnouncementsRead (keys : list jstr) (s : NotificationState) : NotificationState :=
  MkNotifications (lastReadNotice s) (dedup (readAnnouncementKeys s ++ keys)) (closedUntilDate s).

Definition setClosedUntilDate (date : option jstr) (s : NotificationState) : NotificationState :=
  MkNotifications (lastReadNotice s) (readAnnouncementKeys s) date.

Definition isAnnouncementRead (key : jstr) (s : NotificationState) : bool := has key (readAnnouncementKeys s).

(** [today] is [new Date().toDateString()]. *)
Definition isNoticeClosed (today : jstr) (s : NotificationState) : bool :=
  match closedUntilDate s with Some d => truthy d && (d === today) | None => false end.

(** ** The hook *)

Inductive NotificationTab := NoticeTab | AnnouncementsTab.

#[global] Instance notification_tab_eq_dec : EqDecision NotificationTab.
Proof. solve_decision. Defined.

(** What the server sent: the response with the notice (its success and data) and the status,
    with a reference to its announcements. *)
Record NotificationData := MkData {
  noticeResponse : option (bool * option jstr); announcements_enabled : bool; status_announcements : option nat;
}.

Definition noticeContent (d : NotificationData) : jstr :=
  match noticeResponse d with Some (true, data) => trim (default [] data) | _ => [] end.

(** The dependencies of [unreadCounts].  The memoized [announcements] is a new array exactly when
    [announcementsEnabled] or the reference [status?.announcements] changed, so these stand
    for it; [isAnnouncementRead] is a function of the store and never changes. *)
Record CountDeps := MkDeps {
  dep_noticeContent : jstr; dep_lastReadNotice : jstr; dep_enabled : bool; dep_announcements : option nat;
}.

#[global] Instance count_deps_eq_dec : EqDecision CountDeps.
Proof. solve_decision. Defined.

(** The state hooks, the store, the data of the last render and the memo of the counts. *)
Record NotificationView := MkView {
  popoverOpen : bool; activeTab : NotificationTab; n_store : NotificationState; n_data : NotificationData;
  n_memo : option (CountDeps * (nat * nat));
}.

Definition deps (v : NotificationView) : CountDeps :=
  MkDeps (noticeContent (n_data v)) (lastReadNotice (n_store v)) (announcements_enabled (n_data v)) (status_announcements (n_data v)).

Definition with_store (f : NotificationState → NotificationState) (v : NotificationView) : NotificationView :=
  MkView (popoverOpen v) (activeTab v) (f (n_store v)) (n_data v) (n_memo v).
Definition with_view (open : bool) (tab : NotificationTab) (v : NotificationView) : NotificationView :=
  MkView open tab (n_store v) (n_data v) (n_memo v).
Definition with_memo (m : option (CountDeps * (nat * nat))) (v : NotificationView) : NotificationView :=
  MkView (popoverOpen v) (activeTab v) (n_store v) (n_data v) m.
Definition with_data (d : NotificationData) (v : NotificationView) : NotificationView :=
  MkView (popoverOpen v) (activeTab v) (n_store v) d (n_memo v).

Section hook.
(** The arrays that references point to. *)
Context (array : nat → list jsval).

Definition announcements (d : NotificationData) : list jsval :=
  if announcements_enabled d then take 20 (default [] (array <$> status_announcements d)) else [].

Definition announcement_keys (d : NotificationData) : option (list jstr) := mapM getAnnouncementKey (announcements d).

(** The callback of [useMemo]: the counts of unread notices and announcements; [None] when a
    key throws. *)
Definition count_unread (v : NotificationView) : option (nat * nat) :=
  let content := noticeContent (n_data v) in
  let noticeUnread := if truthy content && negb (content === lastReadNotice (n_store v)) then 1 else 0 in
  (fun keys => (noticeUnread, length (List.filter (fun key => negb (isAnnouncementRead key (n_store v))) keys)))
    <$> announcement_keys (n_data v).

(** A render: the memo is kept while its dependencies are the same.  A render that throws
    leaves it alone. *)
Definition render (v : NotificationView) : NotificationView :=
  match n_memo v with
  | Some (k, _) => if decide (k = deps v) then v else
                     match count_unread v with Some c => with_memo (Some (deps v, c)) v | None => v end
  | None => match count_unread v with Some c => with_memo (Some (deps v, c)) v | None => v end
  end.

(** What the last render shows; [None] when it threw. *)
Definition unreadCounts (v : NotificationView) : option (nat * nat) :=
  match n_memo v with Some (k, c) => if decide (k = deps v) then Some c else None | None => None end.

(** The first render, with the store as it was kept. *)
Definition useNotifications (st : NotificationState) (d : NotificationData) : NotificationView :=
  render (MkView false NoticeTab st d None).

(** The state after the call, and whether it returned. *)
Definition markAnnouncementsAsRead (v : NotificationView) : NotificationView * bool :=
  if 0 <? length (announcements (n_data v)) then
    match announcement_keys (n_data v) with
    | Some allKeys => (with_store (markAnnouncementsRead allKeys) v, true)
    | None => (v, false)
    end
  else (v, true).

Definition handleOpenPopover (tab : option NotificationTab) (v : NotificationView) : NotificationView * bool :=
  let nextTab := default (activeTab v) tab in
  let v1 := if truthy (noticeContent (n_data v)) then with_store (markNoticeRead (noticeContent (n_data v))) v else v in
  let '(v2, returned) := match nextTab with AnnouncementsTab => markAnnouncementsAsRead v1 | NoticeTab => (v1, true) end in
  if returned then (with_view true nextTab v2, true) else (v2, false).

Definition handlePopoverOpenChange (open : bool) (v : NotificationView) : NotificationView * bool :=
  if open then handleOpenPopover (Some (activeTab v)) v else (with_view false (activeTab v) v, true).

Definition handleTabChange (tab : NotificationTab) (v : NotificationView) : NotificationView * bool :=
  let v1 := with_view (popoverOpen v) tab v in
  match tab with AnnouncementsTab => markAnnouncementsAsRead v1 | NoticeTab => (v1, true) end.

Inductive notification_event :=
  | NOpen (tab : option NotificationTab)
  | NOpenChange (open : bool)
  | NTabChange (tab : NotificationTab)
  | NClose
  | NCloseUntil (date : option jstr)
  | NData (d : NotificationData).   (* the server's answers changed *)

Definition notification_handler (v : NotificationView) (e : notification_event) : NotificationView :=
  match e with
  | NOpen tab => (handleOpenPopover tab v).1
  | NOpenChange open => (handlePopoverOpenChange open v).1
  | NTabChange tab => (handleTabChange tab v).1
  | NClose => with_view false (activeTab v) v
  | NCloseUntil date => with_store (setClosedUntilDate date) v
  | NData d => with_data d v
  end.

(** An event and the render after it. *)
Definition notification_step (v : NotificationView) (e : notification_event) : NotificationView :=
  render (notification_handler v e).

Definition notification_run (v : NotificationView) (es : list notification_event) : NotificationView :=
  foldl notification_step v es.
End hook.

(** ** Lemmas *)

(** *** The hash *)

(** The polynomial of the text at 31, without a bound. *)
Definition text_polynomial (s : jstr) : Z := foldl (fun a c => 31 * a + Z.of_N c)%Z 0%Z s.

Lemma hash_step_wraps a c : hash_step (to_int32 a) c = to_int32 (31 * a + Z.of_N c).
Proof.
  unfold hash_step. apply to_int32_eq. rewrite Z.shiftl_mul_pow2 by lia. destruct (to_int32_spec a) as (i & -> & _).
  destruct (to_int32_spec ((a + i * 2 ^ 32) * 2 ^ 5)) as (j & -> & _).
  replace ((a + i * 2 ^ 32) * 2 ^ 5 + j * 2 ^ 32 - (a + i * 2 ^ 32) + Z.of_N c)%Z
    with (31 * a + Z.of_N c + (31 * i + j) * 2 ^ 32)%Z by ring.
  apply Z_mod_plus_full.
Qed.

Lemma hash_code_wraps s : hash_code s = to_int32 (text_polynomial s).
Proof.
  unfold hash_code, text_polynomial. change 0%Z with (to_int32 0) at 1. generalize 0%Z. induction s as [|c s IH]; intros a; [done|].
  cbn [foldl]. by rewrite hash_step_wraps, IH.
Qed.

Definition base36_value (s : jstr) : N := foldl (fun a c => a * 36 + (if is_digit c then c - 48 else c - 87))%N 0%N s.

Lemma hex_lower_36 d : (d < 36)%N → (if is_digit (hex_lower d) then hex_lower d - 48 else hex_lower d - 87)%N = d ∧ hex_lower d ≠ 45%N.
Proof.
  intros Hd. unfold hex_lower, is_digit, in_range. destruct (N.ltb_spec d 10).
  - rewrite (proj2 (N.leb_le 48 _)), (proj2 (N.leb_le _ 57)) by lia. cbn [andb]. lia.
  - rewrite (proj2 (N.leb_gt _ 57)) by lia. rewrite andb_false_r. lia.
Qed.

Lemma base36_go_spec fuel n acc :
  (n < 36 ^ N.of_nat fuel)%N → fuel ≠ 0 → ∃ ds, base36_go fuel n acc = ds ++ acc ∧ base36_value ds = n ∧ 45%N ∉ ds.
Proof.
  revert n acc. induction fuel as [|f IH]; intros n acc Hn Hf; [done|]. cbn [base36_go].
  destruct (hex_lower_36 (n mod 36)) as [Hv Hd]; [apply N.mod_lt; lia|]. destruct (N.ltb_spec n 36) as [E|E].
  - exists [hex_lower (n mod 36)]. split; [done|]. split; [|set_solver]. unfold base36_value. cbn [foldl]. rewrite Hv.
    by rewrite N.mod_small.
  - rewrite Nat2N.inj_succ, N.pow_succ_r' in Hn. destruct (decide (f = 0)) as [->|Hf']; [change (36 ^ N.of_nat 0)%N with 1%N in Hn; lia|].
    destruct (IH (n / 36)%N (hex_lower (n mod 36) :: acc)) as (ds & -> & Hp & Ha); [apply N.Div0.div_lt_upper_bound; lia|done|].
    exists (ds ++ [hex_lower (n mod 36)]). split; [by rewrite <- app_assoc|]. split; [|set_solver].
    unfold base36_value in *. rewrite foldl_app. cbn [foldl]. rewrite Hp, Hv. pose proof (N.Div0.div_mod n 36). lia.
Qed.

Lemma size_pow36 n : (n < 36 ^ N.of_nat (S (N.size_nat n)))%N.
Proof.
  pose proof (N.size_gt n) as H. rewrite Nat2N.inj_succ, size_nat_size, N.pow_succ_r'.
  pose proof (N.pow_le_mono_l 2 36 (N.size n) ltac:(lia)) as H'. revert H H'.
  generalize (2 ^ N.size n)%N (36 ^ N.size n)%N. lia.
Qed.

Lemma toString36_inj a b : toString36 a = toString36 b → a = b.
Proof.
  unfold toString36. destruct (base36_go_spec (S (N.size_nat (Z.to_N (Z.abs a)))) (Z.to_N (Z.abs a)) []) as (ds & -> & Hd & Ha);
    [apply size_pow36|done|].
  destruct (base36_go_spec (S (N.size_nat (Z.to_N (Z.abs b)))) (Z.to_N (Z.abs b)) []) as (es & -> & He & Hb); [apply size_pow36|done|].
  rewrite !app_nil_r. intros E. assert (Hn : ∀ xs ys : jstr, 45%N ∉ ys → 45%N :: xs ≠ ys) by (intros xs ys Hys <-; set_solver).
  destruct (Z.ltb_spec a 0), (Z.ltb_spec b 0).
  - injection E as ->. rewrite Hd in He. lia.
  - by apply Hn in E.
  - by symmetry in E; apply Hn in E.
  - subst. rewrite Hd in He. lia.
Qed.

(** C35: The hash of a fingerprint never leaves 32 bits and is the polynomial of the text at 31
    wrapped to them; two texts have the same hash text exactly when their polynomials agree
    modulo 2^32. *)
Theorem hash_wraps s t :
  (- 2 ^ 31 ≤ hash_code s < 2 ^ 31)%Z ∧ hash_code s = to_int32 (text_polynomial s) ∧
  (hashString s = hashString t ↔ (text_polynomial s mod 2 ^ 32 = text_polynomial t mod 2 ^ 32)%Z).
Proof.
  split; [rewrite hash_code_wraps; by destruct (to_int32_spec (text_polynomial s)) as (k & _ & ?)|].
  split; [apply hash_code_wraps|].
  assert (Hs : ∀ u, hashString u = toString36 (hash_code u)) by (by intros [|c u]).
  rewrite !Hs, <- to_int32_eq, <- !hash_code_wraps. split; [apply toString36_inj|by intros ->].
Qed.

(** *** What was read stays read *)

Definition reads (v : NotificationView) : list jstr := readAnnouncementKeys (n_store v).

Section read.
Context (array : nat → list jsval).
Abbreviation keys_of := (announcement_keys array).
Abbreviation nstep := (notification_step array).
Abbreviation nrun := (notification_run array).

(** A render changes the memo only. *)
Lemma render_frame v :
  popoverOpen (render array v) = popoverOpen v ∧ activeTab (render array v) = activeTab v ∧
  n_store (render array v) = n_store v ∧ n_data (render array v) = n_data v ∧ deps (render array v) = deps v.
Proof. unfold render. repeat case_match; done. Qed.

Lemma render_reads v : reads (render array v) = reads v.
Proof. unfold reads. by destruct (render_frame v) as (_ & _ & -> & _). Qed.

Lemma mark_reads v k : k ∈ reads v → k ∈ reads (markAnnouncementsAsRead array v).1.
Proof.
  intros Hk. unfold markAnnouncementsAsRead. case_if; [|done]. destruct (keys_of (n_data v)); [|done].
  unfold reads. cbn. rewrite elem_of_dedup, elem_of_app. by left.
Qed.

Lemma mark_NoDup v : NoDup (reads v) → NoDup (reads (markAnnouncementsAsRead array v).1).
Proof.
  intros Hv. unfold markAnnouncementsAsRead. case_if; [|done]. destruct (keys_of (n_data v)); [|done]. apply NoDup_dedup.
Qed.

(** The keys after an event are those before it, or those after marking. *)
Lemma step_reads v e :
  reads (nstep v e) = reads v ∨ ∃ v', reads v' = reads v ∧ reads (nstep v e) = reads (markAnnouncementsAsRead array v').1.
Proof.
  unfold notification_step. rewrite render_reads.
  assert (Hopen : ∀ tab, reads (handleOpenPopover array tab v).1 = reads v ∨
    ∃ v', reads v' = reads v ∧ reads (handleOpenPopover array tab v).1 = reads (markAnnouncementsAsRead array v').1).
  { intros tab. unfold handleOpenPopover.
    set (v1 := if truthy (noticeContent (n_data v)) then with_store (markNoticeRead (noticeContent (n_data v))) v else v).
    assert (H1 : reads v1 = reads v) by (unfold v1; by case_if). destruct (default (activeTab v) tab); [by left|].
    right. exists v1. split; [done|]. destruct (markAnnouncementsAsRead array v1) as [v2 []]; done. }
  destruct e as [tab|[]|[]| |date|d]; [apply Hopen|apply Hopen|by left|by left| |by left|by left|by left].
  right. by exists (with_view (popoverOpen v) AnnouncementsTab v).
Qed.

Lemma run_reads v es k : k ∈ reads v → k ∈ reads (nrun v es).
Proof.
  revert v. induction es as [|e es IH]; intros v Hk; [done|]. apply IH.
  destruct (step_reads v e) as [-> |(v' & E & ->)]; [done|]. apply mark_reads. by rewrite E.
Qed.

Lemma run_NoDup v es : NoDup (reads v) → NoDup (reads (nrun v es)).
Proof.
  revert v. induction es as [|e es IH]; intros v Hk; [done|]. apply IH.
  destruct (step_reads v e) as [-> |(v' & E & ->)]; [done|]. apply mark_NoDup. by rewrite E.
Qed.

Lemma marked_all v keys : keys_of (n_data v) = Some keys → ∀ k, k ∈ keys → k ∈ reads (markAnnouncementsAsRead array v).1.
Proof.
  intros Hk k Hin. unfold markAnnouncementsAsRead. destruct (announcements array (n_data v)) as [|x l] eqn:E.
  - unfold announcement_keys in Hk. rewrite E in Hk. injection Hk as <-. by apply elem_of_nil in Hin.
  - cbn [length Nat.ltb Nat.leb]. rewrite Hk. unfold reads. cbn. rewrite elem_of_dedup, elem_of_app. by right.
Qed.

(** *** The counts *)

(** The announcements that are not read. *)
Definition unread (keys : list jstr) (st : NotificationState) : nat :=
  length (List.filter (fun key => negb (isAnnouncementRead key st)) keys).
Definition unread_notice (content last : jstr) : nat := if truthy content && negb (content === last) then 1 else 0.

(** The data that dependencies stand for, as far as the keys depend on it. *)
Definition dep_keys (k : CountDeps) : option (list jstr) := keys_of (MkData None (dep_enabled k) (dep_announcements k)).

Lemma count_unread_eq v :
  count_unread array v = (fun keys => (unread_notice (noticeContent (n_data v)) (lastReadNotice (n_store v)), unread keys (n_store v)))
    <$> dep_keys (deps v).
Proof. done. Qed.

Lemma unread_grows keys st st' :
  (∀ k, k ∈ readAnnouncementKeys st → k ∈ readAnnouncementKeys st') → unread keys st' ≤ unread keys st.
Proof.
  intros Hsub. unfold unread, isAnnouncementRead. induction keys as [|k keys IH]; [done|]. cbn [List.filter].
  destruct (has k (readAnnouncementKeys st)) eqn:E.
  - apply has_true, Hsub, has_true in E. by rewrite E.
  - cbn [negb length]. destruct (has k (readAnnouncementKeys st')); cbn [negb length]; lia.
Qed.

Lemma unread_zero keys st : (∀ k, k ∈ keys → k ∈ readAnnouncementKeys st) → unread keys st = 0.
Proof.
  intros Hall. unfold unread, isAnnouncementRead. induction keys as [|k keys IH]; [done|]. cbn [List.filter].
  rewrite (proj2 (has_true k _)) by (apply Hall; by left). apply IH. intros. apply Hall. by right.
Qed.

(** The memo is the count at some earlier time, with the same notice, when less was read. *)
Definition memo_ok (v : NotificationView) : Prop :=
  ∀ k n a, n_memo v = Some (k, (n, a)) →
    n = unread_notice (dep_noticeContent k) (dep_lastReadNotice k) ∧
    ∃ keys, dep_keys k = Some keys ∧ unread keys (n_store v) ≤ a ≤ length keys.

Lemma unread_le keys st : unread keys st ≤ length keys.
Proof. unfold unread. induction keys as [|k keys IH]; [done|]. cbn. case_match; cbn; lia. Qed.

Lemma render_ok v : memo_ok v → memo_ok (render array v).
Proof.
  intros Hv. assert (Hnew : ∀ c, count_unread array v = Some c → memo_ok (with_memo (Some (deps v, c)) v)).
  { intros c Hc k n a [= <- ->]. rewrite count_unread_eq in Hc. apply fmap_Some in Hc as (keys & Hk & [= -> ->]).
    split; [done|]. exists keys. split; [done|]. split; [done|]. apply unread_le. }
  unfold render. destruct (n_memo v) as [[k c]|]; [case_decide; [done|]|]; destruct (count_unread array v); auto.
Qed.

Lemma handler_reads v e k : k ∈ reads v → k ∈ reads (notification_handler array v e).
Proof. intros Hk. rewrite <- render_reads. exact (run_reads v [e] k Hk). Qed.

Lemma handler_memo v e : n_memo (notification_handler array v e) = n_memo v.
Proof.
  assert (Hmark : ∀ w, n_memo (markAnnouncementsAsRead array w).1 = n_memo w).
  { intros w. unfold markAnnouncementsAsRead. repeat case_match; done. }
  assert (Hopen : ∀ tab, n_memo (handleOpenPopover array tab v).1 = n_memo v).
  { intros tab. unfold handleOpenPopover. set (v1 := if truthy _ then _ else _).
    assert (H1 : n_memo v1 = n_memo v) by (unfold v1; by case_if). rewrite <- H1. destruct (default (activeTab v) tab); [done|].
    pose proof (Hmark v1) as Hm. by destruct (markAnnouncementsAsRead array v1) as [v2 []]. }
  destruct e as [tab|[]|[]| |date|d]; [apply Hopen|apply Hopen|done|done| |done..].
  exact (Hmark (with_view (popoverOpen v) AnnouncementsTab v)).
Qed.

Lemma run_ok v es : memo_ok v → memo_ok (nrun v es).
Proof.
  revert v. induction es as [|e es IH]; intros v Hv; [done|]. apply IH, render_ok. intros k n a Hm.
  rewrite handler_memo in Hm. destruct (Hv k n a Hm) as (Hn & keys & Hk & Hlow & Hhigh). split; [done|]. exists keys. split; [done|].
  split; [|done]. etransitivity; [|exact Hlow]. apply unread_grows. intros x. apply (handler_reads v e x).
Qed.

Lemma first_ok st d : memo_ok (useNotifications array st d).
Proof. apply render_ok. done. Qed.

(** A render with other dependencies than the memo's counts afresh. *)
Lemma render_counts v : (∀ k c, n_memo v = Some (k, c) → k ≠ deps v) → unreadCounts (render array v) = count_unread array v.
Proof.
  intros Hm. assert (Hnew : unreadCounts (match count_unread array v with Some c => with_memo (Some (deps v, c)) v | None => v end) = count_unread array v).
  { destruct (count_unread array v) as [c|].
    - unfold unreadCounts. cbn [n_memo with_memo]. by rewrite decide_True.
    - unfold unreadCounts. destruct (n_memo v) as [[k c]|] eqn:E; [|done]. by rewrite decide_False by (by eapply Hm). }
  unfold render. destruct (n_memo v) as [[k c]|] eqn:E; [|done]. rewrite decide_False by (by eapply Hm). done.
Qed.

Definition shows_announcements (v : NotificationView) (e : notification_event) : Prop :=
  match e with
  | NOpen tab => default (activeTab v) tab = AnnouncementsTab
  | NOpenChange open => open = true ∧ activeTab v = AnnouncementsTab
  | NTabChange tab => tab = AnnouncementsTab
  | _ => False
  end.

(** Such an event marks everything sent, and the notice too when it opens the popover. *)
Lemma shown_marked v e keys :
  keys_of (n_data v) = Some keys → shows_announcements v e →
  let v1 := notification_handler array v e in
  (∀ k, k ∈ keys → k ∈ reads v1) ∧ activeTab v1 = AnnouncementsTab ∧ n_data v1 = n_data v ∧
  ((∃ tab, e = NOpen tab) ∨ e = NOpenChange true → truthy (noticeContent (n_data v)) = true →
   lastReadNotice (n_store v1) = noticeContent (n_data v)).
Proof.
  intros Hk He v1.
  assert (Hret : ∀ w, n_data w = n_data v → ∃ w', markAnnouncementsAsRead array w = (w', true) ∧ activeTab w' = activeTab w ∧
    lastReadNotice (n_store w') = lastReadNotice (n_store w) ∧ n_data w' = n_data w ∧ ∀ k, k ∈ keys → k ∈ reads w').
  { intros w Hw. pose proof (marked_all w keys) as Hm. rewrite Hw in Hm. specialize (Hm Hk). unfold markAnnouncementsAsRead in *.
    rewrite Hw, Hk in *. case_if; by eexists. }
  assert (Htr : trim (noticeContent (n_data v)) = noticeContent (n_data v)) by (unfold noticeContent; repeat case_match; done || apply trim_trimmed).
  assert (Hopen : ∀ tab, default (activeTab v) tab = AnnouncementsTab →
    let v1 := (handleOpenPopover array tab v).1 in
    (∀ k, k ∈ keys → k ∈ reads v1) ∧ activeTab v1 = AnnouncementsTab ∧ n_data v1 = n_data v ∧
    (truthy (noticeContent (n_data v)) = true → lastReadNotice (n_store v1) = noticeContent (n_data v))).
  { intros tab Ht. unfold handleOpenPopover. rewrite Ht.
    set (w := if truthy (noticeContent (n_data v)) then with_store (markNoticeRead (noticeContent (n_data v))) v else v).
    destruct (Hret w) as (w' & -> & _ & Hl & Hd & Hr); [unfold w; by case_if|]. cbn. split; [done|]. split; [done|].
    split; [rewrite Hd; unfold w; by case_if|]. intros Hn. rewrite Hl. unfold w. rewrite Hn. exact Htr. }
  destruct e as [tab|open|tab| |date|d]; try done; cbn [notification_handler shows_announcements] in *.
  - destruct (Hopen tab He) as (H1 & H2 & H3 & H4). auto.
  - destruct He as [-> He]. destruct (Hopen (Some (activeTab v)) He) as (H1 & H2 & H3 & H4). auto.
  - subst tab. destruct (Hret (with_view (popoverOpen v) AnnouncementsTab v) eq_refl) as (w' & E & Ha & _ & Hd & Hr).
    unfold v1. cbn [notification_handler handleTabChange]. unfold handleTabChange. rewrite E. cbn. split; [done|]. split; [done|]. split; [done|].
    intros [[? ?]|?]; done.
Qed.
End read.

(** C33: announcements that were shown stay read.  Start from any store without repeated
    keys; after any events the popover is opened on the announcements or their tab is chosen,
    while every announcement sent has a key.  Then those announcements are read in the
    store for ever, whatever happens and whatever the server sends later, no key is kept twice, and
    a page that is opened again with them counts none of them as unread.  Of the counts shown meanwhile the
    notice's is exact; the announcements' is never below the number of unread announcements nor
    above their number, and it is exact whenever the notice, the notice last read or the
    announcements changed with the last event, in particular when opening the popover reads a new notice. *)
Theorem seen_stay_read array st d0 before_ opening after keys :
  let v0 := notification_run array (useNotifications array st d0) before_ in
  NoDup (readAnnouncementKeys st) → announcement_keys array (n_data v0) = Some keys → shows_announcements v0 opening →
  let v1 := notification_step array v0 opening in
  let v := notification_run array v1 after in
  (∀ k, k ∈ keys → isAnnouncementRead k (n_store v) = true) ∧ NoDup (reads v) ∧ activeTab v1 = AnnouncementsTab ∧
  snd <$> unreadCounts (useNotifications array (n_store v) (n_data v0)) = Some 0 ∧
  (∀ n a keys', unreadCounts v = Some (n, a) → announcement_keys array (n_data v) = Some keys' →
     n = unread_notice (noticeContent (n_data v)) (lastReadNotice (n_store v)) ∧ unread keys' (n_store v) ≤ a ≤ length keys') ∧
  (∀ e, unreadCounts v ≠ None → deps (notification_step array v e) ≠ deps v →
     unreadCounts (notification_step array v e) = count_unread array (notification_step array v e)) ∧
  ((∃ tab, opening = NOpen tab) ∨ opening = NOpenChange true → truthy (noticeContent (n_data v0)) = true →
   noticeContent (n_data v0) ≠ lastReadNotice (n_store v0) → unreadCounts v0 ≠ None → unreadCounts v1 = Some (0, 0)).
Proof.
  intros v0 Hst Hk Hop v1 v. destruct (shown_marked array v0 opening keys Hk Hop) as (Hr & Ht & Hd & Hl).
  assert (Hv0 : NoDup (reads v0)) by (apply run_NoDup; unfold useNotifications; by rewrite render_reads).
  assert (Hread : ∀ k, k ∈ keys → k ∈ reads v).
  { intros k Hin. apply run_reads. unfold v1, notification_step. rewrite render_reads. by apply Hr. }
  assert (Hmemo : ∀ w, unreadCounts w ≠ None → ∃ c, n_memo w = Some (deps w, c)).
  { intros w. unfold unreadCounts. destruct (n_memo w) as [[k c]|]; [|done]. case_decide; [subst; by eexists|done]. }
  assert (Hfresh : ∀ w e, unreadCounts w ≠ None → deps (notification_step array w e) ≠ deps w →
    unreadCounts (notification_step array w e) = count_unread array (notification_handler array w e)).
  { intros w e Hw Hne. unfold notification_step in *. apply render_counts. intros k c. rewrite handler_memo.
    destruct (Hmemo w Hw) as [c' ->]. intros [= <- <-]. destruct (render_frame array (notification_handler array w e)) as (_ & _ & _ & _ & E).
    rewrite E in Hne. congruence. }
  split; [intros k Hin; by apply has_true, Hread|]. split; [apply run_NoDup; exact (run_NoDup array v0 [opening] Hv0)|].
  split; [unfold v1, notification_step; destruct (render_frame array (notification_handler array v0 opening)) as (_ & -> & _); done|].
  split; [|split; [|split]].
  - unfold useNotifications. rewrite render_counts by done. unfold count_unread. cbn [n_data n_store]. rewrite Hk. cbn. f_equal.
    by apply (unread_zero keys).
  - intros n a keys' Hc Hk'. assert (Hv : memo_ok array v).
    { unfold v, v1. change (notification_step array v0 opening) with (notification_run array v0 [opening]). do 2 apply run_ok. apply run_ok, first_ok. }
    destruct (Hmemo v) as [c Hm]; [by rewrite Hc|]. unfold unreadCounts in Hc. rewrite Hm, decide_True in Hc by done. injection Hc as ->.
    destruct (Hv _ _ _ Hm) as (-> & keys'' & Hk'' & Hb). split; [done|].
    change (announcement_keys array (n_data v) = Some keys'') in Hk''. rewrite Hk' in Hk''. by injection Hk'' as <-.
  - intros e Hv Hne. rewrite (Hfresh v e Hv Hne), !count_unread_eq. unfold notification_step.
    destruct (render_frame array (notification_handler array v e)) as (_ & _ & E1 & E2 & E3). by rewrite E1, E2, E3.
  - intros Ho Hn Hne Hc. unfold v1. rewrite Hfresh; [|done|].
    + rewrite count_unread_eq. rewrite Hd, (Hl Ho Hn). unfold deps. rewrite Hd, (Hl Ho Hn).
      change (dep_keys array _) with (announcement_keys array (n_data v0)). rewrite Hk. cbn. f_equal. f_equal.
      * unfold unread_notice. by rewrite jeqb_refl, andb_false_r.
      * by apply unread_zero.
    + unfold notification_step. destruct (render_frame array (notification_handler array v0 opening)) as (_ & _ & _ & _ & ->).
      unfold deps. rewrite (Hl Ho Hn). congruence.
Qed.

(** ** Witness *)

Definition some_array (r : nat) : list jsval :=
  [JObj [("id", JNum (num_of_Z 7))]; JObj [("content", JStr "news"); ("type", JStr "info")]].
Definition some_data : NotificationData := MkData (Some (true, Some " hello ")) true (Some 0).

Lemma seen_stay_read_witness :
  let v0 := useNotifications some_array notification_initial some_data in
  let v1 := notification_step some_array v0 (NOpen (Some AnnouncementsTab)) in
  let v := notification_run some_array v1 [NClose] in
  unreadCounts v0 = Some (1, 2) ∧ unreadCounts v1 = Some (0, 0) ∧ NoDup (reads v).
Proof.
  assert (E : ∃ keys, announcement_keys some_array some_data = Some keys) by (vm_compute; eexists; reflexivity). destruct E as [keys E].
  assert (E' : announcement_keys some_array (n_data (useNotifications some_array notification_initial some_data)) = Some keys) by (rewrite <- E; vm_compute; reflexivity).
  pose proof (seen_stay_read some_array notification_initial some_data [] (NOpen (Some AnnouncementsTab)) [NClose] keys (NoDup_nil_2 (A := jstr)) E' eq_refl)
    as (_ & H2 & _ & _ & _ & _ & H7).
  split; [vm_compute; reflexivity|]. split; [|exact H2]. apply H7; [left; by eexists|vm_compute; reflexivity|vm_compute; discriminate|vm_compute; discriminate].
Defined.

(** The count that stays: the notice was read before, the announcements are opened and marked
    as read, and the count of two unread announcements is shown until something else
    changes. *)
Example stale_unread_count :
  let v0 := notification_run some_array (useNotifications some_array notification_initial some_data) [NOpen None; NClose] in
  let v1 := notification_step some_array v0 (NOpen (Some AnnouncementsTab)) in
  unreadCounts v0 = Some (0, 2) ∧ unreadCounts v1 = Some (0, 2) ∧ count_unread some_array v1 = Some (0, 0).
Proof. by vm_compute. Qed.

(** An edit that keeps the hash is not noticed: both announcements have the same key. *)
Example edit_keeps_key :
  getAnnouncementKey (JObj [("content", JStr "Aa")]) = getAnnouncementKey (JObj [("content", JStr "BB")]).
Proof. by vm_compute. Qed.
