(* ===== verification/ChatLinks.v ===== *)
(** * Chat links

    Model of [features/chat/lib/chat-links.ts]: the chat clients an administrator offers and
    the links that open them with the user's key and the address of the server.

    The code runs in a browser, whose [btoa] is that of [Passkey]; [None] stands for a thrown
    error (a unit beyond a byte in [btoa], a lone surrogate in [encodeURIComponent]). *)

From S2P Require Import Prelude JsValue JsText WebUrl Passkey.

Inductive ChatLinkType := WebLink | CustomProtocol | Fluent.

Record ChatPreset := MkPreset { p_id : jstr; p_name : jstr; p_url : jstr; p_type : ChatLinkType }.

Record ActiveApiKey := MkKey { a_key : jstr; a_status : num }.

(** [/^https?:\/\//i.test(url)]: the flag folds ASCII letters only. *)
Definition HTTP_REGEX_test (url : jstr) : bool :=
  let folded := map ascii_lower url in startsWith "http://" folded || startsWith "https://" folded.

Definition toBase64 (value : jstr) : option jstr := if forallb (fun c => c <? 256)%N value then Some (btoa value) else None.

Section links.
Context `{UnicodeCase}.

Definition detectChatLinkType (url : jstr) : ChatLinkType :=
  if HTTP_REGEX_test url then WebLink
  else if startsWith "fluent" (toLowerCase url) then Fluent
  else CustomProtocol.

(** One entry of the configuration. *)
Definition chat_preset (index : nat) (entry : jsval) : option ChatPreset :=
  match entry with
  | JObj [(name, JStr value)] =>
    let url := trim value in
    if negb (truthy url) then None else Some (MkPreset (js_of_N (N.of_nat index)) name url (detectChatLinkType url))
  | _ => None
  end.

Definition parseChatConfig (raw : jsval) : list ChatPreset :=
  match match raw with JStr s => JSON_parse s | _ => Some raw end with
  | Some (JArr entries) => omap id (imap chat_preset entries)
  | _ => []
  end.
End links.

Definition chatLinkRequiresApiKey (url : jstr) : bool :=
  includes "{key}" url || includes "{cherryConfig}" url || includes "{aionuiConfig}" url || includes "{deepchatConfig}" url.

Definition replaceToken (source token value : jstr) : jstr := join value (split_str token source).

Definition normalizeApiKey (apiKey : jstr) : jstr :=
  let trimmed := trim apiKey in
  if negb (truthy trimmed) then [] else if startsWith "sk-" trimmed then trimmed else "sk-" ++ trimmed.

(** [encodeURIComponent(toBase64(JSON.stringify({[idKey]: 'new-api', baseUrl, apiKey})))] *)
Definition config_text (idKey serverAddress apiKey : jstr) : option jstr :=
  text ← JSON_compact (JObj [(idKey, JStr "new-api"); ("baseUrl", JStr serverAddress); ("apiKey", JStr apiKey)]);
  encoded ← toBase64 text;
  encodeURIComponent encoded.

(** The last part: the address, then the key. *)
Definition resolve_plain (url safeServerAddress safeApiKey : jstr) : option jstr :=
  url ← (if truthy safeServerAddress
         then (fun encodedAddress => replaceToken url "{address}" encodedAddress) <$> encodeURIComponent safeServerAddress
         else Some url);
  Some (if truthy safeApiKey then replaceToken url "{key}" safeApiKey else url).

Definition resolveChatUrl (template : jstr) (apiKey : option jstr) (serverAddress : jstr) : option jstr :=
  let safeApiKey := normalizeApiKey (default [] apiKey) in
  if includes "{cherryConfig}" template then replaceToken template "{cherryConfig}" <$> config_text "id" serverAddress safeApiKey
  else if includes "{aionuiConfig}" template then
    replaceToken template "{aionuiConfig}" <$> config_text "platform" serverAddress safeApiKey
  else if includes "{deepchatConfig}" template then
    replaceToken template "{deepchatConfig}" <$> config_text "id" serverAddress safeApiKey
  else resolve_plain template serverAddress safeApiKey.

Definition API_KEY_STATUS_ENABLED : num := num_of_Z 1.

Definition getFirstActiveKey (keys : option (list ActiveApiKey)) : option ActiveApiKey :=
  match keys with
  | Some l => List.find (fun item => num_eqb (a_status item) API_KEY_STATUS_ENABLED) l
  | None => None
  end.

(** ** Lemmas *)

(** The pieces of a split lie in the text. *)
Lemma split_str_piece sep s p : sep ≠ [] → p ∈ split_str sep s → ∃ a b, s = a ++ p ++ b.
Proof.
  intros Hsep. remember (length s) as n eqn:Hn. revert s Hn p. induction (lt_wf n) as [n _ IH]. intros s -> p Hp.
  destruct (indexOf sep s) as [i|] eqn:E.
  - rewrite (indexOf_split_str _ _ _ Hsep E) in Hp. apply elem_of_cons in Hp as [->|Hp].
    + exists [], (drop i s). by rewrite take_drop.
    + destruct (IH (length (drop (i + length sep) s))) with (s := drop (i + length sep) s) (p := p) as (a & b & Hd); [|done|done|].
      { rewrite length_drop. destruct s as [|c s]; [by destruct sep|]. destruct sep; [done|]. cbn [length]. lia. }
      exists (take (i + length sep) s ++ a), b. rewrite <- app_assoc, <- Hd. by rewrite take_drop.
  - rewrite indexOf_None_split_str in Hp by done. apply list_elem_of_singleton in Hp as ->. exists [], []. by rewrite app_nil_r.
Qed.

(** A word with marks at its ends that a separator does not hold, and without some unit of the
    separator, occurs in a joined text only within a piece. *)
Lemma join_occurrence (sep : jstr) (l r x : N) (w : jstr) ps a b :
  l ∉ sep → r ∉ sep → x ∈ sep → x ∉ l :: w ++ [r] → join sep ps = a ++ (l :: w ++ [r]) ++ b →
  ∃ p, p ∈ ps ∧ includes (l :: w ++ [r]) p = true.
Proof.
  intros Hl Hr Hx Hxw. set (word := l :: w ++ [r]) in *. revert a. induction ps as [|p ps IH]; intros a Hj.
  { by destruct a. }
  destruct ps as [|q ps].
  { cbn [join] in Hj. exists p. split; [by left|]. apply includes_true. by exists a, b. }
  rewrite join_cons2 in Hj. set (J := join sep (q :: ps)) in *.
  apply app_eq_app in Hj as (k & [[-> Hk]|[-> Hk]]); [apply app_eq_app in Hk as (k' & [[Hw Hk]|[-> Hk]])|].
  - (* the word begins in the first piece and ends in it, in the separator or after it *)
    destruct k' as [|c k' _] using rev_ind.
    { exists (a ++ k). split; [by left|]. apply includes_true. exists a, []. by rewrite Hw, !app_nil_r. }
    assert (Ec : c = r).
    { unfold word in Hw. rewrite app_comm_cons, app_assoc in Hw. by apply app_inj_tail in Hw as [_ ->]. }
    apply app_eq_app in Hk as (k'' & [[-> _]|[Hk _]]); [exfalso; apply Hr; set_solver|].
    exfalso. apply Hxw. rewrite Hw, Hk. set_solver.
  - exists (a ++ word ++ k'). split; [by left|]. apply includes_true. by exists a, k'.
  - (* the word begins in the separator or after it *)
    assert (Hrest : ∀ a', J = a' ++ word ++ b → ∃ p0, p0 ∈ p :: q :: ps ∧ includes word p0 = true).
    { intros a' HJ. destruct (IH a' HJ) as (p0 & Hin & Hp0). exists p0. split; [by right|done]. }
    apply app_eq_app in Hk as (k' & [[Hs Hk]|[-> Hk]]); [|by eapply Hrest].
    destruct k' as [|c k']; [by apply (Hrest []); symmetry|]. injection Hk as -> _. exfalso. apply Hl. rewrite Hs. set_solver.
Qed.

Lemma replace_absent token value s : includes token s = false → replaceToken s token value = s.
Proof.
  intros H. unfold replaceToken. rewrite indexOf_None_split_str; [done|]. unfold includes in H. by destruct (indexOf token s).
Qed.

Lemma key_word : ("{key}" : jstr) = 123%N :: [107; 101; 121]%N ++ [125%N].
Proof. done. Qed.

(** An encoded address with a unit outside of the placeholder brings in no new one. *)
Lemma address_keeps_key template e x :
  forallb uri_safe e = true → x ∈ e → x ∉ ("{key}" : jstr) → includes "{key}" template = false →
  includes "{key}" (replaceToken template "{address}" e) = false.
Proof.
  intros He Hx Hxk Ht. apply not_true_iff_false. rewrite includes_true. intros (a & b & E). unfold replaceToken in E.
  assert (Hbrace : ∀ c, uri_safe c = false → c ∉ e).
  { intros c Hc Hin. rewrite (forallb_elem _ _ _ He Hin) in Hc. done. }
  rewrite key_word in E, Hxk. destruct (join_occurrence e 123 125 x _ _ _ _ (Hbrace 123%N eq_refl) (Hbrace 125%N eq_refl) Hx Hxk E) as (p & Hp & Hin).
  apply split_str_piece in Hp as (a' & b' & ->); [|done]. apply includes_false in Ht. apply Ht. rewrite key_word.
  apply includes_true in Hin as (c & d & ->). exists (a' ++ c), (d ++ b'). by rewrite <- !app_assoc.
Qed.

(** C30: A link gets the key only where it asks for it: when a template requires no key, the
    link does not depend on the key, whatever the key, provided the encoded address is empty
    or has a unit that is not in the placeholder (every address with a colon has one). *)
Theorem key_only_where_asked template k1 k2 serverAddress :
  chatLinkRequiresApiKey template = false → Forall (fun u => u < 65536)%N serverAddress →
  (serverAddress = [] ∨ ∃ e x, encodeURIComponent serverAddress = Some e ∧ x ∈ e ∧ x ∉ ("{key}" : jstr)) →
  resolveChatUrl template k1 serverAddress = resolveChatUrl template k2 serverAddress.
Proof.
  unfold chatLinkRequiresApiKey. intros Hreq Hu Haddr. bool_hyps. unfold resolveChatUrl.
  repeat match goal with H : includes _ template = false |- _ => rewrite ?H; revert H end. intros.
  assert (Hurl : ∃ url, includes "{key}" url = false ∧ ∀ k, resolve_plain template serverAddress k = Some (if truthy k then replaceToken url "{key}" k else url)).
  { destruct Haddr as [->|(e & x & He & Hx & Hxk)]; [by exists template|]. exists (replaceToken template "{address}" e).
    split; [eapply address_keeps_key; [by eapply encodeURIComponent_safe|done..]|]. intros k. unfold resolve_plain. rewrite He.
    destruct serverAddress; [by vm_compute in He; injection He as <-; apply elem_of_nil in Hx|done]. }
  destruct Hurl as (url & Hno & Hurl). rewrite !Hurl. rewrite !(replace_absent _ _ _ Hno). by repeat case_match.
Qed.

(** The clients offered have distinct ids, and links that are trimmed and not empty. *)
Lemma presets_well_formed `{UnicodeCase} raw :
  NoDup (map p_id (parseChatConfig raw)) ∧
  ∀ p, p ∈ parseChatConfig raw → p_url p ≠ [] ∧ trim (p_url p) = p_url p ∧ p_type p = detectChatLinkType (p_url p).
Proof.
  assert (Hgen : ∀ entries (f : nat → nat), (∀ i j, i < j → f i < f j) →
    let ps := omap id (imap (fun i => chat_preset (f i)) entries) in
    NoDup (map p_id ps) ∧ ∀ p, p ∈ ps → (∃ i, p_id p = js_of_N (N.of_nat (f i))) ∧
      p_url p ≠ [] ∧ trim (p_url p) = p_url p ∧ p_type p = detectChatLinkType (p_url p)).
  { induction entries as [|entry entries IH]; intros f Hf; [cbn; split; [constructor|set_solver]|].
    destruct (IH (fun i => f (S i))) as [Hnd Hall]; [intros; apply Hf; lia|]. rewrite imap_cons. cbn [omap list_omap].
    change (imap ((λ i, chat_preset (f i)) ∘ S) entries) with (imap (fun i => chat_preset (f (S i))) entries).
    set (rest := omap id (imap (fun i => chat_preset (f (S i))) entries)) in *.
    assert (Hrest : ∀ p, p ∈ rest → (∃ i, p_id p = js_of_N (N.of_nat (f i))) ∧ p_url p ≠ [] ∧ trim (p_url p) = p_url p ∧
      p_type p = detectChatLinkType (p_url p)).
    { intros p Hp. destruct (Hall p Hp) as [[i Hi] ?]. split; [by exists (S i)|done]. }
    cbn [id]. destruct (chat_preset (f 0) entry) as [p|] eqn:E; [|done].
    assert (Hp : p_id p = js_of_N (N.of_nat (f 0)) ∧ p_url p ≠ [] ∧ trim (p_url p) = p_url p ∧ p_type p = detectChatLinkType (p_url p)).
    { unfold chat_preset in E. repeat case_match; simplify_eq. cbn. split; [done|]. split; [by apply truthy_true, negb_false_iff|].
      split; [apply trim_trimmed|done]. }
    destruct Hp as [Hid Hp]. split.
    - cbn [map]. apply NoDup_cons. split; [|done]. intros (q & Hq & Hin)%list_elem_of_fmap. destruct (Hall q Hin) as [[i Hi] _].
      rewrite Hid, Hi in Hq. apply js_of_N_inj in Hq. pose proof (Hf 0 (S i)). lia.
    - intros q [->|Hq]%elem_of_cons; [split; [by exists 0|done]|by apply Hrest]. }
  unfold parseChatConfig. destruct (match raw with JStr s => _ | _ => _ end) as [[| | | | |l|]|]; try (cbn; split; [constructor|set_solver]).
  destruct (Hgen l id) as [Hnd Hall]; [done|]. split; [exact Hnd|]. intros p Hp. by destruct (Hall p Hp) as [_ ?].
Qed.

(** ** Witness *)

Lemma key_only_where_asked_witness :
  resolveChatUrl "https://chat.example/?a={address}" (Some "abc") "https://x" = Some "https://chat.example/?a=https%3A%2F%2Fx" ∧
  resolveChatUrl "https://chat.example/?a={address}" (Some "abc") "https://x" =
  resolveChatUrl "https://chat.example/?a={address}" None "https://x".
Proof.
  split; [vm_compute; reflexivity|]. apply (key_only_where_asked _ (Some _) None "https://x").
  - vm_compute. reflexivity.
  - repeat (constructor; [vm_compute; reflexivity|]). constructor.
  - right. exists "https%3A%2F%2Fx", 37%N. split; [vm_compute; reflexivity|]. split; [|by vm_compute; set_solver].
    apply (bool_decide_unpack _). vm_compute. exact I.
Defined.

(** An address can complete a placeholder, and the link then holds the key. *)
Example address_completes_placeholder :
  chatLinkRequiresApiKey "app://{{address}ey}" = false ∧
  resolveChatUrl "app://{{address}ey}" (Some "sk-1") "k" = Some "app://sk-1".
Proof. by vm_compute. Qed.
