(* ===== verification/ChannelRoutes.v ===== *)
(** * Routes of advanced custom channels

    Model of [features/channels/lib/advanced-custom.ts]: the routes of a custom
    channel, read from and written to JSON, checked before they are saved, and the
    choices the editor offers.  A configuration comes from [JSON.parse], so it is
    any value and the accesses that fail on a value of another kind throw.

    The server repeats the check ([dto/channel_settings.go]); its validator is in
    the module [Server], with the URL parser of Go as a parameter. *)

From S2P Require Import Prelude JsValue JsText WebUrl.

(** ** Choices *)

Definition CHANNEL_TYPE_ADVANCED_CUSTOM : nat := 58.

Record Choice := MkChoice { c_value : jstr; c_label : jstr }.

Definition ADVANCED_CUSTOM_CONVERTER_OPTIONS : list Choice := [
  MkChoice "none" "Native forwarding";
  MkChoice "anthropic_messages_to_openai_chat_completions" "Anthropic Messages to OpenAI Chat";
  MkChoice "openai_chat_completions_to_anthropic_messages" "OpenAI Chat to Anthropic Messages";
  MkChoice "openai_chat_completions_to_openai_responses" "OpenAI Chat to OpenAI Responses";
  MkChoice "openai_responses_to_openai_chat_completions" "OpenAI Responses to OpenAI Chat";
  MkChoice "gemini_generate_content_to_openai_chat_completions" "Gemini Generate Content to OpenAI Chat";
  MkChoice "openai_chat_completions_to_gemini_generate_content" "OpenAI Chat to Gemini Generate Content"
].

Inductive AdvancedCustomAuthMode := AuthDefault | AuthNone | AuthHeader | AuthQuery.

Definition auth_mode_text (m : AdvancedCustomAuthMode) : jstr :=
  match m with AuthDefault => "default" | AuthNone => "none" | AuthHeader => "header" | AuthQuery => "query" end.

Definition ADVANCED_CUSTOM_AUTH_MODE_OPTIONS : list Choice := [
  MkChoice "default" "Default Bearer"; MkChoice "none" "No Auth"; MkChoice "header" "Header"; MkChoice "query" "Query"
].

Definition ADVANCED_CUSTOM_INCOMING_PATH_OPTIONS : list Choice := [
  MkChoice "/v1/chat/completions" "OpenAI Chat";
  MkChoice "/v1/responses" "OpenAI Responses";
  MkChoice "/v1/responses/compact" "OpenAI Responses Compact";
  MkChoice "/v1/embeddings" "OpenAI Embeddings";
  MkChoice "/v1/images/generations" "OpenAI Image Generations";
  MkChoice "/v1/images/edits" "OpenAI Image Edits";
  MkChoice "/v1/completions" "OpenAI Completions";
  MkChoice "/v1/audio/speech" "OpenAI Audio Speech";
  MkChoice "/v1/audio/transcriptions" "OpenAI Audio Transcriptions";
  MkChoice "/v1/audio/translations" "OpenAI Audio Translations";
  MkChoice "/v1/rerank" "OpenAI Rerank";
  MkChoice "/v1/realtime" "OpenAI Realtime";
  MkChoice "/v1/messages" "Claude Messages";
  MkChoice "/v1beta/models/{model}:generateContent" "Gemini Generate Content";
  MkChoice "/v1beta/models/{model}:embedContent" "Gemini Embed Content";
  MkChoice "/v1beta/models/{model}:batchEmbedContents" "Gemini Batch Embed Contents"
].

Definition ADVANCED_CUSTOM_ROUTE_SUMMARY_LABELS : list (jstr * jstr) := [("/v1/chat/completions", "OpenAI Chat")].

Record AdvancedCustomValidationError := MkError { e_message : jstr; routeIndex : option nat }.

(** ** Templates *)

Definition route_value (incoming upstream converter : jstr) (auth : list (jstr * jsval)) : jsval :=
  JObj ([("incoming_path"%js, JStr incoming); ("upstream_path"%js, JStr upstream); ("converter"%js, JStr converter)]
        ++ match auth with [] => [] | _ => [("auth"%js, JObj auth)] end).

Definition config_value (routes : list jsval) : jsval := JObj [("advanced_routes"%js, JArr routes)].

Definition auth_value (type_ name value : jstr) : list (jstr * jsval) :=
  [("type"%js, JStr type_); ("name"%js, JStr name); ("value"%js, JStr value)].

Definition bearerHeaderAuth : list (jstr * jsval) := auth_value "header" "Authorization" "Bearer {api_key}".
Definition apiKeyHeaderAuth : list (jstr * jsval) := auth_value "header" "x-api-key" "{api_key}".
Definition geminiQueryAuth : list (jstr * jsval) := auth_value "query" "key" "{api_key}".

Record AdvancedCustomTemplateOption := MkTemplate { t_value : jstr; t_label : jstr; t_config : jsval }.

Definition native (path : jstr) (auth : list (jstr * jsval)) : jsval := route_value path path "none" auth.

Definition ADVANCED_CUSTOM_TEMPLATE_OPTIONS : list AdvancedCustomTemplateOption := [
  MkTemplate "official_openai_chat" "Official OpenAI Chat"
    (config_value [native "/v1/chat/completions" bearerHeaderAuth]);
  MkTemplate "official_openai_responses" "Official OpenAI Responses"
    (config_value [native "/v1/responses" bearerHeaderAuth]);
  MkTemplate "official_openai_embeddings" "Official OpenAI Embeddings"
    (config_value [native "/v1/embeddings" bearerHeaderAuth]);
  MkTemplate "official_openai_images" "Official OpenAI Images"
    (config_value [native "/v1/images/generations" bearerHeaderAuth; native "/v1/images/edits" bearerHeaderAuth]);
  MkTemplate "official_claude_messages" "Official Claude Messages"
    (config_value [native "/v1/messages" apiKeyHeaderAuth]);
  MkTemplate "official_gemini_native" "Official Gemini Native"
    (config_value [native "/v1beta/models/{model}:generateContent" geminiQueryAuth;
                   native "/v1beta/models/{model}:embedContent" geminiQueryAuth;
                   native "/v1beta/models/{model}:batchEmbedContents" geminiQueryAuth]);
  MkTemplate "official_gemini_from_openai_chat" "Official Gemini from OpenAI Chat"
    (config_value [route_value "/v1/chat/completions" "/v1beta/models/{model}:generateContent"
                     "openai_chat_completions_to_gemini_generate_content" geminiQueryAuth])
].

(** [structuredClone]: values here are immutable. *)
Definition cloneAdvancedCustomConfig (config : jsval) : jsval := config.

Definition getAdvancedCustomTemplateConfig (templateKey : jstr) : jsval :=
  match List.find (fun o => t_value o === templateKey) ADVANCED_CUSTOM_TEMPLATE_OPTIONS,
        head ADVANCED_CUSTOM_TEMPLATE_OPTIONS with
  | Some o, _ | None, Some o => cloneAdvancedCustomConfig (t_config o)
  | None, None => JUndefined
  end.

Definition createAdvancedCustomRoute : jsval := route_value "/v1/chat/completions" "/v1/chat/completions" "none" [].

Definition createAdvancedCustomConfig : jsval := config_value [createAdvancedCustomRoute].

Definition getAdvancedCustomUpstreamPathPlaceholder (converter : jstr) : jstr :=
  if converter === "openai_chat_completions_to_gemini_generate_content" then "/v1beta/models/{model}:generateContent"
  else if converter === "openai_chat_completions_to_anthropic_messages" then "/v1/messages"
  else "/v1/chat/completions".

(** ** Converters and paths *)

Definition isConverterPathAllowed (incomingPath converter : jstr) : bool :=
  if converter === "none" then true
  else if converter === "anthropic_messages_to_openai_chat_completions" then incomingPath === "/v1/messages"
  else if (converter === "openai_chat_completions_to_anthropic_messages") ||
          (converter === "openai_chat_completions_to_openai_responses") ||
          (converter === "openai_chat_completions_to_gemini_generate_content")
  then incomingPath === "/v1/chat/completions"
  else if converter === "openai_responses_to_openai_chat_completions" then incomingPath === "/v1/responses"
  else includes ":generateContent" incomingPath || includes ":streamGenerateContent" incomingPath.

Definition getAdvancedCustomIncomingPathOptions (converter : jstr) : list Choice :=
  List.filter (fun o => isConverterPathAllowed (c_value o) converter) ADVANCED_CUSTOM_INCOMING_PATH_OPTIONS.

Definition getDefaultAdvancedCustomIncomingPath (converter : jstr) : jstr :=
  jor (match getAdvancedCustomIncomingPathOptions converter with o :: _ => c_value o | [] => [] end)
      "/v1/chat/completions".

Definition isAdvancedCustomIncomingPathAllowed (incomingPath converter : jstr) : bool :=
  isConverterPathAllowed incomingPath converter.

Definition getAdvancedCustomConverterOptions (incomingPath : jstr) : list Choice :=
  let normalizedIncomingPath := trim incomingPath in
  List.filter (fun o => (c_value o === "none") || isConverterPathAllowed normalizedIncomingPath (c_value o))
    ADVANCED_CUSTOM_CONVERTER_OPTIONS.

Definition getAdvancedCustomIncomingPathLabel (value : jstr) : jstr :=
  match List.find (fun o => c_value o === value) ADVANCED_CUSTOM_INCOMING_PATH_OPTIONS with
  | Some o => jor (c_label o) value
  | None => value
  end.

Definition isAdvancedCustomConverter (value : jsval) : bool :=
  match value with
  | JStr v => existsb (fun o => c_value o === v) ADVANCED_CUSTOM_CONVERTER_OPTIONS
  | _ => false
  end.

(** ** Reading values *)

(** [v || d] *)
Definition val_or (v d : jsval) : jsval := if val_truthy v then v else d.

(** [v.p], which throws for [undefined] and [null] *)
Definition prop (p : jstr) (v : jsval) : outcome jsval :=
  match v with JUndefined | JNull => Throws | _ => Ret (get p v) end.

(** [v.trim()]: only strings have the method. *)
Definition trim_value (v : jsval) : outcome jstr := match v with JStr s => Ret (trim s) | _ => Throws end.

(** [v?.trim() || ''] *)
Definition opt_trim (v : jsval) : outcome jstr :=
  match v with JUndefined | JNull => Ret [] | _ => trim_value v end.

Section routes.
Context `{UrlParser}.

Definition getAdvancedCustomRouteUpstreamPath (route : jsval) : outcome jstr :=
  v ⇐ prop "upstream_path" route; trim_value (val_or v (JStr [])).

Definition normalizeAdvancedCustomRoute (route : jsval) : outcome jsval :=
  incoming ⇐ prop "incoming_path" route;
  upstream ⇐ getAdvancedCustomRouteUpstreamPath route;
  converter ⇐ prop "converter" route;
  auth ⇐ prop "auth" route;
  Ret (JObj ([("incoming_path"%js, val_or incoming (JStr [])); ("upstream_path"%js, JStr upstream);
              ("converter"%js, val_or converter (JStr "none"))]
             ++ if val_truthy auth
                then [("auth"%js, JObj [("type"%js, get "type" auth); ("name"%js, val_or (get "name" auth) (JStr []));
                                        ("value"%js, val_or (get "value" auth) (JStr []))])]
                else [])).

Definition normalizeAdvancedCustomConfig (config : jsval) : outcome jsval :=
  rs ⇐ prop "advanced_routes" config;
  routes ⇐ match rs with JArr l => omapM normalizeAdvancedCustomRoute l | _ => Ret [] end;
  Ret (config_value routes).

Definition parseAdvancedCustomConfig (value : option jstr) : option jsval :=
  match value with
  | None => None
  | Some value =>
    if negb (truthy (trim value)) then None
    else match JSON_parse value with
         | Some (JObj fs) => match normalizeAdvancedCustomConfig (JObj fs) with Ret c => Some c | Throws => None end
         | _ => None
         end
  end.

Definition stringifyAdvancedCustomConfig (config : jsval) : outcome jstr :=
  n ⇐ normalizeAdvancedCustomConfig config; Ret (default [] (JSON_stringify n)).

(** ** Validation *)

Definition isFullHttpURLOrAbsolutePath (value : jstr) : bool :=
  if startsWith "/" value then negb (startsWith "//" value)
  else match new_URL value None with
       | Some parsed => truthy (host parsed) && ((protocol parsed === "http:") || (protocol parsed === "https:"))
       | None => false
       end.

Definition is_text (v : jsval) (s : jstr) : bool := match v with JStr t => t === s | _ => false end.

Definition validateRouteAuth (auth : jsval) : outcome (option jstr) :=
  if negb (val_truthy auth) then Ret None
  else
    let type_ := get "type" auth in
    if is_text type_ "none" then Ret None
    else if negb (is_text type_ "header") && negb (is_text type_ "query") then Ret (Some "Auth type is invalid"%js)
    else
      name ⇐ opt_trim (get "name" auth);
      if negb (truthy name) then Ret (Some "Auth name is required"%js)
      else
        value ⇐ opt_trim (get "value" auth);
        if negb (truthy value) then Ret (Some "Auth value is required"%js) else Ret None.

(** One round of the loop: the error of the route, or its incoming path. *)
Definition validate_route (seenPaths : list jstr) (route : jsval) : outcome (jstr + jstr) :=
  ip ⇐ prop "incoming_path" route;
  incomingPath ⇐ opt_trim ip;
  upstreamPath ⇐ getAdvancedCustomRouteUpstreamPath route;
  let converter := val_or (get "converter" route) (JStr "none") in
  if negb (truthy incomingPath) then Ret (inl "Incoming path is required"%js)
  else if negb (startsWith "/" incomingPath) then Ret (inl "Incoming path must start with /"%js)
  else if includes "?" incomingPath then Ret (inl "Incoming path must not include query"%js)
  else if has incomingPath seenPaths then Ret (inl "Incoming path must be unique"%js)
  else if negb (truthy upstreamPath) then Ret (inl "Upstream path is required"%js)
  else if negb (isFullHttpURLOrAbsolutePath upstreamPath)
  then Ret (inl "Upstream path must be a full URL or a path starting with /"%js)
  else if negb (isAdvancedCustomConverter converter) then Ret (inl "Converter is not registered"%js)
  else if negb (match converter with JStr c => isConverterPathAllowed incomingPath c | _ => false end)
  then Ret (inl "Converter does not match incoming path"%js)
  else
    authError ⇐ validateRouteAuth (get "auth" route);
    Ret (match authError with Some e => inl e | None => inr incomingPath end).

Fixpoint validate_routes (index : nat) (seenPaths : list jstr) (routes : list jsval) :
    outcome (option AdvancedCustomValidationError) :=
  match routes with
  | [] => Ret None
  | route :: routes' =>
    r ⇐ validate_route seenPaths route;
    match r with
    | inl e => Ret (Some (MkError e (Some index)))
    | inr p => validate_routes (S index) (p :: seenPaths) routes'
    end
  end.

Definition routes_of (config : jsval) : list jsval :=
  match get "advanced_routes" config with JArr l => l | _ => [] end.

Definition validateAdvancedCustomConfig (config : jsval) : outcome (option AdvancedCustomValidationError) :=
  if negb (val_truthy config) then Ret (Some (MkError "Advanced custom configuration is required" None))
  else
    normalized ⇐ normalizeAdvancedCustomConfig config;
    match routes_of normalized with
    | [] => Ret (Some (MkError "Advanced custom configuration requires at least one route" None))
    | routes => validate_routes 0 [] routes
    end.

Fixpoint some_relative (routes : list jsval) : outcome bool :=
  match routes with
  | [] => Ret false
  | route :: routes' =>
    p ⇐ getAdvancedCustomRouteUpstreamPath route;
    if startsWith "/" p then Ret true else some_relative routes'
  end.

Definition advancedCustomConfigUsesRelativeUpstreamPath (config : jsval) : outcome bool :=
  if negb (val_truthy config) then Ret false
  else normalized ⇐ normalizeAdvancedCustomConfig config; some_relative (routes_of normalized).

(** ** Summary *)

(** What the label table has for a text: an entry, a property that every object
    inherits, or nothing. *)
Inductive RouteLabel := LabelText (s : jstr) | LabelInherited (name : jstr).

#[global] Instance RouteLabel_eq_dec : EqDecision RouteLabel.
Proof. solve_decision. Defined.

Definition getAdvancedCustomRouteSummaryLabel (route : jsval) : outcome (option RouteLabel) :=
  ip ⇐ prop "incoming_path" route;
  incomingPath ⇐ opt_trim ip;
  Ret (if negb (truthy incomingPath) then None
       else match map_get incomingPath ADVANCED_CUSTOM_ROUTE_SUMMARY_LABELS with
            | Some l => Some (LabelText l)
            | None => if has incomingPath OBJECT_PROTOTYPE then Some (LabelInherited incomingPath)
                      else Some (LabelText (getAdvancedCustomIncomingPathLabel incomingPath))
            end).

Record AdvancedCustomStats := MkStats { routeCount : nat; valid : bool; routeTypeLabels : list RouteLabel }.

Definition add_label (labels : list RouteLabel) (l : option RouteLabel) : list RouteLabel :=
  match l with
  | Some l => if has l labels then labels else labels ++ [l]
  | None => labels
  end.

Definition getAdvancedCustomStats (value : option jstr) : outcome AdvancedCustomStats :=
  match parseAdvancedCustomConfig value with
  | None => Ret (MkStats 0 false [])
  | Some config =>
    normalized ⇐ normalizeAdvancedCustomConfig config;
    let routes := routes_of normalized in
    labels ⇐ omapM getAdvancedCustomRouteSummaryLabel routes;
    error ⇐ validateAdvancedCustomConfig normalized;
    Ret (MkStats (length routes) (match error with None => true | Some _ => false end) (foldl add_label [] labels))
  end.
End routes.

(** ** Authentication of a route *)

Definition getAdvancedCustomAuthMode (route : jsval) : outcome jsval :=
  auth ⇐ prop "auth" route; Ret (val_or (get "type" auth) (JStr "default")).

(** [None] is [undefined]; [previousAuth] may be [undefined]. *)
Definition buildAdvancedCustomAuth (mode : AdvancedCustomAuthMode) (previousAuth : jsval) : option jsval :=
  let previous k d := val_or (get k previousAuth) (JStr d) in
  match mode with
  | AuthDefault => None
  | AuthNone => Some (JObj [("type"%js, JStr "none")])
  | AuthHeader => Some (JObj [("type"%js, JStr "header"); ("name"%js, previous "name"%js "Authorization"%js);
                              ("value"%js, previous "value"%js "Bearer {api_key}"%js)])
  | AuthQuery => Some (JObj [("type"%js, JStr "query"); ("name"%js, previous "name"%js "api_key"%js);
                             ("value"%js, previous "value"%js "{api_key}"%js)])
  end.

(** ** The server's validator *)

Module Server.

(** [url.Parse] of Go: the scheme and the host, or an error. *)
Class GoUrl := url_Parse : jstr → option (jstr * jstr).

Record AdvancedCustomRouteAuth := MkAuth { Type_ : jstr; Name : jstr; Value : jstr }.
Record AdvancedCustomRoute := MkRoute {
  IncomingPath : jstr; UpstreamPath : jstr; Converter : jstr; Auth : option AdvancedCustomRouteAuth;
}.

Inductive reason :=
  | incoming_required | incoming_slash | incoming_query | incoming_unique | upstream_required | upstream_form
  | upstream_scheme | converter_unregistered | converter_mismatch | auth_name | auth_value | auth_type.

Inductive error := no_routes | route_error (index : nat) (r : reason).

(** [unicode.IsSpace] for the characters of the basic plane *)
Definition go_space (c : N) : bool :=
  ((9 <=? c) && (c <=? 13) || (c =? 32) || (c =? 0x85) || (c =? 0xA0) || (c =? 0x1680)
   || (0x2000 <=? c) && (c <=? 0x200a) || (c =? 0x2028) || (c =? 0x2029) || (c =? 0x202f)
   || (c =? 0x205f) || (c =? 0x3000))%N.

Fixpoint trim_left (s : jstr) : jstr :=
  match s with
  | [] => []
  | c :: s' => if go_space c then trim_left s' else s
  end.

Definition TrimSpace (s : jstr) : jstr := reverse (trim_left (reverse (trim_left s))).

(** [strings.EqualFold] with a text of ASCII letters, for ASCII *)
Definition EqualFold (s t : jstr) : bool := map ascii_lower s === map ascii_lower t.

Definition IsAdvancedCustomConverterAllowed (converter : jstr) : bool :=
  has converter ["none"; "anthropic_messages_to_openai_chat_completions";
    "openai_chat_completions_to_anthropic_messages"; "openai_chat_completions_to_openai_responses";
    "openai_responses_to_openai_chat_completions"; "gemini_generate_content_to_openai_chat_completions";
    "openai_chat_completions_to_gemini_generate_content"].

Section validate.
Context `{GoUrl}.

Definition validateAdvancedCustomUpstreamTarget (upstreamPath : jstr) : option reason :=
  if startsWith "/" upstreamPath then
    if startsWith "//" upstreamPath then Some upstream_form else None
  else
    match url_Parse upstreamPath with
    | None => Some upstream_form
    | Some (scheme, host) =>
      if negb (truthy scheme) || negb (truthy host) then Some upstream_form
      else if negb (EqualFold scheme "http") && negb (EqualFold scheme "https") then Some upstream_scheme
      else None
    end.

Definition validateAdvancedCustomConverterPath (incomingPath converter : jstr) : option reason :=
  let ok :=
    if converter === "none" then true
    else if converter === "anthropic_messages_to_openai_chat_completions" then incomingPath === "/v1/messages"
    else if has converter ["openai_chat_completions_to_anthropic_messages"; "openai_chat_completions_to_openai_responses";
                           "openai_chat_completions_to_gemini_generate_content"]
    then incomingPath === "/v1/chat/completions"
    else if converter === "openai_responses_to_openai_chat_completions" then incomingPath === "/v1/responses"
    else if converter === "gemini_generate_content_to_openai_chat_completions"
    then includes ":generateContent" incomingPath || includes ":streamGenerateContent" incomingPath
    else false in
  if ok then None else Some converter_mismatch.

Definition validateAdvancedCustomRouteAuth (auth : option AdvancedCustomRouteAuth) : option reason :=
  match auth with
  | None => None
  | Some auth =>
    let authType := TrimSpace (Type_ auth) in
    if authType === "none" then None
    else if (authType === "header") || (authType === "query") then
      if negb (truthy (TrimSpace (Name auth))) then Some auth_name
      else if negb (truthy (TrimSpace (Value auth))) then Some auth_value
      else None
    else Some auth_type
  end.

(** One round of the loop of [Validate]. *)
Definition validate_one (seenPaths : list jstr) (route : AdvancedCustomRoute) : reason + jstr :=
  let incoming := TrimSpace (IncomingPath route) in
  let upstreamPath := TrimSpace (UpstreamPath route) in
  let converter := jor (TrimSpace (Converter route)) "none" in
  if negb (truthy incoming) then inl incoming_required
  else if negb (startsWith "/" incoming) then inl incoming_slash
  else if includes "?" incoming then inl incoming_query
  else if has incoming seenPaths then inl incoming_unique
  else if negb (truthy upstreamPath) then inl upstream_required
  else match validateAdvancedCustomUpstreamTarget upstreamPath with
  | Some r => inl r
  | None =>
    if negb (IsAdvancedCustomConverterAllowed converter) then inl converter_unregistered
    else match validateAdvancedCustomConverterPath incoming converter with
    | Some r => inl r
    | None => match validateAdvancedCustomRouteAuth (Auth route) with
              | Some r => inl r
              | None => inr incoming
              end
    end
  end.

Fixpoint validate_all (i : nat) (seenPaths : list jstr) (routes : list AdvancedCustomRoute) : option error :=
  match routes with
  | [] => None
  | route :: routes' =>
    match validate_one seenPaths route with
    | inl r => Some (route_error i r)
    | inr p => validate_all (S i) (p :: seenPaths) routes'
    end
  end.

Definition Validate (routes : list AdvancedCustomRoute) : option error :=
  match routes with [] => Some no_routes | _ => validate_all 0 [] routes end.
End validate.

(** [json.Unmarshal] into the structures: an absent or null text is empty, a value
    of another kind is an error. *)
Definition decode_text (v : jsval) : option jstr :=
  match v with JStr s => Some s | JUndefined | JNull => Some [] | _ => None end.

Definition decode_auth (v : jsval) : option (option AdvancedCustomRouteAuth) :=
  match v with
  | JUndefined | JNull => Some None
  | JObj _ =>
    t ← decode_text (get "type" v); n ← decode_text (get "name" v); x ← decode_text (get "value" v);
    Some (Some (MkAuth t n x))
  | _ => None
  end.

Definition decode_route (v : jsval) : option AdvancedCustomRoute :=
  match v with
  | JObj _ =>
    i ← decode_text (get "incoming_path" v); u ← decode_text (get "upstream_path" v);
    c ← decode_text (get "converter" v); a ← decode_auth (get "auth" v);
    Some (MkRoute i u c a)
  | JNull => Some (MkRoute [] [] [] None)
  | _ => None
  end.

Definition decode (config : jsval) : option (list AdvancedCustomRoute) := mapM decode_route (routes_of config).

End Server.

(** ** Configurations of the declared type *)

(** Text that both trim alike: without the byte order mark, which only the console
    trims, the next-line control, which only the server trims, and surrogates. *)
Definition portable_unit (c : N) : bool :=
  negb (c =? 0xFEFF)%N && negb (c =? 0x85)%N && negb (in_range 0xD800 0xDFFF c) && (c <? 65536)%N.

Definition portable (s : jstr) : bool := forallb portable_unit s.

(** An optional text. *)
Definition text_field (p : jstr → bool) (v : jsval) : bool :=
  match v with JStr s => portable s && p s | JUndefined => true | _ => false end.

Definition any_text (s : jstr) : bool := true.
Definition trimmed_text (s : jstr) : bool := trim s === s.

Definition typed_auth (v : jsval) : bool :=
  match v with
  | JUndefined => true
  | JObj _ => text_field trimmed_text (get "type" v) && text_field any_text (get "name" v) &&
              text_field any_text (get "value" v)
  | _ => false
  end.

Definition typed_route (v : jsval) : bool :=
  match v with
  | JObj _ => text_field any_text (get "incoming_path" v) && text_field any_text (get "upstream_path" v) &&
              text_field trimmed_text (get "converter" v) && typed_auth (get "auth" v)
  | _ => false
  end.

Definition typed_config (v : jsval) : bool :=
  match v with
  | JObj _ => match get "advanced_routes" v with
              | JArr l => forallb typed_route l
              | JUndefined => true
              | _ => false
              end
  | _ => false
  end.

(** *** Trimming *)

Lemma go_space_portable c : portable_unit c = true → Server.go_space c = is_ws c.
Proof.
  unfold portable_unit, Server.go_space, is_ws. intros H. bool_hyps.
  repeat match goal with H : (_ =? _)%N = false |- _ => rewrite H end. 
  rewrite !orb_false_r. done.
Qed.

Lemma trim_left_portable s : portable s = true → Server.trim_left s = trimStart s.
Proof.
  unfold portable. induction s as [|c s IH]; [done|]. cbn [forallb Server.trim_left trimStart]. intros H. bool_hyps.
  rewrite go_space_portable by done. case_match; auto.
Qed.

Lemma portable_sub s t : (∀ c, c ∈ t → c ∈ s) → portable s = true → portable t = true.
Proof.
  intros Hsub Hs. apply forallb_forall. intros c Hc%list_elem_of_In. apply (forallb_elem _ _ _ Hs). auto.
Qed.

Lemma portable_trim s : portable s = true → portable (trim s) = true.
Proof. apply portable_sub. intros c. apply trim_elem_of. Qed.

Lemma TrimSpace_trim s : portable s = true → Server.TrimSpace s = trim s.
Proof.
  intros Hs. unfold Server.TrimSpace, trim, trimEnd. rewrite (trim_left_portable s) by done.
  rewrite trim_left_portable; [done|]. apply (portable_sub s); [|done].
  intros c Hc. rewrite elem_of_reverse in Hc. destruct (trimStart_decomp s) as (w & -> & _). set_solver.
Qed.

(** *** One route *)

Definition message (r : Server.reason) : jstr :=
  match r with
  | Server.incoming_required => "Incoming path is required"
  | Server.incoming_slash => "Incoming path must start with /"
  | Server.incoming_query => "Incoming path must not include query"
  | Server.incoming_unique => "Incoming path must be unique"
  | Server.upstream_required => "Upstream path is required"
  | Server.upstream_form | Server.upstream_scheme => "Upstream path must be a full URL or a path starting with /"
  | Server.converter_unregistered => "Converter is not registered"
  | Server.converter_mismatch => "Converter does not match incoming path"
  | Server.auth_name => "Auth name is required"
  | Server.auth_value => "Auth value is required"
  | Server.auth_type => "Auth type is invalid"
  end.

Definition console_error (e : Server.error) : AdvancedCustomValidationError :=
  match e with
  | Server.no_routes => MkError "Advanced custom configuration requires at least one route" None
  | Server.route_error i r => MkError (message r) (Some i)
  end.

(** ** Upstream addresses

    The console asks the URL parser of the browser, the server [url.Parse] of Go.  What is
    assumed of each is what its own specification says of a few plain forms of
    address; the parsers are not compared with one another. *)

Definition scheme_text (s : jstr) : bool :=
  match s with c :: s' => is_lower c && forallb (fun c => is_lower c || is_digit c) s' | [] => false end.

(** A host name whose labels start with a letter and that needs no IDNA decoding. *)
Definition label_text (l : jstr) : bool :=
  match l with c :: l' => is_lower c && forallb (fun c => is_lower c || is_digit c || (c =? 45)%N) l' | [] => false end.
Definition domain_text (h : jstr) : bool := forallb label_text (split_char 46 h) && negb (includes "xn--" h).

Inductive plain_host : jstr → Prop :=
  | host_domain h : domain_text h = true → plain_host h
  | host_ipv4 a b c d : (a < 256)%N → (b < 256)%N → (c < 256)%N → (d < 256)%N →
      plain_host (js_of_N a ++ "." ++ js_of_N b ++ "." ++ js_of_N c ++ "." ++ js_of_N d).

Inductive port_text : jstr → Prop :=
  | port_none : port_text []
  | port_some p : (p < 65536)%N → port_text (":" ++ js_of_N p).

(** A path and a query of visible ASCII characters, without escapes, fragment and backslash. *)
Definition path_unit (c : N) : bool := in_range 0x21 0x7e c && negb (existsb (N.eqb c) "%#\").

Inductive path_text : jstr → Prop :=
  | path_none : path_text []
  | path_some r : forallb path_unit r = true → path_text ("/" ++ r).

(** An http or https address of this form, with its scheme and its host. *)
Inductive web_address : jstr → jstr → jstr → Prop :=
  | web_address_intro scheme host port path :
      scheme ∈ ["http"; "https"] → plain_host host → port_text port → path_text path →
      web_address scheme host (scheme ++ "://" ++ host ++ port ++ path).

(** The URL standard: the scheme of the text is the protocol, a web address is parsed with
    its host, and a text without colon is relative, which fails without a base. *)
Class UrlStandard `{UrlParser} : Prop := {
  standard_scheme scheme t u : scheme_text scheme = true → new_URL (scheme ++ "://" ++ t) None = Some u → protocol u = scheme ++ ":";
  standard_address scheme host v : web_address scheme host v → ∃ u, new_URL v None = Some u ∧ hostname u = host;
  standard_relative v : 58%N ∉ v → new_URL v None = None;
}.

(** The package [net/url]: the same of [Scheme] and [Host]; a text without colon has no
    scheme. *)
Class GoUrlPackage `{Server.GoUrl} : Prop := {
  go_scheme scheme t s h : scheme_text scheme = true → Server.url_Parse (scheme ++ "://" ++ t) = Some (s, h) → s = scheme;
  go_address scheme host v : web_address scheme host v → ∃ h, Server.url_Parse v = Some (scheme, h) ∧ h ≠ [];
  go_relative v s h : 58%N ∉ v → Server.url_Parse v = Some (s, h) → s = [];
}.

(** The upstream texts compared: any text that starts with a slash, a web address, any text after another
    scheme and [://], and any text without colon. *)
Inductive plain_upstream : jstr → Prop :=
  | upstream_path v : startsWith "/" v = true → plain_upstream v
  | upstream_web scheme host v : web_address scheme host v → plain_upstream v
  | upstream_other scheme t : scheme_text scheme = true → scheme ∉ ["http"; "https"] → plain_upstream (scheme ++ "://" ++ t)
  | upstream_relative v : 58%N ∉ v → plain_upstream v.

Lemma scheme_folds s t : scheme_text s = true → scheme_text t = true → Server.EqualFold s t = (s === t).
Proof.
  assert (Hlow : ∀ s, scheme_text s = true → map ascii_lower s = s).
  { intros s' Hs. assert (Hall : Forall (fun c => ascii_lower c = c) s').
    { assert (Hc : ∀ c, is_lower c || is_digit c = true → ascii_lower c = c).
      { intros c Hc. unfold ascii_lower. destruct (is_upper c) eqn:Eu; [|done].
        apply orb_true_iff in Hc as [Hc|Hc]; unfold is_lower, is_digit, is_upper, in_range in *; apply andb_true_iff in Hc as [?%N.leb_le ?%N.leb_le], Eu as [?%N.leb_le ?%N.leb_le]; lia. }
      destruct s' as [|c s']; [done|]. cbn [scheme_text] in Hs. apply andb_true_iff in Hs as [H1 H2]. constructor; [apply Hc; by rewrite H1|].
      apply Forall_forall. intros x Hx. apply Hc. exact (forallb_elem _ _ _ H2 Hx). }
    clear Hs. induction Hall as [|c l E _ IH]; [done|]. cbn [map]. by rewrite E, IH. }
  intros Hs Ht. unfold Server.EqualFold. by rewrite !Hlow.
Qed.

Lemma web_scheme scheme host v : web_address scheme host v →
  scheme ∈ ["http"; "https"] ∧ scheme_text scheme = true ∧ startsWith "/" v = false ∧ host ≠ [] ∧ ∃ t, v = scheme ++ "://" ++ t.
Proof.
  intros [scheme' host' port path Hs Hh _ _]. split; [done|].
  assert (Hne : host' ≠ []).
  { destruct Hh as [h Hd|a b c d _ _ _ _]; [|by destruct (js_of_N a)]. intros ->. by vm_compute in Hd. }
  rewrite !elem_of_cons, elem_of_nil in Hs. destruct_or? Hs; subst; (split; [done|]; split; [done|]; split; [done|]; by eexists).
Qed.

Section refinement.
Context `{UrlStandard} `{GoUrlPackage}.

(** On these texts the two checks agree. *)
Lemma upstream_agrees v :
  plain_upstream v →
  isFullHttpURLOrAbsolutePath v = match Server.validateAdvancedCustomUpstreamTarget v with None => true | Some _ => false end.
Proof.
  unfold isFullHttpURLOrAbsolutePath, Server.validateAdvancedCustomUpstreamTarget. intros [v' Hv|scheme h v' Hv|scheme t Hs Hn|v' Hv].
  - rewrite Hv. by destruct (startsWith "//" v').
  - destruct (standard_address _ _ _ Hv) as (u & Hu & Hhost). destruct (go_address _ _ _ Hv) as (gh & Hg & Hgh).
    destruct (web_scheme _ _ _ Hv) as (Hin & Hsch & Hslash & Hne & t & ->). rewrite Hslash, Hu, Hg, (standard_scheme _ _ _ Hsch Hu).
    assert (Hh : truthy (host u) = true).
    { apply truthy_true. unfold host. rewrite Hhost. by destruct (truthy (port u)), h. }
    rewrite Hh, !scheme_folds by done. rewrite (proj2 (truthy_true gh) Hgh).
    rewrite !elem_of_cons, elem_of_nil in Hin. by destruct_or? Hin; subst.
  - destruct (startsWith "/" (scheme ++ "://" ++ t)) eqn:Eslash.
    { exfalso. destruct scheme as [|c scheme]; [done|]. cbn [scheme_text] in Hs. apply andb_true_iff in Hs as [Hs _].
      apply startsWith_true in Eslash as [r Er]. injection Er as -> _. done. }
    rewrite !elem_of_cons, elem_of_nil in Hn. apply Decidable.not_or in Hn as [Hh1 [Hh2 _]%Decidable.not_or].
    assert (Hcons : match new_URL (scheme ++ "://" ++ t) None with
      | Some parsed => truthy (host parsed) && ((protocol parsed === "http:") || (protocol parsed === "https:")) | None => false end = false).
    { destruct (new_URL _ None) as [u|] eqn:Eu; [|done]. rewrite (standard_scheme _ _ _ Hs Eu).
      rewrite (proj2 (jeqb_false (scheme ++ ":") "http:")), (proj2 (jeqb_false (scheme ++ ":") "https:")), andb_false_r; [done|..].
      all: intros E; first [apply (app_inj_2 scheme "https" ":" ":") in E as [? _]; done|apply (app_inj_2 scheme "http" ":" ":") in E as [? _]; done]. }
    rewrite Hcons. destruct (Server.url_Parse _) as [[s h]|] eqn:Eg; [|done]. rewrite (go_scheme _ _ _ _ Hs Eg).
    destruct (negb (truthy scheme) || negb (truthy h)); [done|]. rewrite !scheme_folds by done.
    by rewrite (proj2 (jeqb_false scheme "http")), (proj2 (jeqb_false scheme "https")).
  - destruct (startsWith "/" v') eqn:Es; [by destruct (startsWith "//" v')|]. rewrite (standard_relative _ Hv).
    destruct (Server.url_Parse v') as [[s h]|] eqn:Eg; [|done]. by rewrite (go_relative _ _ _ Hv Eg).
Qed.

Lemma upstream_message u r :
  Server.validateAdvancedCustomUpstreamTarget u = Some r → message r = "Upstream path must be a full URL or a path starting with /".
Proof.
  unfold Server.validateAdvancedCustomUpstreamTarget. repeat case_match; intros [= <-]; done.
Qed.

(** The text of an optional field after [|| '']. *)
Lemma text_or v p :
  text_field p v = true → ∃ s, val_or v (JStr []) = JStr s ∧ portable s = true ∧ (p [] = true → p s = true) ∧
    (v = JStr s ∨ v = JUndefined ∧ s = []).
Proof.
  destruct v; try done; cbn; [intros _; exists []; by auto 6|]. intros Hs. bool_hyps. exists s.
  destruct s; cbn; eauto.
Qed.

Lemma text_converter v :
  text_field trimmed_text v = true →
  ∃ c, val_or v (JStr "none") = JStr c ∧ portable c = true ∧ trim c = c ∧ c ≠ [].
Proof.
  intros Hv. destruct v; try done; cbn in *; [by exists "none"%js|]. bool_hyps.
  destruct s as [|x s]; cbn; [by exists "none"%js|]. exists (x :: s). unfold trimmed_text in *. bool_hyps. done.
Qed.

Lemma converter_known c : isAdvancedCustomConverter (JStr c) = Server.IsAdvancedCustomConverterAllowed c.
Proof.
  unfold Server.IsAdvancedCustomConverterAllowed, has. symmetry. cbn [isAdvancedCustomConverter].
  destruct (existsb _ _) eqn:E.
  - apply bool_decide_eq_true. apply existsb_exists in E as (o & Ho & <-%jeqb_true). cbn in Ho.
    destruct_or? Ho; subst; cbn; set_solver.
  - apply bool_decide_eq_false. intros Hin. apply not_true_iff_false in E. apply E, existsb_exists.
    rewrite !elem_of_cons, elem_of_nil in Hin. destruct_or? Hin; subst; try done;
      (eexists; split; [cbn; eauto 12|apply jeqb_refl]).
Qed.

(** Normalized routes of the declared type. *)
Definition normalized_auth (n x : jstr) (ty : jsval) : jsval :=
  JObj [("type"%js, ty); ("name"%js, JStr n); ("value"%js, JStr x)].

Definition normalized_route (i u c : jstr) (auth : list jsval) : jsval :=
  JObj ([("incoming_path"%js, JStr i); ("upstream_path"%js, JStr u); ("converter"%js, JStr c)]
        ++ map (pair "auth"%js) auth).

Inductive auth_shape : list jsval → Prop :=
  | shape_none : auth_shape []
  | shape_some n x ty : portable n = true → portable x = true → text_field any_text ty = true →
      auth_shape [normalized_auth n x ty].

Lemma auth_refines t n x ty :
  ty = JStr t ∨ (ty = JUndefined ∧ t = []) → portable t = true → trim t = t → portable n = true → portable x = true →
  Server.decode_auth (normalized_auth n x ty) = Some (Some (Server.MkAuth t n x)) ∧
  validateRouteAuth (normalized_auth n x ty)
  = Ret (message <$> Server.validateAdvancedCustomRouteAuth (Some (Server.MkAuth t n x))).
Proof.
  intros Hty Ht Htr Hn Hx. split; [by destruct Hty as [->|[-> ->]]|].
  unfold validateRouteAuth, Server.validateAdvancedCustomRouteAuth, normalized_auth.
  cbn [val_truthy negb]. change (get "name" _) with (JStr n). change (get "value" _) with (JStr x).
  change (get "type" _) with ty. cbn [Server.Type_ Server.Name Server.Value opt_trim trim_value obind].
  rewrite !TrimSpace_trim, Htr by done.
  destruct Hty as [->|[-> ->]]; [|done]. cbn [is_text].
  destruct (t === "none") eqn:E1; [done|]. destruct (t === "header") eqn:E2, (t === "query") eqn:E3;
    cbn [negb andb orb]; try done; by destruct (truthy (trim n)), (truthy (trim x)).
Qed.

Lemma normalize_typed route :
  typed_route route = true →
  ∃ i u c nr sr, normalizeAdvancedCustomRoute route = Ret nr ∧ Server.decode_route nr = Some sr ∧
    Server.IncomingPath sr = i ∧ Server.UpstreamPath sr = trim u ∧ Server.Converter sr = c ∧
    get "incoming_path" nr = JStr i ∧ get "upstream_path" nr = JStr (trim u) ∧ get "converter" nr = JStr c ∧
    portable i = true ∧ portable u = true ∧ portable c = true ∧ trim c = c ∧ c ≠ [] ∧
    validateRouteAuth (get "auth" nr) = Ret (message <$> Server.validateAdvancedCustomRouteAuth (Server.Auth sr)) ∧
    (∃ auth, nr = normalized_route i (trim u) c auth ∧ auth_shape auth).
Proof.
  destruct route as [| | | | | |fs]; try done. unfold typed_route. intros Hr. bool_hyps.
  unfold normalizeAdvancedCustomRoute, getAdvancedCustomRouteUpstreamPath. cbn [prop obind].
  destruct (text_or (get "incoming_path" (JObj fs)) any_text) as (i & -> & Hi & _); [done|].
  destruct (text_or (get "upstream_path" (JObj fs)) any_text) as (u & -> & Hu & _); [done|].
  destruct (text_converter (get "converter" (JObj fs))) as (c & -> & Hc & Hct & Hcn); [done|].
  cbn [trim_value obind]. exists i, u, c.
  destruct (get "auth" (JObj fs)) as [| | | | | |as_] eqn:Ea; try done; cbn [val_truthy].
  - eexists _, (Server.MkRoute i (trim u) c None). split; [reflexivity|].
    repeat split; try done. exists []. split; [done|constructor].
  - cbn [typed_auth] in *. bool_hyps.
    destruct (text_or (get "type" (JObj as_)) trimmed_text) as (t & _ & Ht & Htt & Hty); [done|].
    destruct (text_or (get "name" (JObj as_)) any_text) as (n & -> & Hn & _); [done|].
    destruct (text_or (get "value" (JObj as_)) any_text) as (x & -> & Hx & _); [done|].
    assert (Htr : trim t = t) by (apply jeqb_true; by apply Htt).
    destruct (auth_refines t n x (get "type" (JObj as_))) as [Hd Hv]; try done.
    eexists _, (Server.MkRoute i (trim u) c (Some (Server.MkAuth t n x))). split; [reflexivity|].
    split; [|repeat split; try done; exists [normalized_auth n x (get "type" (JObj as_))]; split; [done|]].
    2:{ constructor; [done..|]. by destruct Hty as [->|[-> ->]]; cbn; rewrite ?Ht. }
    cbn [app]. unfold Server.decode_route.
    match goal with |- context [Server.decode_auth ?y] =>
      change y with (normalized_auth n x (get "type" (JObj as_))) end.
    by rewrite Hd.
Qed.

Lemma converter_path p c :
  Server.IsAdvancedCustomConverterAllowed c = true →
  Server.validateAdvancedCustomConverterPath p c
  = if isConverterPathAllowed p c then None else Some Server.converter_mismatch.
Proof.
  intros Hc%has_true. rewrite !elem_of_cons, elem_of_nil in Hc. unfold Server.validateAdvancedCustomConverterPath.
  destruct_or? Hc; subst; try done; reflexivity.
Qed.

Definition verdict (r : Server.reason + jstr) : jstr + jstr := match r with inl x => inl (message x) | inr p => inr p end.

Lemma route_refines seen route nr sr :
  typed_route route = true → normalizeAdvancedCustomRoute route = Ret nr → Server.decode_route nr = Some sr →
  plain_upstream (Server.UpstreamPath sr) →
  validate_route seen nr = Ret (verdict (Server.validate_one seen sr)).
Proof.
  intros Ht Hn Hd Hu. destruct (normalize_typed route Ht)
    as (i & u & c & nr' & sr' & Hn' & Hd' & Ei & Eu & Ec & Gi & Gu & Gc & Pi & Pu & Pc & Tc & Nc & Ha & (fs & Hfs & _)).
  rewrite Hn in Hn'. injection Hn' as <-. rewrite Hd in Hd'. injection Hd' as <-.
  rewrite Eu in Hu. assert (Htu : Server.TrimSpace (trim u) = trim u).
  { rewrite TrimSpace_trim by by apply portable_trim. apply trim_trimmed. }
  unfold validate_route, getAdvancedCustomRouteUpstreamPath, Server.validate_one.
  rewrite Ei, Eu, Ec, Htu, !TrimSpace_trim, Tc by done.
  replace (jor c "none") with c by (by destruct c). assert (Hprop : ∀ k, prop k nr = Ret (get k nr)) by (intros k; by rewrite Hfs).
  rewrite !Hprop. cbn [obind]. rewrite Gi, Gu, Gc. cbn [opt_trim trim_value obind].
  replace (val_or (JStr (trim u)) (JStr [])) with (JStr (trim u)) by (by destruct (trim u)).
  replace (val_or (JStr c) (JStr "none")) with (JStr c) by (by destruct c).
  cbn [trim_value obind]. rewrite trim_trimmed.
  destruct (truthy (trim i)); [|done]. destruct (startsWith "/" (trim i)); [|done].
  destruct (includes "?" (trim i)); [done|]. destruct (has (trim i) seen); [done|].
  destruct (truthy (trim u)); [|done]. cbn [negb]. rewrite (upstream_agrees _ Hu).
  destruct (Server.validateAdvancedCustomUpstreamTarget (trim u)) as [r|] eqn:Er.
  { cbn [negb verdict]. by rewrite (upstream_message _ _ Er). }
  cbn [negb]. rewrite converter_known.
  destruct (Server.IsAdvancedCustomConverterAllowed c) eqn:Ek; [|done]. cbn [negb].
  rewrite (converter_path (trim i) c Ek). destruct (isConverterPathAllowed (trim i) c); [|done]. cbn [negb].
  rewrite Ha. cbn [obind]. by destruct (Server.validateAdvancedCustomRouteAuth (Server.Auth sr)).
Qed.

Lemma routes_refine routes k seen :
  forallb typed_route routes = true →
  ∃ ns ss, omapM normalizeAdvancedCustomRoute routes = Ret ns ∧ mapM Server.decode_route ns = Some ss ∧
    length ns = length routes ∧ length ss = length routes ∧
    (Forall (fun sr => plain_upstream (Server.UpstreamPath sr)) ss →
     validate_routes k seen ns = Ret (console_error <$> Server.validate_all k seen ss)).
Proof.
  revert k seen. induction routes as [|route routes IH]; intros k seen Hr; [by exists [], []|].
  cbn [forallb] in Hr. apply andb_true_iff in Hr as [Hr Hrs].
  destruct (normalize_typed route Hr) as (i & u & c & nr & sr & Hn & Hd & _).
  assert (Hall : ∀ k seen, ∃ ns ss, omapM normalizeAdvancedCustomRoute routes = Ret ns ∧ mapM Server.decode_route ns = Some ss ∧
    length ns = length routes ∧ length ss = length routes ∧
    (Forall (fun sr => plain_upstream (Server.UpstreamPath sr)) ss →
     validate_routes k seen ns = Ret (console_error <$> Server.validate_all k seen ss))) by (intros; by apply IH).
  destruct (Hall 0 []) as (ns & ss & Hns & Hss & Hl1 & Hl2 & _). exists (nr :: ns), (sr :: ss).
  cbn [omapM]. rewrite Hn. cbn [obind]. rewrite Hns. cbn [obind]. split; [done|].
  split; [cbn; by rewrite Hd, Hss|]. split; [cbn; by rewrite Hl1|]. split; [cbn; by rewrite Hl2|].
  cbn [validate_routes Server.validate_all]. intros [Hs1 Hs2]%Forall_cons.
  rewrite (route_refines seen route nr sr) by done. cbn [obind].
  destruct (Server.validate_one seen sr) as [r|p]; [done|]. cbn [verdict].
  destruct (Hall (S k) (p :: seen)) as (ns' & ss' & Hns' & Hss' & _ & _ & Hv).
  rewrite Hns in Hns'. injection Hns' as <-. rewrite Hss in Hss'. injection Hss' as <-. by apply Hv.
Qed.
End refinement.

(** ** The text of a configuration *)

Section text.
Context `{UrlParser}.

(** Normalizing changes neither a normalized route nor its stripped form. *)
Lemma normalized_again (f : jsval → jsval) i u c auth :
  f = strip ∨ f = id → c ≠ [] → trim u = u → auth_shape auth →
  normalizeAdvancedCustomRoute (f (normalized_route i u c auth)) = Ret (normalized_route i u c auth).
Proof.
  intros Hf Hc Hu Ha. set (r := f (normalized_route i u c auth)).
  assert (Gi : prop "incoming_path" r = Ret (JStr i)) by (destruct Hf as [-> | ->]; by destruct Ha).
  assert (Gu : prop "upstream_path" r = Ret (JStr u)) by (destruct Hf as [-> | ->]; by destruct Ha).
  assert (Gc : prop "converter" r = Ret (JStr c)) by (destruct Hf as [-> | ->]; by destruct Ha).
  assert (Ga : prop "auth" r = Ret (default JUndefined (head (map f auth)))) by (destruct Hf as [-> | ->]; by destruct Ha).
  unfold normalizeAdvancedCustomRoute, getAdvancedCustomRouteUpstreamPath. rewrite Gi, Gu, Gc, Ga. cbn [obind].
  replace (val_or (JStr u) (JStr [])) with (JStr u) by by destruct u.
  replace (val_or (JStr i) (JStr [])) with (JStr i) by by destruct i.
  replace (val_or (JStr c) (JStr "none")) with (JStr c) by by destruct c.
  cbn [trim_value obind]. rewrite Hu. cbn [obind]. destruct Ha as [|n v ty Hn Hv Hty]; [done|].
  unfold normalized_route. cbn [map head from_option]. unfold normalized_auth.
  destruct Hf as [-> | ->], ty; try done; destruct n, v; done.
Qed.

Lemma textual_route i u c auth :
  portable i = true → portable u = true → portable c = true → auth_shape auth →
  textual (strip (normalized_route i u c auth)) = true.
Proof.
  assert (Hp : ∀ s, portable s = true → forallb (fun x => x <? 65536)%N s = true).
  { intros s Hs. apply forallb_forall. intros x Hx%list_elem_of_In. apply (forallb_elem _ _ _ Hs) in Hx.
    unfold portable_unit in Hx. bool_hyps. by apply N.ltb_lt. }
  intros Hi Hu Hc Ha. unfold normalized_route. destruct Ha as [|n v ty Hn Hv Hty].
  - cbn [strip app map undefined concat snd fst textual forallb]. by rewrite !Hp.
  - unfold normalized_auth. destruct ty as [| | | |ty| |]; try done;
      cbn [strip app map undefined concat snd fst textual forallb].
    + by rewrite !Hp.
    + cbn in Hty. bool_hyps. by rewrite !Hp.
Qed.

Lemma typed_routes_text routes :
  forallb typed_route routes = true →
  ∃ ns, omapM normalizeAdvancedCustomRoute routes = Ret ns ∧ omapM normalizeAdvancedCustomRoute ns = Ret ns ∧
    omapM normalizeAdvancedCustomRoute (map strip ns) = Ret ns ∧ forallb textual (map strip ns) = true.
Proof.
  induction routes as [|route routes IH]; intros Hr; [by exists []|]. cbn [forallb] in Hr.
  apply andb_true_iff in Hr as [Hr (ns & H1 & H2 & H3 & H4)%IH].
  destruct (normalize_typed route Hr)
    as (i & u & c & nr & sr & Hn & _ & _ & _ & _ & _ & _ & _ & Pi & Pu & Pc & Tc & Nc & _ & (auth & -> & Ha)).
  assert (Hu : trim (trim u) = trim u) by apply trim_trimmed.
  exists (normalized_route i (trim u) c auth :: ns). cbn [omapM map forallb]. rewrite Hn. cbn [obind]. rewrite H1.
  pose proof (normalized_again id i (trim u) c auth) as Hid. unfold id in Hid. rewrite Hid by auto.
  rewrite (normalized_again strip) by auto. cbn [obind]. rewrite H2, H3, H4.
  rewrite textual_route by (done || by apply portable_trim). done.
Qed.

Lemma typed_config_text config :
  typed_config config = true →
  ∃ n t, normalizeAdvancedCustomConfig config = Ret n ∧ stringifyAdvancedCustomConfig config = Ret t ∧
    parseAdvancedCustomConfig (Some t) = Some n ∧ normalizeAdvancedCustomConfig n = Ret n.
Proof.
  destruct config as [| | | | | |fs]; try done. unfold typed_config. intros Hc.
  assert (∃ ns, normalizeAdvancedCustomConfig (JObj fs) = Ret (config_value ns) ∧
    omapM normalizeAdvancedCustomRoute ns = Ret ns ∧
    omapM normalizeAdvancedCustomRoute (map strip ns) = Ret ns ∧ forallb textual (map strip ns) = true)
    as (ns & H1 & H2 & H3 & H4).
  { unfold normalizeAdvancedCustomConfig. cbn [prop obind].
    destruct (get "advanced_routes" (JObj fs)) as [| | | | |l|]; try done; [by exists []|].
    destruct (typed_routes_text l Hc) as (ns & -> & ?). by exists ns. }
  assert (Ht : textual (strip (config_value ns)) = true).
  { cbn [strip config_value map undefined snd fst concat app textual forallb]. by rewrite H4. }
  destruct (JSON_parse_stringify _ Ht) as (t & Hs & Hne & Hp).
  exists (config_value ns), t. split; [done|]. unfold JSON_stringify in Hs. rewrite stringify_strip in Hs.
  split; [unfold stringifyAdvancedCustomConfig; rewrite H1; cbn [obind]; unfold JSON_stringify; by rewrite Hs|].
  split.
  - unfold parseAdvancedCustomConfig. unfold config_value in Hs. rewrite stringify_obj in Hs. injection Hs as Hs.
    assert (∃ t', t = 123%N :: t') as [t' Et].
    { rewrite <- Hs. by eexists. }
    rewrite (proj2 (truthy_true (trim t))) by (rewrite Et; by apply trim_head). cbn [negb]. rewrite Hp.
    cbn [strip config_value map undefined snd fst concat app]. unfold normalizeAdvancedCustomConfig. cbn [prop obind].
    match goal with |- context [get ?k ?x] => change (get k x) with (JArr (map strip ns)) end.
    cbn match. by rewrite H3.
  - unfold normalizeAdvancedCustomConfig, config_value. cbn [prop obind].
    match goal with |- context [get ?k ?x] => change (get k x) with (JArr ns) end.
    cbn match. by rewrite H2.
Qed.
End text.

(** ** Routes that pass the check *)

Section accepted.
Context `{UrlParser}.

(** A route that is fine by itself, with its incoming path [p]. *)
Record route_ok (route : jsval) (p : jstr) : Prop := {
  ok_incoming : (v ⇐ prop "incoming_path" route; opt_trim v) = Ret p;
  ok_slash : startsWith "/" p = true;
  ok_query : includes "?" p = false;
  ok_upstream : ∃ u, getAdvancedCustomRouteUpstreamPath route = Ret u ∧ u ≠ [] ∧ isFullHttpURLOrAbsolutePath u = true;
  ok_converter : ∃ c, val_or (get "converter" route) (JStr "none") = JStr c ∧
    c ∈ map c_value ADVANCED_CUSTOM_CONVERTER_OPTIONS ∧ isConverterPathAllowed p c = true;
  ok_auth : validateRouteAuth (get "auth" route) = Ret None;
}.

Lemma validate_route_ok seen route p :
  validate_route seen route = Ret (inr p) ↔ route_ok route p ∧ p ∉ seen.
Proof.
  unfold validate_route. split.
  - destruct (prop "incoming_path" route) as [|ip] eqn:Ep; [done|]. cbn [obind].
    destruct (opt_trim ip) as [|i] eqn:Ei; [done|]. cbn [obind].
    destruct (getAdvancedCustomRouteUpstreamPath route) as [|u] eqn:Eu; [done|]. cbn [obind].
    destruct (truthy i) eqn:E1; [|done]. destruct (startsWith "/" i) eqn:E2; [|done].
    destruct (includes "?" i) eqn:E3; [done|]. destruct (has i seen) eqn:E4; [done|].
    destruct (truthy u) eqn:E5; [|done]. destruct (isFullHttpURLOrAbsolutePath u) eqn:E6; [|done]. cbn [negb].
    destruct (isAdvancedCustomConverter _) eqn:E7; [|done].
    destruct (val_or (get "converter" route) (JStr "none")) as [| | | |c| |] eqn:Ec; try done.
    destruct (isConverterPathAllowed i c) eqn:E8; [|done]. cbn [negb].
    destruct (validateRouteAuth (get "auth" route)) as [|[e|]] eqn:E9; [done..|]. intros [= <-].
    split; [|by apply has_false in E4]. constructor; try done.
    + by rewrite Ep.
    + exists u. bool_hyps. done.
    + exists c. split; [done|]. split; [|done]. apply existsb_exists in E7 as (o & Ho & <-%jeqb_true).
      apply list_elem_of_In, in_map. done.
  - intros [[Hi Hs Hq (u & Hu & Hun & Hf) (c & Hc & Hin & Hal) Ha] Hseen].
    destruct (prop "incoming_path" route) as [|ip]; [done|]. cbn [obind] in Hi |- *. rewrite Hi. cbn [obind].
    rewrite Hu. cbn [obind]. rewrite (proj2 (truthy_true p)) by (intros ->; done). rewrite Hs, Hq.
    rewrite (proj2 (has_false p seen)) by done. rewrite (proj2 (truthy_true u)) by done. rewrite Hf, Hc, Hal. cbn [negb].
    replace (isAdvancedCustomConverter (JStr c)) with true; [by rewrite Ha|].
    symmetry. apply existsb_exists. apply list_elem_of_In, in_map_iff in Hin as (o & <- & Ho). exists o.
    split; [done|apply jeqb_refl].
Qed.

Lemma validate_routes_ok k seen routes :
  validate_routes k seen routes = Ret None ↔
  ∃ ps, Forall2 route_ok routes ps ∧ NoDup ps ∧ ∀ p, p ∈ ps → p ∉ seen.
Proof.
  revert k seen. induction routes as [|route routes IH]; intros k seen; cbn [validate_routes].
  { split; [|done]. intros _. exists []. split; [constructor|]. split; [constructor|]. intros p Hp. set_solver. }
  split.
  - destruct (validate_route seen route) as [|[e|p]] eqn:E; [done..|]. cbn [obind].
    intros (ps & Hps & Hn & Hd)%IH. apply validate_route_ok in E as [Hok Hp]. exists (p :: ps).
    split; [by constructor|]. split; [|set_solver]. constructor; [|done]. intros Hin. apply (Hd p Hin). left.
  - intros (ps & Hps & Hn & Hd). inversion Hps as [|? p ? ps' Hok Hps']; subst.
    apply NoDup_cons in Hn as [Hp Hn]. rewrite (proj2 (validate_route_ok seen route p)).
    2:{ split; [done|]. apply Hd. left. }
    cbn [obind]. apply IH. exists ps'. split; [done|]. split; [done|]. intros q Hq [->|Hin]%elem_of_cons; [done|].
    apply (Hd q); [by right|done].
Qed.
End accepted.

(** ** Properties *)

(** Parsers for the examples: a scheme, [://], and a host of host name characters. *)
Definition host_unit (c : N) : bool := is_lower c || is_digit c || (c =? 45)%N || (c =? 46)%N.
Definition demo_split (v : jstr) : option (jstr * jstr) :=
  let '(scheme, r) := span (fun c => negb (c =? 58)%N) v in
  if scheme_text scheme && startsWith "://" r then
    let h := (span host_unit (drop 3 r)).1 in
    if truthy h then Some (scheme, h) else None
  else None.
Definition demo_url : UrlParser := fun v _ =>
  (fun sh => MkURL (sh.1 ++ ":") [] [] sh.2 [] "/" [] [] []) <$> demo_split v.
Definition demo_go : Server.GoUrl := demo_split.

Lemma demo_scheme scheme t : scheme_text scheme = true →
  demo_split (scheme ++ "://" ++ t) = if truthy (span host_unit t).1 then Some (scheme, (span host_unit t).1) else None.
Proof.
  intros Hs. unfold demo_split. rewrite (span_app _ scheme ("://" ++ t)); [|destruct scheme as [|c s]; [done|]|by intros c s' [= <- _]].
  - rewrite Hs. by change (drop 3 ("://" ++ t)) with t.
  - cbn [scheme_text] in Hs. apply andb_true_iff in Hs as [H1 H2].
    assert (Hc : ∀ c, is_lower c || is_digit c = true → negb (c =? 58)%N = true).
    { intros x Hx. destruct (x =? 58)%N eqn:E; [apply N.eqb_eq in E; by subst|done]. }
    cbn [forallb]. rewrite (Hc c) by (by rewrite H1). apply forallb_forall. intros x Hx%list_elem_of_In. apply Hc. exact (forallb_elem _ _ _ H2 Hx).
Qed.

Lemma plain_host_units h : plain_host h → forallb host_unit h = true.
Proof.
  assert (Hd : ∀ n, forallb host_unit (js_of_N n) = true).
  { intros n. destruct (js_of_N_spec n) as (_ & Hn & _). apply forallb_forall. intros x Hx%list_elem_of_In.
    pose proof (forallb_elem _ _ _ Hn Hx) as E. unfold host_unit. rewrite E. by rewrite orb_true_r. }
  intros [h' Hh|a b c d _ _ _ _]; [|by rewrite !forallb_app, !Hd]. unfold domain_text in Hh. apply andb_true_iff in Hh as [Hh _].
  assert (Hl : ∀ l, label_text l = true → forallb host_unit l = true).
  { intros [|c l] Hl; [done|]. cbn [label_text] in Hl. apply andb_true_iff in Hl as [H1 H2]. cbn [forallb]. unfold host_unit at 1. rewrite H1.
    apply forallb_forall. intros x Hx%list_elem_of_In. pose proof (forallb_elem _ _ _ H2 Hx) as E. unfold host_unit. by rewrite E. }
  apply forallb_forall. intros x Hx%list_elem_of_In. destruct (split_char_covers 46 h' x Hx) as [->|(w & Hw & Hxw)]; [done|].
  exact (forallb_elem _ _ _ (Hl w (forallb_elem _ _ _ Hh Hw)) Hxw).
Qed.

Lemma demo_address scheme host v : web_address scheme host v → demo_split v = Some (scheme, host).
Proof.
  intros Hv. destruct (web_scheme _ _ _ Hv) as (_ & Hs & _ & Hne & _). destruct Hv as [scheme host port path Hin Hh Hp Hr].
  rewrite demo_scheme by done. rewrite (span_app host_unit host (port ++ path)); [|by apply plain_host_units|].
  - cbn [fst]. by rewrite (proj2 (truthy_true host) Hne).
  - intros c r' E. destruct Hp as [|p _]; [|by injection E as <- _]. destruct Hr as [|r _]; [done|by injection E as <- _].
Qed.

Lemma demo_relative v : 58%N ∉ v → demo_split v = None.
Proof.
  intros Hv. unfold demo_split. rewrite <- (app_nil_r v), (span_app _ v []); [by rewrite andb_false_r| |done].
  apply forallb_forall. intros x Hx%list_elem_of_In. apply negb_true_iff, N.eqb_neq. by intros ->.
Qed.

#[local] Instance demo_url_standard : @UrlStandard demo_url.
Proof.
  split; unfold new_URL, demo_url.
  - intros scheme t u Hs. rewrite demo_scheme by done. case_if; [|done]. by intros [= <-].
  - intros scheme host v Hv. rewrite (demo_address _ _ _ Hv). by eexists.
  - intros v Hv. by rewrite demo_relative.
Qed.

#[local] Instance demo_go_package : @GoUrlPackage demo_go.
Proof.
  split; unfold Server.url_Parse, demo_go.
  - intros scheme t s h Hs. rewrite demo_scheme by done. case_if; [|done]. by intros [= <- _].
  - intros scheme host v Hv. exists host. split; [by apply demo_address|]. by destruct (web_scheme _ _ _ Hv) as (_ & _ & _ & ? & _).
  - intros v s h Hv. by rewrite demo_relative.
Qed.

Definition demo_config : jsval :=
  config_value [route_value " /v1/chat/completions " "https://api.example.com:8443/v1/chat" "none" bearerHeaderAuth;
                route_value "/v1/messages" "/v1/messages" [] [];
                route_value "/v1/responses" "ftp://api.example.com" [] []].

(** C20: the console checks exactly what the server checks.  For a configuration of
    the declared type (texts that both trim alike; converter and authentication
    type without surrounding blanks), what the console sends is decoded by the
    server, and when its upstream texts are plain (anything that starts with a slash, an http
    or https address with a plain host, port and path, anything after another
    scheme and [://], anything without colon), the console
    reports precisely the server's verdict: the same route, the same reason, or no
    error.  Of the two URL parsers only what their specifications say of these
    forms is assumed. *)
Theorem console_refines_server `{UrlStandard} `{GoUrlPackage} (config : jsval) :
  typed_config config = true →
  ∃ n ss, normalizeAdvancedCustomConfig config = Ret n ∧ Server.decode n = Some ss ∧
    (Forall (fun sr => plain_upstream (Server.UpstreamPath sr)) ss →
     validateAdvancedCustomConfig config = Ret (console_error <$> Server.Validate ss)).
Proof.
  destruct config as [| | | | | |fs]; try done. unfold typed_config. intros Hc.
  unfold validateAdvancedCustomConfig, normalizeAdvancedCustomConfig. cbn [prop obind val_truthy negb].
  destruct (get "advanced_routes" (JObj fs)) as [| | | | |l|] eqn:Eg; try done.
  - exists (config_value []), []. by cbn.
  - destruct (routes_refine l 0 [] Hc) as (ns & ss & Hns & Hss & Hl1 & Hl2 & Hv).
    exists (config_value ns), ss. rewrite Hns. cbn [obind]. split; [done|]. split; [done|].
    intros Hu. change (routes_of (config_value ns)) with ns. unfold Server.Validate.
    destruct ns as [|n ns], ss as [|sr ss], l; try done. by apply Hv.
Qed.

Lemma console_refines_server_witness :
  let H := demo_url in let H0 := demo_go in
  ∃ n ss, normalizeAdvancedCustomConfig demo_config = Ret n ∧ Server.decode n = Some ss ∧
    Server.Validate ss = Some (Server.route_error 2 Server.upstream_scheme) ∧
    validateAdvancedCustomConfig demo_config = Ret (console_error <$> Server.Validate ss).
Proof.
  intros H H0. destruct (console_refines_server demo_config) as (n & ss & Hn & Hd & Hv); [by vm_compute|].
  assert (E : ss = default [] (Server.decode (match normalizeAdvancedCustomConfig demo_config with Ret n => n | Throws => JUndefined end)))
    by (by rewrite Hn, Hd).
  exists n, ss. split; [done|]. split; [done|]. split; [subst ss; by vm_compute|]. apply Hv. subst ss. vm_compute (default _ _).
  constructor; [|constructor; [|constructor; [|constructor]]].
  - apply upstream_web with "https" "api.example.com".
    apply (web_address_intro "https" "api.example.com" ":8443" "/v1/chat");
      [by right; left|by apply host_domain|by apply (port_some 8443)|by apply (path_some "v1/chat")].
  - by apply upstream_path.
  - apply (upstream_other "ftp" "api.example.com"); [done|]. rewrite !elem_of_cons, elem_of_nil. by intros [|[|]].
Defined.

(** What passes the check is well-formed, whatever value it was read from, and
    the other way round: there is at least one route, each has an incoming path
    that starts with a slash and has no query, no two share one, each upstream is
    a path or an http(s) address with a host, each converter is registered and
    fits its path, and the authentication is complete. *)
Theorem accepted_routes_well_formed `{UrlParser} (config n : jsval) :
  normalizeAdvancedCustomConfig config = Ret n →
  validateAdvancedCustomConfig config = Ret None ↔
  val_truthy config = true ∧ routes_of n ≠ [] ∧ ∃ ps, Forall2 route_ok (routes_of n) ps ∧ NoDup ps.
Proof.
  intros Hn. unfold validateAdvancedCustomConfig. rewrite Hn. cbn [obind].
  destruct (val_truthy config); cbn [negb]; [|naive_solver]. destruct (routes_of n) as [|r rs] eqn:Er; [naive_solver|].
  rewrite validate_routes_ok. split.
  - intros (ps & H1 & H2 & _). split; [done|]. split; [done|]. by exists ps.
  - intros (_ & _ & ps & H1 & H2). exists ps. split; [done|]. split; [done|]. set_solver.
Qed.

Lemma accepted_routes_well_formed_witness :
  let H := demo_url in
  ∃ n, normalizeAdvancedCustomConfig demo_config = Ret n ∧
    (validateAdvancedCustomConfig demo_config = Ret None ↔
     val_truthy demo_config = true ∧ routes_of n ≠ [] ∧ ∃ ps, Forall2 route_ok (routes_of n) ps ∧ NoDup ps).
Proof.
  intros H. destruct (normalizeAdvancedCustomConfig demo_config) as [|n] eqn:E; [by vm_compute in E|].
  exists n. split; [done|]. by apply accepted_routes_well_formed.
Defined.

(** The text of a configuration reads back: parsing what
    [stringifyAdvancedCustomConfig] writes for a configuration of the declared type
    gives its normal form, and normalizing that again changes nothing. *)
Theorem config_text_roundtrip `{UrlParser} (config : jsval) :
  typed_config config = true →
  ∃ n t, normalizeAdvancedCustomConfig config = Ret n ∧ stringifyAdvancedCustomConfig config = Ret t ∧
    parseAdvancedCustomConfig (Some t) = Some n ∧ normalizeAdvancedCustomConfig n = Ret n.
Proof. apply typed_config_text. Qed.

Lemma config_text_roundtrip_witness :
  let H := demo_url in
  typed_config demo_config = true ∧
  ∃ n t, normalizeAdvancedCustomConfig demo_config = Ret n ∧ stringifyAdvancedCustomConfig demo_config = Ret t ∧
    parseAdvancedCustomConfig (Some t) = Some n ∧ normalizeAdvancedCustomConfig n = Ret n.
Proof. intros H. split; [by vm_compute|]. apply config_text_roundtrip. by vm_compute. Defined.

(** The editor offers nothing that the check rejects: every converter offered
    for a path fits it, every path offered for a registered converter fits it and
    there is one, and every template and the new route pass the check, whatever
    the URL parser. *)
Theorem editor_choices_pass `{UrlParser} :
  (∀ p o, o ∈ getAdvancedCustomConverterOptions p →
     isAdvancedCustomConverter (JStr (c_value o)) = true ∧ isConverterPathAllowed (trim p) (c_value o) = true) ∧
  (∀ c, isAdvancedCustomConverter (JStr c) = true →
     getAdvancedCustomIncomingPathOptions c ≠ [] ∧
     isAdvancedCustomIncomingPathAllowed (getDefaultAdvancedCustomIncomingPath c) c = true ∧
     ∀ o, o ∈ getAdvancedCustomIncomingPathOptions c → isConverterPathAllowed (c_value o) c = true) ∧
  (∀ k, validateAdvancedCustomConfig (getAdvancedCustomTemplateConfig k) = Ret None) ∧
  validateAdvancedCustomConfig createAdvancedCustomConfig = Ret None.
Proof.
  split; [|split; [|split]].
  - intros p o Ho. unfold getAdvancedCustomConverterOptions in Ho. rewrite list_elem_of_In, filter_In in Ho.
    destruct Ho as [Hin Ho]. split.
    + apply existsb_exists. exists o. split; [done|apply jeqb_refl].
    + apply orb_true_iff in Ho as [->%jeqb_true|Ho]; [done|done].
  - intros c Hc. apply existsb_exists in Hc as (o & Ho & <-%jeqb_true). split; [|split].
    + cbn in Ho. destruct_or? Ho; subst; by vm_compute.
    + cbn in Ho. destruct_or? Ho; subst; by vm_compute.
    + intros o' Ho'. unfold getAdvancedCustomIncomingPathOptions in Ho'. rewrite list_elem_of_In, filter_In in Ho'.
      by destruct Ho'.
  - intros k. unfold getAdvancedCustomTemplateConfig.
    destruct (List.find _ _) as [o|] eqn:Ef; [|by vm_compute]. apply find_some in Ef as [Hin _].
    cbn in Hin. destruct_or? Hin; subst; by vm_compute.
  - by vm_compute.
Qed.

(** The summary of a configuration whose incoming path is not a text throws:
    normalization keeps the value and the summary trims it. *)
Theorem stats_throw_on_number `{UrlParser} :
  getAdvancedCustomStats (Some ("{" ++ [34%N] ++ "advanced_routes" ++ [34%N] ++ ":[{" ++ [34%N] ++ "incoming_path"
    ++ [34%N] ++ ":5}]}")) = Throws.
Proof. by vm_compute. Qed.

(** A special scheme without slashes: the URL standard reads a host after it, [url.Parse] an
    opaque part.  The console accepts the address and the server refuses it. *)
Example http_without_slashes (H : UrlParser) (G : Server.GoUrl) :
  new_URL "http:example.com" None = Some (MkURL "http:" [] [] "example.com" [] "/" [] [] []) →
  Server.url_Parse "http:example.com" = Some ("http"%js, []) →
  isFullHttpURLOrAbsolutePath "http:example.com" = true ∧
  Server.validateAdvancedCustomUpstreamTarget "http:example.com" = Some Server.upstream_form.
Proof.
  intros Hu Hg. unfold isFullHttpURLOrAbsolutePath, Server.validateAdvancedCustomUpstreamTarget. rewrite Hu, Hg. by vm_compute.
Qed.
