(* ===== verification/ChannelUtils.v ===== *)
(** * Channel utilities

    Model of the decisions in [features/channels/lib/channel-utils.ts]: masking and
    counting of keys, lists of models, settings texts, channels that need attention,
    the grouping of channels by tag and the removal of repeated keys.

    Labels, icons and the formatting of money and time are presentation; the sorting
    of group names compares in the browser's collation and is left out.

    Numbers are IEEE doubles.  The table rows are objects that the loop keeps
    updating; every row is in the map and in the result at once, so one map from
    tags to rows in insertion order stands for both. *)

From S2P Require Import Prelude JsValue JsText.

(** [number | null | undefined] *)
Inductive nnum := NUndefined | NNull | NNum (n : num).

(** [a === b] *)
Definition nnum_eqb (a b : nnum) : bool :=
  match a, b with
  | NUndefined, NUndefined | NNull, NNull => true
  | NNum x, NNum y => num_eqb x y
  | _, _ => false
  end.

Inductive MultiKeyMode := random | polling.

Record ChannelInfo := MkChannelInfo {
  is_multi_key : bool; multi_key_size : num; multi_key_status_list : option (list (jstr * num));
  multi_key_disabled_reason : option (list (jstr * jstr)); multi_key_disabled_time : option (list (jstr * num));
  multi_key_polling_index : num; multi_key_mode : MultiKeyMode;
}.

Record Channel := MkChannel {
  ch_id : num; ch_type : num; ch_key : jstr; openai_organization : option jstr; test_model : option jstr; ch_status : num;
  ch_name : jstr; ch_weight : nnum; created_time : num; test_time : num; response_time : num; base_url : option jstr;
  ch_other : jstr; balance : num; balance_updated_time : num; ch_models : jstr; ch_group : jstr; used_quota : num;
  model_mapping : option jstr; status_code_mapping : option jstr; ch_priority : nnum; auto_ban : nnum; other_info : jstr;
  ch_tag : option jstr; ch_setting : option jstr; param_override : option jstr; header_override : option jstr; remark : jstr;
  max_input_tokens : num; channel_info : option ChannelInfo; ch_settings : jstr;
}.

Definition num_is (x : num) (z : Z) : bool := num_eqb x (num_of_Z z).

Definition isChannelEnabled (channel : Channel) : bool := num_is (ch_status channel) 1.

Definition isMultiKeyChannel (channel : Channel) : bool :=
  match channel_info channel with Some i => is_multi_key i | None => false end.

(** ** Keys *)

(** [s.slice(-n)] *)
Definition slice_end (n : nat) (s : jstr) : jstr := drop (length s - n) s.

Definition NEWLINE : N := 10.

(** The lines that are not blank. *)
Definition key_lines (key : jstr) : list jstr := List.filter (fun k => truthy (trim k)) (split_char NEWLINE key).

Definition formatChannelKey (key : jstr) (isMultiKey : bool) : jstr :=
  if negb (truthy key) then []
  else if isMultiKey then js_of_N (N.of_nat (length (key_lines key))) ++ " keys"
  else if length key <=? 16 then take 4 key ++ "..." ++ slice_end 4 key
  else take 8 key ++ "..." ++ slice_end 8 key.

Definition formatKeyPreview (key : jstr) (maxLength : nat) : jstr :=
  if negb (truthy key) then [] else if length key <=? maxLength then key else take maxLength key ++ "...".

Definition countKeys (key : jstr) : nat := if negb (truthy key) then 0 else length (key_lines key).

Record DeduplicateResult := MkDedup { deduplicatedText : jstr; beforeCount : nat; afterCount : nat; removedCount : Z }.

(** [keySet] holds what [deduplicatedKeys] holds. *)
Definition dedup_line (deduplicatedKeys : list jstr) (line : jstr) : list jstr :=
  let trimmedLine := trim line in
  if truthy trimmedLine && negb (has trimmedLine deduplicatedKeys) then deduplicatedKeys ++ [trimmedLine] else deduplicatedKeys.

Definition deduplicateKeys (keysText : jstr) : DeduplicateResult :=
  if negb (truthy keysText) || (trim keysText === []) then MkDedup [] 0 0 0
  else
    let keyLines := split_char NEWLINE keysText in
    let deduplicatedKeys := foldl dedup_line [] keyLines in
    MkDedup (join [NEWLINE] deduplicatedKeys) (length keyLines) (length deduplicatedKeys)
      (Z.of_nat (length keyLines) - Z.of_nat (length deduplicatedKeys)).

(** ** Lists, settings and validation *)

Definition COMMA : N := 44.

Definition parseModelsList (models : jstr) : list jstr :=
  if negb (truthy models) then []
  else List.filter (fun m => 0 <? length m) (map trim (split_char COMMA models)).

Definition formatModelsString (models : list jstr) : jstr := join [COMMA] models.
Definition formatGroupsString (groups : list jstr) : jstr := join [COMMA] groups.

Definition parseChannelSettings (settingStr : option jstr) : jsval :=
  match settingStr with None | Some [] => JObj [] | Some s => default (JObj []) (JSON_parse s) end.

Definition parseChannelOtherSettings (settingsStr : option jstr) : jsval :=
  match settingsStr with
  | None | Some [] => JObj []
  | Some s => if s === "{}" then JObj [] else default (JObj []) (JSON_parse s)
  end.

Definition validateChannelSettings (settings : jstr) : bool :=
  if negb (truthy settings) || (trim settings === []) then true
  else match JSON_parse settings with Some _ => true | None => false end.

Definition validateChannelName (name : jstr) : bool := 0 <? length (trim name).
Definition validateApiKey (key : jstr) : bool := 0 <? length (trim key).
Definition validateModels (models : jstr) : bool := 0 <? length (parseModelsList models).

Inductive BalanceVariant := BalanceSuccess | BalanceWarning | BalanceDanger | BalanceNeutral.

Definition getBalanceVariant (balance : num) : BalanceVariant :=
  if num_is balance 0 then BalanceNeutral
  else if num_ltb balance (num_of_Z 1) then BalanceDanger
  else if num_ltb balance (num_of_Z 10) then BalanceWarning
  else BalanceSuccess.

Definition getPriorityDisplay (priority : nnum) : jstr := match priority with NNum n => number_to_string n | _ => "0" end.
Definition getWeightDisplay (weight : nnum) : jstr := match weight with NNum n => number_to_string n | _ => "0" end.

Definition low_balance (channel : Channel) : bool :=
  num_ltb (num_of_Z 0) (balance channel) && num_ltb (balance channel) (num_of_Z 1).

(** [Object.keys(list).length >= size] *)
Definition all_keys_disabled (channel : Channel) : bool :=
  match channel_info channel with
  | Some i =>
    is_multi_key i &&
    match multi_key_status_list i with
    | Some l => num_leb (multi_key_size i) (num_of_Z (Z.of_nat (length l)))
    | None => false
    end
  | None => false
  end.

Definition channelNeedsAttention (channel : Channel) : bool :=
  if num_is (ch_status channel) 3 then true
  else if low_balance channel then true
  else if all_keys_disabled channel then true
  else false.

Definition getAttentionReason (channel : Channel) : option jstr :=
  if num_is (ch_status channel) 3 then Some "Auto-disabled"
  else if low_balance channel then Some "Low balance"
  else if all_keys_disabled channel then Some "All keys disabled"
  else None.

(** ** Rows by tag *)

(** The members of a row that the loop changes, its tag (also its key, id and name), and the
    channel the other members are copied from.  Type, balance and times are 0, models empty. *)
Record TagRow := MkTagRow {
  t_tag : jstr; t_base : Channel; t_status : option num; t_group : jstr; t_used_quota : num; t_response_time : num;
  t_priority : nnum; t_weight : nnum; children : list Channel;
}.

Definition tag_of (channel : Channel) : jstr := default [] (ch_tag channel).

Definition new_row (tag : jstr) (channel : Channel) : TagRow :=
  MkTagRow tag channel None [] (num_of_Z 0) (num_of_Z 0) (NNum (num_of_Z (-1))) (NNum (num_of_Z (-1))) [].

(** Same value or null if different; -1 stands for no value yet. *)
Definition merge_value (current new : nnum) : nnum :=
  if nnum_eqb current (NNum (num_of_Z (-1))) then new
  else if negb (nnum_eqb current new) then NNull
  else current.

(** [s.split(',').filter(Boolean)] *)
Definition group_names (s : jstr) : list jstr := List.filter truthy (split_char COMMA s).

Definition merge_group (current new : jstr) : jstr :=
  if current === [] then new
  else
    let existingGroups := group_names current in
    foldl (fun group g => if has g existingGroups then group else group ++ [COMMA] ++ g) current (group_names new).

Definition merge_status (current : option num) (new : num) : option num :=
  if num_is new 1 then Some (num_of_Z 1) else match current with None => Some new | Some s => Some s end.

Definition add_child (row : TagRow) (channel : Channel) : TagRow :=
  let childCount := num_of_Z (Z.of_nat (length (children row) + 1)) in
  MkTagRow (t_tag row) (t_base row) (merge_status (t_status row) (ch_status channel)) (merge_group (t_group row) (ch_group channel))
    (num_add (t_used_quota row) (used_quota channel))
    (num_div (num_add (num_mul (t_response_time row) (num_sub childCount (num_of_Z 1))) (response_time channel)) childCount)
    (merge_value (t_priority row) (ch_priority channel)) (merge_value (t_weight row) (ch_weight channel))
    (children row ++ [channel]).

Definition aggregate_step (rows : list (jstr * TagRow)) (channel : Channel) : list (jstr * TagRow) :=
  let tag := tag_of channel in
  let row := match map_get tag rows with Some row => row | None => new_row tag channel end in
  map_set tag (add_child row channel) rows.

Definition aggregateChannelsByTag (channels : list Channel) : list TagRow := map snd (foldl aggregate_step [] channels).

(** ** Lemmas *)

Lemma dedup_go_snoc {A} `{EqDecision A} (l : list A) x : ∀ seen,
  dedup_go seen (l ++ [x]) = if decide (x ∈ seen ∨ x ∈ l) then dedup_go seen l else dedup_go seen l ++ [x].
Proof.
  induction l as [|y l IH]; intros seen; cbn [app dedup_go].
  - case_decide as H1; case_decide as H2; try done; [by destruct H2; left|]. exfalso. destruct H2 as [|H2]; [done|]. by apply elem_of_nil in H2.
  - rewrite !IH. case_decide as H1; repeat case_decide; try done; set_solver.
Qed.

Lemma dedup_snoc {A} `{EqDecision A} (l : list A) x : dedup (l ++ [x]) = if decide (x ∈ l) then dedup l else dedup l ++ [x].
Proof.
  unfold dedup. rewrite dedup_go_snoc. case_decide as H1; case_decide as H2; try done; [|set_solver].
  destruct H1 as [H1|]; [by apply elem_of_nil in H1|done].
Qed.

(** *** Rows *)

Definition with_tag (tag : jstr) (cs : list Channel) : list Channel := List.filter (fun c => tag_of c === tag) cs.

(** The row of a tag, made from its channels alone. *)
Definition row_of (tag : jstr) (cs : list Channel) : option TagRow :=
  match with_tag tag cs with [] => None | c :: l => Some (foldl add_child (new_row tag c) (c :: l)) end.

Lemma row_of_snoc_eq cs c :
  row_of (tag_of c) (cs ++ [c]) =
  Some (add_child (match row_of (tag_of c) cs with Some row => row | None => new_row (tag_of c) c end) c).
Proof.
  unfold row_of, with_tag. rewrite List.filter_app. cbn [List.filter]. rewrite jeqb_refl.
  destruct (List.filter _ cs) as [|d l]; [done|]. cbn [app]. by rewrite app_comm_cons, foldl_app.
Qed.

Lemma row_of_snoc_ne tag cs c : tag ≠ tag_of c → row_of tag (cs ++ [c]) = row_of tag cs.
Proof.
  intros Hne. unfold row_of, with_tag. rewrite List.filter_app. cbn [List.filter].
  destruct (jeqb_spec (tag_of c) tag); [by subst|]. by rewrite app_nil_r.
Qed.

(** Every step keeps the rows of the channels read so far. *)
Lemma aggregate_rows cs :
  map fst (foldl aggregate_step [] cs) = dedup (map tag_of cs) ∧
  ∀ tag, map_get tag (foldl aggregate_step [] cs) = row_of tag cs.
Proof.
  induction cs as [|c cs [IHk IHr]] using rev_ind; [done|]. rewrite foldl_app, map_app. cbn [foldl map].
  set (rows := foldl aggregate_step [] cs) in *. unfold aggregate_step. rewrite IHr. split.
  - rewrite map_set_keys, dedup_snoc, IHk. repeat case_decide; try done; exfalso;
      match goal with H : ¬ _, H' : _ |- _ => apply H end; by apply elem_of_dedup.
  - intros tag. destruct (decide (tag = tag_of c)) as [->|Hne].
    + by rewrite map_get_set_eq, row_of_snoc_eq.
    + by rewrite map_get_set_ne, row_of_snoc_ne.
Qed.

Lemma row_of_tag tag cs row : row_of tag cs = Some row → t_tag row = tag.
Proof.
  unfold row_of. destruct (with_tag tag cs) as [|c l]; [done|]. intros [= <-].
  assert (H : ∀ l r, t_tag (foldl add_child r l) = t_tag r) by (clear; induction l as [|d l IH]; intros r; [done|]; cbn [foldl]; by rewrite IH).
  exact (H (c :: l) (new_row tag c)).
Qed.

(** *** What a row adds up *)

Lemma children_sum l : ∀ row,
  let row' := foldl add_child row l in
  children row' = children row ++ l ∧ t_used_quota row' = foldl num_add (t_used_quota row) (map used_quota l).
Proof.
  induction l as [|c l IH]; intros row row'; [by rewrite app_nil_r|]. unfold row'. cbn [foldl map].
  destruct (IH (add_child row c)) as [-> ->]. cbn. by rewrite <- app_assoc.
Qed.

Lemma status_some l : ∀ row s, t_status row = Some s →
  t_status (foldl add_child row l) = Some (if existsb isChannelEnabled l then num_of_Z 1 else s).
Proof.
  induction l as [|c l IH]; intros row s Hs; [done|]. cbn [foldl existsb]. unfold isChannelEnabled at 1.
  assert (E : t_status (add_child row c) = Some (if num_is (ch_status c) 1 then num_of_Z 1 else s)).
  { cbn [t_status add_child]. unfold merge_status. rewrite Hs. by destruct (num_is _ 1). }
  rewrite (IH _ _ E). by destruct (num_is (ch_status c) 1), (existsb isChannelEnabled l).
Qed.

(** *** Groups *)

Lemma group_names_app a b : group_names (a ++ [COMMA] ++ b) = group_names a ++ group_names b.
Proof. unfold group_names. cbn [app]. by rewrite split_char_app, List.filter_app. Qed.

Lemma group_name_alone g s : g ∈ group_names s → group_names g = [g].
Proof.
  unfold group_names. intros [Hin Ht]%list_elem_of_In%filter_In. apply list_elem_of_In in Hin.
  pose proof (split_char_pieces COMMA s) as Hc. rewrite Forall_forall in Hc. rewrite split_char_no_sep by auto.
  cbn [List.filter]. by rewrite Ht.
Qed.

Lemma group_fold (existing : list jstr) news : ∀ current g,
  (∀ x, x ∈ news → group_names x = [x]) →
  g ∈ group_names (foldl (fun group x => if has x existing then group else group ++ [COMMA] ++ x) current news) ↔
  g ∈ group_names current ∨ (g ∈ news ∧ g ∉ existing).
Proof.
  induction news as [|x news IH]; intros current g Hx; cbn [foldl]; [set_solver|]. rewrite IH by set_solver.
  unfold has. case_bool_decide as Hin; [set_solver|]. rewrite group_names_app, (Hx x) by set_solver. set_solver.
Qed.

Lemma merge_group_names a b g : g ∈ group_names (merge_group a b) ↔ g ∈ group_names a ∨ g ∈ group_names b.
Proof.
  unfold merge_group. destruct (jeqb_spec a []) as [->|_]; [by split; [right|intros [H|H]; [by apply elem_of_nil in H|]]|].
  cbv zeta. rewrite group_fold by (intros x; apply group_name_alone). destruct (decide (g ∈ group_names a)); set_solver.
Qed.

Lemma groups_union l : ∀ row g,
  g ∈ group_names (t_group (foldl add_child row l)) ↔ g ∈ group_names (t_group row) ∨ ∃ c, c ∈ l ∧ g ∈ group_names (ch_group c).
Proof.
  induction l as [|c l IH]; intros row g; cbn [foldl]; [set_solver|]. rewrite IH. cbn [t_group add_child].
  rewrite merge_group_names. set_solver.
Qed.

(** C38: The table of tags is exact: one row for every tag, in the order of first appearance;
    a row holds exactly the channels of its tag in their order, adds up their quota, is
    enabled when one of them is and has the status of the first otherwise, and names exactly
    their groups. *)
Theorem tag_rows_exact cs :
  map t_tag (aggregateChannelsByTag cs) = dedup (map tag_of cs) ∧
  ∀ row, row ∈ aggregateChannelsByTag cs → ∃ first rest,
    with_tag (t_tag row) cs = first :: rest ∧ children row = first :: rest ∧
    t_used_quota row = foldl num_add (num_of_Z 0) (map used_quota (first :: rest)) ∧
    t_status row = Some (if existsb isChannelEnabled (first :: rest) then num_of_Z 1 else ch_status first) ∧
    ∀ g, g ∈ group_names (t_group row) ↔ ∃ c, c ∈ first :: rest ∧ g ∈ group_names (ch_group c).
Proof.
  destruct (aggregate_rows cs) as [Hk Hr]. unfold aggregateChannelsByTag.
  assert (Hnd : NoDup (map fst (foldl aggregate_step [] cs))) by (rewrite Hk; apply NoDup_dedup).
  assert (Hrow : ∀ kr, kr ∈ foldl aggregate_step [] cs → row_of kr.1 cs = Some kr.2).
  { intros [k row] Hin. apply elem_map_get in Hin; [|done]. by rewrite Hr in Hin. }
  split.
  - rewrite <- Hk, map_map. apply map_ext_in. intros kr Hin%list_elem_of_In. by eapply row_of_tag, Hrow.
  - intros row (kr & -> & Hin%Hrow)%list_elem_of_fmap. pose proof (row_of_tag _ _ _ Hin) as ->.
    unfold row_of in Hin. destruct (with_tag _ cs) as [|c l] eqn:El; [done|]. exists c, l. split; [done|].
    injection Hin as Hin.
    change (foldl add_child (new_row kr.1 c) (c :: l) = kr.2) in Hin. rewrite <- Hin. destruct (children_sum (c :: l) (new_row kr.1 c)) as [-> ->].
    split; [done|]. split; [done|]. split.
    + cbn [foldl existsb]. rewrite (status_some l _ (if num_is (ch_status c) 1 then num_of_Z 1 else ch_status c)).
      * unfold isChannelEnabled at 2. by destruct (num_is (ch_status c) 1), (existsb isChannelEnabled l).
      * cbn. unfold merge_status. by destruct (num_is _ 1).
    + intros g. rewrite groups_union. cbn [t_group new_row]. split; [intros [H|H]; [by apply elem_of_nil in H|done]|by right].
Qed.

(** *** Keys *)

Lemma take_app_exact {A} (a b : list A) n : n = length a → take n (a ++ b) = a.
Proof. intros ->. apply take_app_length. Qed.

Lemma slice_end_app a z n : n = length z → slice_end n (a ++ z) = z.
Proof. intros ->. unfold slice_end. rewrite length_app, Nat.add_sub. apply drop_app_length. Qed.

(** The display of a key of more than sixteen units shows its first and last eight units
    and nothing of what is between them, not even how much there is. *)
Theorem long_keys_masked a m z :
  length a = 8 → length z = 8 → m ≠ [] → formatChannelKey (a ++ m ++ z) false = a ++ "..." ++ z.
Proof.
  intros Ha Hz Hm. unfold formatChannelKey. assert (Ht : truthy (a ++ m ++ z) = true) by (by destruct a).
  rewrite Ht, (proj2 (Nat.leb_gt _ _)); [|rewrite !length_app; destruct m; [done|cbn; lia]]. cbn [negb].
  rewrite take_app_exact by lia. assert (slice_end 8 (a ++ m ++ z) = z) as -> by (rewrite (app_assoc a m z); by apply slice_end_app).
  done.
Qed.

(** A key of four to eight units is shown whole. *)
Lemma short_key_shown key : 4 ≤ length key ≤ 8 → ∃ k, formatChannelKey key false = take 4 key ++ "..." ++ drop k key ∧ k ≤ 4.
Proof.
  intros Hk. unfold formatChannelKey, slice_end. destruct key as [|c key]; [cbn in Hk; lia|]. set (s := c :: key) in *.
  rewrite (proj2 (Nat.leb_le _ _)) by lia. exists (length s - 4). split; [done|lia].
Qed.

Lemma dedup_go_ext {A} `{EqDecision A} (l : list A) : ∀ s s', (∀ x, x ∈ s ↔ x ∈ s') → dedup_go s l = dedup_go s' l.
Proof.
  induction l as [|x l IH]; intros s s' Hs; [done|]. cbn [dedup_go]. specialize (Hs x) as Hx.
  repeat case_decide; try (by apply IH); try tauto. f_equal. apply IH. set_solver.
Qed.

Lemma dedup_line_spec lines : ∀ acc,
  foldl dedup_line acc lines = acc ++ dedup_go acc (List.filter truthy (map trim lines)).
Proof.
  induction lines as [|w lines IH]; intros acc; cbn [foldl map List.filter]; [by rewrite app_nil_r|].
  rewrite IH. unfold dedup_line. destruct (truthy (trim w)); [|done]. cbn [andb dedup_go]. unfold has.
  case_bool_decide as Hin; cbn [negb]; [by rewrite decide_True|]. rewrite decide_False, <- app_assoc by done. cbn [app].
  do 2 f_equal. apply dedup_go_ext. intros x. rewrite elem_of_app. set_solver.
Qed.

(** The keys of a text: its lines without the spaces around them, blank lines left out. *)
Definition keys_of (text : jstr) : list jstr := List.filter truthy (map trim (split_char NEWLINE text)).

Lemma trim_nil_ws s : trim s = [] ↔ Forall (fun c => is_ws c = true) s.
Proof.
  destruct (trimStart_decomp s) as (w & Es & Hw). split.
  - intros Ht. unfold trim in Ht. destruct (trimEnd_decomp (trimStart s)) as (w' & E' & Hw'). rewrite Ht in E'. cbn in E'.
    rewrite Es, E'. by apply Forall_app.
  - intros Hs. assert (Hn : trimStart s = []).
    { destruct (trimStart s) as [|c r] eqn:E; [done|]. apply trimStart_head in E as Hc. rewrite Es in Hs.
      apply Forall_app in Hs as [_ [Hc' _]%Forall_cons]. congruence. }
    unfold trim. by rewrite Hn.
Qed.

Lemma keys_of_blank text : trim text = [] → keys_of text = [].
Proof.
  intros Ht. unfold keys_of. assert (Hb : ∀ w, w ∈ split_char NEWLINE text → trim w = []).
  { intros w Hw. apply trim_nil_ws in Ht. apply trim_nil_ws. rewrite Forall_forall in *. intros c Hc. by eapply Ht, split_char_elem. }
  induction (split_char NEWLINE text) as [|w ws IH]; [done|]. cbn [map List.filter]. rewrite (Hb w) by left. cbn.
  apply IH. intros w' Hw'. apply Hb. by right.
Qed.

Lemma keys_of_clean text k : k ∈ keys_of text → (NEWLINE ∉ k) ∧ trim k = k ∧ truthy k = true.
Proof.
  unfold keys_of. intros [Hin Ht]%list_elem_of_In%filter_In. apply in_map_iff in Hin as (w & <- & Hw%list_elem_of_In).
  pose proof (split_char_pieces NEWLINE text) as Hp. rewrite Forall_forall in Hp. split; [|split; [apply trim_trimmed|done]].
  intros Hn%trim_elem_of. by apply (Hp w).
Qed.

Lemma dedup_text text : deduplicatedText (deduplicateKeys text) = join [NEWLINE] (dedup (keys_of text)) ∧
  afterCount (deduplicateKeys text) = length (dedup (keys_of text)).
Proof.
  unfold deduplicateKeys. destruct (negb (truthy text) || (trim text === [])) eqn:E.
  - assert (Hb : trim text = []).
    { apply orb_true_iff in E as [E|E]; [by destruct text|by apply jeqb_true]. }
    by rewrite keys_of_blank.
  - cbn. rewrite dedup_line_spec. done.
Qed.

Lemma keys_of_join ks : (∀ k, k ∈ ks → (NEWLINE ∉ k) ∧ trim k = k ∧ truthy k = true) → keys_of (join [NEWLINE] ks) = ks.
Proof.
  intros Hks. destruct ks as [|k ks]; [done|]. unfold keys_of. rewrite split_char_join; [|done|].
  - set (l := k :: ks) in *. clearbody l. induction l as [|x l IH]; [done|]. cbn [map List.filter].
    destruct (Hks x) as (_ & -> & ->); [by left|]. f_equal. apply IH. intros y Hy. apply Hks. by right.
  - apply Forall_forall. intros x Hx. by apply Hks.
Qed.

(** Removing repeated keys keeps every key exactly once, in the order of first appearance,
    counts what is left, and changes nothing when it is done again. *)
Theorem keys_deduplicated text :
  let r := deduplicateKeys text in
  keys_of (deduplicatedText r) = dedup (keys_of text) ∧ NoDup (keys_of (deduplicatedText r)) ∧
  (∀ k, k ∈ keys_of (deduplicatedText r) ↔ k ∈ keys_of text) ∧
  afterCount r = length (keys_of (deduplicatedText r)) ∧
  deduplicatedText (deduplicateKeys (deduplicatedText r)) = deduplicatedText r.
Proof.
  intros r. unfold r. clear r. destruct (dedup_text text) as [Et Ec].
  assert (Hk : keys_of (deduplicatedText (deduplicateKeys text)) = dedup (keys_of text)).
  { rewrite Et. apply keys_of_join. intros k Hk. apply (keys_of_clean text). by apply elem_of_dedup. }
  rewrite Hk, Ec. split; [done|]. split; [apply NoDup_dedup|]. split; [intros k; apply elem_of_dedup|]. split; [done|].
  rewrite (proj1 (dedup_text _)), Hk, dedup_idemp. by rewrite Et.
Qed.

(** The reason is given exactly when attention is asked for. *)
Lemma attention_reason channel :
  channelNeedsAttention channel = match getAttentionReason channel with Some _ => true | None => false end.
Proof.
  unfold channelNeedsAttention, getAttentionReason.
  by destruct (num_is _ _), (low_balance channel), (all_keys_disabled channel).
Qed.

(** *** Witnesses *)

Definition demo_channel (id : Z) (tag : option jstr) (status priority : Z) (group : jstr) : Channel :=
  MkChannel (num_of_Z id) (num_of_Z 1) "sk" None None (num_of_Z status) "c" (NNum (num_of_Z 1)) (num_of_Z 0) (num_of_Z 0)
    (num_of_Z 100) None [] (num_of_Z 5) (num_of_Z 0) [] group (num_of_Z 7) None None (NNum (num_of_Z priority)) NUndefined []
    tag None None None [] (num_of_Z 0) None "{}".

(** A priority of -1 is taken for the mark of no value yet: the row of channels with the
    priorities -1 and 5 shows 5 instead of no common value. *)
Example sentinel_priority :
  map t_priority (aggregateChannelsByTag [demo_channel 1 (Some ("a" : jstr)) 1 (-1) "x"; demo_channel 2 (Some ("a" : jstr)) 1 5 "x"]) =
  [NNum (num_of_Z 5)].
Proof. by vm_compute. Qed.

Lemma long_keys_masked_witness :
  formatChannelKey ("sk-12345" ++ "secretsecret" ++ "abcdefgh") false = "sk-12345" ++ "..." ++ "abcdefgh".
Proof. exact (long_keys_masked "sk-12345" "secretsecret" "abcdefgh" eq_refl eq_refl ltac:(discriminate)). Defined.
