(* ===== verification/ChannelModels.v ===== *)
(** * Models of a channel

    Model of [features/channels/lib/model-mapping-validation.ts] and
    [features/channels/lib/upstream-update-utils.ts] (lists of models, the mapping from
    requested to actual models, staged upstream updates) and of the hook
    [features/channels/hooks/use-channel-upstream-updates.ts] that detects and applies
    upstream updates.

    A handler that waits is cut at its awaits: the request, its answer, and the end of
    the refresh after a success are events of their own.  Requests, notices and
    refreshes are recorded as effects. *)

From S2P Require Import Prelude JsValue JsText.

Definition MODEL_SEPARATOR : N := 44.

(** ** model-mapping-validation.ts *)

Definition parseModelsString (modelsStr : jstr) : list jstr :=
  if truthy modelsStr then List.filter truthy (map trim (split_char MODEL_SEPARATOR modelsStr)) else [].

Definition formatModelsArray (models : list jstr) : jstr := join [MODEL_SEPARATOR] (dedup models).

Definition normalizeModelName (model : jstr) : jstr := trim model.

(** The members of a text that holds a JSON object. *)
Definition mapping_members (text : jstr) : option (list (jstr * jsval)) :=
  match JSON_parse text with Some (JObj fs) => Some fs | _ => None end.

Definition extractMappingSourceModels (modelMapping : jstr) : list jstr :=
  let trimmed := trim modelMapping in
  if negb (truthy trimmed) then []
  else match mapping_members trimmed with
       | Some fs => dedup (List.filter truthy (map (fun kv => trim kv.1) fs))
       | None => []
       end.

(** The values that are not blank strings. *)
Definition redirect_value (v : jsval) : list jstr :=
  match v with JStr s => if truthy (trim s) then [trim s] else [] | _ => [] end.

Definition extractRedirectModels (modelMapping : jstr) : list jstr :=
  let trimmed := trim modelMapping in
  if negb (truthy trimmed) then []
  else match mapping_members trimmed with
       | Some fs => dedup (concat (map (fun kv => redirect_value kv.2) fs))
       | None => []
       end.

(** The loop over the positions; the lengths are equal when it runs. *)
Fixpoint models_differ (currentModels initialModels : list jstr) : bool :=
  match currentModels, initialModels with
  | a :: current, b :: initial => if negb (a === b) then true else models_differ current initial
  | _, _ => false
  end.

Definition hasModelConfigChanged (currentModels : list jstr) (currentModelMapping : jstr) (initialModels : list jstr)
    (initialModelMapping : jstr) : bool :=
  if (length initialModels =? 0) && negb (truthy initialModelMapping) then true
  else if negb (length currentModels =? length initialModels) then true
  else if models_differ currentModels initialModels then true
  else negb (trim currentModelMapping === trim initialModelMapping).

Definition findMissingModelsInMapping (modelMapping : jstr) (currentModels : list jstr) : list jstr :=
  if negb (truthy modelMapping) || (trim modelMapping === []) then []
  else match mapping_members modelMapping with
       | None => []
       | Some fs =>
         let modelSet := map normalizeModelName currentModels in
         dedup (List.filter (fun key => truthy key && negb (has key modelSet)) (map (fun kv => normalizeModelName kv.1) fs))
       end.

Inductive MappingValidity := MappingValid | MappingInvalid (error : jstr).

Definition validateModelMappingJson (modelMapping : jstr) : MappingValidity :=
  if negb (truthy modelMapping) || (trim modelMapping === []) then MappingValid
  else match JSON_parse modelMapping with
       | None => MappingInvalid "Model mapping must be valid JSON format"
       | Some (JObj fs) =>
         if existsb (fun kv => match as_string kv.2 with Some _ => false | None => true end) fs
         then MappingInvalid "Model mapping values must be strings"
         else MappingValid
       | Some _ => MappingInvalid "Model mapping must be a valid JSON object"
       end.

Definition findExposedTargetModels (modelMapping : jstr) (currentModels : list jstr) : list jstr :=
  let redirectModels := extractRedirectModels modelMapping in
  let modelSet := map normalizeModelName currentModels in
  List.filter (fun model => has (normalizeModelName model) modelSet) redirectModels.

Record ModelCategories := MkCategories {
  normalizedCurrentModels : list jstr; normalizedRedirectModels : list jstr; classificationSet : list jstr; redirectOnlySet : list jstr;
}.

Definition categorizeModelsWithRedirect (currentModels redirectModels : list jstr) : ModelCategories :=
  let current := dedup (List.filter truthy (map normalizeModelName currentModels)) in
  let redirect := dedup (List.filter truthy (map normalizeModelName redirectModels)) in
  MkCategories current redirect (dedup (current ++ redirect)) (dedup (List.filter (fun m => negb (has m current)) redirect)).

(** ** upstream-update-utils.ts *)

(** [String(model || '').trim()] *)
Definition model_text (model : jsval) : jstr := if val_truthy model then trim (value_to_string model) else [].

Definition normalizeModelList (models : list jsval) : list jstr := dedup (List.filter truthy (map model_text models)).

(** [normalizeModelList(v || [])]; a value that is no array has no [map], and the call throws
    ([None]). *)
Definition normalize_unknown (v : jsval) : option (list jstr) :=
  if negb (val_truthy v) then Some []
  else match v with JArr l => Some (normalizeModelList l) | _ => None end.

Record UpstreamMeta := MkMeta { m_enabled : bool; pendingAddModels : list jstr; pendingRemoveModels : list jstr }.

Definition parseUpstreamUpdateMeta (settings : jsval) : option UpstreamMeta :=
  let parsed := match settings with
                | JObj _ => settings
                | JStr s => default JNull (JSON_parse s)
                | _ => JNull
                end in
  if negb (val_truthy parsed) || negb (is_objectlike parsed) then Some (MkMeta false [] [])
  else
    match normalize_unknown (get "upstream_model_update_last_detected_models" parsed),
          normalize_unknown (get "upstream_model_update_last_removed_models" parsed) with
    | Some adds, Some removes =>
      Some (MkMeta (match get "upstream_model_update_check_enabled" parsed with JBool b => b | _ => false end) adds removes)
    | _, _ => None
    end.

(** ** use-channel-upstream-updates.ts *)

Definition getManualIgnoredModelCount (settings : jsval) : option nat :=
  let parsed := if is_objectlike settings then settings
                else match settings with JStr s => default JNull (JSON_parse s) | _ => JNull end in
  if negb (val_truthy parsed) then Some 0
  else length <$> normalize_unknown (get "upstream_model_update_ignored_models" parsed).

Inductive UpdateTab := TabAdd | TabRemove.

(** The four operations, each with its own ref. *)
Inductive operation := Apply | ApplyAll | Detect | DetectAll.

#[global] Instance operation_eq_dec : EqDecision operation.
Proof. solve_decision. Defined.

(** Where a running operation waits. *)
Inductive phase := Idle | Requesting | Refreshing.

#[global] Instance phase_eq_dec : EqDecision phase.
Proof. solve_decision. Defined.

Inductive upstream_request :=
  | ApplyRequest (id : num) (add_models ignore_models remove_models : list jstr)
  | ApplyAllRequest
  | DetectRequest (id : num)
  | DetectAllRequest.

Inductive upstream_effect :=
  | Post (r : upstream_request)
  | ToastInfo (text : jstr)
  | ToastSuccess (text : jstr)
  | ToastError (text : jsval)
  | Refresh.

(** The state hooks and refs; the channel by its id.  [waits] says where each operation is,
    [ignoredNow] the ignored models the handler of an apply request keeps. *)
Record UpstreamState := MkUpstream {
  showModal : bool; u_channel : option num; addModels : list jstr; removeModels : list jstr; preferredTab : UpdateTab;
  loading : operation → bool; refs : operation → bool; waits : operation → phase; ignoredNow : list jstr;
}.

Definition upd {A} (f : operation → A) (o : operation) (x : A) : operation → A := fun o' => if decide (o' = o) then x else f o'.

Definition upstream_initial : UpstreamState :=
  MkUpstream false None [] [] TabAdd (fun _ => false) (fun _ => false) (fun _ => Idle) [].

Section hook.
(** The translation function, and the text of the engine's error for a missing method. *)
Context (t : jstr → list (jstr * jsval) → jstr) (no_method : jstr).

Definition openModal (record : option num) (pendingAdd pendingRemove : list jstr) (tab : UpdateTab) (s : UpstreamState) :
    UpstreamState * list upstream_effect :=
  let normAdd := normalizeModelList (map JStr pendingAdd) in
  let normRemove := normalizeModelList (map JStr pendingRemove) in
  match record with
  | Some id =>
    if negb (num_truthy id) || ((length normAdd =? 0) && (length normRemove =? 0))
    then (s, [ToastInfo (t "No processable upstream model updates for this channel" [])])
    else (MkUpstream true (Some id) normAdd normRemove tab (loading s) (refs s) (waits s) (ignoredNow s), [])
  | None => (s, [ToastInfo (t "No processable upstream model updates for this channel" [])])
  end.

Definition closeModal (s : UpstreamState) : UpstreamState :=
  MkUpstream false None [] [] TabAdd (loading s) (refs s) (waits s) (ignoredNow s).

(** Detecting one channel shows no progress. *)
Definition shows_loading (o : operation) : bool := match o with Detect => false | _ => true end.

(** [ref.current = true; setLoading(true)], then the request. *)
Definition begin (o : operation) (ignored : list jstr) (s : UpstreamState) : UpstreamState :=
  MkUpstream (showModal s) (u_channel s) (addModels s) (removeModels s) (preferredTab s)
    (if shows_loading o then upd (loading s) o true else loading s) (upd (refs s) o true) (upd (waits s) o Requesting) ignored.

(** The [finally] block. *)
Definition finish (o : operation) (s : UpstreamState) : UpstreamState :=
  MkUpstream (showModal s) (u_channel s) (addModels s) (removeModels s) (preferredTab s)
    (if shows_loading o then upd (loading s) o false else loading s) (upd (refs s) o false) (upd (waits s) o Idle) (ignoredNow s).

Definition wait_refresh (o : operation) (s : UpstreamState) : UpstreamState :=
  MkUpstream (showModal s) (u_channel s) (addModels s) (removeModels s) (preferredTab s) (loading s) (refs s)
    (upd (waits s) o Refreshing) (ignoredNow s).

Definition applyUpdates (selectedAdd selectedRemove : list jstr) (s : UpstreamState) : UpstreamState * list upstream_effect :=
  if refs s Apply then (s, [])
  else
    match u_channel s with
    | Some id =>
      if negb (num_truthy id) then (closeModal s, [])
      else
        let normSelectedAdd := normalizeModelList (map JStr selectedAdd) in
        let ignoreModels := List.filter (fun m => negb (has m normSelectedAdd)) (addModels s) in
        (begin Apply ignoreModels s,
         [Post (ApplyRequest id normSelectedAdd ignoreModels (normalizeModelList (map JStr selectedRemove)))])
    | None => (closeModal s, [])
    end.

Definition applyAllUpdates (s : UpstreamState) : UpstreamState * list upstream_effect :=
  if refs s ApplyAll then (s, []) else (begin ApplyAll (ignoredNow s) s, [Post ApplyAllRequest]).

Definition detectChannelUpdates (ch : option num) (s : UpstreamState) : UpstreamState * list upstream_effect :=
  match ch with
  | Some id => if refs s Detect || negb (num_truthy id) then (s, []) else (begin Detect (ignoredNow s) s, [Post (DetectRequest id)])
  | None => (s, [])
  end.

Definition detectAllUpdates (s : UpstreamState) : UpstreamState * list upstream_effect :=
  if refs s DetectAll then (s, []) else (begin DetectAll (ignoredNow s) s, [Post DetectAllRequest]).

Definition failure_text (o : operation) : jstr :=
  match o with
  | Apply => "Operation failed" | ApplyAll => "Batch processing failed" | Detect => "Detection failed"
  | DetectAll => "Batch detection failed"
  end.

(** [a || b] *)
Definition val_or (a b : jsval) : jsval := if val_truthy a then a else b.

(** [v?.length || 0] *)
Definition length_or_zero (v : jsval) : jsval :=
  match v with
  | JArr l => JNum (num_of_Z (Z.of_nat (length l)))
  | JStr s => JNum (num_of_Z (Z.of_nat (length s)))
  | _ => val_or (get "length" v) (JNum (num_of_Z 0))
  end.

(** The notice of a success; [None] when composing it throws. *)
Definition success_text (o : operation) (s : UpstreamState) (data : jsval) : option jstr :=
  match o with
  | Apply =>
    (fun total => t "Upstream model updates applied: {{added}} added, {{removed}} removed, {{ignored}} ignored this time, {{totalIgnored}} total ignored models"
       [("added", length_or_zero (get "added_models" data)); ("removed", length_or_zero (get "removed_models" data));
        ("ignored", JNum (num_of_Z (Z.of_nat (length (normalizeModelList (map JStr (ignoredNow s)))))));
        ("totalIgnored", JNum (num_of_Z (Z.of_nat total)))]) <$> getManualIgnoredModelCount (get "settings" data)
  | ApplyAll =>
    Some (t "Batch upstream model updates applied: {{channels}} channels, {{added}} added, {{removed}} removed, {{fails}} failed"
       [("channels", val_or (get "processed_channels" data) (JNum (num_of_Z 0)));
        ("added", val_or (get "added_models" data) (JNum (num_of_Z 0)));
        ("removed", val_or (get "removed_models" data) (JNum (num_of_Z 0)));
        ("fails", match val_or (get "failed_channel_ids" data) (JArr []) with
                  | JArr l => JNum (num_of_Z (Z.of_nat (length l)))
                  | JStr s => JNum (num_of_Z (Z.of_nat (length s)))
                  | v => get "length" v
                  end)])
  | Detect =>
    Some (t "Detection complete: {{add}} to add, {{remove}} to remove"
       [("add", length_or_zero (get "add_models" data)); ("remove", length_or_zero (get "remove_models" data))])
  | DetectAll =>
    Some (t "Upstream model detection task started. Track progress in System Info, then refresh to review staged updates." [])
  end.

(** The [catch] block. *)
Definition error_text (o : operation) (err : jsval) : jsval :=
  val_or (get "message" (get "data" (get "response" err))) (val_or (get "message" err) (JStr (t (failure_text o) []))).

(** The answer to the request: a response body, or a thrown error. *)
Definition settle (o : operation) (res : jsval + jsval) (s : UpstreamState) : UpstreamState * list upstream_effect :=
  match res with
  | inl data =>
    let data := val_or data (JObj []) in
    if negb (val_truthy (get "success" data))
    then (finish o s, [ToastError (val_or (get "message" data) (JStr (t (failure_text o) [])))])
    else
      match success_text o s (get "data" data) with
      | Some text =>
        let s' := match o with Apply => closeModal s | _ => s end in
        (wait_refresh o s', [ToastSuccess text; Refresh])
      | None => (finish o s, [ToastError (error_text o (JObj [("message", JStr no_method)]))])
      end
  | inr err => (finish o s, [ToastError (error_text o err)])
  end.

(** The end of the refresh, or the error it throws. *)
Definition refreshed (o : operation) (err : option jsval) (s : UpstreamState) : UpstreamState * list upstream_effect :=
  (finish o s, match err with Some e => [ToastError (error_text o e)] | None => [] end).

Inductive upstream_event :=
  | EOpen (record : option num) (pendingAdd pendingRemove : list jstr) (tab : UpdateTab)
  | EClose
  | EApply (selectedAdd selectedRemove : list jstr)
  | EApplyAll
  | EDetect (ch : option num)
  | EDetectAll
  | EAnswer (o : operation) (res : jsval + jsval)
  | ERefreshed (o : operation) (err : option jsval).

(** An answer comes only to an operation that waits for it. *)
Definition upstream_step (e : upstream_event) (s : UpstreamState) : UpstreamState * list upstream_effect :=
  match e with
  | EOpen record pendingAdd pendingRemove tab => openModal record pendingAdd pendingRemove tab s
  | EClose => (closeModal s, [])
  | EApply selectedAdd selectedRemove => applyUpdates selectedAdd selectedRemove s
  | EApplyAll => applyAllUpdates s
  | EDetect ch => detectChannelUpdates ch s
  | EDetectAll => detectAllUpdates s
  | EAnswer o res => if decide (waits s o = Requesting) then settle o res s else (s, [])
  | ERefreshed o err => if decide (waits s o = Refreshing) then refreshed o err s else (s, [])
  end.

(** The final state and the effects of a sequence of events. *)
Fixpoint upstream_run (es : list upstream_event) (s : UpstreamState) : UpstreamState * list upstream_effect :=
  match es with
  | [] => (s, [])
  | e :: es' => let '(s1, fx) := upstream_step e s in let '(s2, fx') := upstream_run es' s1 in (s2, fx ++ fx')
  end.
End hook.

(** ** Lemmas *)

Lemma elem_of_mapb {A B} (f : A → B) l y : y ∈ map f l ↔ ∃ x, x ∈ l ∧ f x = y.
Proof. rewrite list_elem_of_In, in_map_iff. setoid_rewrite list_elem_of_In. naive_solver. Qed.

(** *** Mappings *)

Lemma missing_spec text cur m :
  m ∈ findMissingModelsInMapping text cur ↔
  trim text ≠ [] ∧ ∃ fs, mapping_members text = Some fs ∧ (∃ kv, kv ∈ fs ∧ trim kv.1 = m) ∧ m ≠ [] ∧ m ∉ map trim cur.
Proof.
  unfold findMissingModelsInMapping, normalizeModelName. destruct (negb (truthy text) || (trim text === [])) eqn:E.
  { assert (Hb : trim text = []) by (apply orb_true_iff in E as [E|E]; [by destruct text|by apply jeqb_true]).
    split; [intros H; by apply elem_of_nil in H|]. intros [H _]. done. }
  assert (Hb : trim text ≠ []) by (apply orb_false_iff in E as [_ E]; by apply jeqb_false).
  destruct (mapping_members text) as [fs|].
  - rewrite elem_of_dedup, elem_of_filterb, elem_of_mapb, andb_true_iff, truthy_true, negb_true_iff, <- not_true_iff_false, has_true.
    split; [intros (Hk & Hm & Hc); split; [done|]; by exists fs|]. intros (_ & fs' & [= <-] & ?). tauto.
  - split; [intros H; by apply elem_of_nil in H|]. by intros (_ & fs & ? & _).
Qed.

Lemma redirect_spec text m :
  m ∈ extractRedirectModels text ↔
  ∃ fs, mapping_members (trim text) = Some fs ∧ trim text ≠ [] ∧ m ≠ [] ∧ ∃ k s, (k, JStr s) ∈ fs ∧ trim s = m.
Proof.
  unfold extractRedirectModels. destruct (truthy (trim text)) eqn:Et; cbn [negb].
  2:{ split; [intros H; by apply elem_of_nil in H|]. intros (fs & _ & Hne & _). by destruct (trim text). }
  destruct (mapping_members (trim text)) as [fs|].
  2:{ split; [intros H; by apply elem_of_nil in H|]. by intros (fs & ? & _). }
  rewrite elem_of_dedup, list_elem_of_In, in_concat. split.
  - intros (l & Hl & Hm). apply in_map_iff in Hl as ([k v] & <- & Hin). exists fs. split; [done|]. split; [by apply truthy_true|].
    cbn [snd] in Hm. unfold redirect_value in Hm. destruct v as [| | | |s| |]; try done. destruct (truthy (trim s)) eqn:Es; [|done].
    destruct Hm as [<-|[]]. split; [by apply truthy_true|]. exists k, s. by rewrite list_elem_of_In.
  - intros (fs' & [= <-] & _ & Hm & k & s & Hin & <-). exists [trim s]. split; [|by left]. apply in_map_iff. exists (k, JStr s).
    split; [|by apply list_elem_of_In]. cbn. by rewrite (proj2 (truthy_true _) Hm).
Qed.

Lemma redirect_trimmed text m : m ∈ extractRedirectModels text → trim m = m.
Proof. intros (fs & _ & _ & _ & k & s & _ & <-)%redirect_spec. apply trim_trimmed. Qed.

(** C39: The two checks of a model mapping are exact: a model is reported missing when the
    mapping redirects it and the channel does not list it, and reported exposed when the
    mapping redirects to it and the channel lists it; adding the missing models leaves none
    missing, and dropping the exposed ones leaves none exposed. *)
Theorem mapping_checks_exact text cur :
  (∀ m, m ∈ findMissingModelsInMapping text cur ↔
     trim text ≠ [] ∧ ∃ fs, mapping_members text = Some fs ∧ (∃ kv, kv ∈ fs ∧ trim kv.1 = m) ∧ m ≠ [] ∧ m ∉ map trim cur) ∧
  (∀ m, m ∈ findExposedTargetModels text cur ↔
     (∃ fs, mapping_members (trim text) = Some fs ∧ trim text ≠ [] ∧ m ≠ [] ∧ ∃ k s, (k, JStr s) ∈ fs ∧ trim s = m) ∧
     m ∈ map trim cur) ∧
  findMissingModelsInMapping text (cur ++ findMissingModelsInMapping text cur) = [] ∧
  findExposedTargetModels text (List.filter (fun m => negb (has (trim m) (findExposedTargetModels text cur))) cur) = [].
Proof.
  assert (Hx : ∀ cur m, m ∈ findExposedTargetModels text cur ↔ m ∈ extractRedirectModels text ∧ m ∈ map trim cur).
  { intros cur' m. unfold findExposedTargetModels, normalizeModelName. rewrite elem_of_filterb, has_true. split.
    - intros [Hm Hc]. by rewrite (redirect_trimmed _ _ Hm) in Hc.
    - intros [Hm Hc]. by rewrite (redirect_trimmed _ _ Hm). }
  split; [intros m; apply missing_spec|]. split; [intros m; by rewrite Hx, redirect_spec|]. split.
  - apply elem_of_nil_inv. intros m Hm. pose proof Hm as (Ht & fs & Hfs & (kv & Hkv & Hk) & Hne & Hc)%missing_spec.
    apply Hc. rewrite map_app, elem_of_app. destruct (decide (m ∈ map trim cur)) as [|Hin]; [by left|right].
    apply elem_of_mapb. exists m. split; [|rewrite <- Hk; apply trim_trimmed]. apply missing_spec. eauto 10.
  - apply elem_of_nil_inv. intros m [Hm Hc]%Hx. apply elem_of_mapb in Hc as (x & [Hin Hp]%elem_of_filterb & Ex).
    apply negb_true_iff, not_true_iff_false in Hp. apply Hp. rewrite has_true, Ex. apply Hx. split; [done|].
    apply elem_of_mapb. by exists x.
Qed.

(** *** Lists of models *)

(** A name that a list can hold: not empty, no spaces around it, no comma. *)
Definition model_name (m : jstr) : Prop := m ≠ [] ∧ trim m = m ∧ MODEL_SEPARATOR ∉ m.

Lemma models_roundtrip ms : Forall model_name ms → parseModelsString (formatModelsArray ms) = dedup ms.
Proof.
  intros Hms. assert (Hd : Forall model_name (dedup ms)).
  { apply Forall_forall. intros m Hm. rewrite elem_of_dedup in Hm. revert m Hm. by apply Forall_forall. }
  unfold formatModelsArray, parseModelsString. destruct (dedup ms) as [|m l] eqn:E; [done|]. rewrite <- E in *.
  assert (Ht : truthy (join [MODEL_SEPARATOR] (dedup ms)) = true).
  { rewrite E in *. apply Forall_cons in Hd as [(Hm & _) _]. destruct m; [done|]. by destruct l. }
  rewrite Ht, split_char_join; [|by rewrite E|by eapply Forall_impl; [exact Hd|]; intros x (_ & _ & ?)].
  clear E Ht. induction Hd as [|x xs (Hx & Hxt & _) _ IH]; [done|]. cbn [map List.filter]. rewrite Hxt.
  rewrite (proj2 (truthy_true x) Hx). by rewrite IH.
Qed.

(** *** Upstream updates *)

Definition op_of (r : upstream_request) : operation :=
  match r with ApplyRequest _ _ _ _ => Apply | ApplyAllRequest => ApplyAll | DetectRequest _ => Detect | DetectAllRequest => DetectAll end.

(** A ref is set exactly while its operation runs, and so is the progress that is shown. *)
Definition UpstreamInv (s : UpstreamState) : Prop :=
  ∀ o, refs s o = (if decide (waits s o = Idle) then false else true) ∧ loading s o = shows_loading o && refs s o.

Lemma upd_eq {A} (f : operation → A) o x : upd f o x o = x.
Proof. unfold upd. by rewrite decide_True. Qed.
Lemma upd_ne {A} (f : operation → A) o o' x : o' ≠ o → upd f o x o' = f o'.
Proof. unfold upd. intros. by rewrite decide_False. Qed.

Lemma begin_inv o ign s : UpstreamInv s → UpstreamInv (begin o ign s).
Proof.
  intros Hs o'. destruct (Hs o') as [H1 H2]. destruct (decide (o' = o)) as [->|Hne]; unfold begin; cbn [refs waits loading].
  - rewrite !upd_eq. destruct (shows_loading o) eqn:E; cbn; [by rewrite upd_eq|by rewrite H2].
  - rewrite !upd_ne by done. destruct (shows_loading o); by rewrite ?upd_ne.
Qed.

Lemma finish_inv o s : UpstreamInv s → UpstreamInv (finish o s).
Proof.
  intros Hs o'. destruct (Hs o') as [H1 H2]. destruct (decide (o' = o)) as [->|Hne]; unfold finish; cbn [refs waits loading].
  - rewrite !upd_eq. destruct (shows_loading o) eqn:E; cbn; [by rewrite upd_eq|by rewrite H2].
  - rewrite !upd_ne by done. destruct (shows_loading o); by rewrite ?upd_ne.
Qed.

Lemma wait_inv o s : waits s o = Requesting → UpstreamInv s → UpstreamInv (wait_refresh o s).
Proof.
  intros Hw Hs o'. destruct (Hs o') as [H1 H2]. unfold wait_refresh; cbn [refs waits loading].
  destruct (decide (o' = o)) as [->|Hne]; [|by rewrite upd_ne]. rewrite upd_eq. by rewrite Hw in H1.
Qed.

Section upstream.
Context (t : jstr → list (jstr * jsval) → jstr) (no_method : jstr).
Abbreviation step := (upstream_step t no_method).
Abbreviation run := (upstream_run t no_method).

Lemma upstream_step_inv e s : UpstreamInv s → UpstreamInv (step e s).1.
Proof.
  intros Hs. destruct e as [r a b tab| |a b| |ch| |o res|o err]; cbn [upstream_step].
  - unfold openModal. destruct r as [id|]; [|done]. by case_if.
  - done.
  - unfold applyUpdates. destruct (refs s Apply); [done|]. destruct (u_channel s); [|done]. case_if; [done|]. by apply begin_inv.
  - unfold applyAllUpdates. destruct (refs s ApplyAll); [done|]. by apply begin_inv.
  - unfold detectChannelUpdates. destruct ch; [|done]. case_if; [done|]. by apply begin_inv.
  - unfold detectAllUpdates. destruct (refs s DetectAll); [done|]. by apply begin_inv.
  - case_decide as Hw; [|done]. unfold settle. destruct res as [data|err]; [|by apply finish_inv]. cbv zeta.
    case_if; [by apply finish_inv|]. destruct (success_text _ _ _ _); [|by apply finish_inv].
    cbn [fst]. destruct o; by apply wait_inv.
  - case_decide as Hw; [|done]. by apply finish_inv.
Qed.

Lemma upstream_run_inv es : ∀ s, UpstreamInv s → UpstreamInv (run es s).1.
Proof.
  induction es as [|e es IH]; intros s Hs; [done|]. cbn [upstream_run]. destruct (step e s) as [s1 fx] eqn:E.
  pose proof (upstream_step_inv e s Hs) as H1. rewrite E in H1. pose proof (IH s1 H1) as H2. by destruct (run es s1).
Qed.

Lemma initial_upstream : UpstreamInv upstream_initial.
Proof. intros o. by destruct o. Qed.

(** An answer or the end of a refresh sends no request. *)
Lemma no_post_settle o res s r : Post r ∉ (settle t no_method o res s).2.
Proof.
  unfold settle. destruct res; [|set_solver]. cbv zeta. case_if; [set_solver|]. destruct (success_text _ _ _ _); set_solver.
Qed.

(** What a step tells when it sends a request. *)
Lemma post_from e s r :
  Post r ∈ (step e s).2 →
  refs s (op_of r) = false ∧ waits (step e s).1 (op_of r) = Requesting ∧
  match r with
  | ApplyRequest id adds ignores _ =>
      u_channel s = Some id ∧ num_truthy id = true ∧ NoDup adds ∧ ∀ m, m ∈ ignores ↔ m ∈ addModels s ∧ m ∉ adds
  | _ => True
  end.
Proof.
  intros Hr. destruct e as [rec a b tab| |a b| |ch| |o res|o err]; cbn [upstream_step] in *.
  - unfold openModal in *. destruct rec as [id|]; [case_if|]; set_solver.
  - set_solver.
  - unfold applyUpdates in *. destruct (refs s Apply) eqn:E; [set_solver|]. destruct (u_channel s) as [id|]; [|set_solver].
    destruct (num_truthy id) eqn:Ei; [|set_solver]. apply list_elem_of_singleton in Hr as [= ->].
    split; [done|]. split; [done|]. do 2 (split; [done|]). split; [apply NoDup_dedup|]. intros m.
    by rewrite elem_of_filterb, negb_true_iff, <- not_true_iff_false, has_true.
  - unfold applyAllUpdates in *. destruct (refs s ApplyAll) eqn:E; [set_solver|]. by apply list_elem_of_singleton in Hr as [= ->].
  - unfold detectChannelUpdates in *. destruct ch; [|set_solver]. destruct (refs s Detect) eqn:E; [set_solver|]. cbn [orb] in *.
    case_if; [set_solver|]. by apply list_elem_of_singleton in Hr as [= ->].
  - unfold detectAllUpdates in *. destruct (refs s DetectAll) eqn:E; [set_solver|]. by apply list_elem_of_singleton in Hr as [= ->].
  - case_decide; [by apply no_post_settle in Hr|set_solver].
  - case_decide; [|set_solver]. destruct err; set_solver.
Qed.

(** C34: Upstream updates are applied safely, whatever the order of clicks and answers: a
    request is sent only while none of its kind is running; an apply request is for the
    channel that is shown, and every staged model is either added or ignored, never both and
    never left out; progress is shown only while the operation runs. *)
Theorem upstream_updates_safe es e :
  let s := (run es upstream_initial).1 in
  let s' := (step e s).1 in
  (∀ r, Post r ∈ (step e s).2 → waits s (op_of r) = Idle ∧ waits s' (op_of r) = Requesting) ∧
  (∀ id adds ignores removes, Post (ApplyRequest id adds ignores removes) ∈ (step e s).2 →
     u_channel s = Some id ∧ num_truthy id = true ∧ NoDup adds ∧ ∀ m, m ∈ ignores ↔ m ∈ addModels s ∧ m ∉ adds) ∧
  (∀ o, loading s o = true → waits s o ≠ Idle).
Proof.
  intros s s'. pose proof (upstream_run_inv es _ initial_upstream) as Hs. fold s in Hs. unfold s'. clear s'. clearbody s.
  split; [|split].
  - intros r (Hr & Hw & _)%post_from. split; [|done]. destruct (Hs (op_of r)) as [H1 _]. rewrite Hr in H1. by case_decide.
  - by intros id adds ignores removes (_ & _ & H)%post_from.
  - intros o Ho. destruct (Hs o) as [H1 H2]. rewrite Ho in H2. symmetry in H2. apply andb_true_iff in H2 as [_ H2].
    rewrite H2 in H1. by case_decide.
Qed.

(** Every running operation ends with the answers it waits for. *)
Lemma operation_ends o res err s :
  waits s o = Requesting →
  let s1 := (step (EAnswer o res) s).1 in
  waits s1 o = Idle ∨ (waits s1 o = Refreshing ∧ waits (step (ERefreshed o err) s1).1 o = Idle).
Proof.
  intros Hw s1. unfold s1. clear s1. cbn [upstream_step]. rewrite decide_True by done. unfold settle.
  destruct res as [data|e]; [|left; cbn; by rewrite upd_eq]. cbv zeta. case_if; [left; cbn; by rewrite upd_eq|].
  destruct (success_text _ _ _ _); [right|left; cbn; by rewrite upd_eq]. cbn [fst wait_refresh waits]. rewrite upd_eq.
  split; [done|]. rewrite decide_True by done. cbn. by rewrite upd_eq.
Qed.
End upstream.

(** A success closes whatever is shown: the updates of another channel that were opened
    while the request was running are closed with it. *)
Example settled_apply_closes_other :
  let t := fun (s : jstr) (_ : list (jstr * jsval)) => s in
  let es := [EOpen (Some (num_of_Z 1)) ["a"] [] TabAdd; EApply ["a"] []; EClose; EOpen (Some (num_of_Z 2)) ["b"] [] TabAdd;
             EAnswer Apply (inl (JObj [("success", JBool true)]))] in
  let s := (upstream_run t [] es upstream_initial).1 in
  (showModal s, u_channel s) = (false, None).
Proof. by vm_compute. Qed.
