(* ===== verification/PricingOptions.v ===== *)
(** * Model pricing options

    Model of [features/system-settings/models/model-pricing-snapshots.ts] and of
    [safeJsonParse] ([features/system-settings/utils/json-parser.ts]): the pricing
    of all models is kept in ten JSON texts, one record per option; an entry is
    removed from or written to all of them, and the snapshots of the models are
    read from all of them.

    The records have the declared types (numbers, or texts for the billing mode and
    expression); a text that parses to another kind of value is outside the model
    and gives [None].  A record is a plain object, so reading a name that every
    object inherits finds the inherited member, and writing [__proto__] does not
    create a property. *)

From S2P Require Import Prelude JsValue JsText BillingExpr.

(** ** Reading texts and numbers *)

Definition safeJsonParse (value : jstr) (fallback : jsval) : jsval :=
  if negb (truthy value) || negb (truthy (trim value)) then fallback
  else match JSON_parse (trim value) with Some v => v | None => fallback end.

(** ** Records *)

Definition numbers : Type := list (jstr * num).
Definition texts : Type := list (jstr * jstr).

Definition as_numbers (v : jsval) : option numbers :=
  match v with
  | JObj fs => mapM (fun kv => n ← as_number kv.2; Some (kv.1, n)) fs
  | _ => None
  end.
Definition as_texts (v : jsval) : option texts :=
  match v with
  | JObj fs => mapM (fun kv => s ← as_string kv.2; Some (kv.1, s)) fs
  | _ => None
  end.

Definition parseOptionRecord (value : jstr) : jsval := safeJsonParse value (JObj []).

Definition number_record (m : numbers) : jsval := JObj (map (fun kv => (kv.1, JNum kv.2)) m).
Definition text_record (m : texts) : jsval := JObj (map (fun kv => (kv.1, JStr kv.2)) m).

Definition stringifyOptionRecord (v : jsval) : jstr := default [] (JSON_stringify v).

(** The texts of the members that every object inherits. *)
Definition inherited_text (name : jstr) : jstr :=
  if name === "constructor" then "function Object() { [native code] }"
  else if name === "__proto__" then "[object Object]"
  else "function " ++ name ++ "() { [native code] }".


(** ** Options *)

Record ModelPricingSnapshotInput := MkInput {
  i_modelPrice : jstr; i_modelRatio : jstr; i_cacheRatio : jstr; i_createCacheRatio : jstr; i_completionRatio : jstr;
  i_imageRatio : jstr; i_audioRatio : jstr; i_audioCompletionRatio : jstr; i_billingMode : jstr; i_billingExpr : jstr;
}.

(** The ten records. *)
Record Maps := MkMaps {
  priceMap : numbers; ratioMap : numbers; cacheMap : numbers; createCacheMap : numbers; completionMap : numbers;
  imageMap : numbers; audioMap : numbers; audioCompletionMap : numbers; billingModeMap : texts; billingExprMap : texts;
}.

Definition parse_numbers (value : jstr) : option numbers := as_numbers (parseOptionRecord value).
Definition parse_texts (value : jstr) : option texts := as_texts (parseOptionRecord value).

Definition parse_maps (i : ModelPricingSnapshotInput) : option Maps :=
  p ← parse_numbers (i_modelPrice i); r ← parse_numbers (i_modelRatio i); c ← parse_numbers (i_cacheRatio i);
  cc ← parse_numbers (i_createCacheRatio i); co ← parse_numbers (i_completionRatio i);
  im ← parse_numbers (i_imageRatio i); au ← parse_numbers (i_audioRatio i);
  ac ← parse_numbers (i_audioCompletionRatio i); bm ← parse_texts (i_billingMode i);
  be ← parse_texts (i_billingExpr i);
  Some (MkMaps p r c cc co im au ac bm be).

Definition print_numbers (m : numbers) : jstr := stringifyOptionRecord (number_record m).
Definition print_texts (m : texts) : jstr := stringifyOptionRecord (text_record m).

Definition print_maps (m : Maps) : ModelPricingSnapshotInput :=
  MkInput (print_numbers (priceMap m)) (print_numbers (ratioMap m)) (print_numbers (cacheMap m))
    (print_numbers (createCacheMap m)) (print_numbers (completionMap m)) (print_numbers (imageMap m))
    (print_numbers (audioMap m)) (print_numbers (audioCompletionMap m)) (print_texts (billingModeMap m))
    (print_texts (billingExprMap m)).

Definition delete_entry (name : jstr) (m : Maps) : Maps :=
  MkMaps (delete_prop name (priceMap m)) (delete_prop name (ratioMap m)) (delete_prop name (cacheMap m))
    (delete_prop name (createCacheMap m)) (delete_prop name (completionMap m)) (delete_prop name (imageMap m))
    (delete_prop name (audioMap m)) (delete_prop name (audioCompletionMap m)) (delete_prop name (billingModeMap m))
    (delete_prop name (billingExprMap m)).

Definition removeModelPricingEntry (input : ModelPricingSnapshotInput) (name : jstr) : option ModelPricingSnapshotInput :=
  m ← parse_maps input; Some (print_maps (delete_entry name m)).

(** ** Writing an entry *)






(** ** Snapshots *)

Record ModelPricingSnapshot := MkSnapshot {
  s_name : jstr; s_price : jstr; s_ratio : jstr; s_cacheRatio : jstr; s_createCacheRatio : jstr; s_completionRatio : jstr;
  s_imageRatio : jstr; s_audioRatio : jstr; s_audioCompletionRatio : jstr; s_billingMode : jstr;
  s_billingExpr : option jstr; s_requestRuleExpr : option jstr; hasConflict : bool;
}.

Definition hasPricingValue (value : option jstr) : bool := match value with Some v => truthy v | None => false end.

(** [m[name]?.toString() || ''] *)
Definition number_text (m : numbers) (name : jstr) : jstr :=
  match map_get name m with
  | Some n => number_to_string n
  | None => if has name OBJECT_PROTOTYPE then inherited_text name else []
  end.

(** [billingExprMap[name] || '']; an inherited member is no text, and splitting it
    throws. *)
Definition expr_text (m : texts) (name : jstr) : outcome jstr :=
  match map_get name m with
  | Some s => Ret s
  | None => if has name OBJECT_PROTOTYPE then Throws else Ret []
  end.

Definition snapshot_of (m : Maps) (name : jstr) : outcome ModelPricingSnapshot :=
  let price := number_text (priceMap m) name in
  let ratio := number_text (ratioMap m) name in
  let cache := number_text (cacheMap m) name in
  let createCache := number_text (createCacheMap m) name in
  let completion := number_text (completionMap m) name in
  let image := number_text (imageMap m) name in
  let audio := number_text (audioMap m) name in
  let audioCompletion := number_text (audioCompletionMap m) name in
  if bool_decide (map_get name (billingModeMap m) = Some "tiered_expr"%js) then
    fullExpr ⇐ expr_text (billingExprMap m) name;
    split ⇐ splitBillingExprAndRequestRules fullExpr;
    Ret (MkSnapshot name price ratio cache createCache completion image audio audioCompletion "tiered_expr"
           (Some (billingExpr split)) (Some (requestRuleExpr split)) false)
  else
    Ret (MkSnapshot name price ratio cache createCache completion image audio audioCompletion
           (if truthy price then "per-request" else "per-token") None None
           (truthy price && (truthy ratio || truthy completion || truthy cache || truthy createCache || truthy image
                             || truthy audio || truthy audioCompletion))).

(** [Object.keys] of the records, in the order of the source. *)
Definition model_names (m : Maps) : list jstr :=
  dedup (map fst (priceMap m) ++ map fst (ratioMap m) ++ map fst (cacheMap m) ++ map fst (createCacheMap m)
         ++ map fst (completionMap m) ++ map fst (imageMap m) ++ map fst (audioMap m) ++ map fst (audioCompletionMap m)
         ++ map fst (billingModeMap m) ++ map fst (billingExprMap m)).


(** ** Signatures *)

Definition getSnapshotSignature (snapshot : option ModelPricingSnapshot) : jstr :=
  match snapshot with
  | None => []
  | Some s =>
    default [] (JSON_compact (JObj [
      ("price"%js, JStr (s_price s)); ("ratio"%js, JStr (s_ratio s)); ("cacheRatio"%js, JStr (s_cacheRatio s));
      ("createCacheRatio"%js, JStr (s_createCacheRatio s)); ("completionRatio"%js, JStr (s_completionRatio s));
      ("imageRatio"%js, JStr (s_imageRatio s)); ("audioRatio"%js, JStr (s_audioRatio s));
      ("audioCompletionRatio"%js, JStr (s_audioCompletionRatio s));
      ("billingMode"%js, JStr (jor (s_billingMode s) "per-token"));
      ("billingExpr"%js, JStr (default [] (s_billingExpr s)));
      ("requestRuleExpr"%js, JStr (default [] (s_requestRuleExpr s)))]))
  end.

(** ** Records that are read back *)

Definition ok_number (kv : jstr * num) : bool := units kv.1 && prints_back kv.2.
Definition ok_text (kv : jstr * jstr) : bool := units kv.1 && units kv.2.

Definition ok_numbers (m : numbers) : bool := forallb ok_number m && in_order [] (map fst m).
Definition ok_texts (m : texts) : bool := forallb ok_text m && in_order [] (map fst m).

Lemma record_text fs :
  textual (JObj fs) = true → parseOptionRecord (stringifyOptionRecord (JObj fs)) = JObj fs.
Proof.
  intros Ht. destruct (JSON_parse_stringify _ Ht) as (t & Hs & Hne & Hp). unfold stringifyOptionRecord. rewrite Hs.
  cbn [default from_option id]. unfold parseOptionRecord, safeJsonParse.
  assert (Hshape : ∃ x, t = 123%N :: x ++ [125%N]).
  { unfold JSON_stringify in Hs. rewrite stringify_obj in Hs. injection Hs as <-. unfold block.
    destruct (concat _) as [|a l]; [by exists []|].
    eexists (newline "  " ([] ++ "  ") ++ join _ (a :: l) ++ newline "  " []). by rewrite <- !app_assoc. }
  assert (Htrim : trim t = t).
  { destruct Hshape as [x ->]. apply trim_id; [by intros c [= <-]|]. intros c. rewrite app_comm_cons, last_snoc.
    by intros [= <-]. }
  rewrite Htrim, (proj2 (truthy_true t)) by done. cbn [negb orb]. by rewrite Hp.
Qed.

Lemma ok_numbers_text m : ok_numbers m = true → parse_numbers (print_numbers m) = Some m.
Proof.
  intros H. apply andb_true_iff in H as [Hm Ho]. unfold parse_numbers, print_numbers, number_record. rewrite record_text.
  - cbn [as_numbers]. clear Ho. induction m as [|[k n] m IH]; [done|]. cbn [forallb map] in *. bool_hyps.
    cbn [mapM fst snd as_number mbind option_bind]. by rewrite IH.
  - cbn [textual]. replace (map fst (map _ m)) with (map fst m) by (by rewrite map_map). rewrite Ho, andb_true_r. apply forallb_forall.
    intros kv Hin. apply in_map_iff in Hin as ([k n] & <- & Hin). cbn [fst snd textual].
    rewrite forallb_forall in Hm. exact (Hm _ Hin).
Qed.

Lemma ok_texts_text m : ok_texts m = true → parse_texts (print_texts m) = Some m.
Proof.
  intros H. apply andb_true_iff in H as [Hm Ho]. unfold parse_texts, print_texts, text_record. rewrite record_text.
  - cbn [as_texts]. clear Ho. induction m as [|[k n] m IH]; [done|]. cbn [forallb map] in *. bool_hyps.
    cbn [mapM fst snd as_string mbind option_bind]. by rewrite IH.
  - cbn [textual]. replace (map fst (map _ m)) with (map fst m) by (by rewrite map_map). rewrite Ho, andb_true_r. apply forallb_forall.
    intros kv Hin. apply in_map_iff in Hin as ([k n] & <- & Hin). cbn [fst snd textual].
    rewrite forallb_forall in Hm. exact (Hm _ Hin).
Qed.

(** Every number and text of the records, and their order. *)
Definition ok_maps (m : Maps) : bool :=
  forallb ok_numbers [priceMap m; ratioMap m; cacheMap m; createCacheMap m; completionMap m; imageMap m; audioMap m;
                      audioCompletionMap m] &&
  forallb ok_texts [billingModeMap m; billingExprMap m].

Lemma ok_maps_text m : ok_maps m = true → parse_maps (print_maps m) = Some m.
Proof.
  intros H. unfold ok_maps in H. cbn [forallb] in H. bool_hyps. unfold parse_maps, print_maps.
  cbn [i_modelPrice i_modelRatio i_cacheRatio i_createCacheRatio i_completionRatio i_imageRatio i_audioRatio
       i_audioCompletionRatio i_billingMode i_billingExpr].
  rewrite !ok_numbers_text, !ok_texts_text by done. by destruct m.
Qed.

(** *** Deleting and setting *)

Lemma delete_keys {V} (k j : jstr) (m : list (jstr * V)) : j ∈ map fst (delete_prop k m) ↔ j ∈ map fst m ∧ j ≠ k.
Proof.
  rewrite !list_elem_of_In, !in_map_iff. unfold delete_prop. split.
  - intros ([j' v] & <- & [Hin Hk]%filter_In). cbn in *. bool_hyps. split; [by exists (j', v)|done].
  - intros [([j' v] & <- & Hin) Hk]. exists (j', v). split; [done|]. apply filter_In. split; [done|].
    cbn in *. by apply negb_true_iff, jeqb_false.
Qed.

Lemma delete_sorted {V} (k : jstr) (m : list (jstr * V)) :
  StronglySorted before (map fst m) → StronglySorted before (map fst (delete_prop k m)).
Proof.
  induction m as [|[k' v'] m IH]; [done|]. cbn [map fst]. intros [Hs Hk]%StronglySorted_inv.
  cbn [delete_prop List.filter fst]. fold (delete_prop k m). destruct (negb (k' === k)); [|by apply IH].
  cbn [map fst]. constructor; [by apply IH|]. rewrite Forall_forall in Hk |- *. intros j [Hj _]%delete_keys. auto.
Qed.

Lemma delete_forallb {V} (p : jstr * V → bool) k m : forallb p m = true → forallb p (delete_prop k m) = true.
Proof.
  intros H. apply forallb_forall. intros kv [Hin _]%filter_In. rewrite forallb_forall in H. auto.
Qed.


Lemma delete_ok {V} (p : jstr * V → bool) k m :
  forallb p m && in_order [] (map fst m) = true →
  forallb p (delete_prop k m) && in_order [] (map fst (delete_prop k m)) = true.
Proof.
  intros [Hp Ho]%andb_true_iff. apply andb_true_iff. split; [by apply delete_forallb|].
  apply in_order_sorted in Ho as [_ Ho]. apply in_order_sorted. split; [set_solver|by apply delete_sorted].
Qed.


(** ** The entry of a model *)

(** What the ten records hold under one name. *)
Record Entry := MkEntry {
  e_price : option num; e_ratio : option num; e_cache : option num; e_createCache : option num;
  e_completion : option num; e_image : option num; e_audio : option num; e_audioCompletion : option num;
  e_mode : option jstr; e_expr : option jstr;
}.

Definition entry (m : Maps) (j : jstr) : Entry :=
  MkEntry (map_get j (priceMap m)) (map_get j (ratioMap m)) (map_get j (cacheMap m)) (map_get j (createCacheMap m))
    (map_get j (completionMap m)) (map_get j (imageMap m)) (map_get j (audioMap m)) (map_get j (audioCompletionMap m))
    (map_get j (billingModeMap m)) (map_get j (billingExprMap m)).

Definition no_entry : Entry := MkEntry None None None None None None None None None None.



Lemma entry_snapshot m m' j : entry m j = entry m' j → snapshot_of m j = snapshot_of m' j.
Proof.
  unfold entry. intros [= E1 E2 E3 E4 E5 E6 E7 E8 E9 E10]. unfold snapshot_of, number_text, expr_text.
  by rewrite E1, E2, E3, E4, E5, E6, E7, E8, E9, E10.
Qed.

Lemma map_get_key {V} (j : jstr) (m : list (jstr * V)) : j ∈ map fst m ↔ map_get j m ≠ None.
Proof.
  induction m as [|[k v] m IH]; cbn [map fst map_get]; [set_solver|]. rewrite elem_of_cons, IH.
  case_decide; naive_solver.
Qed.

Lemma entry_name m j : j ∈ model_names m ↔ entry m j ≠ no_entry.
Proof.
  unfold model_names. rewrite elem_of_dedup, !elem_of_app, !map_get_key. unfold entry, no_entry. split.
  - intros H [= E1 E2 E3 E4 E5 E6 E7 E8 E9 E10]. naive_solver.
  - intros H. destruct (map_get j (priceMap m)); [by left|right]. destruct (map_get j (ratioMap m)); [by left|right].
    destruct (map_get j (cacheMap m)); [by left|right]. destruct (map_get j (createCacheMap m)); [by left|right].
    destruct (map_get j (completionMap m)); [by left|right]. destruct (map_get j (imageMap m)); [by left|right].
    destruct (map_get j (audioMap m)); [by left|right]. destruct (map_get j (audioCompletionMap m)); [by left|right].
    destruct (map_get j (billingModeMap m)); [by left|right]. by destruct (map_get j (billingExprMap m)).
Qed.

Lemma entry_delete name m j : entry (delete_entry name m) j = if decide (j = name) then no_entry else entry m j.
Proof. unfold entry, delete_entry. cbn. rewrite !map_get_delete. by case_decide. Qed.




(** *** What is written can be read again *)





Lemma delete_entry_ok name m : ok_maps m = true → ok_maps (delete_entry name m) = true.
Proof.
  unfold ok_maps, delete_entry. cbn [forallb priceMap ratioMap cacheMap createCacheMap completionMap imageMap audioMap
    audioCompletionMap billingModeMap billingExprMap]. intros H. bool_hyps.
  rewrite !andb_true_iff. split_and!; try done; by apply delete_ok.
Qed.


(** *** Writing to several models *)


(** ** Snapshots of drafts *)






(** ** Properties *)

Definition demo_input : ModelPricingSnapshotInput :=
  print_maps (MkMaps [("old"%js, num_of_Z 3)] [("7"%js, num_of_Z 1); ("gpt"%js, num_of_decimal false 15 (-1))] [] []
                [("gpt"%js, num_of_Z 2)] [] [] [] [("old"%js, "per-request"%js)] []).




(** Removing a model's pricing removes that model and nothing else: it has no
    entry in any of the ten records and does not appear in the list, while every
    other model keeps its snapshot and its place. *)
Theorem remove_entry_exact (input : ModelPricingSnapshotInput) (name : jstr) (m : Maps) :
  parse_maps input = Some m → ok_maps m = true →
  ∃ input' m', removeModelPricingEntry input name = Some input' ∧ parse_maps input' = Some m' ∧
    (name ∉ model_names m') ∧
    (∀ j, j ≠ name → snapshot_of m' j = snapshot_of m j ∧ (j ∈ model_names m' ↔ j ∈ model_names m)).
Proof.
  intros Hp Hm. exists (print_maps (delete_entry name m)), (delete_entry name m).
  split; [unfold removeModelPricingEntry; by rewrite Hp|].
  split; [by apply ok_maps_text, delete_entry_ok|].
  split; [rewrite entry_name, entry_delete, decide_True by done; naive_solver|].
  intros j Hj. assert (He : entry (delete_entry name m) j = entry m j) by (by rewrite entry_delete, decide_False).
  split; [by apply entry_snapshot|]. by rewrite !entry_name, He.
Qed.

Lemma remove_entry_exact_witness :
  ∃ m, parse_maps demo_input = Some m ∧
  ∃ input' m', removeModelPricingEntry demo_input "gpt" = Some input' ∧ parse_maps input' = Some m' ∧
    ("gpt"%js ∉ model_names m') ∧
    (∀ j, j ≠ "gpt"%js → snapshot_of m' j = snapshot_of m j ∧ (j ∈ model_names m' ↔ j ∈ model_names m)).
Proof.
  destruct (parse_maps demo_input) as [m|] eqn:Em; [|by vm_compute in Em]. exists m. split; [done|].
  apply remove_entry_exact; [done|]. vm_compute in Em. injection Em as <-. by vm_compute.
Defined.

(** Two snapshots have the same signature exactly when all their prices, their
    mode and their expressions agree, so a draft counts as changed exactly when
    something of its pricing differs. *)
Theorem signature_exact (a b : ModelPricingSnapshot) :
  let fields s := [s_price s; s_ratio s; s_cacheRatio s; s_createCacheRatio s; s_completionRatio s; s_imageRatio s;
                   s_audioRatio s; s_audioCompletionRatio s; jor (s_billingMode s) "per-token";
                   default [] (s_billingExpr s); default [] (s_requestRuleExpr s)] in
  forallb units (fields a) = true → forallb units (fields b) = true →
  getSnapshotSignature (Some a) = getSnapshotSignature (Some b) ↔ fields a = fields b.
Proof.
  cbv zeta. intros Ha Hb. split; [|by intros [= E1 E2 E3 E4 E5 E6 E7 E8 E9 E10 E11]; cbn [getSnapshotSignature];
    rewrite E1, E2, E3, E4, E5, E6, E7, E8, E9, E10, E11].
  unfold getSnapshotSignature. cbn [forallb] in Ha, Hb. bool_hyps.
  match goal with |- default [] (JSON_compact ?x) = default [] (JSON_compact ?y) → _ =>
    destruct (JSON_parse_compact x) as (ta & -> & _ & Pa); [|destruct (JSON_parse_compact y) as (tb & -> & _ & Pb)] end.
  - cbn [textual forallb fst snd map].
    repeat match goal with H : units _ = true |- _ => rewrite H; clear H end. by vm_compute.
  - cbn [textual forallb fst snd map].
    repeat match goal with H : units _ = true |- _ => rewrite H; clear H end. by vm_compute.
  - cbn [default from_option id]. intros ->. rewrite Pa in Pb. injection Pb. intros. congruence.
Qed.

Lemma signature_exact_witness :
  let s p := MkSnapshot "m" p [] [] [] [] [] [] [] "per-request" None None false in
  getSnapshotSignature (Some (s "1")) = getSnapshotSignature (Some (s "1")) ∧
  (getSnapshotSignature (Some (s "1")) = getSnapshotSignature (Some (s "2")) ↔
   ["1"; []; []; []; []; []; []; []; "per-request"; []; []]%js = ["2"; []; []; []; []; []; []; []; "per-request"; []; []]%js).
Proof.
  intros s. split; [done|]. apply (signature_exact (s "1"%js) (s "2"%js)); by vm_compute.
Defined.
