(* ===== verification/Flow.v ===== *)
(** * Dashboard flow graph

    Model of [features/dashboard/lib/flow.ts]: how usage rows become the Sankey
    graph of the dashboard (stages, filters, node and link totals, the top-N
    limit, highlighting, masking, shares and colors) and its filter options.
    The chart specification built from the graph is presentation and is not
    modelled.

    Metrics are whole numbers; they are [Z], which is exact as long as the sums
    stay below 2^53.  Shares and opacities are binary64 numbers.  [localeCompare]
    is given by a [Collator], the number format and the chart color schemes of
    the charting library are parameters.

    A [Map] is an association list in insertion order ([map_get], [map_set]);
    the objects stored in it are only reached through it. *)

From S2P Require Import Prelude JsRegExp JsValue.

(** ** types.ts *)

Inductive FlowMetric := metric_quota | metric_tokens | metric_requests.
Inductive FlowOverflowMode := overflow_aggregate | overflow_hide.
Inductive FlowRole := role_user | role_admin | role_root.
Inductive FlowNodeKind :=
  | kind_user | kind_node | kind_token | kind_group | kind_model | kind_channel.

#[global] Instance FlowNodeKind_eq_dec : EqDecision FlowNodeKind.
Proof. solve_decision. Defined.

Record FlowQuotaDataItem := MkRow {
  user_id : option Z; username : option jstr; node_name : option jstr; use_group : option jstr;
  token_id : option Z; token_name : option jstr; channel_id : option Z; channel_name : option jstr;
  model_name : option jstr; token_used : option Z; count : option Z; row_quota : option Z;
}.

Record FlowNodeFilter := MkFilter { f_kind : FlowNodeKind; f_id : jstr }.
Record FlowLinkSelection := MkLinkSel { s_source : jstr; s_target : jstr }.
Record FlowMetrics := MkMetrics { quota : Z; tokens : Z; requests : Z }.
Record FlowPathNode := MkPathNode { id : jstr; label : jstr; kind : FlowNodeKind }.
Record PreparedFlowPath := MkPrepared { path : list FlowPathNode; metrics : FlowMetrics }.

Record DashboardFlowNode := MkNode {
  n_id : jstr; n_label : jstr; n_kind : FlowNodeKind; n_value : Z; n_metrics : FlowMetrics;
  n_color : jstr; n_colorKey : jstr; n_highlighted : option bool; n_dimmed : option bool;
}.

Record DashboardFlowLink := MkLink {
  source : jstr; target : jstr; l_value : Z; l_metrics : FlowMetrics;
  sourceLabel : jstr; targetLabel : jstr; l_color : jstr;
  linkColor : jstr; linkAlpha : num; hoverColor : jstr; l_colorKey : jstr; share : num;
  l_highlighted : option bool; l_dimmed : option bool;
}.

Record DashboardFlowGraph := MkGraph { nodes : list DashboardFlowNode; links : list DashboardFlowLink }.

(** A consistent comparison of strings ([String.prototype.localeCompare]). *)
Class Collator := {
  localeCompare : jstr → jstr → Z;
  localeCompare_anti a b : Z.sgn (localeCompare b a) = (- Z.sgn (localeCompare a b))%Z;
  localeCompare_trans a b c :
    (localeCompare a b ≤ 0 → localeCompare b c ≤ 0 → localeCompare a c ≤ 0)%Z;
}.

(** ** Metrics and nodes *)

Definition numberValue (v : option Z) : Z := default 0%Z v.

Definition rowMetrics (row : FlowQuotaDataItem) : FlowMetrics :=
  MkMetrics (numberValue (row_quota row)) (numberValue (token_used row)) (numberValue (count row)).

Definition metricValue (m : FlowMetrics) (metric : FlowMetric) : Z :=
  match metric with
  | metric_requests => requests m
  | metric_tokens => tokens m
  | metric_quota => quota m
  end.

Record FlowPathContext := MkCtx { ctx_deletedTokenLabel : option (Z → jstr) }.
Definition EMPTY_FLOW_PATH_CONTEXT : FlowPathContext := MkCtx None.

(** A missing text field and an empty one are both falsy. *)
Definition text (v : option jstr) : jstr := default [] v.

Definition userNode (row : FlowQuotaDataItem) : FlowPathNode :=
  let userID := numberValue (user_id row) in
  MkPathNode
    (if (0 <? userID)%Z then "user:" ++ js_of_Z userID
     else "user:" ++ jor (text (username row)) "unknown")
    (jor (text (username row))
       (if (0 <? userID)%Z then "user-" ++ js_of_Z userID else "Unknown User"))
    kind_user.

Definition nodeNameNode (row : FlowQuotaDataItem) : FlowPathNode :=
  let nodeName := jor (text (node_name row)) "default-node" in
  MkPathNode ("node:" ++ nodeName) nodeName kind_node.

Definition deletedTokenLabel (tokenID : Z) (ctx : FlowPathContext) : jstr :=
  if (tokenID <=? 0)%Z then "Unknown Token"
  else match ctx_deletedTokenLabel ctx with
       | Some f => f tokenID
       | None => "token-" ++ js_of_Z tokenID
       end.

Definition tokenNode (row : FlowQuotaDataItem) (ctx : FlowPathContext) : FlowPathNode :=
  let tokenID := numberValue (token_id row) in
  MkPathNode
    (if (0 <? tokenID)%Z then "token:" ++ js_of_Z tokenID
     else "token:" ++ jor (text (token_name row)) "unknown")
    (jor (text (token_name row)) (deletedTokenLabel tokenID ctx))
    kind_token.

Definition groupNode (row : FlowQuotaDataItem) : FlowPathNode :=
  let useGroup := jor (text (use_group row)) "unknown" in
  MkPathNode ("group:" ++ useGroup) useGroup kind_group.

Definition modelNode (row : FlowQuotaDataItem) : FlowPathNode :=
  let model := jor (text (model_name row)) "unknown" in
  MkPathNode ("model:" ++ model) (jor (text (model_name row)) "Unknown Model") kind_model.

Definition channelNode (row : FlowQuotaDataItem) : FlowPathNode :=
  let channelID := numberValue (channel_id row) in
  MkPathNode
    (if (0 <? channelID)%Z then "channel:" ++ js_of_Z channelID
     else "channel:" ++ jor (text (channel_name row)) "unknown")
    (jor (text (channel_name row))
       (if (0 <? channelID)%Z then "channel-" ++ js_of_Z channelID else "Unknown"))
    kind_channel.

Definition NODE_BUILDERS (k : FlowNodeKind) (row : FlowQuotaDataItem) (ctx : FlowPathContext) :
    FlowPathNode :=
  match k with
  | kind_user => userNode row
  | kind_node => nodeNameNode row
  | kind_token => tokenNode row ctx
  | kind_group => groupNode row
  | kind_model => modelNode row
  | kind_channel => channelNode row
  end.

(** ** Stages *)

Definition ROLE_FLOW_STAGES (r : FlowRole) : list FlowNodeKind :=
  match r with
  | role_root => [kind_user; kind_node; kind_token; kind_group; kind_model; kind_channel]
  | role_admin => [kind_user; kind_group; kind_model; kind_channel]
  | role_user => [kind_token; kind_group; kind_model]
  end.

Definition MIN_FLOW_STAGES : nat := 2.

Definition getFlowStages (r : FlowRole) : list FlowNodeKind := ROLE_FLOW_STAGES r.

Definition resolveVisibleStages (r : FlowRole) (visibleStages : option (list FlowNodeKind)) :
    list FlowNodeKind :=
  let stages := getFlowStages r in
  match visibleStages with
  | None => stages
  | Some visible =>
    let filtered := filter (fun stage => stage ∈ visible) stages in
    if MIN_FLOW_STAGES <=? length filtered then filtered else stages
  end.

Definition flowPathForStages (row : FlowQuotaDataItem) (stages : list FlowNodeKind)
    (ctx : FlowPathContext) : list FlowPathNode :=
  map (fun stage => NODE_BUILDERS stage row ctx) stages.

(** ** Colors *)

Section colors.
(** [vchartDefaultDataScheme]: the longest domain each scheme is meant for, and
    its colors. *)
Context (vchartDefaultDataScheme : list (option nat * list jstr)).

Definition DEFAULT_FLOW_CHART_COLOR : jstr := "#1664FF".

(** [charts.ts] *)
Definition getDashboardChartColors (domainLength : nat) : list jstr :=
  let fits item :=
    match fst item with
    | None | Some 0 => true
    | Some m => domainLength <=? m
    end in
  match head (filter (fun item => fits item = true) vchartDefaultDataScheme) with
  | Some item => snd item
  | None => default [] (snd <$> last vchartDefaultDataScheme)
  end.

Definition given_palette (palette : option (list jstr)) : option (list jstr) :=
  match palette with Some (_ :: _) => palette | _ => None end.

Definition colorAt (index : nat) (palette : option (list jstr)) : jstr :=
  let colors := default (getDashboardChartColors (index + 1)) (given_palette palette) in
  if length colors =? 0 then DEFAULT_FLOW_CHART_COLOR
  else default DEFAULT_FLOW_CHART_COLOR (colors !! (index mod length colors)).

Definition colorPalette (colorCount : nat) (palette : option (list jstr)) : list jstr :=
  match given_palette palette with
  | Some p => p
  | None =>
    let colors := getDashboardChartColors colorCount in
    if 0 <? length colors then colors else [DEFAULT_FLOW_CHART_COLOR]
  end.

Definition stableColorMap (keys : list jstr) (palette : option (list jstr)) : list (jstr * jstr) :=
  let uniqueKeys := dedup keys in
  let colors := colorPalette (length uniqueKeys) palette in
  imap (fun index key => (key, colorAt index (Some colors))) uniqueKeys.
End colors.

(** [x.toFixed(2)] for a finite number [0 <= x < 10^19]: the nearest multiple of
    1/100, the larger one in a tie. *)
Definition hundredths (x : num) : Z :=
  match x with
  | S754_finite false m e =>
    if (0 <=? e)%Z then (Zpos m * 2 ^ e * 100)%Z
    else ((2 * Zpos m * 100 + 2 ^ (- e)) / (2 * 2 ^ (- e)))%Z
  | _ => 0%Z
  end.
Definition toFixed2 (x : num) : jstr :=
  let n := hundredths x in
  js_of_Z (n / 100) ++ "." ++ js_of_Z ((n / 10) mod 10) ++ js_of_Z (n mod 10).

(** [/^[0-9a-f]{6}$/i] *)
Definition re_hex6 : regex := (RBol · RRep (RUnit is_hex) 6 (Some 6) · REol)%re.

Definition alphaColor (color : jstr) (alpha : num) : jstr * num :=
  let normalized := trim color in
  let hex := if startsWith "#" normalized then drop 1 normalized else normalized in
  if negb (test re_hex6 hex) then (normalized, alpha)
  else
    let v := Z.of_N (parse_digits 16 hex) in
    let red := Z.land (Z.shiftr v 16) 255 in
    let green := Z.land (Z.shiftr v 8) 255 in
    let blue := Z.land v 255 in
    ("rgba(" ++ js_of_Z red ++ ", " ++ js_of_Z green ++ ", " ++ js_of_Z blue ++ ", "
       ++ toFixed2 alpha ++ ")", num_of_Z 1).

(** ** Filters *)

Definition filterRows (rows : list FlowQuotaDataItem) (selectedUsers : option (list jstr)) :
    list FlowQuotaDataItem :=
  let selected := default [] selectedUsers in
  if length selected =? 0 then rows
  else filter (fun row => id (userNode row) ∈ selected) rows.

Definition nodeFilterKey (f : FlowNodeFilter) : jstr :=
  match f_kind f with
  | kind_user => "user" | kind_node => "node" | kind_token => "token"
  | kind_group => "group" | kind_model => "model" | kind_channel => "channel"
  end ++ [0%N] ++ f_id f.

(** A [Set] is a list without repetitions. *)
Definition set_add (x : jstr) (s : list jstr) : list jstr := if has x s then s else s ++ [x].

Definition add_filter (stages : list FlowNodeKind) (filters : list (FlowNodeKind * list jstr))
    (f : FlowNodeFilter) : list (FlowNodeKind * list jstr) :=
  if negb (has (f_kind f) stages) then filters
  else map_set (f_kind f) (set_add (f_id f) (default [] (map_get (f_kind f) filters))) filters.

Definition normalizeSelectedNodeFilters (selectedNodes : option (list FlowNodeFilter))
    (stages : list FlowNodeKind) : list (FlowNodeKind * list jstr) :=
  foldl (add_filter stages) [] (default [] selectedNodes).

Definition add_path_node (m : list (FlowNodeKind * list jstr)) (n : FlowPathNode) :
    list (FlowNodeKind * list jstr) :=
  map_set (kind n) (set_add (id n) (default [] (map_get (kind n) m))) m.

Definition pathMatchesNodeFilters (p : list FlowPathNode) (filters : list (FlowNodeKind * list jstr)) :
    bool :=
  if length filters =? 0 then true
  else
    let pathNodesByKind := foldl add_path_node [] p in
    forallb (fun '(k, selectedIds) =>
      match map_get k pathNodesByKind with
      | None => false
      | Some pathIds => existsb (fun i => has i pathIds) selectedIds
      end) filters.

Definition filterRowsByNodes (rows : list FlowQuotaDataItem) (selectedNodes : option (list FlowNodeFilter))
    (stages : list FlowNodeKind) (ctx : FlowPathContext) : list FlowQuotaDataItem :=
  let filters := normalizeSelectedNodeFilters selectedNodes stages in
  if length filters =? 0 then rows
  else filter (fun row => pathMatchesNodeFilters (flowPathForStages row stages ctx) filters = true) rows.

Definition selectedNodeFiltersExceptKind (selectedNodes : option (list FlowNodeFilter))
    (k : FlowNodeKind) : option (list FlowNodeFilter) :=
  match filter (fun f => f_kind f ≠ k) (default [] selectedNodes) with
  | [] => None
  | l => Some l
  end.

Definition buildSummary (rows : list FlowQuotaDataItem) : FlowMetrics :=
  foldl (fun s row =>
    let m := rowMetrics row in
    MkMetrics (quota s + quota m) (tokens s + tokens m) (requests s + requests m))
    (MkMetrics 0 0 0) rows.

(** ** The graph *)

Definition add_metrics (a b : FlowMetrics) : FlowMetrics :=
  MkMetrics (quota a + quota b) (tokens a + tokens b) (requests a + requests b).

Definition addNode (metric : FlowMetric) (m : FlowMetrics) (color colorKey : jstr)
    (map : list (jstr * DashboardFlowNode)) (pathNode : FlowPathNode) :
    list (jstr * DashboardFlowNode) :=
  let previous :=
    default (MkNode (id pathNode) (label pathNode) (kind pathNode) 0 (MkMetrics 0 0 0)
               color colorKey None None) (map_get (id pathNode) map) in
  map_set (id pathNode)
    (MkNode (n_id previous) (n_label previous) (n_kind previous)
       (n_value previous + metricValue m metric) (add_metrics (n_metrics previous) m)
       (n_color previous) (n_colorKey previous) (n_highlighted previous) (n_dimmed previous)) map.

Definition pathLinkKey (a b : FlowPathNode) : jstr := id a ++ [0%N] ++ id b.
Definition linkStableKey (l : DashboardFlowLink) : jstr := source l ++ [0%N] ++ target l.

Definition addLink (metric : FlowMetric) (m : FlowMetrics) (color colorKey : jstr)
    (map : list (jstr * DashboardFlowLink)) (st : FlowPathNode * FlowPathNode) :
    list (jstr * DashboardFlowLink) :=
  let '(s, t) := st in
  let key := pathLinkKey s t in
  let previous :=
    default (MkLink (id s) (id t) 0 (MkMetrics 0 0 0) (label s) (label t) color color
               (num_of_Z 1) color colorKey (num_of_Z 0) None None) (map_get key map) in
  map_set key
    (MkLink (source previous) (target previous) (l_value previous + metricValue m metric)
       (add_metrics (l_metrics previous) m) (sourceLabel previous) (targetLabel previous)
       (l_color previous) (linkColor previous) (linkAlpha previous) (hoverColor previous)
       (l_colorKey previous) (share previous) (l_highlighted previous) (l_dimmed previous)) map.

(** Consecutive nodes of a path. *)
Fixpoint steps {A} (p : list A) : list (A * A) :=
  match p with
  | a :: ((b :: _) as p') => (a, b) :: steps p'
  | _ => []
  end.

Definition with_label (s : jstr) (n : DashboardFlowNode) : DashboardFlowNode :=
  MkNode (n_id n) s (n_kind n) (n_value n) (n_metrics n) (n_color n) (n_colorKey n)
    (n_highlighted n) (n_dimmed n).
Definition with_node_flags (h : bool) (n : DashboardFlowNode) : DashboardFlowNode :=
  MkNode (n_id n) (n_label n) (n_kind n) (n_value n) (n_metrics n) (n_color n) (n_colorKey n)
    (Some h) (Some (negb h)).
Definition with_link_labels (s t : jstr) (l : DashboardFlowLink) : DashboardFlowLink :=
  MkLink (source l) (target l) (l_value l) (l_metrics l) s t (l_color l) (linkColor l)
    (linkAlpha l) (hoverColor l) (l_colorKey l) (share l) (l_highlighted l) (l_dimmed l).
Definition with_link_flags (h : bool) (l : DashboardFlowLink) : DashboardFlowLink :=
  MkLink (source l) (target l) (l_value l) (l_metrics l) (sourceLabel l) (targetLabel l) (l_color l)
    (linkColor l) (linkAlpha l) (hoverColor l) (l_colorKey l) (share l) (Some h) (Some (negb h)).
Definition with_share (s : num) (l : DashboardFlowLink) : DashboardFlowLink :=
  MkLink (source l) (target l) (l_value l) (l_metrics l) (sourceLabel l) (targetLabel l) (l_color l)
    (linkColor l) (linkAlpha l) (hoverColor l) (l_colorKey l) s (l_highlighted l) (l_dimmed l).
Definition with_display (c : jstr) (a : num) (h : jstr) (l : DashboardFlowLink) : DashboardFlowLink :=
  MkLink (source l) (target l) (l_value l) (l_metrics l) (sourceLabel l) (targetLabel l) (l_color l)
    c a h (l_colorKey l) (share l) (l_highlighted l) (l_dimmed l).

Definition decimal (n d : Z) : num := num_div (num_of_Z n) (num_of_Z d).

Section graph.
Context `{Collator} (scheme : list (option nat * list jstr)).

(** [a - b || c || d] of comparators: the first nonzero one decides. *)
Definition cmp_or (a b : Z) : Z := if (a =? 0)%Z then b else a.

Definition link_le (a b : DashboardFlowLink) : bool :=
  (cmp_or (l_value b - l_value a) (localeCompare (linkStableKey a) (linkStableKey b)) <=? 0)%Z.

(** The opacity of the [index]-th of [n] links of one source. *)
Definition link_alpha (n index : nat) : num :=
  if n =? 1 then decimal 34 100
  else num_add (decimal 24 100)
         (num_mul (num_div (num_of_Z (Z.of_nat index)) (num_of_Z (Z.of_nat (Nat.max (n - 1) 1))))
            (decimal 2 10)).

(** The display colors of each link, by its rank among the links of its source.
    The links of a graph have distinct keys, so a link's rank is the index of its
    key among the sorted links of its source. *)
Definition assignLinkDisplayColors (ls : list DashboardFlowLink) : list DashboardFlowLink :=
  map (fun l =>
    let sourceLinks := filter (fun l' => source l' = source l) ls in
    let sortedLinks := js_sort link_le sourceLinks in
    let index := default 0 (findIndex (fun l' => linkStableKey l' === linkStableKey l) sortedLinks) in
    let '(c, a) := alphaColor (l_color l) (link_alpha (length sortedLinks) index) in
    with_display c a (l_color l) l) ls.

(** *** The top-N limit *)

(** [Math.floor] of a finite number. *)
Definition num_floor (x : num) : Z :=
  match x with
  | S754_finite s m e =>
    let v := if s then Zneg m else Zpos m in
    if (0 <=? e)%Z then (v * 2 ^ e)%Z else (v / 2 ^ (- e))%Z
  | _ => 0%Z
  end.

Definition normalizeTopNodeLimit (limit : option num) : option nat :=
  match limit with
  | None => None
  | Some x => if isFinite x && (0 <? num_floor x)%Z then Some (Z.to_nat (num_floor x)) else None
  end.

Definition OTHER_FLOW_NODE_IDS (k : FlowNodeKind) : jstr :=
  match k with
  | kind_user => "user:__other__" | kind_node => "node:__other__" | kind_token => "token:__other__"
  | kind_group => "group:__other__" | kind_model => "model:__other__"
  | kind_channel => "channel:__other__"
  end.

Definition DEFAULT_OTHER_FLOW_NODE_LABELS (k : FlowNodeKind) : jstr :=
  match k with
  | kind_user => "Other users" | kind_node => "Other nodes" | kind_token => "Other tokens"
  | kind_group => "Other groups" | kind_model => "Other models" | kind_channel => "Other channels"
  end.

Definition otherFlowNode (labeler : option (FlowNodeKind → jstr)) (k : FlowNodeKind) : FlowPathNode :=
  MkPathNode (OTHER_FLOW_NODE_IDS k)
    (match labeler with Some f => f k | None => DEFAULT_OTHER_FLOW_NODE_LABELS k end) k.

Record FlowNodeRank := MkRank { rank_node : FlowPathNode; rank_value : Z }.

Definition rank_le (a b : FlowNodeRank) : bool :=
  (cmp_or (rank_value b - rank_value a)
    (cmp_or (localeCompare (label (rank_node a)) (label (rank_node b)))
       (localeCompare (id (rank_node a)) (id (rank_node b)))) <=? 0)%Z.

(** [totals.get(node.kind)] accumulates the totals of one stage. *)
Definition add_total (v : Z) (totals : list (FlowNodeKind * list (jstr * FlowNodeRank)))
    (n : FlowPathNode) : list (FlowNodeKind * list (jstr * FlowNodeRank)) :=
  match map_get (kind n) totals with
  | None => totals
  | Some stageTotals =>
    let current := default (MkRank n 0) (map_get (id n) stageTotals) in
    map_set (kind n)
      (map_set (id n) (MkRank (rank_node current) (rank_value current + v)) stageTotals) totals
  end.

Definition stage_totals (rows : list FlowQuotaDataItem) (metric : FlowMetric)
    (stages : list FlowNodeKind) (ctx : FlowPathContext) :
    list (FlowNodeKind * list (jstr * FlowNodeRank)) :=
  foldl (fun totals row =>
    foldl (add_total (metricValue (rowMetrics row) metric)) totals (flowPathForStages row stages ctx))
    (foldl (fun totals stage => map_set stage [] totals) [] stages) rows.

Definition top_ids (limit : nat) (stageTotals : list (jstr * FlowNodeRank)) : list jstr :=
  map (fun rank => id (rank_node rank)) (take limit (js_sort rank_le (map snd stageTotals))).

Definition buildTopNodeSets (rows : list FlowQuotaDataItem) (metric : FlowMetric)
    (stages : list FlowNodeKind) (limit : option nat) (ctx : FlowPathContext) :
    option (list (FlowNodeKind * list jstr)) :=
  match limit with
  | None | Some 0 => None
  | Some limit =>
    Some (map (fun '(k, stageTotals) => (k, top_ids limit stageTotals))
            (stage_totals rows metric stages ctx))
  end.

Definition isTopFlowNode (topNodeSets : option (list (FlowNodeKind * list jstr))) (n : FlowPathNode) :
    bool :=
  match topNodeSets with
  | None => true
  | Some sets => match map_get (kind n) sets with None => true | Some top => has (id n) top end
  end.

Definition applyTopNodeLimit (p : list FlowPathNode)
    (topNodeSets : option (list (FlowNodeKind * list jstr))) (mode : FlowOverflowMode)
    (labeler : option (FlowNodeKind → jstr)) : option (list FlowPathNode) :=
  match topNodeSets with
  | None => Some p
  | Some _ =>
    if negb (existsb (fun n => negb (isTopFlowNode topNodeSets n)) p) then Some p
    else match mode with
         | overflow_hide => None
         | overflow_aggregate =>
           Some (map (fun n => if isTopFlowNode topNodeSets n then n
                               else otherFlowNode labeler (kind n)) p)
         end
  end.

(** *** Highlighting *)

Definition pathContainsFlowNode (p : list FlowPathNode) (f : FlowNodeFilter) : bool :=
  existsb (fun n => bool_decide (kind n = f_kind f) && (id n === f_id f)) p.

Definition pathContainsFlowLink (p : list FlowPathNode) (l : FlowLinkSelection) : bool :=
  existsb (fun '(a, b) => (id a === s_source l) && (id b === s_target l)) (steps p).

Record FlowHighlightSets := MkHighlights { h_nodes : list jstr; h_links : list jstr }.

Definition matches_path (activeNode : option FlowNodeFilter) (activeLink : option FlowLinkSelection)
    (p : list FlowPathNode) : bool :=
  match activeLink with
  | Some l => pathContainsFlowLink p l
  | None => match activeNode with Some f => pathContainsFlowNode p f | None => false end
  end.

Definition buildFlowHighlightSets (prepared : list PreparedFlowPath)
    (activeNode : option FlowNodeFilter) (activeLink : option FlowLinkSelection)
    (stages : list FlowNodeKind) : option FlowHighlightSets :=
  let nodeActive := match activeNode with Some f => has (f_kind f) stages | None => false end in
  if negb nodeActive && bool_decide (activeLink = None) then None
  else
    let matching := filter (fun p => matches_path activeNode activeLink (path p) = true) prepared in
    let hn := dedup (concat (map (fun p => map id (path p)) matching)) in
    let hl := dedup (concat (map (fun p => map (fun '(a, b) => pathLinkKey a b) (steps (path p)))
                               matching)) in
    if length hn =? 0 then None else Some (MkHighlights hn hl).

Definition applyFlowHighlights (h : option FlowHighlightSets)
    (ns : list (jstr * DashboardFlowNode)) (ls : list (jstr * DashboardFlowLink)) :
    list (jstr * DashboardFlowNode) * list (jstr * DashboardFlowLink) :=
  match h with
  | None => (ns, ls)
  | Some h =>
    (map (fun '(k, n) => (k, with_node_flags (has (n_id n) (h_nodes h)) n)) ns,
     map (fun '(k, l) => (k, with_link_flags (has (linkStableKey l) (h_links h)) l)) ls)
  end.

(** *** Masking *)

Definition FLOW_MASK_TEXT : jstr := [0x2022; 0x2022; 0x2022; 0x2022]%N.

Definition maskFlowLabel (s : jstr) : jstr := if length s =? 0 then s else FLOW_MASK_TEXT.

Definition SENSITIVE_FLOW_KINDS : list FlowNodeKind :=
  [kind_user; kind_node; kind_token; kind_group; kind_channel].

Definition OTHER_FLOW_NODE_ID_SET : list jstr :=
  map OTHER_FLOW_NODE_IDS [kind_user; kind_node; kind_token; kind_group; kind_model; kind_channel].

Definition is_masked (n : DashboardFlowNode) : bool :=
  has (n_kind n) SENSITIVE_FLOW_KINDS && negb (has (n_id n) OTHER_FLOW_NODE_ID_SET).

Definition maskedById (ns : list (jstr * DashboardFlowNode)) : list (jstr * jstr) :=
  foldl (fun m '(_, n) => if is_masked n then map_set (n_id n) (maskFlowLabel (n_label n)) m else m)
    [] ns.

Definition maskFlowGraphLabels (ns : list (jstr * DashboardFlowNode))
    (ls : list (jstr * DashboardFlowLink)) :
    list (jstr * DashboardFlowNode) * list (jstr * DashboardFlowLink) :=
  let masked := maskedById ns in
  let ns' := map (fun '(k, n) =>
    (k, if is_masked n then with_label (maskFlowLabel (n_label n)) n else n)) ns in
  if length masked =? 0 then (ns', ls)
  else
    (ns', map (fun '(k, l) =>
       (k, with_link_labels (default (sourceLabel l) (map_get (source l) masked))
             (default (targetLabel l) (map_get (target l) masked)) l)) ls).

(** *** [buildFlowGraph] *)

Record FlowGraphOptions := MkOptions {
  topNodeLimit : option num; overflowMode : option FlowOverflowMode;
  otherNodeLabel : option (FlowNodeKind → jstr);
  activeNode : option FlowNodeFilter; activeLink : option FlowLinkSelection; maskSensitive : bool;
}.

Definition preparePaths (rows : list FlowQuotaDataItem) (stages : list FlowNodeKind)
    (topNodeSets : option (list (FlowNodeKind * list jstr))) (options : FlowGraphOptions)
    (ctx : FlowPathContext) : list PreparedFlowPath :=
  omap (fun row =>
    (fun p => MkPrepared p (rowMetrics row)) <$>
    applyTopNodeLimit (flowPathForStages row stages ctx) topNodeSets
      (default overflow_aggregate (overflowMode options)) (otherNodeLabel options)) rows.

(** The ids of the first nodes; an id is never empty. *)
Definition first_ids (prepared : list PreparedFlowPath) : list jstr :=
  filter (fun i => i ≠ []) (omap (fun p => id <$> head (path p)) prepared).

Definition addPath (colors : list (jstr * jstr)) (palette : option (list jstr)) (metric : FlowMetric)
    (g : list (jstr * DashboardFlowNode) * list (jstr * DashboardFlowLink)) (p : PreparedFlowPath) :
    list (jstr * DashboardFlowNode) * list (jstr * DashboardFlowLink) :=
  match head (path p) with
  | None => g
  | Some root =>
    let color := default (colorAt scheme 0 palette) (map_get (id root) colors) in
    (foldl (addNode metric (metrics p) color (id root)) g.1 (path p),
     foldl (addLink metric (metrics p) color (id root)) g.2 (steps (path p)))
  end.

Definition node_le (a b : DashboardFlowNode) : bool :=
  (cmp_or (n_value b - n_value a) (localeCompare (n_label a) (n_label b)) <=? 0)%Z.
Definition link_order_le (a b : DashboardFlowLink) : bool :=
  (cmp_or (localeCompare (source a) (source b)) (localeCompare (target a) (target b)) <=? 0)%Z.
Definition id_le (a b : jstr) : bool := (localeCompare a b <=? 0)%Z.

Definition buildFlowGraph (rows : list FlowQuotaDataItem) (metric : FlowMetric) (r : FlowRole)
    (palette : option (list jstr)) (visibleStages : option (list FlowNodeKind))
    (ctx : FlowPathContext) (options : FlowGraphOptions) : DashboardFlowGraph :=
  let stages := resolveVisibleStages r visibleStages in
  let topNodeSets :=
    buildTopNodeSets rows metric stages (normalizeTopNodeLimit (topNodeLimit options)) ctx in
  let prepared := preparePaths rows stages topNodeSets options ctx in
  let colors := stableColorMap scheme (js_sort id_le (first_ids prepared)) palette in
  let '(ns, ls) := foldl (addPath colors palette metric) ([], []) prepared in
  let '(ns, ls) := if maskSensitive options then maskFlowGraphLabels ns ls else (ns, ls) in
  let '(ns, ls) := applyFlowHighlights
    (buildFlowHighlightSets prepared (activeNode options) (activeLink options) stages) ns ls in
  let flowLinks := js_sort link_order_le (map snd ls) in
  let firstStepSources := first_ids prepared in
  let total := foldl (fun sum l => sum + l_value l)%Z 0%Z
                 (filter (fun l => source l ∈ firstStepSources) flowLinks) in
  let shared := map (fun l =>
    with_share (if (0 <? total)%Z then num_div (num_of_Z (l_value l)) (num_of_Z total)
                else num_of_Z 0) l) flowLinks in
  MkGraph (js_sort node_le (map snd ns)) (assignLinkDisplayColors shared).
End graph.

(** ** Filter options *)

Record FlowUserFilterOption := MkUserOption {
  uo_value : jstr; uo_label : jstr; uo_valueLabel : jstr; uo_valueRaw : Z; uo_color : jstr;
}.
Record FlowNodeFilterOption := MkNodeOption {
  no_kind : FlowNodeKind; no_value : jstr; no_label : jstr; no_valueLabel : jstr;
  no_valueRaw : Z; no_color : jstr;
}.
Record FlowFilterOptions := MkFilterOptions {
  fo_users : list FlowUserFilterOption; fo_nodes : list FlowNodeFilterOption;
}.

Record FlowBuildOptions := MkBuildOptions {
  b_role : option FlowRole; b_selectedUsers : option (list jstr);
  b_selectedNodes : option (list FlowNodeFilter); b_colorPalette : option (list jstr);
  b_visibleStages : option (list FlowNodeKind); b_deletedTokenLabel : option (Z → jstr);
  b_graph : FlowGraphOptions;
}.

Record ProcessedFlowData := MkProcessed {
  summary : FlowMetrics; flow : DashboardFlowGraph; filterOptions : FlowFilterOptions;
}.

Section options.
(** [formatNumber] is [Intl.NumberFormat] without fraction digits. *)
Context `{Collator} (scheme : list (option nat * list jstr)) (formatNumber : Z → jstr).

Record UserTotal := MkUserTotal { ut_label : jstr; ut_value : Z; ut_color : jstr }.

Definition add_user (metric : FlowMetric) (colors : list (jstr * jstr)) (palette : option (list jstr))
    (users : list (jstr * UserTotal)) (row : FlowQuotaDataItem) : list (jstr * UserTotal) :=
  let user := userNode row in
  if (numberValue (user_id row) =? 0)%Z && negb (truthy (text (username row))) then users
  else
    let current := default (MkUserTotal (label user) 0
                     (default (colorAt scheme 0 palette) (map_get (id user) colors)))
                     (map_get (id user) users) in
    map_set (id user)
      (MkUserTotal (ut_label current) (ut_value current + metricValue (rowMetrics row) metric)
         (ut_color current)) users.

Definition user_option_le (a b : FlowUserFilterOption) : bool :=
  (cmp_or (uo_valueRaw b - uo_valueRaw a) (localeCompare (uo_label a) (uo_label b)) <=? 0)%Z.

Definition buildUserFilterOptions (rows : list FlowQuotaDataItem) (metric : FlowMetric)
    (palette : option (list jstr)) : list FlowUserFilterOption :=
  let colors := stableColorMap scheme (js_sort id_le (map (fun row => id (userNode row)) rows)) palette in
  js_sort user_option_le
    (map (fun '(v, u) => MkUserOption v (ut_label u) (formatNumber (ut_value u)) (ut_value u) (ut_color u))
       (foldl (add_user metric colors palette) [] rows)).

Definition add_stage_total (metric : FlowMetric) (stage : FlowNodeKind) (ctx : FlowPathContext)
    (totals : list (jstr * FlowNodeRank)) (row : FlowQuotaDataItem) : list (jstr * FlowNodeRank) :=
  let node := NODE_BUILDERS stage row ctx in
  let key := nodeFilterKey (MkFilter (kind node) (id node)) in
  let current := default (MkRank node 0) (map_get key totals) in
  map_set key (MkRank (rank_node current)
                 (rank_value current + metricValue (rowMetrics row) metric)) totals.

Definition stage_index (stages : list FlowNodeKind) (k : FlowNodeKind) : Z :=
  Z.of_nat (default 0 (findIndex (fun s => bool_decide (s = k)) stages)).

Definition node_option_le (stages : list FlowNodeKind) (a b : FlowNodeFilterOption) : bool :=
  (cmp_or (stage_index stages (no_kind a) - stage_index stages (no_kind b))
    (cmp_or (no_valueRaw b - no_valueRaw a)
      (cmp_or (localeCompare (no_label a) (no_label b))
         (localeCompare (no_value a) (no_value b)))) <=? 0)%Z.

Definition buildNodeFilterOptions (rows : list FlowQuotaDataItem) (metric : FlowMetric) (r : FlowRole)
    (visibleStages : option (list FlowNodeKind)) (palette : option (list jstr))
    (ctx : FlowPathContext) (selectedNodes : option (list FlowNodeFilter)) :
    list FlowNodeFilterOption :=
  let stages := resolveVisibleStages r visibleStages in
  let colorIds := dedup (concat (map (fun row => map id (flowPathForStages row stages ctx)) rows)) in
  let colors := stableColorMap scheme (js_sort id_le colorIds) palette in
  js_sort (node_option_le stages)
    (concat (map (fun stage =>
       let candidateRows :=
         filterRowsByNodes rows (selectedNodeFiltersExceptKind selectedNodes stage) stages ctx in
       map (fun '(_, rank) =>
              MkNodeOption (kind (rank_node rank)) (id (rank_node rank)) (label (rank_node rank))
                (formatNumber (rank_value rank)) (rank_value rank)
                (default (colorAt scheme 0 palette) (map_get (id (rank_node rank)) colors)))
         (foldl (add_stage_total metric stage ctx) [] candidateRows)) stages)).

Definition buildFlowFilterOptions (rows : list FlowQuotaDataItem) (metric : FlowMetric)
    (palette : option (list jstr)) (r : FlowRole) (visibleStages : option (list FlowNodeKind))
    (selectedNodes : option (list FlowNodeFilter)) : FlowFilterOptions :=
  MkFilterOptions (buildUserFilterOptions rows metric palette)
    (buildNodeFilterOptions rows metric r visibleStages palette EMPTY_FLOW_PATH_CONTEXT selectedNodes).

Definition buildDashboardFlowData (rows : list FlowQuotaDataItem) (metric : FlowMetric)
    (options : FlowBuildOptions) : ProcessedFlowData :=
  let r := default role_user (b_role options) in
  let palette := b_colorPalette options in
  let ctx := MkCtx (b_deletedTokenLabel options) in
  let stages := resolveVisibleStages r (b_visibleStages options) in
  let userFilteredRows := filterRows rows (b_selectedUsers options) in
  let filteredRows := filterRowsByNodes userFilteredRows (b_selectedNodes options) stages ctx in
  MkProcessed (buildSummary filteredRows)
    (buildFlowGraph scheme filteredRows metric r palette (b_visibleStages options) ctx (b_graph options))
    (MkFilterOptions (buildUserFilterOptions rows metric palette)
       (buildNodeFilterOptions userFilteredRows metric r (b_visibleStages options) palette ctx
          (b_selectedNodes options))).
End options.

(** ** Lemmas *)

(** *** Node identifiers carry their kind *)

Definition kind_letter (k : FlowNodeKind) : N :=
  match k with
  | kind_user => 117 | kind_node => 110 | kind_token => 116
  | kind_group => 103 | kind_model => 109 | kind_channel => 99
  end%N.

Lemma kind_letter_inj k k' : kind_letter k = kind_letter k' → k = k'.
Proof. by destruct k, k'. Qed.

(** A path node whose id starts with the letter of its kind. *)
Definition tagged (n : FlowPathNode) : Prop := head (id n) = Some (kind_letter (kind n)).

Lemma NODE_BUILDERS_tagged k row ctx :
  tagged (NODE_BUILDERS k row ctx) ∧ kind (NODE_BUILDERS k row ctx) = k.
Proof.
  destruct k; unfold NODE_BUILDERS, tagged, userNode, nodeNameNode, tokenNode, groupNode, modelNode,
    channelNode; simpl; repeat case_if; done.
Qed.

Lemma otherFlowNode_tagged f k : tagged (otherFlowNode f k) ∧ kind (otherFlowNode f k) = k.
Proof. by destruct k. Qed.

Lemma tagged_kind a b : tagged a → tagged b → id a = id b → kind a = kind b.
Proof.
  unfold tagged. intros Ha Hb E. rewrite E in Ha. apply kind_letter_inj. congruence.
Qed.

(** *** Prepared paths *)

Section prepared.
Context (rows : list FlowQuotaDataItem) (stages : list FlowNodeKind)
  (sets : option (list (FlowNodeKind * list jstr))) (options : FlowGraphOptions)
  (ctx : FlowPathContext).

Lemma applyTopNodeLimit_kinds row mode f p :
  applyTopNodeLimit (flowPathForStages row stages ctx) sets mode f = Some p →
  map kind p = stages ∧ Forall tagged p.
Proof.
  assert (Hp : map kind (flowPathForStages row stages ctx) = stages ∧
    Forall tagged (flowPathForStages row stages ctx)).
  { unfold flowPathForStages. rewrite map_map. split.
    - rewrite <- (map_id stages) at 2. apply map_ext. intros k. by apply NODE_BUILDERS_tagged.
    - apply Forall_map, Forall_true. intros k. by apply NODE_BUILDERS_tagged. }
  unfold applyTopNodeLimit. destruct sets as [s|]; [|by intros [= <-]].
  case_if; [by intros [= <-]|]. destruct mode; [|done]. intros [= <-].
  destruct Hp as [Hk Ht]. rewrite map_map. split.
  - rewrite <- Hk at 2. apply map_ext. intros n. case_if; [done|]. by apply otherFlowNode_tagged.
  - apply Forall_map. eapply Forall_impl; [exact Ht|]. intros n Hn. simpl.
    case_if; [done|]. by apply otherFlowNode_tagged.
Qed.

Lemma preparePaths_kinds p :
  p ∈ preparePaths rows stages sets options ctx → map kind (path p) = stages ∧ Forall tagged (path p).
Proof.
  unfold preparePaths. rewrite list_elem_of_omap. intros (row & _ & Hp).
  apply fmap_Some in Hp as (q & Hq & ->). by eapply applyTopNodeLimit_kinds.
Qed.

(** The rows whose paths are drawn: all of them, or, when overflowing paths are hidden, those
    with no node beyond the limit. *)
Definition drawn_rows : list FlowQuotaDataItem :=
  List.filter (fun row => match default overflow_aggregate (overflowMode options) with
                          | overflow_aggregate => true
                          | overflow_hide => forallb (isTopFlowNode sets) (flowPathForStages row stages ctx)
                          end) rows.

Lemma drawn_all : default overflow_aggregate (overflowMode options) = overflow_aggregate → drawn_rows = rows.
Proof. intros Hm. unfold drawn_rows. rewrite Hm. induction rows as [|row rs IH]; cbn; congruence. Qed.

Lemma preparePaths_metrics : map metrics (preparePaths rows stages sets options ctx) = map rowMetrics drawn_rows.
Proof.
  assert (Hgen : ∀ (f : FlowQuotaDataItem → option PreparedFlowPath) p rs,
    (∀ row : FlowQuotaDataItem, option_map metrics (f row) = if (p row : bool) then Some (rowMetrics row) else None) →
    map metrics (omap f rs) = map rowMetrics (List.filter p rs)).
  { intros f p rs Hf. induction rs as [|row rs IH]; [done|]. cbn [omap list_omap List.filter]. specialize (Hf row).
    destruct (f row) as [x|], (p row); cbn in Hf; try done. injection Hf as Hf. cbn [map]. by rewrite Hf, IH. }
  unfold preparePaths, drawn_rows. apply Hgen. intros row. set (q := flowPathForStages row stages ctx).
  assert (Hall : forallb (isTopFlowNode sets) q = negb (existsb (fun n => negb (isTopFlowNode sets n)) q)).
  { induction q as [|x l IHl]; [done|]. cbn. rewrite IHl. by destruct (isTopFlowNode sets x). }
  assert (Hnone : sets = None → forallb (isTopFlowNode sets) q = true) by (intros ->; clear; by induction q).
  unfold applyTopNodeLimit. destruct (default overflow_aggregate (overflowMode options)).
  - destruct sets; [by case_if|done].
  - destruct sets; [rewrite Hall; by destruct (existsb _ q)|]. by rewrite Hnone.
Qed.
End prepared.

(** *** Accumulation *)

(** What one path contributes: its nodes and steps with its metrics and color. *)
Record Contribution (A : Type) := Contribute { c_item : A; c_metrics : FlowMetrics; c_color : jstr; c_key : jstr }.
Arguments Contribute {A}.
Arguments c_item {A}.
Arguments c_metrics {A}.
Arguments c_color {A}.
Arguments c_key {A}.

Definition path_items {A} (sel : list FlowPathNode → list A) (color : jstr → jstr) (p : PreparedFlowPath) :
    list (Contribution A) :=
  match head (path p) with
  | None => []
  | Some root => map (fun x => Contribute x (metrics p) (color (id root)) (id root)) (sel (path p))
  end.

Definition node_init (c : Contribution FlowPathNode) : DashboardFlowNode :=
  MkNode (id (c_item c)) (label (c_item c)) (kind (c_item c)) 0 (MkMetrics 0 0 0)
    (c_color c) (c_key c) None None.
Definition node_upd (metric : FlowMetric) (c : Contribution FlowPathNode) (n : DashboardFlowNode) :
    DashboardFlowNode :=
  MkNode (n_id n) (n_label n) (n_kind n) (n_value n + metricValue (c_metrics c) metric)
    (add_metrics (n_metrics n) (c_metrics c)) (n_color n) (n_colorKey n) (n_highlighted n) (n_dimmed n).

Definition link_init (c : Contribution (FlowPathNode * FlowPathNode)) : DashboardFlowLink :=
  let '(s, t) := c_item c in
  MkLink (id s) (id t) 0 (MkMetrics 0 0 0) (label s) (label t) (c_color c) (c_color c)
    (num_of_Z 1) (c_color c) (c_key c) (num_of_Z 0) None None.
Definition link_upd (metric : FlowMetric) (c : Contribution (FlowPathNode * FlowPathNode))
    (l : DashboardFlowLink) : DashboardFlowLink :=
  MkLink (source l) (target l) (l_value l + metricValue (c_metrics c) metric)
    (add_metrics (l_metrics l) (c_metrics c)) (sourceLabel l) (targetLabel l)
    (l_color l) (linkColor l) (linkAlpha l) (hoverColor l)
    (l_colorKey l) (share l) (l_highlighted l) (l_dimmed l).
Definition link_key (c : Contribution (FlowPathNode * FlowPathNode)) : jstr :=
  pathLinkKey (c_item c).1 (c_item c).2.

Definition node_accum metric := accum (fun c => id (c_item c)) node_init (node_upd metric).
Definition link_accum metric := accum link_key link_init (link_upd metric).

(** The two maps of [buildFlowGraph] accumulate all contributions in order. *)
Lemma addPath_accum scheme colors palette metric ps g :
  foldl (addPath scheme colors palette metric) g ps =
  let color i := default (colorAt scheme 0 palette) (map_get i colors) in
  (node_accum metric g.1 (concat (map (path_items (fun p => p) color) ps)),
   link_accum metric g.2 (concat (map (path_items steps color) ps))).
Proof.
  cbv zeta. revert g. induction ps as [|p ps IH]; intros [ns ls]; [done|].
  cbn [foldl map concat]. rewrite IH. unfold node_accum, link_accum, accum. rewrite !foldl_app.
  assert (Hfold : ∀ {A B C} (f : A → C → A) (h : B → C) (l : list B) (a : A),
    foldl (fun a b => f a (h b)) a l = foldl f a (map h l)).
  { intros A B C f h l. induction l as [|b l IHl]; intros a; [done|]. apply IHl. }
  unfold addPath, path_items. destruct (head (path p)) as [root|]; [|done]. cbn [fst snd].
  f_equal; rewrite <- Hfold; [done|].
  f_equal. clear IH. revert ls.
  induction (steps (path p)) as [|[a b] l IHl]; intros ls; [done|]. apply IHl.
Qed.

Lemma path_items_sum {A} (sel : list FlowPathNode → list A) color (f : A → FlowMetrics → Z) ps :
  sel [] = [] →
  zsum (fun c => f (c_item c) (c_metrics c)) (concat (map (path_items sel color) ps)) =
  zsum (fun p => zsum (fun x => f x (metrics p)) (sel (path p))) ps.
Proof.
  intros Hsel. rewrite zsum_concat, zsum_map. apply zsum_ext. intros p _. unfold path_items.
  destruct (path p) as [|root rest] eqn:E; simpl; [by rewrite Hsel|]. by rewrite zsum_map.
Qed.

Lemma path_items_elem {A} (sel : list FlowPathNode → list A) color ps c :
  c ∈ concat (map (path_items sel color) ps) → ∃ p, p ∈ ps ∧ c_item c ∈ sel (path p).
Proof.
  rewrite elem_of_concat. intros (l & Hc & Hl). apply list_elem_of_fmap in Hl as (p & -> & Hp).
  exists p. split; [done|]. unfold path_items in Hc. destruct (head (path p)); [|by apply not_elem_of_nil in Hc].
  by apply list_elem_of_fmap in Hc as (x & -> & Hx).
Qed.

(** *** Steps of a path *)

Lemma steps_fst {A} (p : list A) x : map fst (steps (p ++ [x])) = p.
Proof.
  induction p as [|a [|b p] IH]; [done..|]. simpl in *. by rewrite IH.
Qed.

Lemma steps_snd {A} (x : A) p : map snd (steps (x :: p)) = p.
Proof. revert x. induction p as [|b p IH]; intros x; [done|]. simpl. f_equal. apply IH. Qed.

Lemma steps_elem {A} (p : list A) a b : (a, b) ∈ steps p → a ∈ p ∧ b ∈ p.
Proof.
  induction p as [|x p IH]; [by intros ?%not_elem_of_nil|]. destruct p as [|y p].
  { by intros ?%not_elem_of_nil. }
  change (steps (x :: y :: p)) with ((x, y) :: steps (y :: p)).
  intros [[= -> ->]|H]%elem_of_cons; [set_solver|]. apply IH in H as []. set_solver.
Qed.

(** A node that is not the last of a path is left as often as it is visited, and
    one that is not the first is entered as often. *)
Lemma steps_out (p : list FlowPathNode) (P : FlowPathNode → bool) w :
  (∀ n, last p = Some n → P n = false) →
  zsum (fun ab => if P ab.1 then w else 0)%Z (steps p) = zsum (fun n => if P n then w else 0)%Z p.
Proof.
  intros Hl. destruct (last p) as [x|] eqn:E; [|by apply last_None in E as ->].
  apply last_Some in E as [q ->].
  rewrite <- (zsum_map fst (fun n => if P n then w else 0)%Z), steps_fst, zsum_app. simpl.
  rewrite (Hl x) by done. lia.
Qed.

Lemma steps_in (p : list FlowPathNode) (P : FlowPathNode → bool) w :
  (∀ n, head p = Some n → P n = false) →
  zsum (fun ab => if P ab.2 then w else 0)%Z (steps p) = zsum (fun n => if P n then w else 0)%Z p.
Proof.
  intros Hh. destruct p as [|x q]; [done|].
  rewrite <- (zsum_map snd (fun n => if P n then w else 0)%Z), steps_snd. simpl.
  rewrite (Hh x) by done. lia.
Qed.

(** *** Link keys *)

Lemma source_key (i a b : jstr) :
  0%N ∉ i → 0%N ∉ a → startsWith (i ++ [0%N]) (a ++ [0%N] ++ b) = (a === i).
Proof.
  intros Hi Ha. apply eq_iff_eq_true. rewrite startsWith_true, jeqb_true. split.
  - intros [r Hr]. rewrite <- app_assoc in Hr. simpl in Hr. apply (f_equal (split_char 0)) in Hr.
    rewrite !split_char_app_sep in Hr by done. congruence.
  - intros ->. exists b. by rewrite <- app_assoc.
Qed.

Lemma target_key (i a b : jstr) :
  0%N ∉ i → 0%N ∉ b → endsWith ([0%N] ++ i) (a ++ [0%N] ++ b) = (b === i).
Proof.
  intros Hi Hb. unfold endsWith. rewrite !reverse_app, <- app_assoc.
  change (reverse [0%N]) with [0%N]. rewrite source_key by (by rewrite elem_of_reverse).
  apply eq_iff_eq_true. rewrite !jeqb_true. split; [|by intros ->].
  intros E%(f_equal reverse). by rewrite !reverse_involutive in E.
Qed.

(** *** The accumulated maps *)

Section maps.
Context (metric : FlowMetric) (color : jstr → jstr) (ps : list PreparedFlowPath).
Hypothesis Htag : ∀ p, p ∈ ps → Forall tagged (path p).

Definition raw_nodes : list (jstr * DashboardFlowNode) :=
  node_accum metric [] (concat (map (path_items (fun p => p) color) ps)).
Definition raw_links : list (jstr * DashboardFlowLink) :=
  link_accum metric [] (concat (map (path_items steps color) ps)).

Lemma raw_nodes_inv :
  NoDup (map fst raw_nodes) ∧
  ∀ k n, (k, n) ∈ raw_nodes → n_id n = k ∧ head k = Some (kind_letter (n_kind n)) ∧
    ∃ p x, p ∈ ps ∧ x ∈ path p ∧ k = id x.
Proof.
  split; [apply accum_NoDup; constructor|].
  assert (Forall (fun kn => n_id kn.2 = kn.1 ∧ head kn.1 = Some (kind_letter (n_kind kn.2)) ∧
    ∃ p x, p ∈ ps ∧ x ∈ path p ∧ kn.1 = id x) raw_nodes) as H.
  { apply accum_Forall; [constructor|]. intros c Hc v Hv. simpl in *.
    apply path_items_elem in Hc as (p & Hp & Hc).
    pose proof (Htag p Hp) as Ht. rewrite Forall_forall in Ht. specialize (Ht _ Hc). unfold tagged in Ht.
    destruct Hv as [->|(? & ? & _)]; simpl; eauto 10. }
  rewrite Forall_forall in H. intros k n Hn. apply (H _ Hn).
Qed.

Lemma raw_links_inv k l :
  (k, l) ∈ raw_links → linkStableKey l = k ∧
  ∃ p a b, p ∈ ps ∧ (a, b) ∈ steps (path p) ∧ source l = id a ∧ target l = id b.
Proof.
  assert (Forall (fun kl => linkStableKey kl.2 = kl.1 ∧
    ∃ p a b, p ∈ ps ∧ (a, b) ∈ steps (path p) ∧ source kl.2 = id a ∧ target kl.2 = id b) raw_links) as H.
  { apply accum_Forall; [constructor|]. intros c Hc v Hv. simpl in *.
    apply path_items_elem in Hc as (p & Hp & Hc).
    unfold link_key in *. destruct c as [[a b] m col ck]. simpl in *.
    destruct Hv as [->|(? & ?)]; simpl; eauto 10. }
  rewrite Forall_forall in H. intros Hl. apply (H _ Hl).
Qed.

Lemma raw_nodes_sum (P : jstr → bool) :
  zsum (fun '(k, n) => if P k then n_value n else 0)%Z raw_nodes =
  zsum (fun p => zsum (fun n => if P (id n) then metricValue (metrics p) metric else 0)%Z (path p)) ps.
Proof.
  unfold raw_nodes, node_accum.
  rewrite (accum_sum _ _ _ P n_value (fun c => metricValue (c_metrics c) metric)) by done. simpl.
  rewrite (path_items_sum (fun p => p) color
    (fun n m => if P (id n) then metricValue m metric else 0)%Z) by done. done.
Qed.

Lemma raw_links_sum (P : jstr → bool) :
  zsum (fun '(k, l) => if P k then l_value l else 0)%Z raw_links =
  zsum (fun p => zsum (fun ab => if P (pathLinkKey ab.1 ab.2) then metricValue (metrics p) metric else 0)%Z
                   (steps (path p))) ps.
Proof.
  unfold raw_links, link_accum.
  rewrite (accum_sum _ _ _ P l_value (fun c => metricValue (c_metrics c) metric)); [|by intros [[]]|done].
  simpl. unfold link_key.
  rewrite (path_items_sum steps color
    (fun ab m => if P (pathLinkKey ab.1 ab.2) then metricValue m metric else 0)%Z) by done. done.
Qed.

(** The value of one node, or of the links that leave or enter it, when no id
    contains the separator of link keys. *)
Hypothesis Hsep : ∀ p n, p ∈ ps → n ∈ path p → 0%N ∉ id n.

Lemma raw_node_value k n :
  (k, n) ∈ raw_nodes →
  n_value n = zsum (fun p => zsum (fun x =>
    if id x === k then metricValue (metrics p) metric else 0)%Z (path p)) ps.
Proof.
  intros Hn. rewrite <- (raw_nodes_sum (fun i => i === k)).
  destruct raw_nodes_inv as [Hnd _]. revert Hnd Hn. generalize raw_nodes.
  induction l as [|[k' n'] l IH]; [by intros _ ?%not_elem_of_nil|]. simpl.
  intros [Hk' Hnd]%NoDup_cons [[= <- <-]|Hin]%elem_of_cons.
  - rewrite jeqb_refl, zsum_zero; [lia|]. intros [k2 n2] Hin2.
    destruct (jeqb_spec k2 k); [|done]. subst. exfalso. apply Hk'.
    apply list_elem_of_fmap. by exists (k, n2).
  - destruct (jeqb_spec k' k) as [->|].
    + exfalso. apply Hk'. apply list_elem_of_fmap. by exists (k, n).
    + by rewrite (IH Hnd Hin).
Qed.

Lemma raw_link_sums (i : jstr) :
  0%N ∉ i →
  zsum (fun '(_, l) => if source l === i then l_value l else 0)%Z raw_links =
    zsum (fun p => zsum (fun ab => if id ab.1 === i then metricValue (metrics p) metric else 0)%Z
                     (steps (path p))) ps ∧
  zsum (fun '(_, l) => if target l === i then l_value l else 0)%Z raw_links =
    zsum (fun p => zsum (fun ab => if id ab.2 === i then metricValue (metrics p) metric else 0)%Z
                     (steps (path p))) ps.
Proof.
  intros Hi.
  assert (Hids : ∀ p a b, p ∈ ps → (a, b) ∈ steps (path p) → (0%N ∉ id a) ∧ (0%N ∉ id b)).
  { intros p a b Hp [? ?]%steps_elem. split; by eapply Hsep. }
  split.
  - transitivity (zsum (fun '(k, l) => if startsWith (i ++ [0%N]) k then l_value l else 0)%Z raw_links).
    + apply zsum_ext. intros [k l] Hl. apply raw_links_inv in Hl as (<- & p & a & b & Hp & Hab & Ea & Eb).
      destruct (Hids p a b Hp Hab). unfold linkStableKey. rewrite Ea, Eb, source_key by done. done.
    + rewrite raw_links_sum. apply zsum_ext. intros p Hp. apply zsum_ext. intros [a b] Hab.
      destruct (Hids p a b Hp Hab). unfold pathLinkKey. cbn [fst snd]. by rewrite source_key.
  - transitivity (zsum (fun '(k, l) => if endsWith ([0%N] ++ i) k then l_value l else 0)%Z raw_links).
    + apply zsum_ext. intros [k l] Hl. apply raw_links_inv in Hl as (<- & p & a & b & Hp & Hab & Ea & Eb).
      destruct (Hids p a b Hp Hab). unfold linkStableKey. rewrite Ea, Eb, target_key by done. done.
    + rewrite raw_links_sum. apply zsum_ext. intros p Hp. apply zsum_ext. intros [a b] Hab.
      destruct (Hids p a b Hp Hab). unfold pathLinkKey. cbn [fst snd]. by rewrite target_key.
Qed.
End maps.

(** *** The graph *)

(** What decoration (masking, highlighting, shares, colors, sorting) keeps. *)
Definition node_core (n : DashboardFlowNode) := (n_id n, n_kind n, n_value n, n_metrics n).
Definition link_core (l : DashboardFlowLink) := (source l, target l, l_value l, l_metrics l).

Lemma map_core_ext {K V C} (core : V → C) (f : V → V) (m : list (K * V)) :
  (∀ v, core (f v) = core v) → map (fun kv => core kv.2) (map (fun '(k, v) => (k, f v)) m) =
  map (fun kv => core kv.2) m.
Proof.
  intros Hf. rewrite map_map. apply map_ext. intros [k v]. apply Hf.
Qed.

Lemma mask_core ns ls :
  map (fun kv => node_core kv.2) (maskFlowGraphLabels ns ls).1 = map (fun kv => node_core kv.2) ns ∧
  map (fun kv => link_core kv.2) (maskFlowGraphLabels ns ls).2 = map (fun kv => link_core kv.2) ls.
Proof.
  unfold maskFlowGraphLabels. cbv zeta.
  assert (map (fun kv => node_core kv.2) (map (fun '(k, n) =>
    (k, if is_masked n then with_label (maskFlowLabel (n_label n)) n else n)) ns) =
    map (fun kv => node_core kv.2) ns) as Hn.
  { apply (map_core_ext node_core). intros v. by case_if. }
  case_if; (split; [exact Hn|]); [done|]. cbn [snd].
  by apply (map_core_ext link_core (fun l => with_link_labels
    (default (sourceLabel l) (map_get (source l) (maskedById ns)))
    (default (targetLabel l) (map_get (target l) (maskedById ns))) l)).
Qed.

Lemma highlight_core h ns ls :
  map (fun kv => node_core kv.2) (applyFlowHighlights h ns ls).1 = map (fun kv => node_core kv.2) ns ∧
  map (fun kv => link_core kv.2) (applyFlowHighlights h ns ls).2 = map (fun kv => link_core kv.2) ls.
Proof.
  destruct h as [h|]; [|done]. cbn [applyFlowHighlights fst snd]. split.
  - by apply (map_core_ext node_core (fun n => with_node_flags (has (n_id n) (h_nodes h)) n)).
  - by apply (map_core_ext link_core (fun l => with_link_flags (has (linkStableKey l) (h_links h)) l)).
Qed.

Section graph_lemmas.
Context `{Collator} (scheme : list (option nat * list jstr)) (rows : list FlowQuotaDataItem)
  (metric : FlowMetric) (r : FlowRole) (palette : option (list jstr))
  (visible : option (list FlowNodeKind)) (ctx : FlowPathContext) (options : FlowGraphOptions).

Let stages := resolveVisibleStages r visible.
Let sets := buildTopNodeSets rows metric stages (normalizeTopNodeLimit (topNodeLimit options)) ctx.
Let prepared := preparePaths rows stages sets options ctx.
Let colors := stableColorMap scheme (js_sort id_le (first_ids prepared)) palette.
Let color i := default (colorAt scheme 0 palette) (map_get i colors).
Let g := buildFlowGraph scheme rows metric r palette visible ctx options.

(** The graph before and after decoration. *)
Lemma graph_core :
  map node_core (nodes g) ≡ₚ map (fun kv => node_core kv.2) (raw_nodes metric color prepared) ∧
  map link_core (links g) ≡ₚ map (fun kv => link_core kv.2) (raw_links metric color prepared).
Proof.
  unfold g, buildFlowGraph. cbv zeta. fold stages. fold sets. fold prepared. fold colors.
  rewrite addPath_accum. cbv zeta. fold color. cbn [fst snd].
  fold (raw_nodes metric color prepared). fold (raw_links metric color prepared).
  set (m := if maskSensitive options then _ else _).
  assert (Hm : map (fun kv => node_core kv.2) m.1 = map (fun kv => node_core kv.2) (raw_nodes metric color prepared) ∧
    map (fun kv => link_core kv.2) m.2 = map (fun kv => link_core kv.2) (raw_links metric color prepared)).
  { unfold m. destruct (maskSensitive options); [apply mask_core|done]. }
  destruct m as [ns ls]. cbn [fst snd] in Hm.
  destruct (highlight_core (buildFlowHighlightSets prepared (activeNode options) (activeLink options) stages) ns ls)
    as [Hn Hl].
  destruct (applyFlowHighlights _ ns ls) as [ns' ls']. cbn [fst snd] in *. cbn [nodes links].
  destruct Hm as [Hm1 Hm2]. split.
  - rewrite js_sort_Permutation, map_map, Hn, Hm1. done.
  - unfold assignLinkDisplayColors. rewrite !map_map.
    rewrite (map_ext _ link_core) by (intros l; by destruct (alphaColor _ _)).
    rewrite js_sort_Permutation, map_map, Hl, Hm2. done.
Qed.

Lemma stages_NoDup : NoDup stages.
Proof.
  assert (NoDup (getFlowStages r)).
  { destruct r; vm_compute; repeat constructor; set_solver. }
  unfold stages, resolveVisibleStages. destruct visible; [|done].
  case_if; [by apply NoDup_filter|done].
Qed.

Lemma prepared_tagged p : p ∈ prepared → Forall tagged (path p).
Proof. intros. by eapply preparePaths_kinds. Qed.

Lemma prepared_kinds p : p ∈ prepared → map kind (path p) = stages.
Proof. intros. by eapply preparePaths_kinds. Qed.

(** Ids without the link separator stay so when paths are prepared. *)
Lemma prepared_sep :
  (∀ row k, row ∈ rows → k ∈ stages → 0%N ∉ id (NODE_BUILDERS k row ctx)) →
  ∀ p n, p ∈ prepared → n ∈ path p → 0%N ∉ id n.
Proof.
  intros Hid p n Hp Hn. unfold prepared, preparePaths in Hp.
  apply list_elem_of_omap in Hp as (row & Hrow & Hq).
  apply fmap_Some in Hq as (q & Hq & ->). cbn [path] in Hn.
  assert (∀ x, x ∈ flowPathForStages row stages ctx → 0%N ∉ id x) as Hp.
  { intros x Hx. apply list_elem_of_fmap in Hx as (k & -> & Hk). by apply Hid. }
  unfold applyTopNodeLimit in Hq. destruct sets; [|injection Hq as <-; auto].
  case_if; [injection Hq as <-; auto|].
  destruct (default overflow_aggregate (overflowMode options)); [|done]. injection Hq as <-.
  apply list_elem_of_fmap in Hn as (x & -> & Hx). case_if; [auto|].
  destruct (kind x); cbn; rewrite !not_elem_of_cons; repeat split; try done; apply not_elem_of_nil.
Qed.

(** The metric of a path counts once for the node of each of its stages. *)
Lemma stage_once p k (w : Z) :
  p ∈ prepared → k ∈ stages →
  zsum (fun n => if bool_decide (head (id n) = Some (kind_letter k)) then w else 0)%Z (path p) = w.
Proof.
  intros Hp Hk. pose proof (prepared_tagged p Hp) as Ht. pose proof (prepared_kinds p Hp) as Hkp.
  rewrite (zsum_ext _ (fun n => if bool_decide (kind n = k) then w else 0)%Z).
  2:{ intros n Hn. rewrite Forall_forall in Ht. specialize (Ht n Hn). unfold tagged in Ht. rewrite Ht.
      destruct (decide (kind n = k)) as [E|E].
      - rewrite E, !bool_decide_eq_true_2 by done. done.
      - rewrite !bool_decide_eq_false_2; [done|done|]. intros [= E'%kind_letter_inj]. done. }
  transitivity (zsum (fun x => if bool_decide (x = k) then w else 0)%Z (map kind (path p)));
    [by rewrite zsum_map|]. rewrite Hkp.
  pose proof stages_NoDup as Hnd. revert Hk Hnd. generalize stages. intros l. clear.
  induction l as [|x l IH]; [by intros ?%not_elem_of_nil|]. simpl.
  intros [->|Hin]%elem_of_cons [Hx Hnd]%NoDup_cons.
  - rewrite bool_decide_eq_true_2 by done. rewrite zsum_zero; [lia|].
    intros y Hy. rewrite bool_decide_eq_false_2; [done|]. by intros ->.
  - rewrite bool_decide_eq_false_2 by (by intros ->). rewrite IH by done. lia.
Qed.
End graph_lemmas.

Lemma zsum_core {V C} (core : V → C) (f : C → Z) (l : list V) l' :
  map core l ≡ₚ l' → zsum (fun v => f (core v)) l = zsum f l'.
Proof. intros H. by rewrite <- H, zsum_map. Qed.

Lemma buildSummary_metric rows metric :
  metricValue (buildSummary rows) metric = zsum (fun row => metricValue (rowMetrics row) metric) rows.
Proof.
  unfold buildSummary.
  assert (∀ a, metricValue (foldl (fun s row => let m := rowMetrics row in
    MkMetrics (quota s + quota m) (tokens s + tokens m) (requests s + requests m)) a rows) metric =
    (metricValue a metric + zsum (fun row => metricValue (rowMetrics row) metric) rows)%Z) as H.
  { induction rows as [|row rs IH]; intros a; simpl; [lia|]. rewrite IH.
    destruct metric; simpl; lia. }
  rewrite H. by destruct metric.
Qed.

(** ** What a graph with these nodes and links adds up to

    The nodes [ns] and links [ls] of a graph are those collected from the paths
    [ps], up to their order and decoration. *)

Lemma filter_map_length {A B} (f : A → B) (P : B → Prop) `{∀ y, Decision (P y)} (l : list A) :
  length (filter P (map f l)) = length (filter (fun x => P (f x)) l).
Proof.
  induction l as [|x l IH]; [done|]. cbn [map]. rewrite !filter_cons.
  destruct (decide (P (f x))); simpl; by rewrite IH.
Qed.

Section conservation.
Context (metric : FlowMetric) (color : jstr → jstr) (ps : list PreparedFlowPath) (stages : list FlowNodeKind)
  (ns : list DashboardFlowNode) (ls : list DashboardFlowLink).
Hypothesis Htag : ∀ p, p ∈ ps → Forall tagged (path p).
Hypothesis Hkinds : ∀ p, p ∈ ps → map kind (path p) = stages.
Hypothesis Hsep : ∀ p x, p ∈ ps → x ∈ path p → 0%N ∉ id x.
Hypothesis Gn : map node_core ns ≡ₚ map (fun kv => node_core kv.2) (raw_nodes metric color ps).
Hypothesis Gl : map link_core ls ≡ₚ map (fun kv => link_core kv.2) (raw_links metric color ps).

Lemma raw_node_of n :
  n ∈ ns → ∃ n', (n_id n, n') ∈ raw_nodes metric color ps ∧ n_value n' = n_value n ∧ n_kind n' = n_kind n.
Proof using Htag Gn.
  intros Hn. assert (node_core n ∈ map node_core ns) as Hc by (apply list_elem_of_fmap; eauto).
  rewrite Gn in Hc. apply list_elem_of_fmap in Hc as ([k n'] & Hc & Hin). simpl in Hc.
  unfold node_core in Hc. injection Hc as Hi Hk Hv _. exists n'.
  destruct (raw_nodes_inv metric color ps Htag) as [_ Hinv].
  destruct (Hinv k n' Hin) as (E & _). split; [by rewrite Hi, E|done].
Qed.

(** A path node whose id is that of a graph node of kind [k] is of kind [k]. *)
Lemma path_node_kind p x k :
  p ∈ ps → x ∈ path p → head (id x) = Some (kind_letter k) → kind x = k.
Proof using Htag.
  intros Hp Hx Hh. pose proof (Htag p Hp) as Ht. rewrite Forall_forall in Ht. specialize (Ht x Hx).
  unfold tagged in Ht. rewrite Hh in Ht. injection Ht as Ht%kind_letter_inj. done.
Qed.

Lemma graph_node_value n :
  n ∈ ns → (0%N ∉ n_id n) ∧ head (n_id n) = Some (kind_letter (n_kind n)) ∧
  n_value n = zsum (fun p => zsum (fun x =>
    if id x === n_id n then metricValue (metrics p) metric else 0)%Z (path p)) ps.
Proof using Htag Hsep Gn.
  intros (n' & Hin & Hv & Hk)%raw_node_of. destruct (raw_nodes_inv metric color ps Htag) as [_ Hinv].
  destruct (Hinv _ _ Hin) as (_ & Hh & p & x & Hp & Hx & E).
  split; [rewrite E; by eapply Hsep|]. rewrite <- Hk, <- Hv. split; [done|].
  by eapply (raw_node_value metric color ps).
Qed.

Lemma stage_sum k :
  zsum (fun n => if bool_decide (n_kind n = k) then n_value n else 0)%Z ns =
  zsum (fun p => zsum (fun n => if bool_decide (head (id n) = Some (kind_letter k))
                                then metricValue (metrics p) metric else 0)%Z (path p)) ps.
Proof using Htag Gn.
  etrans; [|exact (raw_nodes_sum metric color ps (fun i => bool_decide (head i = Some (kind_letter k))))].
  etrans; [exact (zsum_core node_core (fun '(i, kd, v, m) => if bool_decide (kd = k) then v else 0)%Z _ _ Gn)|].
  rewrite zsum_map. apply zsum_ext. intros [i n] Hin. simpl.
  destruct (raw_nodes_inv metric color ps Htag) as [_ Hinv]. destruct (Hinv i n Hin) as (_ & Hh & _). rewrite Hh.
  destruct (decide (n_kind n = k)) as [->|E]; [by rewrite !bool_decide_eq_true_2|].
  rewrite !bool_decide_eq_false_2; [done|by intros [= ?%kind_letter_inj]|done].
Qed.

Lemma links_out_sum n :
  n ∈ ns → last stages ≠ Some (n_kind n) →
  zsum (fun l => if source l === n_id n then l_value l else 0)%Z ls = n_value n.
Proof using Htag Hkinds Hsep Gn Gl.
  intros Hn Hlast. destruct (graph_node_value n Hn) as (H0 & Hh & ->).
  destruct (raw_link_sums metric color ps Hsep (n_id n) H0) as [Hout _].
  etrans; [exact (zsum_core link_core (fun '(s, t, v, m) => if s === n_id n then v else 0)%Z _ _ Gl)|].
  rewrite zsum_map. etrans; [|etrans; [exact Hout|]]; [apply zsum_ext; by intros [] _|].
  apply zsum_ext. intros p Hp. apply (steps_out (path p) (fun x => id x === n_id n)). intros x Hx.
  apply jeqb_false. intros E. apply Hlast. rewrite <- (Hkinds p Hp).
  rewrite <- (path_node_kind p x (n_kind n)); [|done|by apply last_Some_elem_of|by rewrite E].
  apply last_Some in Hx as [q ->]. rewrite map_app. cbn [map]. by rewrite last_snoc.
Qed.

Lemma links_in_sum n :
  n ∈ ns → head stages ≠ Some (n_kind n) →
  zsum (fun l => if target l === n_id n then l_value l else 0)%Z ls = n_value n.
Proof using Htag Hkinds Hsep Gn Gl.
  intros Hn Hfirst. destruct (graph_node_value n Hn) as (H0 & Hh & ->).
  destruct (raw_link_sums metric color ps Hsep (n_id n) H0) as [_ Hin].
  etrans; [exact (zsum_core link_core (fun '(s, t, v, m) => if t === n_id n then v else 0)%Z _ _ Gl)|].
  rewrite zsum_map. etrans; [|etrans; [exact Hin|]]; [apply zsum_ext; by intros [] _|].
  apply zsum_ext. intros p Hp. apply (steps_in (path p) (fun x => id x === n_id n)). intros x Hx.
  apply jeqb_false. intros E. apply Hfirst. rewrite <- (Hkinds p Hp).
  rewrite <- (path_node_kind p x (n_kind n)); [|done|by apply head_Some_elem_of|by rewrite E].
  destruct (path p); [done|]. simpl in *. congruence.
Qed.

(** At most the nodes with different ids of kind [k] among [ids]. *)
Lemma stage_count k ids :
  (∀ i x, (i, x) ∈ raw_nodes metric color ps → n_kind x = k → i ∈ ids) →
  length (filter (fun x => n_kind x = k) ns) ≤ length ids.
Proof using Htag Gn.
  intros Hids. destruct (raw_nodes_inv metric color ps Htag) as [Hkeys _].
  transitivity (length (filter (fun kv => n_kind kv.2 = k) (raw_nodes metric color ps))).
  { apply Nat.eq_le_incl.
    pose (P := fun c : jstr * FlowNodeKind * Z * FlowMetrics => c.1.1.2 = k).
    trans (length (filter P (map node_core ns))); [|rewrite Gn];
      rewrite (filter_map_length _ P); done. }
  rewrite <- (length_map fst). apply NoDup_incl_length.
  - apply NoDup_ListNoDup. eapply sublist_NoDup; [exact Hkeys|]. apply (fmap_sublist fst), sublist_filter.
  - intros i Hi%list_elem_of_In. apply list_elem_of_In. apply list_elem_of_fmap in Hi as ([i' x] & -> & Hin).
    apply list_elem_of_filter in Hin as [Hkx Hin]. by apply (Hids i' x).
Qed.
End conservation.

(** ** Properties *)

(** A comparison by code units, for evaluation. *)
Fixpoint unit_compare (a b : jstr) : Z :=
  match a, b with
  | [], [] => 0
  | [], _ => -1
  | _, [] => 1
  | x :: a', y :: b' => if (x <? y)%N then -1 else if (y <? x)%N then 1 else unit_compare a' b'
  end.

Lemma unit_compare_anti a b : unit_compare b a = (- unit_compare a b)%Z.
Proof.
  revert b. induction a as [|x a IH]; intros [|y b]; [done..|]. simpl.
  destruct (N.ltb_spec x y), (N.ltb_spec y x); try lia. apply IH.
Qed.

Lemma unit_compare_trans a b c :
  (unit_compare a b ≤ 0 → unit_compare b c ≤ 0 → unit_compare a c ≤ 0)%Z.
Proof.
  revert b c. induction a as [|x a IH]; intros [|y b] [|z c]; simpl; try lia.
  destruct (N.ltb_spec x y), (N.ltb_spec y x), (N.ltb_spec y z), (N.ltb_spec z y),
    (N.ltb_spec x z), (N.ltb_spec z x); try lia. apply IH.
Qed.

Program Definition unit_collator : Collator := {| localeCompare := unit_compare |}.
Next Obligation. intros a b. rewrite (unit_compare_anti a b). lia. Qed.
Next Obligation. apply unit_compare_trans. Qed.

(** C5: the flow graph conserves the metric.  The nodes of every visible stage add up to
    the total of the rows that are drawn; these are all rows, and the total is the
    summary shown beside the graph, unless overflowing paths are hidden, in which case
    they are the rows with no node beyond the limit.  The links leaving a node add up to
    the node, except in the last stage; the links entering it add up to the node, except
    in the first stage.  Limits, masking, highlighting, colors and sorting do not disturb
    this.  No id may contain the character that separates the two ids of a link key, and
    metrics are whole numbers, whose sums are exact below 2^53 ([num_sum_exact]). *)
Theorem flow_conservation `{Collator} scheme rows metric r palette visible ctx options :
  let stages := resolveVisibleStages r visible in
  let sets := buildTopNodeSets rows metric stages (normalizeTopNodeLimit (topNodeLimit options)) ctx in
  let drawn := drawn_rows rows stages sets options ctx in
  let g := buildFlowGraph scheme rows metric r palette visible ctx options in
  (∀ row k, row ∈ rows → k ∈ stages → 0%N ∉ id (NODE_BUILDERS k row ctx)) →
  (∀ k, k ∈ stages → zsum (fun n => if bool_decide (n_kind n = k) then n_value n else 0)%Z (nodes g) =
     metricValue (buildSummary drawn) metric) ∧
  (default overflow_aggregate (overflowMode options) = overflow_aggregate → drawn = rows) ∧
  (∀ n, n ∈ nodes g → last stages ≠ Some (n_kind n) →
     zsum (fun l => if source l === n_id n then l_value l else 0)%Z (links g) = n_value n) ∧
  (∀ n, n ∈ nodes g → head stages ≠ Some (n_kind n) →
     zsum (fun l => if target l === n_id n then l_value l else 0)%Z (links g) = n_value n).
Proof.
  cbv zeta. intros Hid.
  pose proof (prepared_sep scheme rows metric r palette visible ctx options Hid) as Hsep.
  destruct (graph_core scheme rows metric r palette visible ctx options) as [Gn Gl].
  set (ps := preparePaths rows _ _ options ctx) in *.
  assert (Hkt : ∀ p, p ∈ ps → map kind (path p) = resolveVisibleStages r visible ∧ Forall tagged (path p))
    by (intros; by eapply preparePaths_kinds).
  assert (Hkinds : ∀ p, p ∈ ps → map kind (path p) = resolveVisibleStages r visible) by apply Hkt.
  assert (Htag : ∀ p, p ∈ ps → Forall tagged (path p)) by apply Hkt.
  split; [|split; [apply drawn_all|split]].
  - intros k Hk. rewrite (stage_sum _ _ _ _ Htag Gn), (zsum_ext _ (fun p => metricValue (metrics p) metric)).
    + rewrite buildSummary_metric, <- (zsum_map metrics (fun m => metricValue m metric)).
      unfold ps. rewrite preparePaths_metrics. by rewrite zsum_map.
    + intros p Hp. by apply (stage_once scheme rows metric r palette visible ctx options).
  - intros n Hn Hlast. by apply (links_out_sum _ _ _ _ _ _ Htag Hkinds Hsep Gn Gl).
  - intros n Hn Hfirst. by apply (links_in_sum _ _ _ _ _ _ Htag Hkinds Hsep Gn Gl).
Qed.

(** *** Filters *)

Lemma set_add_elem x y s : y ∈ set_add x s ↔ y = x ∨ y ∈ s.
Proof.
  unfold set_add. destruct (has x s) eqn:E; [apply has_true in E|]; set_solver.
Qed.

Lemma add_filter_accum stages l m :
  foldl (add_filter stages) m l =
  accum f_kind (fun _ => []) (fun f s => set_add (f_id f) s) m (filter (fun f => f_kind f ∈ stages) l).
Proof.
  revert m. induction l as [|f l IH]; intros m; [done|]. simpl. rewrite IH. unfold add_filter.
  destruct (has (f_kind f) stages) eqn:E; simpl;
    [apply has_true in E; by rewrite filter_cons_True|apply has_false in E; by rewrite filter_cons_False].
Qed.

(** The set collected under one key of a map of sets. *)
Lemma collect_get {A} (key : A → FlowNodeKind) (val : A → jstr) (l : list A) k :
  match map_get k (accum key (fun _ => []) (fun a s => set_add (val a) s) [] l) with
  | None => ∀ a, a ∈ l → key a ≠ k
  | Some ids => (∃ a, a ∈ l ∧ key a = k) ∧ ∀ i, i ∈ ids ↔ ∃ a, a ∈ l ∧ key a = k ∧ val a = i
  end.
Proof.
  rewrite accum_get. simpl. induction l as [|a l IH] using rev_ind; simpl.
  { by intros a ?%not_elem_of_nil. }
  rewrite foldl_app. simpl. case_decide as Hk.
  - split; [exists a; set_solver|]. intros i. rewrite set_add_elem.
    destruct (foldl _ None l) as [ids|]; simpl.
    + destruct IH as [_ IH]. rewrite IH. setoid_rewrite elem_of_app. setoid_rewrite list_elem_of_singleton.
      naive_solver.
    + setoid_rewrite elem_of_app. setoid_rewrite list_elem_of_singleton.
      split; [|naive_solver]. intros [->|?%not_elem_of_nil]; [eauto 10|done].
  - destruct (foldl _ None l) as [ids|].
    + destruct IH as [(b & ? & ?) IH]. split; [exists b; set_solver|]. intros i. rewrite IH.
      setoid_rewrite elem_of_app. setoid_rewrite list_elem_of_singleton. naive_solver.
    + intros b. rewrite elem_of_app, list_elem_of_singleton. naive_solver.
Qed.

Lemma pathMatches_spec stages row ctx selected :
  pathMatchesNodeFilters (flowPathForStages row stages ctx)
    (normalizeSelectedNodeFilters selected stages) = true ↔
  ∀ f, f ∈ default [] selected → f_kind f ∈ stages →
    ∃ f', f' ∈ default [] selected ∧ f_kind f' = f_kind f ∧
          f_id f' = id (NODE_BUILDERS (f_kind f) row ctx).
Proof.
  set (sel := default [] selected).
  unfold normalizeSelectedNodeFilters. fold sel. rewrite add_filter_accum.
  set (vis := filter (fun f => f_kind f ∈ stages) sel).
  set (filters := accum f_kind _ _ [] vis).
  assert (Hvis : ∀ f, f ∈ vis ↔ f ∈ sel ∧ f_kind f ∈ stages).
  { intros f. unfold vis. rewrite list_elem_of_filter. tauto. }
  assert (Hnd : NoDup (map fst filters)) by (apply accum_NoDup; constructor).
  set (byKind := foldl add_path_node [] (flowPathForStages row stages ctx)).
  assert (Hpath : ∀ k i, k ∈ stages →
    (∃ ids, map_get k byKind = Some ids ∧ (i ∈ ids ↔ i = id (NODE_BUILDERS k row ctx)))).
  { intros k i Hk. pose proof (collect_get kind id (flowPathForStages row stages ctx) k) as Hc.
    change (accum kind _ _ [] _) with byKind in Hc.
    assert (NODE_BUILDERS k row ctx ∈ flowPathForStages row stages ctx) as Hin
      by (apply list_elem_of_fmap; eauto).
    destruct (map_get k byKind) as [ids|]; [|exfalso; eapply Hc; [exact Hin|by apply NODE_BUILDERS_tagged]].
    exists ids. split; [done|]. destruct Hc as [_ ->]. split.
    - intros (n & Hn & Hkn & <-). apply list_elem_of_fmap in Hn as (k' & -> & _).
      by rewrite (proj2 (NODE_BUILDERS_tagged k' row ctx)) in Hkn; subst.
    - intros ->. eexists. split; [exact Hin|]. split; [by apply NODE_BUILDERS_tagged|done]. }
  transitivity (forallb (fun '(k, selectedIds) =>
      match map_get k byKind with
      | None => false
      | Some pathIds => existsb (fun i => has i pathIds) selectedIds
      end) filters = true).
  { unfold pathMatchesNodeFilters. fold byKind. by destruct filters. }
  rewrite forallb_forall. split.
  - intros H f Hf Hk. pose proof (collect_get f_kind f_id vis (f_kind f)) as Hc. fold filters in Hc.
    destruct (map_get (f_kind f) filters) as [ids|] eqn:Eg.
    2:{ exfalso. apply (Hc f); [by apply Hvis|done]. }
    apply map_get_elem in Eg. specialize (H (f_kind f, ids) ltac:(by apply list_elem_of_In)). simpl in H.
    destruct Hc as [_ Hc].
    destruct (Hpath (f_kind f) (id (NODE_BUILDERS (f_kind f) row ctx)) Hk) as (pids & Hp & _).
    rewrite Hp in H. apply existsb_exists in H as (i & Hi%list_elem_of_In & Hhas%has_true).
    destruct (Hpath (f_kind f) i Hk) as (pids' & Hp' & Hi'). assert (pids' = pids) as -> by congruence.
    apply Hi' in Hhas. apply Hc in Hi as (f' & Hf' & Hk' & <-). apply Hvis in Hf' as [Hf' _]. eauto.
  - intros H [k ids] Hin%list_elem_of_In. pose proof (collect_get f_kind f_id vis k) as Hc. fold filters in Hc.
    rewrite (elem_map_get _ _ _ Hnd Hin) in Hc. destruct Hc as [(f & Hf & <-) Hc].
    apply Hvis in Hf as [Hf Hk]. destruct (H f Hf Hk) as (f' & Hf' & Hk' & Hi).
    destruct (Hpath (f_kind f) (f_id f') Hk) as (pids & -> & Hp). apply existsb_exists. exists (f_id f').
    split; [|by apply has_true, Hp]. apply list_elem_of_In, Hc. exists f'. rewrite Hvis, Hk'. auto.
Qed.

(** Selecting nodes keeps exactly the rows that pass through one of the
    selected nodes of every kind that has a selection in a visible stage:
    selections of one kind are alternatives, different kinds are combined, and
    selections of hidden stages are ignored. *)
Theorem filterRowsByNodes_spec rows selected stages ctx :
  ∃ keep : FlowQuotaDataItem → bool,
    filterRowsByNodes rows selected stages ctx = filter (fun row => keep row = true) rows ∧
    ∀ row, keep row = true ↔
      ∀ f, f ∈ default [] selected → f_kind f ∈ stages →
        ∃ f', f' ∈ default [] selected ∧ f_kind f' = f_kind f ∧
              f_id f' = id (NODE_BUILDERS (f_kind f) row ctx).
Proof.
  exists (fun row => pathMatchesNodeFilters (flowPathForStages row stages ctx)
    (normalizeSelectedNodeFilters selected stages)).
  split; [|intros row; apply pathMatches_spec].
  unfold filterRowsByNodes. destruct (normalizeSelectedNodeFilters selected stages) as [|kv l] eqn:E; [|done].
  cbn. symmetry. induction rows as [|row rows IH]; [done|]. by rewrite filter_cons_True, IH.
Qed.

(** *** The top-N limit *)

Section ranking.
Context `{Collator}.

Lemma cmp_or_le x y : (cmp_or x y ≤ 0)%Z ↔ (x < 0 ∨ x = 0 ∧ y ≤ 0)%Z.
Proof. unfold cmp_or. destruct (Z.eqb_spec x 0); lia. Qed.

(** Comparing texts is a total preorder with a consistent strict part. *)
Lemma lc_strict a b c :
  (localeCompare a b < 0 → localeCompare b c ≤ 0 → localeCompare a c < 0)%Z ∧
  (localeCompare a b ≤ 0 → localeCompare b c < 0 → localeCompare a c < 0)%Z.
Proof.
  pose proof (localeCompare_anti a b). pose proof (localeCompare_anti b c).
  pose proof (localeCompare_anti a c). pose proof (localeCompare_trans a b c).
  pose proof (localeCompare_trans b c a). pose proof (localeCompare_trans c a b).
  split; intros; destruct (Z.lt_trichotomy (localeCompare a c) 0) as [?|[?|?]]; lia.
Qed.

Lemma rank_le_iff a b :
  rank_le a b = true ↔
  (rank_value b < rank_value a)%Z ∨ rank_value a = rank_value b ∧
  let la := label (rank_node a) in let lb := label (rank_node b) in
  (localeCompare la lb < 0 ∨ localeCompare la lb = 0 ∧
   localeCompare (id (rank_node a)) (id (rank_node b)) ≤ 0)%Z.
Proof. unfold rank_le. rewrite Z.leb_le, !cmp_or_le. simpl. lia. Qed.

Lemma rank_le_total a b : rank_le a b = true ∨ rank_le b a = true.
Proof.
  rewrite !rank_le_iff. simpl.
  pose proof (localeCompare_anti (label (rank_node a)) (label (rank_node b))).
  pose proof (localeCompare_anti (id (rank_node a)) (id (rank_node b))). lia.
Qed.

Lemma lc_eq_trans a b c :
  localeCompare a b = 0%Z → localeCompare b c = 0%Z → localeCompare a c = 0%Z.
Proof.
  intros E1 E2. pose proof (localeCompare_trans a b c). pose proof (localeCompare_trans c b a).
  pose proof (localeCompare_anti a b). pose proof (localeCompare_anti b c).
  pose proof (localeCompare_anti a c). lia.
Qed.

Lemma rank_le_trans a b c : rank_le a b = true → rank_le b c = true → rank_le a c = true.
Proof.
  rewrite !rank_le_iff. cbv zeta. intros [?|[E1 Hab]] [?|[E2 Hbc]]; [left; lia..|].
  right. split; [lia|].
  destruct (lc_strict (label (rank_node a)) (label (rank_node b)) (label (rank_node c))) as [S1 S2].
  destruct Hab as [?|[E3 ?]], Hbc as [?|[E4 ?]]; [left; apply S1; lia..|left; apply S2; lia|].
  right. split; [by eapply lc_eq_trans|by eapply localeCompare_trans].
Qed.
End ranking.

(** The totals of one stage: each row adds to its node. *)
Definition stage_accum (metric : FlowMetric) (k : FlowNodeKind) (ctx : FlowPathContext) :=
  accum (fun row => id (NODE_BUILDERS k row ctx)) (fun row => MkRank (NODE_BUILDERS k row ctx) 0)
    (fun row rk => MkRank (rank_node rk) (rank_value rk + metricValue (rowMetrics row) metric)).

Lemma add_total_get v totals n k :
  map_get k (add_total v totals n) =
  if decide (kind n = k)
  then (fun st => map_set (id n)
          (let c := default (MkRank n 0) (map_get (id n) st) in
           MkRank (rank_node c) (rank_value c + v)) st) <$> map_get k totals
  else map_get k totals.
Proof.
  unfold add_total. destruct (map_get (kind n) totals) as [st|] eqn:E.
  - case_decide as Hk; [subst k; by rewrite map_get_set_eq, E|]. by rewrite map_get_set_ne.
  - case_decide as Hk; [subst k; by rewrite E|done].
Qed.

Lemma row_totals_get metric stages ctx row k totals :
  NoDup stages → k ∈ stages →
  map_get k (foldl (add_total (metricValue (rowMetrics row) metric)) totals
               (flowPathForStages row stages ctx)) =
  (fun st => stage_accum metric k ctx st [row]) <$> map_get k totals.
Proof.
  assert (Hother : ∀ l totals, k ∉ l →
    map_get k (foldl (add_total (metricValue (rowMetrics row) metric)) totals
                 (flowPathForStages row l ctx)) = map_get k totals).
  { induction l as [|s l IH]; intros tt Hk; [done|]. apply not_elem_of_cons in Hk as [Hs Hk].
    simpl. rewrite IH by done. rewrite add_total_get, decide_False; [done|].
    rewrite (proj2 (NODE_BUILDERS_tagged s row ctx)). congruence. }
  revert totals. induction stages as [|s l IH]; intros totals; [by intros _ ?%not_elem_of_nil|].
  intros [Hs Hnd]%NoDup_cons [->|Hk]%elem_of_cons; simpl.
  - rewrite Hother, add_total_get, decide_True by (done || by apply NODE_BUILDERS_tagged). done.
  - rewrite IH, add_total_get, decide_False; [done| |done|done].
    rewrite (proj2 (NODE_BUILDERS_tagged s row ctx)). by intros ->.
Qed.

Lemma stage_totals_get rows metric stages ctx k :
  NoDup stages → k ∈ stages →
  map_get k (stage_totals rows metric stages ctx) = Some (stage_accum metric k ctx [] rows).
Proof.
  intros Hnd Hk. unfold stage_totals.
  set (empty := [] : list (jstr * FlowNodeRank)).
  assert (Hinit : map_get k (foldl (fun totals stage => map_set stage empty totals) [] stages) = Some empty).
  { assert (∀ m : list (FlowNodeKind * list (jstr * FlowNodeRank)), k ∈ stages ∨ map_get k m = Some empty →
      map_get k (foldl (fun totals stage => map_set stage empty totals) m stages) = Some empty) as H; [|auto].
    clear. induction stages as [|s l IH]; intros m [Hk|Hm]; [by apply not_elem_of_nil in Hk|done|..]; simpl; apply IH.
    - apply elem_of_cons in Hk as [->|Hk]; [right; apply map_get_set_eq|by left].
    - right. destruct (decide (k = s)) as [->|]; [apply map_get_set_eq|by rewrite map_get_set_ne]. }
  revert Hinit. generalize (foldl (fun totals stage => map_set stage empty totals) [] stages) as m.
  generalize empty as st.
  induction rows as [|row rows IH]; intros st m Hm; [done|]. simpl. apply IH.
  rewrite row_totals_get by done. by rewrite Hm.
Qed.

Lemma buildTopNodeSets_get `{Collator} rows metric stages n ctx k :
  NoDup stages → k ∈ stages → n ≠ 0 →
  ∃ sets, buildTopNodeSets rows metric stages (Some n) ctx = Some sets ∧
    map_get k sets = Some (top_ids n (stage_accum metric k ctx [] rows)).
Proof.
  intros Hnd Hk Hn. destruct n as [|n]; [done|]. eexists. split; [done|].
  pose proof (stage_totals_get rows metric stages ctx k Hnd Hk) as Hg. revert Hg.
  generalize (stage_totals rows metric stages ctx). intros m. induction m as [|[k' st] m IH]; [done|].
  cbn [map map_get]. case_decide; [by intros [= ->]|apply IH].
Qed.

Definition node_total (metric : FlowMetric) (k : FlowNodeKind) (ctx : FlowPathContext)
    (rows : list FlowQuotaDataItem) (i : jstr) : Z :=
  zsum (fun row => if id (NODE_BUILDERS k row ctx) === i then metricValue (rowMetrics row) metric else 0)%Z
    rows.

(** A keyed map holds one value per key. *)
Lemma accum_value {V} (m : list (jstr * V)) (val : V → Z) i v :
  NoDup (map fst m) → (i, v) ∈ m →
  zsum (fun '(k, v) => if k === i then val v else 0)%Z m = val v.
Proof.
  induction m as [|[k' v'] m IH]; simpl; [by intros _ ?%not_elem_of_nil|].
  intros [Hk' Hnd]%NoDup_cons [[= <- <-]|Hin]%elem_of_cons.
  - rewrite jeqb_refl, zsum_zero; [lia|]. intros [k2 v2] Hin2.
    destruct (jeqb_spec k2 i); [|done]. subst. exfalso. apply Hk', list_elem_of_fmap. by exists (i, v2).
  - destruct (jeqb_spec k' i) as [->|]; [|by rewrite IH].
    exfalso. apply Hk', list_elem_of_fmap. by exists (i, v).
Qed.

Lemma stage_accum_entry metric k ctx rows i rk :
  (i, rk) ∈ stage_accum metric k ctx [] rows →
  id (rank_node rk) = i ∧ rank_value rk = node_total metric k ctx rows i.
Proof.
  intros Hin. split.
  - assert (Forall (fun kv => id (rank_node kv.2) = kv.1) (stage_accum metric k ctx [] rows)) as Hf.
    { apply accum_Forall; [constructor|]. intros row _ v [->|Hv]; done. }
    rewrite Forall_forall in Hf. apply (Hf _ Hin).
  - rewrite <- (accum_value _ rank_value _ _ (accum_NoDup _ _ _ [] rows (NoDup_nil_2)) Hin).
    unfold stage_accum.
    rewrite (accum_sum _ _ _ (fun j => j === i) rank_value
      (fun row => metricValue (rowMetrics row) metric)) by done. done.
Qed.

Lemma StronglySorted_take_drop {A} (R : A → A → Prop) n l x y :
  StronglySorted R l → x ∈ take n l → y ∈ drop n l → R x y.
Proof.
  intros HS. revert n. induction HS as [|a l _ IH Ha]; intros n; [by rewrite take_nil; intros ?%not_elem_of_nil|].
  destruct n as [|n]; simpl; [by intros ?%not_elem_of_nil|].
  intros [->|Hx]%elem_of_cons Hy; [|by eapply IH].
  rewrite Forall_forall in Ha. apply Ha. rewrite <- (take_drop n l). apply elem_of_app. by right.
Qed.

(** The ids kept by the limit have the largest totals. *)
Lemma top_ids_largest `{Collator} metric k ctx rows n i j :
  i ∈ top_ids n (stage_accum metric k ctx [] rows) →
  j ∉ top_ids n (stage_accum metric k ctx [] rows) →
  (∃ row, row ∈ rows ∧ j = id (NODE_BUILDERS k row ctx)) →
  (node_total metric k ctx rows j ≤ node_total metric k ctx rows i)%Z.
Proof.
  set (st := stage_accum metric k ctx [] rows). unfold top_ids. intros Hi Hj (row & Hrow & Ej).
  assert (∃ rk, (j, rk) ∈ st) as [rj Hrj].
  { assert (j ∈ map fst st) as Hk.
    { apply accum_keys. right. apply list_elem_of_fmap. eauto. }
    apply list_elem_of_fmap in Hk as ([j' rk] & E & ?). simpl in E. subst j'. eauto. }
  destruct (stage_accum_entry _ _ _ _ _ _ Hrj) as [Hidj <-].
  apply list_elem_of_fmap in Hi as (ri & -> & Hri).
  assert (∃ i', (i', ri) ∈ st) as [i' Hi'].
  { assert (ri ∈ map snd st) as Hs.
    { rewrite <- (js_sort_Permutation rank_le). by eapply elem_of_submseteq, submseteq_take. }
    apply list_elem_of_fmap in Hs as ([i' ri'] & -> & ?). eauto. }
  destruct (stage_accum_entry _ _ _ _ _ _ Hi') as [-> <-].
  assert (rj ∈ js_sort rank_le (map snd st)) as Hin.
  { rewrite js_sort_Permutation. apply list_elem_of_fmap. by exists (j, rj). }
  rewrite <- (take_drop n) in Hin. apply elem_of_app in Hin as [Hin|Hin].
  { exfalso. apply Hj. apply list_elem_of_fmap. eauto. }
  pose proof (StronglySorted_take_drop _ _ _ _ _
    (js_sort_StronglySorted rank_le rank_le_total rank_le_trans (map snd st)) Hri Hin) as Hle.
  apply rank_le_iff in Hle. simpl in Hle. lia.
Qed.

(** Every node of a prepared path is a top node or stands for the others. *)
Lemma prepared_top rows stages sets options ctx p x :
  p ∈ preparePaths rows stages sets options ctx → x ∈ path p →
  isTopFlowNode sets x = true ∨ id x = OTHER_FLOW_NODE_IDS (kind x).
Proof.
  unfold preparePaths. rewrite list_elem_of_omap. intros (row & _ & Hq).
  apply fmap_Some in Hq as (q & Hq & ->). cbn [path]. intros Hx.
  unfold applyTopNodeLimit in Hq. destruct sets as [s|]; [|by left].
  destruct (existsb _ _) eqn:E; cbn [negb] in Hq.
  - destruct (default overflow_aggregate (overflowMode options)); [|done]. injection Hq as <-.
    apply list_elem_of_fmap in Hx as (n & -> & _). case_if; [by left|right; by destruct (kind n)].
  - injection Hq as <-. left. destruct (isTopFlowNode (Some s) x) eqn:Et; [done|].
    exfalso. apply not_true_iff_false in E. apply E, existsb_exists. exists x.
    rewrite <- list_elem_of_In, Et. done.
Qed.

(** With a limit of [n], every stage of the graph has at most [n] nodes and
    the one that stands for all others; the nodes kept are the ones with the
    largest totals: no node left out exceeds a node kept. *)
Theorem top_limit `{Collator} scheme rows metric r palette visible ctx options n k :
  let stages := resolveVisibleStages r visible in
  let g := buildFlowGraph scheme rows metric r palette visible ctx options in
  let top := top_ids n (stage_accum metric k ctx [] rows) in
  normalizeTopNodeLimit (topNodeLimit options) = Some n → k ∈ stages →
  (∀ x, x ∈ nodes g → n_kind x = k → n_id x ∈ OTHER_FLOW_NODE_IDS k :: top) ∧
  length (filter (fun x => n_kind x = k) (nodes g)) ≤ S n ∧
  ∀ i row, i ∈ top → row ∈ rows → id (NODE_BUILDERS k row ctx) ∉ top →
    (node_total metric k ctx rows (id (NODE_BUILDERS k row ctx)) ≤ node_total metric k ctx rows i)%Z.
Proof.
  cbv zeta. intros Hn Hk.
  destruct (graph_core scheme rows metric r palette visible ctx options) as [Gn _].
  set (stages := resolveVisibleStages r visible) in *.
  assert (n ≠ 0) as Hn0.
  { unfold normalizeTopNodeLimit in Hn. destruct (topNodeLimit options); [|done].
    destruct (_ && _) eqn:E; [|done]. bool_hyps. injection Hn as <-. lia. }
  pose proof (stages_NoDup scheme rows metric r palette visible ctx options) as Hnd.
  destruct (buildTopNodeSets_get rows metric stages n ctx k Hnd Hk Hn0) as (sets & Hsets & Hget).
  rewrite Hn, Hsets in Gn.
  set (top := top_ids n (stage_accum metric k ctx [] rows)) in *.
  set (ps := preparePaths rows stages (Some sets) options ctx) in *.
  set (color := fun i => default _ _) in *.
  assert (Htag : ∀ p, p ∈ ps → Forall tagged (path p)) by (intros; by eapply preparePaths_kinds).
  assert (Hraw : ∀ i x, (i, x) ∈ raw_nodes metric color ps → n_kind x = k → i ∈ OTHER_FLOW_NODE_IDS k :: top).
  { intros i x Hin Hkx. destruct (raw_nodes_inv metric color ps Htag) as [_ Hinv].
    destruct (Hinv i x Hin) as (_ & Hh & p & y & Hp & Hy & ->). rewrite Hkx in Hh.
    pose proof (path_node_kind ps Htag p y k Hp Hy Hh) as Hky.
    destruct (prepared_top _ _ _ _ _ _ _ Hp Hy) as [Ht|Ho]; [right|rewrite Ho, Hky; left].
    unfold isTopFlowNode in Ht. rewrite Hky, Hget in Ht. by apply has_true. }
  split; [|split].
  - intros x Hx Hkx. destruct (raw_node_of metric color ps _ Htag Gn x Hx) as (x' & Hin & _ & Hk').
    apply (Hraw _ _ Hin). congruence.
  - etrans; [by apply (stage_count metric color ps _ Htag Gn k _ Hraw)|].
    simpl. unfold top, top_ids. rewrite length_map, length_take. lia.
  - intros i row Hi Hrow Hj. eapply top_ids_largest; eauto.
Qed.

Definition demo_row (t : Z) (grp mdl : jstr) (q : Z) : FlowQuotaDataItem :=
  MkRow (Some 7%Z) (Some "ann") None (Some grp) (Some t) (Some "key") None None (Some mdl)
    (Some (2 * q)%Z) (Some 1%Z) (Some q).
Definition demo_rows : list FlowQuotaDataItem :=
  [demo_row 1 "vip" "gpt" 30; demo_row 2 "vip" "llama" 5; demo_row 3 "free" "gpt" 2].
Definition demo_options : FlowGraphOptions :=
  MkOptions (Some (num_of_Z 1)) None None None None true.

Lemma flow_conservation_witness :
  let hiding := MkOptions (Some (num_of_Z 1)) (Some overflow_hide) None None None false in
  let graph o := buildFlowGraph (H := unit_collator) [] demo_rows metric_quota role_user None None EMPTY_FLOW_PATH_CONTEXT o in
  let total o k := zsum (fun n => if bool_decide (n_kind n = k) then n_value n else 0)%Z (nodes (graph o)) in
  metricValue (buildSummary demo_rows) metric_quota = 37%Z ∧
  (∀ k, k ∈ resolveVisibleStages role_user None → total demo_options k = 37%Z ∧ ∃ z, total hiding k = z ∧ (z < 37)%Z).
Proof.
  assert (Hid : ∀ row k, row ∈ demo_rows → k ∈ resolveVisibleStages role_user None →
    0%N ∉ id (NODE_BUILDERS k row EMPTY_FLOW_PATH_CONTEXT)).
  { intros row k Hrow Hk.
    assert (forallb (fun row => forallb (fun k => negb (has 0%N (id (NODE_BUILDERS k row EMPTY_FLOW_PATH_CONTEXT))))
      (resolveVisibleStages role_user None)) demo_rows = true) as Hall by (vm_compute; reflexivity).
    rewrite forallb_forall in Hall. specialize (Hall row (proj1 (list_elem_of_In _ _) Hrow)).
    rewrite forallb_forall in Hall. specialize (Hall k (proj1 (list_elem_of_In _ _) Hk)).
    apply negb_true_iff in Hall. by apply has_false. }
  intros hiding graph total. split; [vm_compute; reflexivity|]. intros k Hk. split.
  - etrans; [apply (proj1 (flow_conservation (H := unit_collator) [] demo_rows metric_quota role_user None None
      EMPTY_FLOW_PATH_CONTEXT demo_options Hid) k Hk)|]. vm_compute. reflexivity.
  - eexists. split; [apply (proj1 (flow_conservation (H := unit_collator) [] demo_rows metric_quota role_user None None
      EMPTY_FLOW_PATH_CONTEXT hiding Hid) k Hk)|]. vm_compute. reflexivity.
Defined.

Lemma top_limit_witness :
  let g := buildFlowGraph (H := unit_collator) [] demo_rows metric_quota role_user None None
             EMPTY_FLOW_PATH_CONTEXT demo_options in
  let top := top_ids (H := unit_collator) 1
               (stage_accum metric_quota kind_token EMPTY_FLOW_PATH_CONTEXT [] demo_rows) in
  top = ["token:1"] ∧
  (∀ x, x ∈ nodes g → n_kind x = kind_token → n_id x ∈ OTHER_FLOW_NODE_IDS kind_token :: top) ∧
  length (filter (fun x => n_kind x = kind_token) (nodes g)) ≤ 2 ∧
  ∀ i row, i ∈ top → row ∈ demo_rows →
    id (NODE_BUILDERS kind_token row EMPTY_FLOW_PATH_CONTEXT) ∉ top →
    (node_total metric_quota kind_token EMPTY_FLOW_PATH_CONTEXT demo_rows
       (id (NODE_BUILDERS kind_token row EMPTY_FLOW_PATH_CONTEXT))
     ≤ node_total metric_quota kind_token EMPTY_FLOW_PATH_CONTEXT demo_rows i)%Z.
Proof.
  intros g top. split; [vm_compute; reflexivity|].
  apply (top_limit (H := unit_collator) [] demo_rows metric_quota role_user None None
    EMPTY_FLOW_PATH_CONTEXT demo_options 1 kind_token); [vm_compute; reflexivity|].
  apply (bool_decide_unpack _). vm_compute. exact I.
Defined.

(** *** Masking and highlighting *)

Lemma maskedById_get ns i :
  NoDup (map fst ns) → (∀ k n, (k, n) ∈ ns → n_id n = k) →
  map_get i (maskedById ns) =
  match map_get i ns with
  | Some n => if is_masked n then Some (maskFlowLabel (n_label n)) else None
  | None => None
  end.
Proof.
  intros Hnd Hid. unfold maskedById.
  assert (∀ m, map_get i (foldl (fun m '(_, n) =>
      if is_masked n then map_set (n_id n) (maskFlowLabel (n_label n)) m else m) m ns) =
    match map_get i ns with
    | Some n => if is_masked n then Some (maskFlowLabel (n_label n)) else map_get i m
    | None => map_get i m
    end) as H.
  { induction ns as [|[k n] ns IH]; intros m; [done|]. apply NoDup_cons in Hnd as [Hk Hnd].
    assert (n_id n = k) as En by (apply Hid; left).
    cbn [foldl map_get]. rewrite IH; [|done|intros; apply Hid; by right]. clear IH.
    case_decide as Hik.
    - subst i. assert (map_get k ns = None) as ->.
      { destruct (map_get k ns) as [x|] eqn:E; [|done]. exfalso. apply map_get_elem in E.
        apply Hk, list_elem_of_fmap. by exists (k, x). }
      destruct (is_masked n); [|done]. by rewrite En, map_get_set_eq.
    - assert (map_get i (if is_masked n then map_set (n_id n) (maskFlowLabel (n_label n)) m else m) =
        map_get i m) as ->; [|done].
      destruct (is_masked n); [|done]. rewrite map_get_set_ne; [done|]. by rewrite En. }
  rewrite H. simpl. by destruct (map_get i ns) as [n|]; [destruct (is_masked n)|].
Qed.

(** Where the label of a link's end comes from. *)
Definition end_label (ns : list (jstr * DashboardFlowNode)) (i old : jstr) : jstr :=
  match map_get i ns with
  | Some n => if is_masked n then maskFlowLabel (n_label n) else old
  | None => old
  end.

Lemma mask_links ns ls :
  NoDup (map fst ns) → (∀ k n, (k, n) ∈ ns → n_id n = k) →
  (maskFlowGraphLabels ns ls).2 = map (fun '(k, l) =>
    (k, with_link_labels (end_label ns (source l) (sourceLabel l))
          (end_label ns (target l) (targetLabel l)) l)) ls.
Proof.
  intros Hnd Hid. unfold maskFlowGraphLabels. cbv zeta.
  assert (Hend : ∀ i old, end_label ns i old = default old (map_get i (maskedById ns))).
  { intros i old. rewrite maskedById_get by done. unfold end_label.
    by destruct (map_get i ns) as [n|]; [destruct (is_masked n)|]. }
  destruct (maskedById ns) as [|kv m] eqn:Em.
  - cbn. rewrite <- (map_id ls) at 1. apply map_ext. intros [k l]. rewrite !Hend. simpl. by destruct l.
  - cbn [length Nat.eqb snd]. apply map_ext. intros [k l]. by rewrite !Hend.
Qed.

Section decoration.
Context `{Collator} (scheme : list (option nat * list jstr)) (rows : list FlowQuotaDataItem)
  (metric : FlowMetric) (r : FlowRole) (palette : option (list jstr))
  (visible : option (list FlowNodeKind)) (ctx : FlowPathContext) (options : FlowGraphOptions).

Definition the_stages := resolveVisibleStages r visible.
Definition the_paths := preparePaths rows the_stages
  (buildTopNodeSets rows metric the_stages (normalizeTopNodeLimit (topNodeLimit options)) ctx) options ctx.
Definition the_color i := default (colorAt scheme 0 palette)
  (map_get i (stableColorMap scheme (js_sort id_le (first_ids the_paths)) palette)).
Definition the_graph := buildFlowGraph scheme rows metric r palette visible ctx options.
Definition the_highlights :=
  buildFlowHighlightSets the_paths (activeNode options) (activeLink options) the_stages.
Definition the_nodes := raw_nodes metric the_color the_paths.
Definition the_links := raw_links metric the_color the_paths.

Lemma the_nodes_inv :
  NoDup (map fst the_nodes) ∧ ∀ k n, (k, n) ∈ the_nodes → n_id n = k.
Proof.
  destruct (raw_nodes_inv metric the_color the_paths) as [Hnd Hinv].
  { intros p Hp. by eapply preparePaths_kinds. }
  split; [done|]. intros k n Hn. by apply Hinv.
Qed.

Definition mask_node (n : DashboardFlowNode) : DashboardFlowNode :=
  if maskSensitive options && is_masked n then with_label (maskFlowLabel (n_label n)) n else n.
Definition mask_link (l : DashboardFlowLink) : DashboardFlowLink :=
  if maskSensitive options
  then with_link_labels (end_label the_nodes (source l) (sourceLabel l))
         (end_label the_nodes (target l) (targetLabel l)) l
  else l.
Definition flag_node (n : DashboardFlowNode) : DashboardFlowNode :=
  match the_highlights with Some h => with_node_flags (has (n_id n) (h_nodes h)) n | None => n end.
Definition flag_link (l : DashboardFlowLink) : DashboardFlowLink :=
  match the_highlights with
  | Some h => with_link_flags (has (linkStableKey l) (h_links h)) l
  | None => l
  end.

(** The graph is the accumulated maps with each node and link decorated. *)
Lemma the_graph_nodes : nodes the_graph ≡ₚ map (fun kn => flag_node (mask_node kn.2)) the_nodes.
Proof.
  unfold the_graph, buildFlowGraph. cbv zeta. fold the_stages. fold the_paths.
  rewrite addPath_accum. cbv zeta. fold the_color. cbn [fst snd].
  fold (raw_nodes metric the_color the_paths). fold (raw_links metric the_color the_paths).
  fold the_nodes. fold the_links. fold the_highlights.
  set (m := if maskSensitive options then _ else _).
  assert (Hm : m.1 = map (fun '(k, n) => (k, mask_node n)) the_nodes).
  { unfold m, mask_node. destruct (maskSensitive options); simpl.
    - unfold maskFlowGraphLabels. cbv zeta. by case_if.
    - rewrite <- (map_id the_nodes) at 1. apply map_ext. by intros []. }
  destruct m as [ns ls]. cbn [fst] in Hm. subst ns.
  assert (Hh : (applyFlowHighlights the_highlights (map (fun '(k, n) => (k, mask_node n)) the_nodes) ls).1 =
    map (fun '(k, n) => (k, flag_node (mask_node n))) the_nodes).
  { unfold flag_node. destruct the_highlights; simpl; [rewrite map_map; apply map_ext; by intros []|done]. }
  destruct (applyFlowHighlights _ _ _) as [ns' ls']. cbn [fst] in Hh. subst ns'. cbn [nodes].
  rewrite js_sort_Permutation, map_map. apply Permutation_refl'. apply map_ext. by intros [].
Qed.

Lemma the_graph_links l :
  l ∈ links the_graph → ∃ k l0, (k, l0) ∈ the_links ∧ source l = source l0 ∧ target l = target l0 ∧
    l_value l = l_value l0 ∧
    sourceLabel l = sourceLabel (mask_link l0) ∧ targetLabel l = targetLabel (mask_link l0) ∧
    l_highlighted l = l_highlighted (flag_link l0) ∧ l_dimmed l = l_dimmed (flag_link l0).
Proof.
  unfold the_graph, buildFlowGraph. cbv zeta. fold the_stages. fold the_paths.
  rewrite addPath_accum. cbv zeta. fold the_color. cbn [fst snd].
  fold (raw_nodes metric the_color the_paths). fold (raw_links metric the_color the_paths).
  fold the_nodes. fold the_links. fold the_highlights.
  set (m := if maskSensitive options then _ else _).
  assert (Hm : m.2 = map (fun '(k, l) => (k, mask_link l)) the_links).
  { destruct the_nodes_inv as [Hnd Hid]. unfold m, mask_link. destruct (maskSensitive options); simpl.
    - by rewrite mask_links.
    - rewrite <- (map_id the_links) at 1. apply map_ext. by intros []. }
  destruct m as [ns ls]. cbn [snd] in Hm. subst ls.
  assert (Hh : (applyFlowHighlights the_highlights ns (map (fun '(k, l) => (k, mask_link l)) the_links)).2 =
    map (fun '(k, l) => (k, flag_link (mask_link l))) the_links).
  { unfold flag_link. destruct the_highlights; simpl; [rewrite map_map; apply map_ext; by intros []|done]. }
  destruct (applyFlowHighlights _ _ _) as [ns' ls']. cbn [snd] in Hh. subst ls'. cbn [links].
  unfold assignLinkDisplayColors. intros (l1 & -> & Hl1)%list_elem_of_fmap.
  apply list_elem_of_fmap in Hl1 as (l2 & -> & Hl2).
  rewrite js_sort_Permutation in Hl2. rewrite map_map in Hl2.
  apply list_elem_of_fmap in Hl2 as ([k l0] & -> & Hin). exists k, l0. split; [done|].
  destruct (alphaColor _ _) as [c a]. unfold flag_link, mask_link. simpl.
  by destruct the_highlights, (maskSensitive options).
Qed.
End decoration.

Definition unmasked (o : FlowGraphOptions) : FlowGraphOptions :=
  MkOptions (topNodeLimit o) (overflowMode o) (otherNodeLabel o) (activeNode o) (activeLink o) false.

(** Masking changes labels only, and hides every sensitive one: nodes, links,
    their ids, values and metrics are those of the unmasked graph; a user, token,
    group, channel or server node other than the aggregate of the rest shows the
    mask (or nothing), and a link that touches it shows the same text for it. *)
Theorem masking_hides_labels `{Collator} scheme rows metric r palette visible ctx options :
  maskSensitive options = true →
  let g := buildFlowGraph scheme rows metric r palette visible ctx options in
  let g0 := buildFlowGraph scheme rows metric r palette visible ctx (unmasked options) in
  map node_core (nodes g) ≡ₚ map node_core (nodes g0) ∧
  map link_core (links g) ≡ₚ map link_core (links g0) ∧
  ∀ n, n ∈ nodes g → n_kind n ∈ SENSITIVE_FLOW_KINDS → n_id n ∉ OTHER_FLOW_NODE_ID_SET →
    (n_label n = FLOW_MASK_TEXT ∨ n_label n = []) ∧
    ∀ l, l ∈ links g → (source l = n_id n → sourceLabel l = n_label n) ∧
                       (target l = n_id n → targetLabel l = n_label n).
Proof.
  intros Hmask g g0.
  destruct (graph_core scheme rows metric r palette visible ctx options) as [Gn Gl].
  destruct (graph_core scheme rows metric r palette visible ctx (unmasked options)) as [Gn0 Gl0].
  split; [etrans; [exact Gn|symmetry; exact Gn0]|]. split; [etrans; [exact Gl|symmetry; exact Gl0]|].
  intros n Hn Hsens Hother.
  pose proof (the_graph_nodes scheme rows metric r palette visible ctx options) as Pn.
  unfold the_graph in Pn. fold g in Pn. rewrite Pn in Hn.
  apply list_elem_of_fmap in Hn as ([k n0] & En & Hin). cbn [snd] in En.
  destruct (the_nodes_inv scheme rows metric r palette visible ctx options) as [Hnd Hid].
  assert (Hcore : n_kind n = n_kind n0 ∧ n_id n = k).
  { rewrite <- (Hid k n0 Hin), En. unfold flag_node, mask_node. by destruct (the_highlights _ _ _ _ _ _), (_ && _). }
  destruct Hcore as [Hk Hi].
  assert (is_masked n0 = true) as Hm.
  { unfold is_masked. apply andb_true_iff. rewrite negb_true_iff, has_true, has_false.
    by rewrite <- Hk, (Hid k n0 Hin), <- Hi. }
  assert (Hlab : n_label n = maskFlowLabel (n_label n0)).
  { rewrite En. unfold flag_node, mask_node. rewrite Hmask, Hm. by destruct (the_highlights _ _ _ _ _ _). }
  split.
  - rewrite Hlab. unfold maskFlowLabel. destruct (n_label n0); [by right|by left].
  - intros l Hl. destruct (the_graph_links scheme rows metric r palette visible ctx options l Hl)
      as (k' & l0 & Hin0 & Es & Et & _ & Esl & Etl & _).
    unfold mask_link in Esl, Etl. rewrite Hmask in Esl, Etl. simpl in Esl, Etl.
    assert (Hend : ∀ old, end_label (the_nodes scheme rows metric r palette visible ctx options) (n_id n) old
      = n_label n).
    { intros old. unfold end_label. rewrite Hi, (elem_map_get _ _ _ Hnd Hin), Hm. done. }
    split; intros E; [rewrite Esl, <- Es, E|rewrite Etl, <- Et, E]; apply Hend.
Qed.

Lemma masking_hides_labels_witness :
  let g := buildFlowGraph (H := unit_collator) [] demo_rows metric_quota role_user None None
             EMPTY_FLOW_PATH_CONTEXT demo_options in
  let g0 := buildFlowGraph (H := unit_collator) [] demo_rows metric_quota role_user None None
             EMPTY_FLOW_PATH_CONTEXT (unmasked demo_options) in
  maskSensitive demo_options = true ∧
  map node_core (nodes g) ≡ₚ map node_core (nodes g0) ∧
  map link_core (links g) ≡ₚ map link_core (links g0) ∧
  ∀ n, n ∈ nodes g → n_kind n ∈ SENSITIVE_FLOW_KINDS → n_id n ∉ OTHER_FLOW_NODE_ID_SET →
    (n_label n = FLOW_MASK_TEXT ∨ n_label n = []) ∧
    ∀ l, l ∈ links g → (source l = n_id n → sourceLabel l = n_label n) ∧
                       (target l = n_id n → targetLabel l = n_label n).
Proof.
  intros g g0. split; [reflexivity|].
  apply (masking_hides_labels (H := unit_collator) [] demo_rows metric_quota role_user None None
    EMPTY_FLOW_PATH_CONTEXT demo_options). reflexivity.
Defined.

Lemma highlight_sets_spec prepared an al stages h :
  buildFlowHighlightSets prepared an al stages = Some h →
  (∀ i, i ∈ h_nodes h ↔ ∃ p x, p ∈ prepared ∧ matches_path an al (path p) = true ∧ x ∈ path p ∧ id x = i) ∧
  (∀ k, k ∈ h_links h ↔ ∃ p a b, p ∈ prepared ∧ matches_path an al (path p) = true ∧
     (a, b) ∈ steps (path p) ∧ pathLinkKey a b = k).
Proof.
  unfold buildFlowHighlightSets. case_if; [done|]. case_if; [done|]. intros [= <-]. cbn [h_nodes h_links].
  split.
  - intros i. rewrite elem_of_dedup, elem_of_concat. setoid_rewrite list_elem_of_fmap. split.
    + intros (l & Hi & p & -> & Hp). apply list_elem_of_fmap in Hi as (x & -> & Hx).
      apply list_elem_of_filter in Hp as [? ?]. eauto 10.
    + intros (p & x & Hp & Hm & Hx & <-). eexists. split; [|exists p; split; [done|]].
      * apply list_elem_of_fmap. eauto.
      * by apply list_elem_of_filter.
  - intros k. rewrite elem_of_dedup, elem_of_concat. setoid_rewrite list_elem_of_fmap. split.
    + intros (l & Hi & p & -> & Hp). apply list_elem_of_fmap in Hi as ([a b] & -> & Hx).
      apply list_elem_of_filter in Hp as [? ?]. eauto 10.
    + intros (p & a & b & Hp & Hm & Hx & <-). eexists. split; [|exists p; split; [done|]].
      * apply list_elem_of_fmap. exists (a, b). eauto.
      * by apply list_elem_of_filter.
Qed.

(** When a node or link is selected, what is highlighted is exactly what lies
    on the displayed paths through the selection: a node is highlighted iff such a
    path visits it, a link iff such a path takes a step with its key, and everything
    else is dimmed. *)
Theorem highlight_exact `{Collator} scheme rows metric r palette visible ctx options :
  let g := buildFlowGraph scheme rows metric r palette visible ctx options in
  let ps := the_paths rows metric r visible ctx options in
  let hit p := matches_path (activeNode options) (activeLink options) (path p) = true in
  the_highlights rows metric r visible ctx options ≠ None →
  (∀ n, n ∈ nodes g → ∃ b, n_highlighted n = Some b ∧ n_dimmed n = Some (negb b) ∧
     (b = true ↔ ∃ p x, p ∈ ps ∧ hit p ∧ x ∈ path p ∧ id x = n_id n)) ∧
  (∀ l, l ∈ links g → ∃ b, l_highlighted l = Some b ∧ l_dimmed l = Some (negb b) ∧
     (b = true ↔ ∃ p x y, p ∈ ps ∧ hit p ∧ (x, y) ∈ steps (path p) ∧ pathLinkKey x y = linkStableKey l)).
Proof.
  cbv zeta. intros Hh.
  destruct (the_highlights rows metric r visible ctx options) as [h|] eqn:Eh; [|done]. clear Hh.
  destruct (highlight_sets_spec _ _ _ _ _ Eh) as [Hn Hl]. split.
  - intros n Hin. pose proof (the_graph_nodes scheme rows metric r palette visible ctx options) as Pn.
    unfold the_graph in Pn. rewrite Pn in Hin. apply list_elem_of_fmap in Hin as ([k n0] & -> & _).
    unfold flag_node. rewrite Eh. cbn [snd n_highlighted n_dimmed with_node_flags n_id].
    eexists. split; [done|]. split; [done|]. by rewrite has_true, Hn.
  - intros l Hin. destruct (the_graph_links scheme rows metric r palette visible ctx options l Hin)
      as (k & l0 & _ & Es & Et & _ & _ & _ & E1 & E2).
    unfold flag_link in E1, E2. rewrite Eh in E1, E2. cbn in E1, E2.
    eexists. split; [exact E1|]. split; [exact E2|]. rewrite has_true, Hl.
    unfold linkStableKey. by rewrite Es, Et.
Qed.

Lemma highlight_exact_witness :
  let options := MkOptions None None None (Some (MkFilter kind_token "token:1")) None false in
  let g := buildFlowGraph (H := unit_collator) [] demo_rows metric_quota role_user None None
             EMPTY_FLOW_PATH_CONTEXT options in
  let ps := the_paths (H := unit_collator) demo_rows metric_quota role_user None EMPTY_FLOW_PATH_CONTEXT options in
  let hit p := matches_path (activeNode options) (activeLink options) (path p) = true in
  the_highlights (H := unit_collator) demo_rows metric_quota role_user None EMPTY_FLOW_PATH_CONTEXT options ≠ None ∧
  (∀ n, n ∈ nodes g → ∃ b, n_highlighted n = Some b ∧ n_dimmed n = Some (negb b) ∧
     (b = true ↔ ∃ p x, p ∈ ps ∧ hit p ∧ x ∈ path p ∧ id x = n_id n)) ∧
  (∀ l, l ∈ links g → ∃ b, l_highlighted l = Some b ∧ l_dimmed l = Some (negb b) ∧
     (b = true ↔ ∃ p x y, p ∈ ps ∧ hit p ∧ (x, y) ∈ steps (path p) ∧ pathLinkKey x y = linkStableKey l)).
Proof.
  intros options g ps hit.
  assert (the_highlights (H := unit_collator) demo_rows metric_quota role_user None EMPTY_FLOW_PATH_CONTEXT
    options ≠ None) as Hh by (vm_compute; discriminate).
  split; [exact Hh|].
  exact (highlight_exact (H := unit_collator) [] demo_rows metric_quota role_user None None
    EMPTY_FLOW_PATH_CONTEXT options Hh).
Defined.
