(* ===== verification/HttpStatusRules.v ===== *)
(** * HTTP status code rules

    Model of [lib/http-status-code-rules.ts]: the parser of the operator's
    status-code rules ("401,403,500-599") that decide which upstream responses
    disable or retry a channel.

    The theorems: the merged ranges cover exactly the codes the operator wrote,
    they are canonical (in range, ordered, never adjacent or overlapping), and
    the normalized text parses back to the same rules. *)

From S2P Require Import Prelude JsRegExp.

(** Status codes are integers; [N] holds them exactly. *)
Record StatusCodeRange := Range { start : N; end_ : N }.

#[export] Instance StatusCodeRange_eq_dec : EqDecision StatusCodeRange.
Proof. solve_decision. Defined.

Record ParsedHttpStatusCodeRules := Parsed {
  ok : bool;
  ranges : list StatusCodeRange;
  tokens : list jstr;
  normalized : jstr;
  invalidTokens : list jstr;
}.

(** [/^\d+$/.test(s)] *)
Definition isNumber (s : jstr) : bool :=
  test (RBol · rplus (RUnit is_digit) · REol)%re s.

(** [Number.isFinite(code) && code >= 100 && code <= 599].  [parseInt] of a
    numeral too large for a double is [Infinity], which fails the test as the
    numeral's value does. *)
Definition isValidCode (code : N) : bool := (100 <=? code)%N && (code <=? 599)%N.

(** [const [a, b] = cleaned.split('-')] takes the first two pieces and drops
    any further ones. *)
Definition parseToken (token : jstr) : option StatusCodeRange :=
  let cleaned := replace_units is_ws [] (trim token) in
  if negb (truthy cleaned) then None
  else if includes "-" cleaned then
    match split_char 45 cleaned with
    | a :: b :: _ =>
      if negb (isNumber a) || negb (isNumber b) then None
      else
        let start := parse_digits 10 a in
        let end_ := parse_digits 10 b in
        if negb (isValidCode start) || negb (isValidCode end_) || (end_ <? start)%N
        then None
        else Some (Range start end_)
    | _ => None
    end
  else if negb (isNumber cleaned) then None
  else
    let code := parse_digits 10 cleaned in
    if negb (isValidCode code) then None else Some (Range code code).

(** The comparator of the sort: by start, then by end. *)
Definition range_leb (a b : StatusCodeRange) : bool :=
  if negb (start a =? start b)%N then (start a <=? start b)%N
  else (end_ a <=? end_ b)%N.

(** The reducer of [mergeRanges]; extending the last range mutates it in place,
    which no other holder of that object can see: it is a copy. *)
Definition merge_step (merged : list StatusCodeRange) (current : StatusCodeRange) :
    list StatusCodeRange :=
  match last merged with
  | None => merged ++ [current]
  | Some l =>
    if (end_ l + 1 <? start current)%N then merged ++ [current]
    else take (length merged - 1) merged ++ [Range (start l) (N.max (end_ l) (end_ current))]
  end.

Definition mergeRanges (ranges : list StatusCodeRange) : list StatusCodeRange :=
  match ranges with
  | [] => []
  | _ => foldl merge_step [] (js_sort range_leb ranges)
  end.

Definition range_token (r : StatusCodeRange) : jstr :=
  if (start r =? end_ r)%N then js_of_N (start r)
  else js_of_N (start r) ++ "-" ++ js_of_N (end_ r).

Definition segments_of (raw : jstr) : list jstr :=
  filter (fun s => truthy s = true)
    (map trim (split_char 44 (replace_units (N.eqb 65292) "," raw))).

(** The loop over the segments: the ranges of the valid ones and the text of
    the invalid ones, both in order. *)
Definition parse_segments (segs : list jstr) : list StatusCodeRange * list jstr :=
  foldl (fun '(rs, bad) segment =>
    match parseToken segment with
    | None => (rs, bad ++ [segment])
    | Some r => (rs ++ [r], bad)
    end) ([], []) segs.

(** [input] is [None] for [null] and [undefined]; otherwise it is the text
    [input.toString()]. *)
Definition parseHttpStatusCodeRules (input : option jstr) : ParsedHttpStatusCodeRules :=
  let raw := trim (default [] input) in
  if length raw =? 0 then Parsed true [] [] [] [] else
  let '(ranges, invalidTokens) := parse_segments (segments_of raw) in
  if 0 <? length invalidTokens then Parsed false [] [] raw invalidTokens
  else
    let merged := mergeRanges ranges in
    let tokens := map range_token merged in
    Parsed true merged tokens (join "," tokens) [].

(** ** Specification *)

(** The codes a list of ranges stands for. *)
Definition covers (rs : list StatusCodeRange) (code : N) : Prop :=
  ∃ r, r ∈ rs ∧ (start r <= code <= end_ r)%N.

Definition valid_range (r : StatusCodeRange) : Prop :=
  (100 <= start r ∧ start r <= end_ r ∧ end_ r <= 599)%N.

(** Two consecutive ranges leave at least one code between them. *)
Definition separated (a b : StatusCodeRange) : Prop := (end_ a + 1 < start b)%N.

Definition canonical (rs : list StatusCodeRange) : Prop :=
  Forall valid_range rs ∧ StronglySorted separated rs.

(** ** Sorting and merging *)

Lemma range_leb_total a b : range_leb a b = true ∨ range_leb b a = true.
Proof.
  unfold range_leb. rewrite (N.eqb_sym (start b)).
  destruct (start a =? start b)%N; simpl; rewrite !N.leb_le; lia.
Qed.

Lemma range_leb_start a b : range_leb a b = true → (start a <= start b)%N.
Proof.
  unfold range_leb. destruct (start a =? start b)%N eqn:E; simpl; intros; bool_hyps; lia.
Qed.

Lemma range_leb_trans a b c :
  range_leb a b = true → range_leb b c = true → range_leb a c = true.
Proof.
  unfold range_leb.
  destruct (N.eqb_spec (start a) (start b)), (N.eqb_spec (start b) (start c)),
    (N.eqb_spec (start a) (start c)); simpl; rewrite !N.leb_le; lia.
Qed.

Lemma merge_step_snoc merged l current :
  merge_step (merged ++ [l]) current =
  if (end_ l + 1 <? start current)%N then (merged ++ [l]) ++ [current]
  else merged ++ [Range (start l) (N.max (end_ l) (end_ current))].
Proof.
  unfold merge_step. rewrite last_snoc. case_if; [done|].
  rewrite length_app. simpl. replace (length merged + 1 - 1) with (length merged) by lia.
  by rewrite take_app_length.
Qed.

Lemma StronglySorted_snoc {A} (R : A → A → Prop) l x :
  StronglySorted R (l ++ [x]) ↔ StronglySorted R l ∧ Forall (fun y => R y x) l.
Proof.
  induction l as [|y l IH]; simpl.
  - split; [|repeat constructor]. repeat constructor.
  - split.
    + inversion_clear 1 as [|?? Hs Hf]. apply IH in Hs as [? ?].
      apply Forall_app in Hf as [? Hx]. inversion_clear Hx. by repeat constructor.
    + intros [Hs Hf]. inversion_clear Hs. inversion_clear Hf.
      constructor; [by apply IH|]. apply Forall_app. by repeat constructor.
Qed.

(** What the reducer maintains: [merged] is canonical and stands for the codes
    of the ranges already consumed, none of which starts after [lo]. *)
Definition merge_inv (merged done : list StatusCodeRange) : Prop :=
  canonical merged ∧ (∀ c, covers merged c ↔ covers done c).

Lemma covers_app a b c : covers (a ++ b) c ↔ covers a c ∨ covers b c.
Proof. unfold covers. set_solver. Qed.

Lemma covers_single r c : covers [r] c ↔ (start r <= c <= end_ r)%N.
Proof. unfold covers. split; [intros (r' & ->%list_elem_of_singleton & ?)|exists r; set_solver]; done. Qed.

Lemma canonical_snoc l x :
  canonical (l ++ [x]) ↔
  canonical l ∧ valid_range x ∧ Forall (fun y => separated y x) l.
Proof.
  unfold canonical. rewrite StronglySorted_snoc, Forall_app, Forall_singleton. tauto.
Qed.

Lemma merge_step_inv merged done r :
  merge_inv merged done → valid_range r →
  (∀ m, last merged = Some m → (start m <= start r)%N) →
  merge_inv (merge_step merged r) (done ++ [r]) ∧
  (∀ m, last (merge_step merged r) = Some m → (start m <= start r)%N).
Proof.
  intros [Hcan Hcov] Hr Hlo.
  destruct (last merged) as [l|] eqn:El.
  2:{ apply last_None in El as ->. unfold merge_step. simpl.
      split; [|intros m [= <-]; lia]. split.
      - split; [by constructor|repeat constructor].
      - intros c. rewrite covers_app, <- Hcov. split; [by right|].
        intros [(? & ?%not_elem_of_nil & _)|?]; done. }
  apply last_Some in El as [m ->]. specialize (Hlo l eq_refl).
  pose proof Hcan as (Hm & Hl & Hsep)%canonical_snoc.
  rewrite merge_step_snoc. case_if; bool_hyps.
  - split; [|intros ?; rewrite last_snoc; intros [= <-]; lia]. split.
    + apply canonical_snoc. split; [done|]. split; [done|].
      apply Forall_app. split; [|by constructor].
      eapply Forall_impl; [exact Hsep|]. unfold separated, valid_range in *. intros. lia.
    + intros c. rewrite !(covers_app _ [r]). by rewrite Hcov.
  - split; [|intros ?; rewrite last_snoc; intros [= <-]; simpl; lia]. split.
    + apply canonical_snoc. split; [done|]. split.
      * unfold valid_range in *. simpl. apply N.ltb_ge in E. lia.
      * eapply Forall_impl; [exact Hsep|]. done.
    + intros c. apply N.ltb_ge in E. rewrite (covers_app done), <- Hcov, !covers_app, !covers_single.
      unfold valid_range in *. simpl. intuition lia.
Qed.

Lemma foldl_merge_inv rs merged done :
  StronglySorted (fun a b => range_leb a b = true) rs → Forall valid_range rs →
  merge_inv merged done →
  (∀ m r, last merged = Some m → r ∈ rs → (start m <= start r)%N) →
  merge_inv (foldl merge_step merged rs) (done ++ rs).
Proof.
  revert merged done. induction rs as [|r rs IH]; intros merged done Hs Hv Hinv Hlo.
  { by rewrite app_nil_r. }
  inversion_clear Hs as [|?? Hs' Hr]. apply Forall_cons in Hv as [Hvr Hv].
  destruct (merge_step_inv merged done r) as [Hi Hl]; [done|done|set_solver|].
  simpl. rewrite cons_middle, app_assoc. apply IH; [done..|].
  intros m r' Hm Hr'. apply Hl in Hm. rewrite Forall_forall in Hr.
  specialize (Hr r' Hr'). apply range_leb_start in Hr. lia.
Qed.

Lemma mergeRanges_inv rs :
  Forall valid_range rs → canonical (mergeRanges rs) ∧ ∀ c, covers (mergeRanges rs) c ↔ covers rs c.
Proof.
  intros Hv. destruct rs as [|r0 rs0] eqn:E.
  { split; [split; constructor|done]. }
  rewrite <- E in *. replace (mergeRanges rs) with (foldl merge_step [] (js_sort range_leb rs))
    by (by rewrite E).
  pose proof (js_sort_Permutation range_leb rs) as Hp.
  destruct (foldl_merge_inv (js_sort range_leb rs) [] []) as [Hc Hcov].
  - apply js_sort_StronglySorted; [apply range_leb_total|apply range_leb_trans].
  - by rewrite Hp.
  - split; [split; constructor|done].
  - done.
  - split; [done|]. intros c. rewrite Hcov. simpl. unfold covers.
    split; intros (r & Hin & ?); exists r; (split; [|done]); revert Hin; by rewrite Hp.
Qed.

(** A canonical list is already sorted and nothing in it merges. *)
Lemma canonical_sorted rs :
  canonical rs → StronglySorted (fun a b => range_leb a b = true) rs.
Proof.
  intros [Hv Hs]. induction Hs as [|r rs Hs IH Hr]; [constructor|].
  apply Forall_cons in Hv as [Hvr Hv]. constructor; [by apply IH|].
  eapply Forall_impl; [exact Hr|]. unfold separated, valid_range in *. intros b Hb.
  unfold range_leb. destruct (N.eqb_spec (start r) (start b)); simpl; rewrite N.leb_le; lia.
Qed.

Lemma foldl_merge_canonical merged rs :
  canonical (merged ++ rs) → foldl merge_step merged rs = merged ++ rs.
Proof.
  revert merged. induction rs as [|r rs IH]; intros merged Hc; simpl; [by rewrite app_nil_r|].
  rewrite cons_middle, app_assoc in Hc |- *.
  replace (merge_step merged r) with (merged ++ [r]); [by apply IH|].
  destruct (last merged) as [l|] eqn:El.
  - apply last_Some in El as [m ->]. rewrite merge_step_snoc.
    destruct Hc as [_ Hs]. apply StronglySorted_app_1_l in Hs.
    apply StronglySorted_snoc in Hs as [_ Hs]. apply Forall_app in Hs as [_ Hs].
    inversion_clear Hs as [|?? Hsep]. unfold separated in Hsep.
    by rewrite (proj2 (N.ltb_lt _ _) Hsep).
  - apply last_None in El as ->. done.
Qed.

Lemma mergeRanges_canonical rs : canonical rs → mergeRanges rs = rs.
Proof.
  intros Hc. destruct rs as [|r rs]; [done|]. unfold mergeRanges.
  rewrite js_sort_id by (by apply canonical_sorted). by apply foldl_merge_canonical.
Qed.

(** ** Parsing *)

Lemma isNumber_digits s : isNumber s = truthy s && forallb is_digit s.
Proof.
  unfold isNumber. rewrite test_class by done. rewrite andb_true_r, andb_comm.
  by destruct s.
Qed.

(** Deleting white space makes the preceding [trim] redundant. *)
Lemma delete_ws_trim s : replace_units is_ws [] (trim s) = replace_units is_ws [] s.
Proof.
  assert (Hws : ∀ p, Forall (fun c => is_ws c = true) p → replace_units is_ws [] p = []).
  { intros p. unfold replace_units. induction 1 as [|c p Hc _ IH]; [done|]. simpl. by rewrite Hc. }
  destruct (trimStart_decomp s) as (a & Ea & Ha).
  destruct (trimEnd_decomp (trimStart s)) as (b & Eb & Hb).
  rewrite Ea at 2. unfold trim. rewrite Eb at 2.
  by rewrite !replace_units_app, (Hws a), (Hws b), app_nil_r.
Qed.

Lemma valid_range_codes a b :
  negb (isValidCode a) || negb (isValidCode b) || (b <? a)%N = false ↔ valid_range (Range a b).
Proof.
  unfold isValidCode, valid_range. rewrite !orb_false_iff, !negb_false_iff, !andb_true_iff.
  rewrite !N.leb_le, N.ltb_ge. simpl. lia.
Qed.

Lemma parseToken_valid t r : parseToken t = Some r → valid_range r.
Proof.
  unfold parseToken. intros H.
  repeat case_match; simplify_eq; [by apply valid_range_codes|].
  unfold isValidCode, valid_range in *. simpl. bool_hyps. lia.
Qed.

Lemma parse_segments_go segs rs bad :
  foldl (fun '(rs, bad) segment =>
    match parseToken segment with
    | None => (rs, bad ++ [segment])
    | Some r => (rs ++ [r], bad)
    end) (rs, bad) segs =
  (rs ++ omap parseToken segs, bad ++ filter (fun s => parseToken s = None) segs).
Proof.
  revert rs bad. induction segs as [|s segs IH]; intros rs bad; simpl.
  { by rewrite !app_nil_r. }
  destruct (parseToken s) eqn:E; simpl; rewrite IH.
  - rewrite filter_cons_False by congruence. by rewrite <- app_assoc.
  - rewrite filter_cons_True by done. by rewrite <- app_assoc.
Qed.

Lemma parse_segments_spec segs :
  parse_segments segs = (omap parseToken segs, filter (fun s => parseToken s = None) segs).
Proof. apply parse_segments_go. Qed.

Lemma segments_valid segs : Forall valid_range (omap parseToken segs).
Proof.
  apply Forall_forall. intros r (s & _ & Hs)%list_elem_of_omap. by eapply parseToken_valid.
Qed.

Definition raw_of (input : option jstr) : jstr := trim (default [] input).

(** The three outcomes of the parser. *)
Lemma parse_cases input :
  let segs := segments_of (raw_of input) in
  let bad := filter (fun s => parseToken s = None) segs in
  let merged := mergeRanges (omap parseToken segs) in
  parseHttpStatusCodeRules input =
  if length (raw_of input) =? 0 then Parsed true [] [] [] []
  else if 0 <? length bad then Parsed false [] [] (raw_of input) bad
  else Parsed true merged (map range_token merged) (join "," (map range_token merged)) [].
Proof.
  intros segs bad merged. unfold parseHttpStatusCodeRules, raw_of in *.
  by rewrite parse_segments_spec.
Qed.

(** *** Printing and reparsing one range *)

Lemma digits_clean s : forallb is_digit s = true → Forall (fun c => is_ws c = false) s.
Proof.
  intros H. apply Forall_forall. intros c Hc. apply is_digit_not_ws.
  rewrite forallb_forall in H. apply H. by apply list_elem_of_In.
Qed.

Lemma digit_not_in s c : forallb is_digit s = true → is_digit c = false → c ∉ s.
Proof.
  intros Hs Hc Hin. rewrite forallb_forall in Hs. rewrite list_elem_of_In in Hin.
  apply Hs in Hin. congruence.
Qed.

Lemma numeral_isNumber n : isNumber (js_of_N n) = true.
Proof.
  destruct (js_of_N_spec n) as (_ & Hd & Hne). rewrite isNumber_digits, Hd, andb_true_r.
  by apply truthy_true.
Qed.

Lemma range_token_chars r c :
  c ∈ range_token r → is_digit c = true ∨ c = 45%N.
Proof.
  assert (∀ n, c ∈ js_of_N n → is_digit c = true) as Hd.
  { intros n Hc. destruct (js_of_N_spec n) as (_ & Hd & _). rewrite forallb_forall in Hd.
    apply Hd. by apply list_elem_of_In. }
  unfold range_token. case_if; [by left; eauto|].
  intros [?|[->%list_elem_of_singleton|?]%elem_of_app]%elem_of_app; eauto.
Qed.

Lemma range_token_no r c : is_digit c = false → c ≠ 45%N → c ∉ range_token r.
Proof. intros ?? [?| ->]%range_token_chars; congruence. Qed.

Lemma range_token_clean r : Forall (fun c => is_ws c = false) (range_token r).
Proof.
  apply Forall_forall. intros c [?| ->]%range_token_chars; [by apply is_digit_not_ws|done].
Qed.

Lemma range_token_nonempty r : range_token r ≠ [].
Proof.
  destruct (js_of_N_spec (start r)) as (_ & _ & Hne). unfold range_token.
  case_if; [done|]. by destruct (js_of_N (start r)).
Qed.

(** A two-part range token reads its first two numerals, whatever follows a
    second dash. *)
Lemma parseToken_two_parts a b tail :
  forallb is_digit a = true → forallb is_digit b = true → a ≠ [] → b ≠ [] →
  (tail = [] ∨ ∃ t, tail = 45%N :: t) →
  parseToken (a ++ "-" ++ b ++ tail) =
  if negb (isValidCode (parse_digits 10 a)) || negb (isValidCode (parse_digits 10 b))
     || (parse_digits 10 b <? parse_digits 10 a)%N
  then None else Some (Range (parse_digits 10 a) (parse_digits 10 b)).
Proof.
  intros Ha Hb Hna Hnb Htail. unfold parseToken. rewrite delete_ws_trim.
  rewrite !replace_units_app.
  rewrite (replace_units_id _ _ a) by (by apply digits_clean).
  rewrite (replace_units_id _ _ b) by (by apply digits_clean).
  change (replace_units is_ws [] "-") with "-".
  replace (truthy (a ++ _)) with true by (by destruct a).
  replace (includes "-" (a ++ _)) with true by (symmetry; apply includes_true; eauto).
  cbn [negb]. change ("-" ++ b ++ ?t) with (45%N :: b ++ t).
  rewrite split_char_app_sep by (by apply (digit_not_in a)).
  assert (∃ rest, split_char 45 (b ++ replace_units is_ws [] tail) = b :: rest) as [rest ->].
  { destruct Htail as [-> |[t ->]].
    - exists []. cbn. rewrite app_nil_r. by apply split_char_no_sep, digit_not_in.
    - eexists. change (replace_units is_ws [] (45%N :: t)) with (45%N :: replace_units is_ws [] t).
      by apply split_char_app_sep, digit_not_in. }
  rewrite !isNumber_digits, Ha, Hb.
  replace (truthy a) with true by (by destruct a).
  by replace (truthy b) with true by (by destruct b).
Qed.

Lemma parseToken_range_token r : valid_range r → parseToken (range_token r) = Some r.
Proof.
  intros Hv. destruct r as [s e]. unfold range_token. cbn [start end_].
  destruct (js_of_N_spec s) as (Hps & Hds & Hns), (js_of_N_spec e) as (Hpe & Hde & Hne).
  destruct (N.eqb_spec s e) as [->|Hse].
  - unfold parseToken. rewrite delete_ws_trim, replace_units_id by (by apply digits_clean).
    rewrite (proj2 (truthy_true _) Hne).
    replace (includes "-" (js_of_N e)) with false.
    2:{ symmetry. apply includes_false. intros (a & b & E).
        apply (digit_not_in (js_of_N e) 45%N); [done|done|rewrite E; set_solver]. }
    rewrite numeral_isNumber, Hpe. cbn [negb].
    apply valid_range_codes in Hv. apply orb_false_iff in Hv as [Hv _].
    by apply orb_false_iff in Hv as [-> _].
  - pose proof (parseToken_two_parts (js_of_N s) (js_of_N e) [] Hds Hde Hns Hne (or_introl eq_refl)) as Hp.
    rewrite (app_nil_r (js_of_N e)) in Hp. rewrite Hp, Hps, Hpe.
    by rewrite (proj2 (valid_range_codes s e) Hv).
Qed.

(** *** Printing and reparsing a rule list *)

Lemma join_elem sep ws c : c ∈ join sep ws → c ∈ sep ∨ ∃ w, w ∈ ws ∧ c ∈ w.
Proof.
  induction ws as [|w ws IH]; [by intros ?%not_elem_of_nil|].
  destruct ws as [|w' ws].
  - intros Hc. right. exists w. split; [left|done].
  - rewrite join_cons2.
    intros [Hc|[Hc|Hc]%elem_of_app]%elem_of_app; [right; exists w; split; [left|done]|by left|].
    destruct (IH Hc) as [?|(v & ? & ?)]; [by left|]. right. exists v. split; [by right|done].
Qed.

Lemma tokens_text_clean rs :
  Forall (fun c => is_ws c = false) (join "," (map range_token rs)).
Proof.
  apply Forall_forall. intros c [->%list_elem_of_singleton|(w & Hw & Hc)]%join_elem; [done|].
  apply list_elem_of_fmap in Hw as (r & -> & _).
  pose proof (range_token_clean r) as Hr. rewrite Forall_forall in Hr. by apply Hr.
Qed.

Lemma tokens_text_nonempty r rs : join "," (map range_token (r :: rs)) ≠ [].
Proof.
  pose proof (range_token_nonempty r). simpl. destruct (map range_token rs); [done|].
  by destruct (range_token r).
Qed.

Lemma segments_of_tokens rs :
  rs ≠ [] → segments_of (join "," (map range_token rs)) = map range_token rs.
Proof.
  intros Hrs. unfold segments_of. rewrite replace_units_id.
  2:{ apply Forall_forall. intros c [->%list_elem_of_singleton|(w & Hw & Hc)]%join_elem; [done|].
      apply list_elem_of_fmap in Hw as (r & -> & _).
      apply N.eqb_neq. intros <-. by apply range_token_no in Hc. }
  rewrite split_char_join.
  - assert (∀ l, filter (fun s => truthy s = true) (map trim (map range_token l))
                 = map range_token l) as ->; [|done].
    induction l as [|r l IH]; [done|]. cbn [map].
    rewrite trim_no_ws by apply range_token_clean.
    rewrite filter_cons_True by (apply truthy_true, range_token_nonempty). by f_equal.
  - by destruct rs.
  - apply Forall_forall. intros w (r & -> & _)%list_elem_of_fmap. by apply range_token_no.
Qed.

Lemma omap_range_token rs :
  Forall valid_range rs → omap parseToken (map range_token rs) = rs.
Proof.
  induction 1 as [|r rs Hr _ IH]; [done|]. cbn. by rewrite parseToken_range_token, IH.
Qed.

Lemma filter_range_token rs :
  Forall valid_range rs →
  filter (fun s => parseToken s = None) (map range_token rs) = [].
Proof.
  induction 1 as [|r rs Hr _ IH]; [done|]. cbn [map].
  rewrite filter_cons_False; [done|]. by rewrite parseToken_range_token.
Qed.

Lemma parse_canonical_text rs :
  canonical rs →
  parseHttpStatusCodeRules (Some (join "," (map range_token rs))) =
  Parsed true rs (map range_token rs) (join "," (map range_token rs)) [].
Proof.
  intros Hc. destruct rs as [|r rs]; [done|].
  rewrite parse_cases. unfold raw_of. cbn [from_option]. unfold id.
  rewrite trim_no_ws by apply tokens_text_clean.
  pose proof (tokens_text_nonempty r rs) as Hne.
  rewrite (proj2 (Nat.eqb_neq _ _)) by (by intros ?%length_zero_iff_nil).
  cbv zeta. rewrite (segments_of_tokens (r :: rs)) by done. destruct Hc as [Hv Hs].
  rewrite omap_range_token, filter_range_token by done. cbn [length Nat.ltb Nat.leb].
  by rewrite mergeRanges_canonical.
Qed.

(** ** Properties *)

(** The ranges the parser returns stand for exactly the status codes that
    the operator's valid segments name: sorting and merging neither adds nor
    loses a code. *)
Theorem parse_codes input c :
  ok (parseHttpStatusCodeRules input) = true →
  covers (ranges (parseHttpStatusCodeRules input)) c ↔
  ∃ seg r, seg ∈ segments_of (raw_of input) ∧ parseToken seg = Some r ∧
           (start r <= c <= end_ r)%N.
Proof.
  rewrite parse_cases. intros Hok.
  destruct (length (raw_of input) =? 0) eqn:E0.
  - apply Nat.eqb_eq, length_zero_iff_nil in E0. rewrite E0. split.
    + by intros (? & ?%not_elem_of_nil & _).
    + by intros (? & ? & ?%not_elem_of_nil & _).
  - case_if; [done|]. simpl.
    rewrite (proj2 (mergeRanges_inv _ (segments_valid _)) c).
    unfold covers. setoid_rewrite list_elem_of_omap. naive_solver.
Qed.

Lemma parse_codes_witness :
  ok (parseHttpStatusCodeRules (Some " 503, 500-502，429 ")) = true ∧
  (covers (ranges (parseHttpStatusCodeRules (Some " 503, 500-502，429 "))) 501%N ↔
   ∃ seg r, seg ∈ segments_of (raw_of (Some " 503, 500-502，429 ")) ∧
            parseToken seg = Some r ∧ (start r <= 501 <= end_ r)%N).
Proof. split; [vm_compute; reflexivity|]. apply parse_codes. vm_compute. reflexivity. Defined.

(** For every input the returned ranges are canonical: each lies within
    100-599 and has its ends in order, and consecutive ranges are ordered with
    at least one code between them (so nothing overlaps and nothing adjacent is
    left unmerged). *)
Theorem parse_canonical input : canonical (ranges (parseHttpStatusCodeRules input)).
Proof.
  rewrite parse_cases. do 2 (case_if; [split; constructor|]).
  apply mergeRanges_inv, segments_valid.
Qed.

(** C37: normalization is stable: when the rules are accepted, parsing the
    normalized text gives the same ranges, tokens and text back. *)
Theorem parse_normalized_roundtrip input :
  ok (parseHttpStatusCodeRules input) = true →
  parseHttpStatusCodeRules (Some (normalized (parseHttpStatusCodeRules input))) =
  parseHttpStatusCodeRules input.
Proof.
  rewrite (parse_cases input). intros Hok.
  case_if; [done|]. case_if; [done|]. simpl.
  by apply parse_canonical_text, mergeRanges_inv, segments_valid.
Qed.

Lemma parse_normalized_roundtrip_witness :
  normalized (parseHttpStatusCodeRules (Some "502,500-501 , 404")) = "404,500-502" ∧
  parseHttpStatusCodeRules (Some (normalized (parseHttpStatusCodeRules (Some "502,500-501 , 404")))) =
  parseHttpStatusCodeRules (Some "502,500-501 , 404").
Proof.
  split; [vm_compute; reflexivity|]. apply parse_normalized_roundtrip. vm_compute. reflexivity.
Defined.

(** The rules are rejected exactly when some segment is not a code or
    range; the result then lists precisely those segments in order, carries no
    range or token, and echoes the operator's text. *)
Theorem parse_error input :
  ok (parseHttpStatusCodeRules input) = false ↔
  parseHttpStatusCodeRules input =
    Parsed false [] [] (raw_of input)
      (filter (fun s => parseToken s = None) (segments_of (raw_of input))) ∧
  ∃ seg, seg ∈ segments_of (raw_of input) ∧ parseToken seg = None.
Proof.
  split; [|by intros [-> _]]. rewrite parse_cases.
  case_if; [done|]. case_if; [|done]. intros _. split; [done|].
  destruct (filter _ _) as [|seg l] eqn:Ef; [done|].
  assert (seg ∈ filter (fun s => parseToken s = None) (segments_of (raw_of input))) as Hin.
  { rewrite Ef. left. }
  apply list_elem_of_filter in Hin as [? ?]. by exists seg.
Qed.

(** A range token with more than two parts is accepted: whatever follows a
    second dash is ignored, so [200-300-400] reads as [200-300].  The server's
    [parseHTTPStatusCodeToken] rejects such a token. *)
Theorem parseToken_ignores_third_part a b t :
  forallb is_digit a = true → forallb is_digit b = true → a ≠ [] → b ≠ [] →
  parseToken (a ++ "-" ++ b ++ "-" ++ t) = parseToken (a ++ "-" ++ b).
Proof.
  intros Ha Hb Hna Hnb.
  pose proof (parseToken_two_parts a b [] Ha Hb Hna Hnb (or_introl eq_refl)) as H0.
  rewrite (app_nil_r b) in H0. rewrite H0.
  apply (parseToken_two_parts a b ("-" ++ t)); [done..|by right; exists t].
Qed.

Lemma parseToken_ignores_third_part_witness :
  parseToken "200-300-oops" = Some (Range 200 300) ∧
  parseToken ("200" ++ "-" ++ "300" ++ "-" ++ "oops") = parseToken ("200" ++ "-" ++ "300").
Proof.
  split; [vm_compute; reflexivity|].
  apply parseToken_ignores_third_part; [reflexivity..|discriminate|discriminate].
Defined.
