(* ===== verification/PlaygroundMessage.v ===== *)
(** * Playground messages

    Model of [features/playground/types.ts] (the message types) and of the pure
    message functions under [features/playground/lib/message/]: versions and
    content, timing, the [<think>] tag parser, streaming and finalization, and
    the edits of a conversation.

    Reads of [Date.now()] and [nanoid()] are explicit arguments, one per read.
    Timestamps and durations are integral milliseconds, in [Z].  The translation
    function [t] of i18next is a parameter of the definitions that call it. *)

From S2P Require Import Prelude.

(** ** Types *)

Inductive MessageRole := RoleUser | RoleAssistant | RoleSystem.
Inductive MessageStatus := Loading | Streaming | Complete | Error.

#[export] Instance MessageRole_eq_dec : EqDecision MessageRole.
Proof. solve_decision. Defined.
#[export] Instance MessageStatus_eq_dec : EqDecision MessageStatus.
Proof. solve_decision. Defined.

Record MessageVersion := Version { v_id : jstr; v_content : jstr }.

Record Reasoning := MkReasoning {
  r_content : jstr;
  r_duration : Z;
  r_startedAt : option Z;
  r_completedAt : option Z;
  r_durationMs : option Z;
}.

(** An absent optional field is [None]; [errorCode] may also be [null]. *)
Record Message := MkMessage {
  key : jstr;
  from : MessageRole;
  versions : list MessageVersion;
  createdAt : option Z;
  startedAt : option Z;
  completedAt : option Z;
  durationMs : option Z;
  sources : option (list (jstr * jstr));
  reasoning : option Reasoning;
  isReasoningStreaming : option bool;
  isReasoningComplete : option bool;
  isContentComplete : option bool;
  status : option MessageStatus;
  errorCode : option (option jstr);
}.

Inductive ContentPart :=
  | TextPart (text : option jstr)
  | ImagePart (url : jstr).

Inductive MessageContent :=
  | ContentText (s : jstr)
  | ContentParts (ps : list ContentPart).

Record ChatCompletionMessage := MkChatMessage { role : MessageRole; content : MessageContent }.

(** [{ ...m, field: v }] *)
Definition with_versions (v : list MessageVersion) (m : Message) : Message :=
  MkMessage (key m) (from m) v (createdAt m) (startedAt m) (completedAt m) (durationMs m)
    (sources m) (reasoning m) (isReasoningStreaming m) (isReasoningComplete m)
    (isContentComplete m) (status m) (errorCode m).
Definition with_createdAt (v : option Z) (m : Message) : Message :=
  MkMessage (key m) (from m) (versions m) v (startedAt m) (completedAt m) (durationMs m)
    (sources m) (reasoning m) (isReasoningStreaming m) (isReasoningComplete m)
    (isContentComplete m) (status m) (errorCode m).
Definition with_timing (s c d : Z) (m : Message) : Message :=
  MkMessage (key m) (from m) (versions m) (createdAt m) (Some s) (Some c) (Some d)
    (sources m) (reasoning m) (isReasoningStreaming m) (isReasoningComplete m)
    (isContentComplete m) (status m) (errorCode m).
Definition with_reasoning (v : option Reasoning) (m : Message) : Message :=
  MkMessage (key m) (from m) (versions m) (createdAt m) (startedAt m) (completedAt m)
    (durationMs m) (sources m) v (isReasoningStreaming m) (isReasoningComplete m)
    (isContentComplete m) (status m) (errorCode m).
Definition with_reasoningStreaming (v : bool) (m : Message) : Message :=
  MkMessage (key m) (from m) (versions m) (createdAt m) (startedAt m) (completedAt m)
    (durationMs m) (sources m) (reasoning m) (Some v) (isReasoningComplete m)
    (isContentComplete m) (status m) (errorCode m).
Definition with_status (v : MessageStatus) (m : Message) : Message :=
  MkMessage (key m) (from m) (versions m) (createdAt m) (startedAt m) (completedAt m)
    (durationMs m) (sources m) (reasoning m) (isReasoningStreaming m) (isReasoningComplete m)
    (isContentComplete m) (Some v) (errorCode m).
Definition with_errorCode (v : option (option jstr)) (m : Message) : Message :=
  MkMessage (key m) (from m) (versions m) (createdAt m) (startedAt m) (completedAt m)
    (durationMs m) (sources m) (reasoning m) (isReasoningStreaming m) (isReasoningComplete m)
    (isContentComplete m) (status m) v.

Definition is_role (r : MessageRole) (m : Message) : bool := bool_decide (from m = r).
Definition has_status (s : MessageStatus) (m : Message) : bool := bool_decide (status m = Some s).

(** ** message-utils.ts *)

Definition createMessageVersion (nanoid content : jstr) : MessageVersion :=
  Version nanoid content.

Definition getCurrentVersion (m : Message) : MessageVersion :=
  match versions m with v :: _ => v | [] => Version "default" [] end.

Definition getMessageContent (m : Message) : jstr := v_content (getCurrentVersion m).

Definition hasMessageContent (m : Message) : bool :=
  negb (trim (getMessageContent m) === []).

Definition updateCurrentVersionContent (m : Message) (content : jstr) : Message :=
  with_versions [Version (v_id (getCurrentVersion m)) content] m.

Definition createUserMessage (keyId versionId content : jstr) (createdAt : Z) : Message :=
  MkMessage keyId RoleUser [createMessageVersion versionId content] (Some createdAt)
    None None None None None None None None None None.

Definition createLoadingAssistantMessage (keyId versionId : jstr) (startedAt : Z) : Message :=
  MkMessage keyId RoleAssistant [createMessageVersion versionId []] (Some startedAt)
    (Some startedAt) None None None None (Some false) (Some false) (Some false)
    (Some Loading) None.

Definition buildMessageContent (text : jstr) (imageUrls : list jstr) : MessageContent :=
  let validImages := filter (fun url => trim url ≠ []) imageUrls in
  match validImages with
  | [] => ContentText text
  | _ => ContentParts (TextPart (Some (jor text [])) :: map (fun url => ImagePart (trim url)) validImages)
  end.

Definition is_text_part (p : ContentPart) : bool :=
  match p with TextPart _ => true | ImagePart _ => false end.

Definition getTextContent (c : MessageContent) : jstr :=
  match c with
  | ContentText s => s
  | ContentParts ps =>
    match list_find (fun p => is_text_part p = true) ps with
    | Some (_, TextPart (Some t)) => jor t []
    | _ => []
    end
  end.

Definition formatMessageForAPI (m : Message) : ChatCompletionMessage :=
  MkChatMessage (from m) (ContentText (v_content (getCurrentVersion m))).

(** A message always has a role here, so the [!message || !message.from] part of
    the guard is always passed. *)
Definition isValidMessage (m : Message) : bool :=
  if length (versions m) =? 0 then false
  else if is_role RoleAssistant m && negb (hasMessageContent m) then false
  else true.

(** ** message-timing-utils.ts *)

Definition completeAssistantTiming (m : Message) (completed : Z) : Message :=
  if negb (is_role RoleAssistant m) then m
  else
    let started := default (default completed (createdAt m)) (startedAt m) in
    with_timing started completed (Z.max 0 (completed - started)) m.

Definition startReasoningTiming (m : Message) (started : Z) : Reasoning :=
  MkReasoning (default [] (r_content <$> reasoning m)) (default 0%Z (r_duration <$> reasoning m))
    (Some (default started (reasoning m ≫= r_startedAt)))
    (reasoning m ≫= r_completedAt) (reasoning m ≫= r_durationMs).

(** [Math.ceil(ms / 1000)] for a non-negative number of milliseconds. *)
Definition ceil_seconds (ms : Z) : Z := ((ms + 999) / 1000)%Z.

Definition completeReasoningTiming (m : Message) (completed : Z) : Message :=
  match reasoning m with
  | None => m
  | Some r =>
    match r_durationMs r with
    | Some _ => m
    | None =>
      let started := default (default completed (startedAt m)) (r_startedAt r) in
      let durationMs := Z.max 0 (completed - started) in
      with_reasoning (Some (MkReasoning (r_content r) (ceil_seconds durationMs)
        (Some started) (Some completed) (Some durationMs))) m
    end
  end.

(** ** message-reasoning-utils.ts *)

Record ParsedThinkTags := MkParsed {
  visibleContent : jstr;
  p_reasoning : jstr;
  hasUnclosedTag : bool;
}.

Definition think_open : jstr := "<think>".
Definition think_close : jstr := "</think>".

(** The [while (true)] loop: [currentPos] grows by at least the length of the
    two tags in each turn, so [S (length content)] turns are more than enough;
    [None] is a loop that has not ended. *)
Fixpoint think_loop (fuel : nat) (content : jstr) (currentPos : nat)
    (visibleParts reasoningParts : list jstr) : option (list jstr * list jstr * bool) :=
  match fuel with
  | O => None
  | S f =>
    match indexOfFrom think_open content currentPos with
    | None =>
      Some (if currentPos <? length content then visibleParts ++ [drop currentPos content]
            else visibleParts, reasoningParts, false)
    | Some openPos =>
      let visibleParts :=
        if currentPos <? openPos then visibleParts ++ [slice currentPos openPos content]
        else visibleParts in
      match indexOfFrom think_close content (openPos + 7) with
      | None => Some (visibleParts, reasoningParts ++ [drop (openPos + 7) content], true)
      | Some closePos =>
        think_loop f content (closePos + 8) visibleParts
          (reasoningParts ++ [slice (openPos + 7) closePos content])
      end
    end
  end.

Definition parseThinkTags (content : jstr) : ParsedThinkTags :=
  if negb (includes think_open content) then MkParsed content [] false
  else
    match think_loop (S (length content)) content 0 [] [] with
    | Some (visibleParts, reasoningParts, hasUnclosedTag) =>
      MkParsed (trim (join [] visibleParts)) (trim (join [10; 10]%N reasoningParts)) hasUnclosedTag
    | None => MkParsed content [] false
    end.

(** ** message-streaming-utils.ts *)

Definition processStreamingContent (m : Message) (contentChunk : option jstr) (now : Z) : Message :=
  let currentVersion := getCurrentVersion m in
  let fullContent :=
    match contentChunk with
    | Some c => if truthy c then v_content currentVersion ++ c else v_content currentVersion
    | None => v_content currentVersion
    end in
  if bool_decide (reasoning m = None) && negb (includes think_open fullContent) then
    with_reasoningStreaming false (updateCurrentVersionContent m fullContent)
  else
    let parsed := parseThinkTags fullContent in
    let finalReasoning :=
      if truthy (p_reasoning parsed) then
        let r := startReasoningTiming m now in
        Some (MkReasoning (p_reasoning parsed) (r_duration r) (r_startedAt r)
                (r_completedAt r) (r_durationMs r))
      else reasoning m in
    with_reasoningStreaming (hasUnclosedTag parsed)
      (with_reasoning finalReasoning (updateCurrentVersionContent m fullContent)).

Inductive StreamChunkType := ChunkReasoning | ChunkContent.

Definition getAppendableChunk (currentContent chunk : jstr) : jstr :=
  if negb (truthy currentContent) || negb (startsWith currentContent chunk) then chunk
  else drop (length currentContent) chunk.

(** [now1] is read when the reasoning starts, [now2] when it completes. *)
Definition applyStreamingChunk (m : Message) (type : StreamChunkType) (chunk : jstr)
    (now1 now2 : Z) : Message :=
  if has_status Error m then m
  else
    match type with
    | ChunkReasoning =>
      let r := startReasoningTiming m now1 in
      let appendable := getAppendableChunk (r_content r) chunk in
      with_status Streaming (with_reasoningStreaming true
        (with_reasoning (Some (MkReasoning (r_content r ++ appendable) (r_duration r)
           (r_startedAt r) (r_completedAt r) (r_durationMs r))) m))
    | ChunkContent =>
      let appendable := getAppendableChunk (v_content (getCurrentVersion m)) chunk in
      let contentMessage := processStreamingContent m (Some appendable) now1 in
      with_status Streaming
        (if default false (isReasoningStreaming contentMessage) then contentMessage
         else completeReasoningTiming contentMessage now2)
    end.

Definition finalizeMessage (m : Message) (apiReasoningContent : option jstr) (now1 now2 : Z) :
    Message :=
  let currentContent := v_content (getCurrentVersion m) in
  let parsed :=
    if includes think_open currentContent then Some (parseThinkTags currentContent) else None in
  let visible := default currentContent (visibleContent <$> parsed) in
  let finalReasoning :=
    jor (default [] apiReasoningContent)
      (jor (default [] (r_content <$> reasoning m)) (default [] (p_reasoning <$> parsed))) in
  let newReasoning :=
    if truthy finalReasoning then
      let r := startReasoningTiming m now1 in
      Some (MkReasoning finalReasoning (r_duration r) (r_startedAt r) (r_completedAt r)
              (r_durationMs r))
    else None in
  let finalized :=
    with_reasoningStreaming false
      (with_reasoning newReasoning (updateCurrentVersionContent m visible)) in
  completeReasoningTiming finalized now2.

Definition completeAssistantMessage (m : Message) (now1 now2 now3 : Z) : Message :=
  completeAssistantTiming (with_status Complete (finalizeMessage m None now1 now2)) now3.

Definition isAssistantMessageFinal (m : Message) : bool :=
  has_status Complete m || has_status Error m.

Definition isAssistantMessagePending (m : Message) : bool :=
  has_status Loading m || has_status Streaming m.

Definition isPendingAssistantMessage (m : option Message) : bool :=
  match m with
  | Some m => is_role RoleAssistant m && isAssistantMessagePending m
  | None => false
  end.

(** A choice of a completion response; absent fields are [None]. *)
Record ChatCompletionChoice := MkChoice {
  c_content : option jstr;
  c_reasoning_content : option jstr;
}.

Definition hasChatCompletionChoice (choices : option (list ChatCompletionChoice)) : bool :=
  match choices with Some (_ :: _) => true | _ => false end.

Definition applyChatCompletionChoice (m : Message) (choice : ChatCompletionChoice)
    (now1 now2 now3 : Z) : Message :=
  completeAssistantTiming
    (with_status Complete
      (finalizeMessage (updateCurrentVersionContent m (jor (default [] (c_content choice)) []))
         (c_reasoning_content choice) now1 now2)) now3.

Definition applyChatCompletionResponse (m : Message)
    (choices : option (list ChatCompletionChoice)) (now1 now2 now3 : Z) : option Message :=
  match choices with
  | Some (choice :: _) => Some (applyChatCompletionChoice m choice now1 now2 now3)
  | _ => None
  end.

(** The position of the last pending assistant message. *)
Fixpoint last_pending (ms : list Message) : option nat :=
  match ms with
  | [] => None
  | m :: ms' =>
    match last_pending ms' with
    | Some i => Some (S i)
    | None => if isPendingAssistantMessage (Some m) then Some 0 else None
    end
  end.

Definition interrupted_text (t : jstr → jstr) : jstr :=
  t "Request error occurred" ++ ": " ++ t "Generation was interrupted".

Definition sanitize_one (t : jstr → jstr) (m : Message) (now1 now2 now3 : Z) : Message :=
  let finalized := finalizeMessage m None now1 now2 in
  let hasContent := hasMessageContent finalized in
  let hasReasoning := truthy (trim (default [] (r_content <$> reasoning finalized))) in
  if hasContent || hasReasoning then
    completeAssistantTiming
      (with_reasoningStreaming false (with_status Complete finalized)) now3
  else
    completeAssistantTiming
      (with_reasoningStreaming false (with_status Error
        (updateCurrentVersionContent finalized (interrupted_text t)))) now3.

Definition sanitizeMessagesOnLoad (t : jstr → jstr) (ms : list Message)
    (now1 now2 now3 : Z) : list Message :=
  match last_pending ms with
  | None => ms
  | Some i =>
    match ms !! i with
    | Some m => <[i := sanitize_one t m now1 now2 now3]> ms
    | None => ms
    end
  end.

(** ** message-update-utils.ts *)

Definition updateLastAssistantMessage (ms : list Message) (updater : Message → Message) :
    list Message :=
  match last ms with
  | None => ms
  | Some l =>
    if negb (is_role RoleAssistant l) then ms
    else <[length ms - 1 := updater l]> ms
  end.

Definition updateAssistantMessageWithError (ms : list Message) (errorMessage : jstr)
    (code : option jstr) (title : jstr) (now : Z) : list Message :=
  updateLastAssistantMessage ms (fun m =>
    let updated := updateCurrentVersionContent m (title ++ ": " ++ errorMessage) in
    completeAssistantTiming
      (with_errorCode
         (Some (match code with Some c => if truthy c then Some c else None | None => None end))
         (with_reasoningStreaming false (with_status Error updated))) now).

(** ** conversation-message-utils.ts *)

(** The fresh identifiers of a user message and of a loading assistant message. *)
Definition appendUserMessagePair (ms : list Message) (content : jstr) (submittedAt : Z)
    (k1 v1 k2 v2 : jstr) : list Message :=
  ms ++ [createUserMessage k1 v1 content submittedAt;
         createLoadingAssistantMessage k2 v2 submittedAt].

(** [messages.findIndex((message) => message.key === messageKey)] *)
Fixpoint find_key (k : jstr) (ms : list Message) : option nat :=
  match ms with
  | [] => None
  | m :: ms' => if key m === k then Some 0 else S <$> find_key k ms'
  end.

Definition createRegeneratedMessages (ms : list Message) (messageKey : jstr) (now : Z)
    (k v : jstr) : option (list Message) :=
  match find_key messageKey ms with
  | None => None
  | Some i =>
    match ms !! i with
    | None => None
    | Some m =>
      if is_role RoleUser m
      then Some (take (i + 1) ms ++ [createLoadingAssistantMessage k v now])
      else Some (take i ms ++ [createLoadingAssistantMessage k v now])
    end
  end.

Definition removeMessageByKey (ms : list Message) (messageKey : jstr) : list Message :=
  filter (fun m => key m ≠ messageKey) ms.

(** The loop counts down from [beforeIndex - 1]. *)
Definition getPreviousUserMessage (ms : list Message) (beforeIndex : nat) : option Message :=
  last (filter (fun m => is_role RoleUser m = true) (take beforeIndex ms)).

Definition applyMessageEdit (ms : list Message) (messageKey content : jstr)
    (shouldSubmit : bool) (submittedAt : Z) (k v : jstr) : option (list Message * bool) :=
  match find_key messageKey ms with
  | None => None
  | Some i =>
    let updated := map (fun m =>
      if key m === messageKey then
        with_createdAt (if shouldSubmit then Some submittedAt else createdAt m)
          (updateCurrentVersionContent m content)
      else m) ms in
    match updated !! i with
    | None => None
    | Some u =>
      if negb shouldSubmit || negb (is_role RoleUser u) then Some (updated, false)
      else Some (take (i + 1) updated ++ [createLoadingAssistantMessage k v submittedAt], true)
    end
  end.

Definition getEditingMessageContent (ms : list Message) (editingKey : option jstr) : jstr :=
  match editingKey with
  | None => []
  | Some k =>
    if negb (truthy k) then []
    else match find_key k ms ≫= fun i => ms !! i with
         | Some m => getMessageContent m
         | None => []
         end
  end.

(** ** The grammar of [<think>] tags

    [Thought s vis reas unclosed]: read from the left, [s] is made of the
    visible parts [vis] and the reasoning parts [reas]; each [<think>] is the
    leftmost one not yet passed and ends at the next [</think>], and a tag that
    is never closed takes the rest of the text.  Nothing of [s] is left out
    except the tags. *)
Definition part (s : jstr) : list jstr := match s with [] => [] | _ => [s] end.

Inductive Thought : jstr → list jstr → list jstr → bool → Prop :=
  | Thought_end s :
      indexOf think_open s = None → Thought s (part s) [] false
  | Thought_open a b :
      indexOf think_open (a ++ think_open ++ b) = Some (length a) →
      indexOf think_close b = None →
      Thought (a ++ think_open ++ b) (part a) [b] true
  | Thought_block a r s vis reas u :
      indexOf think_open (a ++ think_open ++ r ++ think_close ++ s) = Some (length a) →
      indexOf think_close (r ++ think_close ++ s) = Some (length r) →
      Thought s vis reas u →
      Thought (a ++ think_open ++ r ++ think_close ++ s) (part a ++ vis) (r :: reas) u.

Lemma indexOfFrom_drop p s n i :
  indexOfFrom p s n = Some i → n ≤ i ∧ indexOf p (drop n s) = Some (i - n).
Proof.
  unfold indexOfFrom. intros (j & Hj & ->)%fmap_Some. split; [lia|].
  by replace (n + j - n) with j by lia.
Qed.

Lemma indexOf_split p s i :
  indexOf p s = Some i → s = take i s ++ p ++ drop (i + length p) s ∧ i + length p ≤ length s.
Proof.
  intros (a & r & -> & <-)%indexOf_Some. split.
  - rewrite take_app_length, <- drop_drop, drop_app_length, drop_app_length. done.
  - rewrite !length_app. lia.
Qed.

Lemma slice_part content pos i :
  pos ≤ i → i ≤ length content →
  (if pos <? i then [slice pos i content] else []) = part (take (i - pos) (drop pos content)).
Proof.
  intros Hp Hi. unfold slice. destruct (Nat.ltb_spec pos i) as [H|H].
  - destruct (take (i - pos) (drop pos content)) eqn:E; [|done].
    apply (f_equal length) in E. rewrite length_take, length_drop in E. simpl in E. lia.
  - by replace (i - pos) with 0 by lia.
Qed.

Lemma drop_part content pos :
  (if pos <? length content then [drop pos content] else []) = part (drop pos content).
Proof.
  destruct (Nat.ltb_spec pos (length content)) as [H|H].
  - destruct (drop pos content) eqn:E; [|done].
    apply (f_equal length) in E. rewrite length_drop in E. simpl in E. lia.
  - by rewrite drop_ge by lia.
Qed.

(** The loop ends within its fuel and reads the text as the grammar says. *)
Lemma think_loop_spec fuel content pos V R :
  length content - pos < fuel →
  ∃ vis reas u, Thought (drop pos content) vis reas u ∧
    think_loop fuel content pos V R = Some (V ++ vis, R ++ reas, u).
Proof.
  revert pos V R. induction fuel as [|f IH]; intros pos V R Hf; [lia|]. simpl.
  destruct (indexOfFrom think_open content pos) as [o|] eqn:Eo.
  2:{ exists (part (drop pos content)), [], false. split.
      - apply Thought_end. unfold indexOfFrom in Eo. by apply fmap_None in Eo.
      - rewrite <- drop_part, app_nil_r. repeat f_equal. case_if; [done|by rewrite app_nil_r]. }
  apply indexOfFrom_drop in Eo as [Hpo Eo].
  pose proof (indexOf_split _ _ _ Eo) as [Hsplit Hlen].
  rewrite length_drop in Hlen. change (length think_open) with 7 in Hlen. rewrite drop_drop in Hsplit.
  change (length think_open) with 7 in Hsplit.
  replace (pos + (o - pos + 7)) with (o + 7) in Hsplit by lia.
  set (a := take (o - pos) (drop pos content)) in *.
  assert (Ha : length a = o - pos) by (unfold a; rewrite length_take, length_drop; lia).
  assert (Hvis : ∀ W, (if pos <? o then V ++ [slice pos o content] else V) ++ W = V ++ part a ++ W).
  { intros W. unfold a. destruct (decide (pos < o)).
    - rewrite <- slice_part by lia. rewrite (proj2 (Nat.ltb_lt _ _)) by done. by rewrite <- app_assoc.
    - rewrite <- slice_part by lia. by rewrite (proj2 (Nat.ltb_ge _ _)) by lia. }
  destruct (indexOfFrom think_close content (o + 7)) as [c|] eqn:Ec.
  - apply indexOfFrom_drop in Ec as [Hoc Ec].
    pose proof (indexOf_split _ _ _ Ec) as [Hsplit' Hlen'].
    rewrite length_drop in Hlen'. change (length think_close) with 8 in Hlen'. rewrite drop_drop in Hsplit'.
    change (length think_close) with 8 in Hsplit'.
    replace (o + 7 + (c - (o + 7) + 8)) with (c + 8) in Hsplit' by lia.
    set (r := take (c - (o + 7)) (drop (o + 7) content)) in *.
    assert (Hr : length r = c - (o + 7)) by (unfold r; rewrite length_take, length_drop; lia).
    destruct (IH (c + 8) (if pos <? o then V ++ [slice pos o content] else V)
      (R ++ [slice (o + 7) c content])) as (vis & reas & u & HT & ->); [lia|].
    exists (part a ++ vis), (r :: reas), u. split.
    + rewrite Hsplit, Hsplit'. apply Thought_block; [..|done].
      * rewrite <- Hsplit', <- Hsplit. by rewrite Eo, Ha.
      * rewrite <- Hsplit'. by rewrite Ec, Hr.
    + rewrite Hvis, <- app_assoc. done.
  - exists (part a), [drop (o + 7) content], true. split.
    + rewrite Hsplit. apply Thought_open; [rewrite <- Hsplit; by rewrite Eo, Ha|].
      unfold indexOfFrom in Ec. by apply fmap_None in Ec.
    + specialize (Hvis []). rewrite !app_nil_r in Hvis. by rewrite Hvis.
Qed.

(** An occurrence at the position [indexOf] reports determines both sides. *)
Lemma indexOf_sides p a b a' b' :
  a ++ p ++ b = a' ++ p ++ b' →
  indexOf p (a ++ p ++ b) = Some (length a) → indexOf p (a' ++ p ++ b') = Some (length a') →
  a = a' ∧ b = b'.
Proof.
  intros E H H'. rewrite <- E, H in H'. injection H' as Hl.
  apply app_inj_1 in E as [-> E]; [|done]. by apply app_inv_head in E.
Qed.

(** The reading of a text is unique. *)
Lemma Thought_fun s v1 r1 u1 v2 r2 u2 :
  Thought s v1 r1 u1 → Thought s v2 r2 u2 → v1 = v2 ∧ r1 = r2 ∧ u1 = u2.
Proof.
  intros H. revert v2 r2 u2. induction H as [s H|a b H Hc|a r s vis reas u H Hc HT IH];
    intros v2 r2 u2 H2; inversion H2 as [s' H' E|a' b' H' Hc' E|a' r' s' vis' reas' u' H' Hc' HT' E];
    subst; try (exfalso; congruence); try done.
  - by destruct (indexOf_sides think_open _ _ _ _ (eq_sym E) H H') as [-> ->].
  - exfalso. destruct (indexOf_sides think_open _ _ _ _ (eq_sym E) H H') as [-> ->].
    discriminate (eq_trans (eq_sym Hc') Hc).
  - exfalso. destruct (indexOf_sides think_open _ _ _ _ (eq_sym E) H H') as [-> <-].
    discriminate (eq_trans (eq_sym Hc) Hc').
  - destruct (indexOf_sides think_open _ _ _ _ (eq_sym E) H H') as [-> E'].
    destruct (indexOf_sides think_close _ _ _ _ E' Hc Hc') as [-> ->].
    by destruct (IH _ _ _ HT') as (-> & -> & ->).
Qed.

(** ** Lemmas on streaming *)

(** What streaming and finalization never change. *)
Definition same_identity (m m' : Message) : Prop :=
  key m' = key m ∧ from m' = from m ∧ createdAt m' = createdAt m ∧ sources m' = sources m.

Lemma same_identity_trans m1 m2 m3 :
  same_identity m1 m2 → same_identity m2 m3 → same_identity m1 m3.
Proof. unfold same_identity. intuition congruence. Qed.

Lemma completeReasoningTiming_frame m now :
  same_identity m (completeReasoningTiming m now) ∧
  versions (completeReasoningTiming m now) = versions m ∧
  status (completeReasoningTiming m now) = status m ∧
  isReasoningStreaming (completeReasoningTiming m now) = isReasoningStreaming m ∧
  r_content <$> reasoning (completeReasoningTiming m now) = r_content <$> reasoning m.
Proof.
  unfold completeReasoningTiming, same_identity.
  destruct (reasoning m) as [[? ? ? ? []]|] eqn:E; simpl; rewrite ?E; done.
Qed.

Lemma completeAssistantTiming_frame m now :
  same_identity m (completeAssistantTiming m now) ∧
  versions (completeAssistantTiming m now) = versions m ∧
  status (completeAssistantTiming m now) = status m ∧
  isReasoningStreaming (completeAssistantTiming m now) = isReasoningStreaming m ∧
  reasoning (completeAssistantTiming m now) = reasoning m.
Proof. unfold completeAssistantTiming, same_identity. by case_if. Qed.

Lemma content_of_versions m m' :
  versions m' = versions m → getMessageContent m' = getMessageContent m.
Proof. unfold getMessageContent, getCurrentVersion. by intros ->. Qed.

(** The text left visible after finalization. *)
Definition finalVisible (c : jstr) : jstr := visibleContent (parseThinkTags c).

Lemma finalizeMessage_frame m api n1 n2 :
  same_identity m (finalizeMessage m api n1 n2) ∧
  getMessageContent (finalizeMessage m api n1 n2) = finalVisible (getMessageContent m) ∧
  status (finalizeMessage m api n1 n2) = status m ∧
  isReasoningStreaming (finalizeMessage m api n1 n2) = Some false.
Proof.
  unfold finalizeMessage. cbv zeta.
  match goal with |- context [completeReasoningTiming ?x n2] =>
    destruct (completeReasoningTiming_frame x n2) as (Hi & Hv & Hs & Hr & _) end.
  split; [eapply same_identity_trans; [|exact Hi]; done|].
  split; [|by rewrite Hs, Hr].
  rewrite (content_of_versions _ _ Hv).
  unfold finalVisible, parseThinkTags, getMessageContent. simpl.
  by destruct (includes think_open _) eqn:E; simpl; rewrite ?E.
Qed.

Lemma processStreamingContent_frame m c now :
  getMessageContent (processStreamingContent m (Some c) now) = getMessageContent m ++ c ∧
  same_identity m (processStreamingContent m (Some c) now).
Proof.
  unfold processStreamingContent.
  assert ((if truthy c then v_content (getCurrentVersion m) ++ c
           else v_content (getCurrentVersion m)) = v_content (getCurrentVersion m) ++ c) as ->.
  { destruct c; simpl; [by rewrite app_nil_r|done]. }
  by case_if.
Qed.

(** A content chunk appends what [getAppendableChunk] lets through; a reasoning
    chunk leaves the content alone.  Both leave the message streaming. *)
Lemma applyStreamingChunk_spec m ty c n1 n2 :
  has_status Error m = false →
  getMessageContent (applyStreamingChunk m ty c n1 n2) =
    match ty with
    | ChunkContent => getMessageContent m ++ getAppendableChunk (getMessageContent m) c
    | ChunkReasoning => getMessageContent m
    end ∧
  status (applyStreamingChunk m ty c n1 n2) = Some Streaming ∧
  same_identity m (applyStreamingChunk m ty c n1 n2).
Proof.
  intros He. unfold applyStreamingChunk. rewrite He. destruct ty; [done|].
  set (p := processStreamingContent _ _ _).
  assert (getMessageContent p = getMessageContent m ++ getAppendableChunk (getMessageContent m) c ∧
          same_identity m p) as [Hp Hi] by apply processStreamingContent_frame.
  case_if; [done|].
  destruct (completeReasoningTiming_frame p n2) as (Hi' & Hv & _).
  split; [|split; [done|]].
  - rewrite <- Hp. apply content_of_versions. apply Hv.
  - eapply same_identity_trans; [exact Hi|exact Hi'].
Qed.

(** A sequence of stream events applied to a message. *)
Record StreamEvent := Chunk { e_type : StreamChunkType; e_chunk : jstr; e_now1 : Z; e_now2 : Z }.

Definition feed (m : Message) (evs : list StreamEvent) : Message :=
  foldl (fun m e => applyStreamingChunk m (e_type e) (e_chunk e) (e_now1 e) (e_now2 e)) m evs.

Definition content_chunks (evs : list StreamEvent) : list jstr :=
  omap (fun e => match e_type e with ChunkContent => Some (e_chunk e) | _ => None end) evs.

(** No chunk starts with all the text received before it. *)
Fixpoint incremental (acc : jstr) (chunks : list jstr) : bool :=
  match chunks with
  | [] => true
  | c :: cs => (negb (truthy acc) || negb (startsWith acc c)) && incremental (acc ++ c) cs
  end.

(** Every chunk repeats the whole text received before it and extends it. *)
Fixpoint cumulative (acc : jstr) (chunks : list jstr) : bool :=
  match chunks with
  | [] => true
  | c :: cs => startsWith acc c && cumulative c cs
  end.

Lemma has_status_streaming m : status m = Some Streaming → has_status Error m = false.
Proof. unfold has_status. intros ->. done. Qed.

Lemma feed_incremental evs m :
  has_status Error m = false →
  incremental (getMessageContent m) (content_chunks evs) = true →
  getMessageContent (feed m evs) = getMessageContent m ++ concat (content_chunks evs) ∧
  has_status Error (feed m evs) = false ∧ same_identity m (feed m evs).
Proof.
  revert m. induction evs as [|[ty c n1 n2] evs IH]; intros m He Hinc.
  { simpl. by rewrite app_nil_r. }
  destruct (applyStreamingChunk_spec m ty c n1 n2 He) as (Hc & Hs & Hi).
  apply has_status_streaming in Hs.
  change (feed m (Chunk ty c n1 n2 :: evs)) with (feed (applyStreamingChunk m ty c n1 n2) evs).
  destruct ty; [change (content_chunks (Chunk ChunkReasoning c n1 n2 :: evs)) with (content_chunks evs) in *
               |change (content_chunks (Chunk ChunkContent c n1 n2 :: evs)) with (c :: content_chunks evs) in *].
  - destruct (IH _ Hs) as (IHc & IHe & IHi); [by rewrite Hc|].
    rewrite IHc, Hc. split; [done|]. split; [done|]. by eapply same_identity_trans.
  - cbn [incremental] in Hinc. apply andb_true_iff in Hinc as [H1 Hinc].
    assert (getAppendableChunk (getMessageContent m) c = c) as Ha.
    { unfold getAppendableChunk. by rewrite H1. }
    rewrite Ha in Hc.
    destruct (IH _ Hs) as (IHc & IHe & IHi); [by rewrite Hc|].
    rewrite IHc, Hc, <- app_assoc. cbn [concat]. split; [done|]. split; [done|]. by eapply same_identity_trans.
Qed.

Lemma getAppendableChunk_snapshot cur c :
  startsWith cur c = true → cur ++ getAppendableChunk cur c = c.
Proof.
  intros [r ->]%startsWith_true. unfold getAppendableChunk. rewrite startsWith_app, orb_false_r.
  destruct cur; [done|]. cbn [truthy negb]. by rewrite drop_app_length.
Qed.

Lemma feed_cumulative evs m :
  has_status Error m = false →
  cumulative (getMessageContent m) (content_chunks evs) = true →
  getMessageContent (feed m evs) = default (getMessageContent m) (last (content_chunks evs)) ∧
  has_status Error (feed m evs) = false.
Proof.
  revert m. induction evs as [|[ty c n1 n2] evs IH]; intros m He Hcum; [done|].
  destruct (applyStreamingChunk_spec m ty c n1 n2 He) as (Hc & Hs & _).
  apply has_status_streaming in Hs.
  change (feed m (Chunk ty c n1 n2 :: evs)) with (feed (applyStreamingChunk m ty c n1 n2) evs).
  destruct ty; [change (content_chunks (Chunk ChunkReasoning c n1 n2 :: evs)) with (content_chunks evs) in *
               |change (content_chunks (Chunk ChunkContent c n1 n2 :: evs)) with (c :: content_chunks evs) in *].
  - destruct (IH _ Hs) as (IHc & IHe); [by rewrite Hc|]. by rewrite IHc, Hc.
  - cbn [cumulative] in Hcum. apply andb_true_iff in Hcum as [H1 Hcum].
    rewrite getAppendableChunk_snapshot in Hc by done.
    destruct (IH _ Hs) as (IHc & IHe); [by rewrite Hc|]. rewrite IHc, Hc.
    split; [|done]. destruct (content_chunks evs) as [|c' cs] eqn:E; [done|].
    rewrite (last_cons c). by destruct (last (c' :: cs)).
Qed.

(** ** Lemmas on conversations *)

Lemma updateLastAssistantMessage_spec ms f :
  (∃ ms' l, ms = ms' ++ [l] ∧ from l = RoleAssistant ∧
            updateLastAssistantMessage ms f = ms' ++ [f l]) ∨
  ((∀ l, last ms = Some l → from l ≠ RoleAssistant) ∧ updateLastAssistantMessage ms f = ms).
Proof.
  unfold updateLastAssistantMessage. destruct (last ms) as [l|] eqn:El; [|by right].
  apply last_Some in El as [ms' ->]. unfold is_role.
  destruct (decide (from l = RoleAssistant)) as [Hl|Hl].
  - left. exists ms', l. split; [done|]. split; [done|].
    rewrite bool_decide_eq_true_2 by done. simpl.
    rewrite length_app. replace (length ms' + length [l] - 1) with (length ms' + 0) by (simpl; lia).
    by rewrite insert_app_r.
  - right. rewrite bool_decide_eq_false_2 by done. split; [|done]. by intros ? [= <-].
Qed.

Lemma find_key_Some k ms i :
  find_key k ms = Some i → ∃ m, ms !! i = Some m ∧ key m = k ∧
    ∀ j m', j < i → ms !! j = Some m' → key m' ≠ k.
Proof.
  revert i. induction ms as [|m ms IH]; intros i; simpl; [done|].
  destruct (jeqb_spec (key m) k) as [Hk|Hk].
  - intros [= <-]. exists m. repeat split; [done|]. lia.
  - intros (j & Hj & ->)%fmap_Some. destruct (IH j Hj) as (m' & Hm' & Hk' & Hmin).
    exists m'. repeat split; [done|done|]. intros [|j'] m'' Hlt; simpl; [by intros [= <-]|].
    apply Hmin. lia.
Qed.

Lemma find_key_None k ms : find_key k ms = None ↔ ∀ m, m ∈ ms → key m ≠ k.
Proof.
  induction ms as [|m ms IH]; simpl; [split; [intros _ m ?%not_elem_of_nil|]; done|].
  destruct (jeqb_spec (key m) k) as [Hk|Hk].
  - split; [done|]. intros H. exfalso. apply (H m); [left|done].
  - rewrite fmap_None, IH. setoid_rewrite elem_of_cons. naive_solver.
Qed.

Lemma last_pending_spec ms :
  match last_pending ms with
  | Some i => ∃ m, ms !! i = Some m ∧ isPendingAssistantMessage (Some m) = true ∧
      ∀ j m', i < j → ms !! j = Some m' → isPendingAssistantMessage (Some m') = false
  | None => ∀ m, m ∈ ms → isPendingAssistantMessage (Some m) = false
  end.
Proof.
  induction ms as [|m ms IH]; cbn [last_pending]; [by intros m ?%not_elem_of_nil|].
  destruct (last_pending ms) as [i|].
  - destruct IH as (m' & Hm & Hp & Hmax). exists m'. repeat split; [done|done|].
    intros [|j] m'' Hj Hl; [lia|]. eapply Hmax; [|exact Hl]. lia.
  - destruct (isPendingAssistantMessage (Some m)) eqn:E.
    + exists m. repeat split; [done|]. intros [|j] m' Hj Hl; [lia|].
      apply IH. by eapply list_elem_of_lookup_2.
    + intros m' [->|?]%elem_of_cons; [done|by apply IH].
Qed.

(** A repaired message is final, is no longer streaming, and shows something. *)
Lemma sanitize_one_spec t m n1 n2 n3 :
  let s := sanitize_one t m n1 n2 n3 in
  same_identity m s ∧ isReasoningStreaming s = Some false ∧
  ((status s = Some Complete ∧
    (hasMessageContent s = true ∨ ∃ r, reasoning s = Some r ∧ trim (r_content r) ≠ [])) ∨
   (status s = Some Error ∧ getMessageContent s = interrupted_text t)).
Proof.
  unfold sanitize_one. cbv zeta.
  destruct (finalizeMessage_frame m None n1 n2) as (Hi & Hc & Hs & Hr).
  set (f := finalizeMessage m None n1 n2) in *. case_if.
  - match goal with |- context [completeAssistantTiming ?x n3] =>
      destruct (completeAssistantTiming_frame x n3) as (Ai & Av & As & Ar & Ae) end.
    split; [eapply same_identity_trans; [exact Hi|exact Ai]|]. split; [by rewrite Ar|]. left.
    split; [by rewrite As|]. apply orb_true_iff in E as [E|E].
    + left. unfold hasMessageContent in *. by rewrite (content_of_versions _ _ Av).
    + right. rewrite Ae. simpl. destruct (reasoning f) as [r|]; [|done].
      exists r. split; [done|]. by apply truthy_true.
  - match goal with |- context [completeAssistantTiming ?x n3] =>
      destruct (completeAssistantTiming_frame x n3) as (Ai & Av & As & Ar & Ae) end.
    split; [eapply same_identity_trans; [exact Hi|exact Ai]|]. split; [by rewrite Ar|]. right.
    split; [by rewrite As|]. by rewrite (content_of_versions _ _ Av).
Qed.

Lemma sanitize_one_not_pending t m n1 n2 n3 :
  isPendingAssistantMessage (Some (sanitize_one t m n1 n2 n3)) = false.
Proof.
  pose proof (sanitize_one_spec t m n1 n2 n3) as (_ & _ & Hs).
  assert (status (sanitize_one t m n1 n2 n3) = Some Complete ∨
          status (sanitize_one t m n1 n2 n3) = Some Error) as H by tauto.
  generalize dependent (sanitize_one t m n1 n2 n3). intros s _ H.
  unfold isPendingAssistantMessage, isAssistantMessagePending, has_status.
  destruct H as [-> | ->]; apply andb_false_r.
Qed.

(** ** Properties *)

(** C31: the [<think>] parser always finishes and computes the unique reading of
    the text: the visible parts and the reasoning parts of the grammar, joined
    and trimmed, with the flag of an unclosed tag.  A text without the tag is
    returned as it is. *)
Theorem parseThinkTags_reading s :
  (includes think_open s = false ∧ parseThinkTags s = MkParsed s [] false) ∨
  (includes think_open s = true ∧
   ∃ vis reas u, Thought s vis reas u ∧
     (∀ vis' reas' u', Thought s vis' reas' u' → vis' = vis ∧ reas' = reas ∧ u' = u) ∧
     parseThinkTags s = MkParsed (trim (join [] vis)) (trim (join [10; 10]%N reas)) u).
Proof.
  unfold parseThinkTags. destruct (includes think_open s) eqn:E; simpl; [right|by left].
  split; [done|].
  destruct (think_loop_spec (S (length s)) s 0 [] []) as (vis & reas & u & HT & Hl); [lia|].
  rewrite drop_0 in HT. exists vis, reas, u. split; [done|].
  split; [intros; by eapply Thought_fun|]. simpl in Hl. by rewrite Hl.
Qed.

(** C32: how a completed answer looks does not depend on how it was cut into
    stream chunks: when no chunk starts with all the text before it, streaming
    the chunks (with reasoning chunks in between) and completing the message
    shows the same content as receiving the concatenated text in one
    non-streaming response, and both messages are complete. *)
Theorem streaming_equals_response k v t0 evs ro n1 n2 n3 n1' n2' n3' :
  let m := createLoadingAssistantMessage k v t0 in
  incremental [] (content_chunks evs) = true →
  let streamed := completeAssistantMessage (feed m evs) n1 n2 n3 in
  let whole := applyChatCompletionChoice m
                 (MkChoice (Some (concat (content_chunks evs))) ro) n1' n2' n3' in
  getMessageContent streamed = getMessageContent whole ∧
  status streamed = Some Complete ∧ status whole = Some Complete ∧
  same_identity m streamed.
Proof.
  intros m Hinc streamed whole.
  destruct (feed_incremental evs m eq_refl Hinc) as (Hc & _ & Hi).
  destruct (finalizeMessage_frame (feed m evs) None n1 n2) as (Fi & Fc & _).
  set (f := finalizeMessage (feed m evs) None n1 n2) in *.
  destruct (completeAssistantTiming_frame (with_status Complete f) n3) as (Ai & Av & As & _).
  set (u := updateCurrentVersionContent m (jor (concat (content_chunks evs)) [])).
  destruct (finalizeMessage_frame u ro n1' n2') as (Gi & Gc & _).
  set (g := finalizeMessage u ro n1' n2') in *.
  destruct (completeAssistantTiming_frame (with_status Complete g) n3') as (Bi & Bv & Bs & _).
  split; [|split; [exact As|split; [exact Bs|]]].
  - etrans; [apply (content_of_versions _ _ Av)|]. symmetry.
    etrans; [apply (content_of_versions _ _ Bv)|].
    change (getMessageContent g = getMessageContent f). rewrite Gc, Fc, Hc. simpl.
    unfold u, getMessageContent. simpl. by destruct (concat (content_chunks evs)).
  - eapply same_identity_trans; [exact Hi|]. eapply same_identity_trans; [exact Fi|exact Ai].
Qed.

Lemma streaming_equals_response_witness :
  let evs := [Chunk ChunkContent "<thi" 1 1; Chunk ChunkContent "nk>plan</think>Hel" 2 2;
              Chunk ChunkReasoning "why" 3 3; Chunk ChunkContent "lo" 4 4] in
  let m := createLoadingAssistantMessage "k" "v" 0 in
  incremental [] (content_chunks evs) = true ∧
  getMessageContent (completeAssistantMessage (feed m evs) 5 5 5) = "Hello" ∧
  (getMessageContent (completeAssistantMessage (feed m evs) 5 5 5) =
   getMessageContent (applyChatCompletionChoice m
     (MkChoice (Some (concat (content_chunks evs))) None) 6 6 6) ∧
   status (completeAssistantMessage (feed m evs) 5 5 5) = Some Complete ∧
   status (applyChatCompletionChoice m
     (MkChoice (Some (concat (content_chunks evs))) None) 6 6 6) = Some Complete ∧
   same_identity m (completeAssistantMessage (feed m evs) 5 5 5)).
Proof.
  intros evs m. split; [vm_compute; reflexivity|]. split; [vm_compute; reflexivity|].
  apply (streaming_equals_response "k" "v" 0 evs None 5 5 5 6 6 6). vm_compute. reflexivity.
Defined.

(** A provider that repeats the whole text in every chunk is also handled:
    when each content chunk extends the previous one, the message ends up with
    exactly the last chunk. *)
Theorem cumulative_streaming m evs :
  has_status Error m = false →
  cumulative (getMessageContent m) (content_chunks evs) = true →
  getMessageContent (feed m evs) = default (getMessageContent m) (last (content_chunks evs)).
Proof. intros He Hc. by apply feed_cumulative. Qed.

Lemma cumulative_streaming_witness :
  let m := createLoadingAssistantMessage "k" "v" 0 in
  let evs := [Chunk ChunkContent "He" 1 1; Chunk ChunkContent "Hell" 2 2;
              Chunk ChunkContent "Hello" 3 3] in
  cumulative (getMessageContent m) (content_chunks evs) = true ∧
  getMessageContent (feed m evs) = default (getMessageContent m) (last (content_chunks evs)).
Proof.
  intros m evs. split; [vm_compute; reflexivity|].
  apply cumulative_streaming; vm_compute; reflexivity.
Defined.

(** An incremental stream can lose text: a delta equal to all the text
    received so far is taken for a repetition and dropped, so the deltas
    ["ha"], ["ha"] leave ["ha"]. *)
Theorem repeated_delta_dropped m c n1 n2 n3 n4 :
  has_status Error m = false → getMessageContent m = [] →
  getMessageContent (feed m [Chunk ChunkContent c n1 n2; Chunk ChunkContent c n3 n4]) = c.
Proof.
  intros He Hm. destruct (feed_cumulative [Chunk ChunkContent c n1 n2; Chunk ChunkContent c n3 n4] m)
    as [-> _]; [done| |done].
  rewrite Hm. cbn. by rewrite startsWith_refl.
Qed.

Lemma repeated_delta_dropped_witness :
  let m := createLoadingAssistantMessage "k" "v" 0 in
  getMessageContent m = [] ∧
  getMessageContent (feed m [Chunk ChunkContent "ha" 1 1; Chunk ChunkContent "ha" 2 2]) = "ha".
Proof.
  intros m. split; [reflexivity|]. apply repeated_delta_dropped; reflexivity.
Defined.

(** Stale reasoning: when the closing tag of an empty [<think>] block is
    split across chunks, the completed message keeps the fragment of the tag as
    its reasoning, although the text it shows has none. *)
Theorem split_close_tag_leaves_reasoning :
  let evs := [Chunk ChunkContent "<think>" 1 1; Chunk ChunkContent "</" 2 2;
              Chunk ChunkContent "think>Hi" 3 3] in
  let m := completeAssistantMessage (feed (createLoadingAssistantMessage "k" "v" 0) evs) 4 4 4 in
  p_reasoning (parseThinkTags (concat (content_chunks evs))) = [] ∧
  getMessageContent m = "Hi" ∧ (r_content <$> reasoning m) = Some "</".
Proof. vm_compute. done. Qed.

(** Loading a stored conversation repairs its last unfinished answer and
    changes nothing else: the list keeps its length, every other message is
    untouched, and the repaired message keeps its identity, is complete or
    failed, is not streaming, and shows text or reasoning or the interruption
    notice.  If at most one answer was unfinished, none is afterwards. *)
Theorem sanitizeMessagesOnLoad_repairs t ms n1 n2 n3 :
  let ms' := sanitizeMessagesOnLoad t ms n1 n2 n3 in
  length ms' = length ms ∧
  match last_pending ms with
  | None => ms' = ms
  | Some i =>
    (∀ j, j ≠ i → ms' !! j = ms !! j) ∧
    (∃ m s, ms !! i = Some m ∧ ms' !! i = Some s ∧ same_identity m s ∧
       isAssistantMessageFinal s = true ∧ isReasoningStreaming s = Some false ∧
       (hasMessageContent s = true ∨ (∃ r, reasoning s = Some r ∧ trim (r_content r) ≠ []) ∨
        getMessageContent s = interrupted_text t)) ∧
    ((∀ j m, j < i → ms !! j = Some m → isPendingAssistantMessage (Some m) = false) →
     ∀ m, m ∈ ms' → isPendingAssistantMessage (Some m) = false)
  end.
Proof.
  intros ms'. unfold ms', sanitizeMessagesOnLoad.
  pose proof (last_pending_spec ms) as Hp. destruct (last_pending ms) as [i|]; [|done].
  destruct Hp as (m & Hm & Hpm & Hmax). rewrite Hm. rewrite length_insert. split; [done|].
  pose proof (lookup_lt_Some _ _ _ Hm) as Hlt. split; [|split].
  - intros j Hj. by rewrite list_lookup_insert_ne.
  - exists m, (sanitize_one t m n1 n2 n3). rewrite list_lookup_insert_eq by done.
    destruct (sanitize_one_spec t m n1 n2 n3) as (Hi & Hr & Hs).
    repeat split; [apply Hi..| |done|].
    + unfold isAssistantMessageFinal, has_status. by destruct Hs as [[-> _]|[-> _]].
    + destruct Hs as [[_ [?|?]]|[_ ?]]; [by left|by right; left|by right; right].
  - intros Hbefore m' (j & Hj)%list_elem_of_lookup_1.
    destruct (decide (j = i)) as [->|Hji].
    + rewrite list_lookup_insert_eq in Hj by done. injection Hj as <-.
      apply sanitize_one_not_pending.
    + rewrite list_lookup_insert_ne in Hj by done.
      destruct (decide (j < i)); [by eapply Hbefore|]. eapply Hmax; [|done]. lia.
Qed.

(** An update of the last answer never touches another message: either the
    conversation ends with an assistant message and only that one is replaced,
    or the conversation is returned unchanged.  An error update leaves the
    answer failed, with the title and message as its text. *)
Theorem updateAssistantMessageWithError_last ms err code title now :
  let ms' := updateAssistantMessageWithError ms err code title now in
  (∃ pre l l', ms = pre ++ [l] ∧ from l = RoleAssistant ∧ ms' = pre ++ [l'] ∧
     same_identity l l' ∧ status l' = Some Error ∧ isReasoningStreaming l' = Some false ∧
     getMessageContent l' = title ++ ": " ++ err ∧ completedAt l' = Some now) ∨
  ((∀ l, last ms = Some l → from l ≠ RoleAssistant) ∧ ms' = ms).
Proof.
  intros ms'. unfold ms', updateAssistantMessageWithError.
  match goal with |- context [updateLastAssistantMessage ms ?f] =>
    destruct (updateLastAssistantMessage_spec ms f) as [(pre & l & -> & Hl & Hu)|[Hn Hu]] end;
    rewrite Hu; [left|by right].
  exists pre, l. eexists. split; [done|]. split; [done|]. split; [done|].
  unfold completeAssistantTiming, is_role. simpl. rewrite bool_decide_eq_true_2 by done. done.
Qed.

(** Regenerating answers a known message and nothing else: for an unknown
    key there is no result; for a user message the conversation is cut right
    after its first occurrence, for any other message right before it, and a
    fresh loading answer follows. *)
Theorem createRegeneratedMessages_spec ms k now k' v' :
  match createRegeneratedMessages ms k now k' v' with
  | None => ∀ m, m ∈ ms → key m ≠ k
  | Some ms' =>
    ∃ pre m post, ms = pre ++ m :: post ∧ key m = k ∧ (∀ m', m' ∈ pre → key m' ≠ k) ∧
      ms' = (if bool_decide (from m = RoleUser) then pre ++ [m] else pre)
              ++ [createLoadingAssistantMessage k' v' now]
  end.
Proof.
  unfold createRegeneratedMessages. destruct (find_key k ms) as [i|] eqn:Ek.
  2:{ by apply find_key_None. }
  destruct (find_key_Some _ _ _ Ek) as (m & Hm & Hk & Hmin). rewrite Hm.
  pose proof (take_drop_middle _ _ _ Hm) as Hsplit.
  assert (Hpre : ∀ m', m' ∈ take i ms → key m' ≠ k).
  { intros m' (j & Hj)%list_elem_of_lookup_1. apply lookup_take_Some in Hj as [Hj Hlt].
    by eapply Hmin. }
  unfold is_role. destruct (bool_decide (from m = RoleUser)) eqn:Er;
    exists (take i ms), m, (drop (S i) ms); rewrite Er; repeat split; try done.
  rewrite Nat.add_1_r. by rewrite (take_S_r _ _ _ Hm).
Qed.

(** Submitting an edited user message resends from that message on: the
    conversation is cut after it, its text and time are the submitted ones,
    every earlier message with another key is untouched, and a fresh loading
    answer follows.  Any other edit changes only the messages with that key and
    keeps the conversation's length. *)
Theorem applyMessageEdit_spec ms k c submit now k' v' :
  match applyMessageEdit ms k c submit now k' v' with
  | None => ∀ m, m ∈ ms → key m ≠ k
  | Some (ms', send) =>
    ∃ pre m post, ms = pre ++ m :: post ∧ key m = k ∧ (∀ m', m' ∈ pre → key m' ≠ k) ∧
      let edited := with_createdAt (if submit then Some now else createdAt m)
                      (updateCurrentVersionContent m c) in
      send = submit && bool_decide (from m = RoleUser) ∧
      (if send then ms' = pre ++ [edited; createLoadingAssistantMessage k' v' now]
       else take (S (length pre)) ms' = pre ++ [edited] ∧ length ms' = length ms)
  end.
Proof.
  unfold applyMessageEdit. destruct (find_key k ms) as [i|] eqn:Ek.
  2:{ by apply find_key_None. }
  destruct (find_key_Some _ _ _ Ek) as (m & Hm & Hk & Hmin).
  pose proof (take_drop_middle _ _ _ Hm) as Hsplit.
  pose proof (lookup_lt_Some _ _ _ Hm) as Hlt.
  assert (Hpre : ∀ m', m' ∈ take i ms → key m' ≠ k).
  { intros m' (j & Hj)%list_elem_of_lookup_1. apply lookup_take_Some in Hj as [Hj ?].
    by eapply Hmin. }
  set (f := fun m0 => if key m0 === k then _ else m0).
  assert (Hmap : map f (take i ms) = take i ms).
  { rewrite <- (map_id (take i ms)) at 2. apply map_ext_in. intros m' Hin.
    unfold f. rewrite <- list_elem_of_In in Hin. apply Hpre in Hin.
    by rewrite (proj2 (jeqb_false _ _) Hin). }
  assert (Hf : f m = with_createdAt (if submit then Some now else createdAt m)
                       (updateCurrentVersionContent m c)).
  { unfold f. by rewrite (proj2 (jeqb_true _ _) Hk). }
  assert (Htake : take (S i) (map f ms) = take i ms ++ [f m]).
  { rewrite firstn_map. rewrite (take_S_r _ _ _ Hm), map_app, Hmap. done. }
  rewrite list_lookup_fmap, Hm. simpl.
  assert (Hlen : length (take i ms) = i) by (rewrite length_take; lia).
  destruct (negb submit || negb (is_role RoleUser (f m))) eqn:Es;
    exists (take i ms), m, (drop (S i) ms); repeat split; try done.
  - rewrite Hf in Es. unfold is_role in Es. simpl in Es.
    destruct submit, (bool_decide (from m = RoleUser)); simpl in *; done.
  - rewrite Hlen. by rewrite Htake, Hf.
  - by rewrite length_map.
  - rewrite Hf in Es. unfold is_role in Es. simpl in Es. apply orb_false_iff in Es as [Es1 Es2].
    apply negb_false_iff in Es1, Es2. by rewrite Es1, Es2.
  - rewrite Nat.add_1_r, Htake, Hf. by rewrite <- app_assoc.
Qed.
