(* ===== verification/PlaygroundStorage.v ===== *)
(** * Playground storage

    Model of [features/playground/lib/storage/storage.ts] with [storage-schema.ts],
    of [lib/state/playground-state-utils.ts] and of the hook
    [features/playground/hooks/use-playground-state.ts]: what is written to and read
    from the browser's local storage, and when the hook writes.

    Local storage is a map from keys to texts; [setItem] throws when the browser
    refuses the text (parameter [accepts]).  The schemas are written out as the values
    that the combinators of the zod package build; [parse] of the package is a parameter
    ([Zod]; [None] is a thrown error) with the documented behaviour of each combinator
    as laws ([ZodLaws]).  Times are whole milliseconds, as [Date.now()] gives
    them.  [Date.now()] is a clock, asked for the reading of a given index. *)

From S2P Require Import Prelude JsRegExp JsValue JsText PlaygroundMessage.

Definition localStorage := list (jstr * jstr).

Definition STORAGE_CONFIG : jstr := "playground_config".
Definition STORAGE_MESSAGES : jstr := "playground_messages".
Definition STORAGE_PARAMETER_ENABLED : jstr := "playground_parameter_enabled".

Definition STORAGE_VERSION : Z := 1.
Definition MAX_STORED_MESSAGES : nat := 100.
Definition MAX_STORED_MESSAGES_BYTES : N := 1024 * 1024.
Definition MAX_LOADED_MESSAGES_CHARS : N := 120000.
Definition MAX_LOADED_MESSAGE_CHARS : N := 40000.

(** The length of a text or of an array. *)
Definition size {A} (s : list A) : N := N.of_nat (length s).

(** ** Messages as values *)

Definition role_text (r : MessageRole) : jstr :=
  match r with RoleUser => "user" | RoleAssistant => "assistant" | RoleSystem => "system" end.
Definition status_text (s : MessageStatus) : jstr :=
  match s with Loading => "loading" | Streaming => "streaming" | Complete => "complete" | Error => "error" end.

(** A member of an object; one that is absent is left out. *)
Definition member {A} (k : jstr) (f : A → jsval) (o : option A) : list (jstr * jsval) :=
  match o with Some x => [(k, f x)] | None => [] end.

Definition time_value (z : Z) : jsval := JNum (num_of_Z z).

Definition version_value (v : MessageVersion) : jsval := JObj [("id", JStr (v_id v)); ("content", JStr (v_content v))].

Definition source_value (s : jstr * jstr) : jsval := JObj [("href", JStr s.1); ("title", JStr s.2)].

Definition reasoning_value (r : Reasoning) : jsval :=
  JObj ([("content", JStr (r_content r)); ("duration", time_value (r_duration r))] ++
        member "startedAt" time_value (r_startedAt r) ++ member "completedAt" time_value (r_completedAt r) ++
        member "durationMs" time_value (r_durationMs r)).

Definition error_value (o : option jstr) : jsval := match o with Some s => JStr s | None => JNull end.

(** A message as an object, its members in the order of the schema. *)
Definition message_value (m : Message) : jsval :=
  JObj ([("key", JStr (key m)); ("from", JStr (role_text (from m))); ("versions", JArr (map version_value (versions m)))] ++
        member "createdAt" time_value (createdAt m) ++ member "startedAt" time_value (startedAt m) ++
        member "completedAt" time_value (completedAt m) ++ member "durationMs" time_value (durationMs m) ++
        member "sources" (fun ss => JArr (map source_value ss)) (sources m) ++
        member "reasoning" reasoning_value (reasoning m) ++
        member "isReasoningStreaming" JBool (isReasoningStreaming m) ++
        member "isReasoningComplete" JBool (isReasoningComplete m) ++
        member "isContentComplete" JBool (isContentComplete m) ++
        member "status" (fun s => JStr (status_text s)) (status m) ++
        member "errorCode" error_value (errorCode m)).

Definition messages_value (ms : list Message) : jsval := JArr (map message_value ms).

(** ** storage-schema.ts

    What [z.string()], [z.number()], [z.boolean()], [z.enum(...)], [z.array(...).min(n)],
    [z.object(...)], [.optional()] and [.nullable()] build. *)

Inductive zschema :=
  | ZString | ZNumber | ZBoolean
  | ZEnum (values : list jstr)
  | ZArray (item : zschema) (min : nat)
  | ZObject (shape : list (jstr * zschema))
  | ZOptional (inner : zschema)
  | ZNullable (inner : zschema).

Definition playgroundConfigSchema : zschema := ZObject
  [("model", ZOptional ZString); ("group", ZOptional ZString); ("temperature", ZOptional ZNumber);
   ("top_p", ZOptional ZNumber); ("max_tokens", ZOptional ZNumber); ("frequency_penalty", ZOptional ZNumber);
   ("presence_penalty", ZOptional ZNumber); ("seed", ZOptional (ZNullable ZNumber)); ("stream", ZOptional ZBoolean)].

Definition parameterEnabledSchema : zschema := ZObject
  [("temperature", ZOptional ZBoolean); ("top_p", ZOptional ZBoolean); ("max_tokens", ZOptional ZBoolean);
   ("frequency_penalty", ZOptional ZBoolean); ("presence_penalty", ZOptional ZBoolean); ("seed", ZOptional ZBoolean)].

Definition messageRoleSchema : zschema := ZEnum ["user"; "assistant"; "system"].
Definition messageStatusSchema : zschema := ZEnum ["loading"; "streaming"; "complete"; "error"].
Definition messageVersionSchema : zschema := ZObject [("id", ZString); ("content", ZString)].
Definition sourceSchema : zschema := ZObject [("href", ZString); ("title", ZString)].
Definition reasoningSchema : zschema := ZObject
  [("content", ZString); ("duration", ZNumber); ("startedAt", ZOptional ZNumber); ("completedAt", ZOptional ZNumber);
   ("durationMs", ZOptional ZNumber)].

Definition messageSchema : zschema := ZObject
  [("key", ZString); ("from", messageRoleSchema); ("versions", ZArray messageVersionSchema 1);
   ("createdAt", ZOptional ZNumber); ("startedAt", ZOptional ZNumber); ("completedAt", ZOptional ZNumber);
   ("durationMs", ZOptional ZNumber); ("sources", ZOptional (ZArray sourceSchema 0));
   ("reasoning", ZOptional reasoningSchema); ("isReasoningStreaming", ZOptional ZBoolean);
   ("isReasoningComplete", ZOptional ZBoolean); ("isContentComplete", ZOptional ZBoolean);
   ("status", ZOptional messageStatusSchema); ("errorCode", ZOptional (ZNullable ZString))].

Definition messagesSchema : zschema := ZArray messageSchema 0.

(** [schema.parse(value)] of the package. *)
Class Zod := zod_parse : zschema → jsval → option jsval.

Definition defined (kv : jstr * jsval) : bool := match kv.2 with JUndefined => false | _ => true end.

(** Its documented behaviour: primitives are returned as they are, [z.number()] takes finite
    numbers only, arrays and objects are parsed member by member, an object keeps
    the members of its shape only, and an absent optional member stays absent. *)
Class ZodLaws `{Zod} : Prop := {
  zod_string v : zod_parse ZString v = match v with JStr _ => Some v | _ => None end;
  zod_number v : zod_parse ZNumber v = match v with JNum n => if isFinite n then Some v else None | _ => None end;
  zod_boolean v : zod_parse ZBoolean v = match v with JBool _ => Some v | _ => None end;
  zod_enum values v : zod_parse (ZEnum values) v = match v with JStr s => if has s values then Some v else None | _ => None end;
  zod_array item min v : zod_parse (ZArray item min) v =
    match v with JArr l => if min <=? length l then JArr <$> mapM (zod_parse item) l else None | _ => None end;
  zod_object shape fs : forallb defined fs = true →
    zod_parse (ZObject shape) (JObj fs) =
    (fun kvs => JObj (List.filter defined kvs)) <$> mapM (fun ks => pair ks.1 <$> zod_parse ks.2 (get ks.1 (JObj fs))) shape;
  zod_not_object shape v : (∀ fs, v ≠ JObj fs) → zod_parse (ZObject shape) v = None;
  zod_optional inner v : zod_parse (ZOptional inner) v = match v with JUndefined => Some v | _ => zod_parse inner v end;
  zod_nullable inner v : zod_parse (ZNullable inner) v = match v with JNull => Some v | _ => zod_parse inner v end;
}.

(** The inferred types: a value that a schema returned, as a record. *)
Section inferred.
Local Open Scope stdpp_scope.

Definition read_string (v : jsval) : option jstr := match v with JStr s => Some s | _ => None end.
Definition read_bool (v : jsval) : option bool := match v with JBool b => Some b | _ => None end.
Definition read_time (v : jsval) : option Z := match v with JNum n => Some (num_trunc n) | _ => None end.

Definition read_array {A} (f : jsval → option A) (v : jsval) : option (list A) :=
  match v with JArr l => mapM f l | _ => None end.

(** A member that may be absent. *)
Definition optional {A} (f : jsval → option A) (v : jsval) : option (option A) :=
  match v with JUndefined => Some None | _ => Some <$> f v end.

Definition read_role (v : jsval) : option MessageRole :=
  s ← read_string v;
  if s === "user" then Some RoleUser else if s === "assistant" then Some RoleAssistant
  else if s === "system" then Some RoleSystem else None.

Definition read_status (v : jsval) : option MessageStatus :=
  s ← read_string v;
  if s === "loading" then Some Loading else if s === "streaming" then Some Streaming
  else if s === "complete" then Some Complete else if s === "error" then Some Error else None.

Definition read_version (v : jsval) : option MessageVersion :=
  i ← read_string (get "id" v); c ← read_string (get "content" v); Some (Version i c).

Definition read_source (v : jsval) : option (jstr * jstr) :=
  h ← read_string (get "href" v); t ← read_string (get "title" v); Some (h, t).

Definition read_reasoning (v : jsval) : option Reasoning :=
  c ← read_string (get "content" v); d ← read_time (get "duration" v); a ← optional read_time (get "startedAt" v);
  b ← optional read_time (get "completedAt" v); e ← optional read_time (get "durationMs" v); Some (MkReasoning c d a b e).

Definition read_error (v : jsval) : option (option jstr) := match v with JNull => Some None | JStr s => Some (Some s) | _ => None end.

Definition read_message (v : jsval) : option Message :=
  k ← read_string (get "key" v); f ← read_role (get "from" v); vs ← read_array read_version (get "versions" v);
  ca ← optional read_time (get "createdAt" v); sa ← optional read_time (get "startedAt" v);
  co ← optional read_time (get "completedAt" v); du ← optional read_time (get "durationMs" v);
  so ← optional (read_array read_source) (get "sources" v); re ← optional read_reasoning (get "reasoning" v);
  i1 ← optional read_bool (get "isReasoningStreaming" v); i2 ← optional read_bool (get "isReasoningComplete" v);
  i3 ← optional read_bool (get "isContentComplete" v); s ← optional read_status (get "status" v);
  e ← optional read_error (get "errorCode" v);
  Some (MkMessage k f vs ca sa co du so re i1 i2 i3 s e).

Definition read_messages : jsval → option (list Message) := read_array read_message.
End inferred.

(** [messagesSchema.parse(value)], typed. *)
Definition parse_messages `{Zod} (v : jsval) : option (list Message) := zod_parse messagesSchema v ≫= read_messages.

(** ** Reading and writing one entry *)

(** [None] is a thrown error, [JNull] the result [null]. *)
Definition readStoredValue (k : jstr) (st : localStorage) : option jsval :=
  match map_get k st with
  | None | Some [] => Some JNull
  | Some saved => JSON_parse saved
  end.

Definition readStoredMessagesValue (st : localStorage) : localStorage * option jsval :=
  match map_get STORAGE_MESSAGES st with
  | None | Some [] => (st, Some JNull)
  | Some saved =>
    if (MAX_STORED_MESSAGES_BYTES <? size saved)%N then (delete_prop STORAGE_MESSAGES st, Some JNull)
    else (st, JSON_parse saved)
  end.

Definition has_member (k : jstr) (v : jsval) : bool :=
  match v with JObj fs => match map_get k fs with Some _ => true | None => false end | _ => false end.

Definition unwrapStoredValue (value : jsval) : jsval :=
  if negb (val_truthy value) || negb (is_objectlike value) then value
  else if has_member "version" value && has_member "data" value then get "data" value
  else value.

Section writing.
Context (accepts : jstr → jstr → bool).

(** [None] is a thrown error. *)
Definition writeStoredValue (k : jstr) (data : jsval) (st : localStorage) : option localStorage :=
  match JSON_compact (JObj [("version", JNum (num_of_Z STORAGE_VERSION)); ("data", data)]) with
  | Some text => if accepts k text then Some (map_set k text st) else None
  | None => None
  end.
End writing.

(** ** Limits *)

Definition trimMessages (messages : list Message) : list Message :=
  if length messages <=? MAX_STORED_MESSAGES then messages
  else drop (length messages - MAX_STORED_MESSAGES) messages.

Definition getMessageSize (m : Message) : N :=
  (foldl (fun total v => total + size (v_content v)) 0 (versions m) +
   match reasoning m with Some r => size (r_content r) | None => 0 end)%N.

Definition TRUNCATED_CONTENT_SUFFIX : jstr := [10; 10]%N ++ "[...]".

Definition truncateText (text : jstr) (maxLength : N) : jstr :=
  if (size text <=? maxLength)%N then text
  else if (maxLength <=? size TRUNCATED_CONTENT_SUFFIX)%N then take (N.to_nat maxLength) text
  else take (N.to_nat (maxLength - size TRUNCATED_CONTENT_SUFFIX)) text ++ TRUNCATED_CONTENT_SUFFIX.

Definition MIN_PREFIX_COLLAPSE_LENGTH : nat := 2000.
Definition MIN_REPEATED_SECTION_COUNT : nat := 3.

Definition line_end (c : N) : bool := one_of [10; 13; 0x2028; 0x2029]%N c.

(** The heading of a numbered section, from the start of a line to its end.  The last
    repetition takes the rest of the line, after which [$] always holds. *)
Definition SECTION_HEADING_LINE_PATTERN : regex :=
  (RRep (RUnit (one_of "#")) 2 (Some 6) · rplus (RUnit is_ws) · rplus (RUnit is_digit) · rlit "." ·
   rplus (RUnit is_ws) · rplus (RUnit (fun c => negb (line_end c))))%re.

(** The matches of a pattern that starts with [^] under the flags [g] and [m]. *)
Fixpoint search_lines (r : regex) (bef s : jstr) : option rmatched :=
  match (if match bef with c :: _ => line_end c | [] => true end then rmatch r (MState bef s []) Some else None) with
  | Some st => Some (RMatched (length bef) (take (length s - length (rest st)) s) st)
  | None => match s with [] => None | c :: s' => search_lines r (c :: bef) s' end
  end.

Fixpoint match_lines (fuel : nat) (r : regex) (bef s : jstr) : list rmatched :=
  match fuel with
  | O => []
  | S f =>
    match search_lines r bef s with
    | None => []
    | Some m => m :: match_lines f r (JsRegExp.before (m_end m)) (rest (m_end m))
    end
  end.

(** The headings with their positions; every match takes at least six units. *)
Definition getSectionOccurrences (text : jstr) : list (jstr * nat) :=
  map (fun m => (m_text m, m_index m)) (match_lines (S (length text)) SECTION_HEADING_LINE_PATTERN [] text).

Definition getHeadingCounts (occurrences : list (jstr * nat)) : list (jstr * nat) :=
  foldl (fun counts o => map_set o.1 (default 0 (map_get o.1 counts) + 1) counts) [] occurrences.

(** The loop from the last occurrence to the first: [seen] and the positions so far. *)
Definition repeated_step (counts : list (jstr * nat)) (acc : list jstr * list nat) (o : jstr * nat) : list jstr * list nat :=
  let '(seenHeadings, lastRepeatedIndexes) := acc in
  if (default 0 (map_get o.1 counts) <? MIN_REPEATED_SECTION_COUNT) || has o.1 seenHeadings then acc
  else (o.1 :: seenHeadings, lastRepeatedIndexes ++ [o.2]).

(** [None] is [-1]. *)
Definition findLastRepeatedSectionRunStart (text : jstr) : option nat :=
  let occurrences := getSectionOccurrences text in
  match (foldl (repeated_step (getHeadingCounts occurrences)) ([], []) (reverse occurrences)).2 with
  | [] => None
  | i :: others => Some (foldl Nat.min i others)
  end.

Definition collapseRepeatedSectionSnapshots (text : jstr) : jstr :=
  if length text <? MIN_PREFIX_COLLAPSE_LENGTH then text
  else match findLastRepeatedSectionRunStart text with None => text | Some i => drop i text end.

Definition load_version (v : MessageVersion) : MessageVersion :=
  Version (v_id v) (truncateText (collapseRepeatedSectionSnapshots (v_content v)) MAX_LOADED_MESSAGE_CHARS).

Definition load_reasoning (r : Reasoning) : Reasoning :=
  MkReasoning (truncateText (r_content r) MAX_LOADED_MESSAGE_CHARS) (r_duration r) (r_startedAt r) (r_completedAt r)
    (r_durationMs r).

(** [now] is read three times at most: for [completedAt] and in [finalizeMessage]. *)
Definition normalizeStoredMessageForLoad (message : Message) (now1 now2 now3 : Z) : Message :=
  let normalized := with_reasoning (load_reasoning <$> reasoning message)
                      (with_versions (map load_version (versions message)) message) in
  if negb (isAssistantMessagePending normalized) then normalized
  else
    let hasContent := hasMessageContent normalized in
    let hasReasoning := truthy (trim (default [] (r_content <$> reasoning normalized))) in
    if negb hasContent && negb hasReasoning then normalized
    else
      let at_ := default (default (default (default now1 (createdAt normalized)) (startedAt normalized))
                            (reasoning normalized ≫= r_completedAt)) (completedAt normalized) in
      completeAssistantTiming
        (with_reasoningStreaming false (with_status Complete (finalizeMessage normalized None now2 now3))) at_.

(** The loop from the last message on; [result] in the order of the conversation. *)
Fixpoint size_loop (rev_messages : list Message) (totalSize : N) (result : list Message) : list Message :=
  match rev_messages with
  | [] => result
  | message :: rest =>
    let messageSize := getMessageSize message in
    if (0 <? length result) && (MAX_LOADED_MESSAGES_CHARS <? totalSize + messageSize)%N then result
    else size_loop rest (totalSize + messageSize)%N (message :: result)
  end.

Definition trimMessagesByContentSize (messages : list Message) : list Message := size_loop (reverse messages) 0 [].

(** ** Loading and saving *)

Section storage.
Context `{Zod} (accepts : jstr → jstr → bool) (t : jstr → jstr).

(** A failed write is logged, and leaves the storage as it was. *)
Definition written (o : option localStorage) (st : localStorage) : localStorage := default st o.

Definition saveMessages (messages : list Message) (st : localStorage) : localStorage :=
  match parse_messages (messages_value (trimMessages messages)) with
  | Some parsed => written (writeStoredValue accepts STORAGE_MESSAGES (messages_value parsed) st) st
  | None => st
  end.

(** [trimMessagesByContentSize] always makes a new array, so that
    [sizeTrimmed !== trimmed] holds and what is loaded is always saved again. *)
Definition loadMessages (now : nat → Z) (st : localStorage) : localStorage * option (list Message) :=
  let '(st, saved) := readStoredMessagesValue st in
  match saved with
  | None => (st, None)
  | Some saved =>
    if negb (val_truthy saved) then (st, None)
    else
      match parse_messages (unwrapStoredValue saved) with
      | None => (st, None)
      | Some parsed =>
        let normalized := imap (fun i m =>
          normalizeStoredMessageForLoad m (now (3 * i)) (now (3 * i + 1)) (now (3 * i + 2))) parsed in
        let n := 3 * length parsed in
        let sanitized := sanitizeMessagesOnLoad t (trimMessagesByContentSize (trimMessages normalized))
                           (now n) (now (n + 1)) (now (n + 2)) in
        (saveMessages sanitized st, Some sanitized)
      end
  end.

(** The object of no members stands for [{}]. *)
Definition load_object (schema : jsval → option jsval) (k : jstr) (st : localStorage) : jsval :=
  match readStoredValue k st with
  | Some saved =>
    if negb (val_truthy saved) then JObj [] else default (JObj []) (schema (unwrapStoredValue saved))
  | None => JObj []
  end.

Definition save_object (schema : jsval → option jsval) (k : jstr) (v : jsval) (st : localStorage) : localStorage :=
  match schema v with
  | Some parsed => written (writeStoredValue accepts k parsed st) st
  | None => st
  end.

Definition loadConfig : localStorage → jsval := load_object (zod_parse playgroundConfigSchema) STORAGE_CONFIG.
Definition saveConfig : jsval → localStorage → localStorage := save_object (zod_parse playgroundConfigSchema) STORAGE_CONFIG.
Definition loadParameterEnabled : localStorage → jsval := load_object (zod_parse parameterEnabledSchema) STORAGE_PARAMETER_ENABLED.
Definition saveParameterEnabled : jsval → localStorage → localStorage :=
  save_object (zod_parse parameterEnabledSchema) STORAGE_PARAMETER_ENABLED.

Definition clearPlaygroundData (st : localStorage) : localStorage :=
  delete_prop STORAGE_MESSAGES (delete_prop STORAGE_PARAMETER_ENABLED (delete_prop STORAGE_CONFIG st)).

(** ** The state of the page *)

Definition object_members (v : jsval) : list (jstr * jsval) := match v with JObj fs => fs | _ => [] end.

(** [{ ...a, ...b }] *)
Definition spread (a b : jsval) : jsval :=
  JObj (foldl (fun m kv => obj_set kv.1 kv.2 m) (object_members a) (object_members b)).

Definition DEFAULT_CONFIG : jsval :=
  JObj [("model", JStr "gpt-4o"); ("group", JStr "default"); ("temperature", JNum (num_of_decimal false 7 (-1)));
        ("top_p", JNum (num_of_Z 1)); ("max_tokens", JNum (num_of_Z 4096)); ("frequency_penalty", JNum (num_of_Z 0));
        ("presence_penalty", JNum (num_of_Z 0)); ("seed", JNull); ("stream", JBool true)].

Definition DEFAULT_PARAMETER_ENABLED : jsval :=
  JObj [("temperature", JBool true); ("top_p", JBool true); ("max_tokens", JBool false);
        ("frequency_penalty", JBool true); ("presence_penalty", JBool true); ("seed", JBool false)].

Definition getInitialPlaygroundConfig (st : localStorage) : jsval := spread DEFAULT_CONFIG (loadConfig st).
Definition getInitialParameterEnabled (st : localStorage) : jsval := spread DEFAULT_PARAMETER_ENABLED (loadParameterEnabled st).

Inductive MessageStateUpdater := SetMessages (ms : list Message) | UpdateWith (f : list Message → list Message).

Definition applyMessageStateUpdate (previousMessages : list Message) (updater : MessageStateUpdater) : list Message :=
  match updater with SetMessages ms => ms | UpdateWith f => f previousMessages end.

(** The state hooks and refs, the storage, and which timers are pending. *)
Record PlaygroundState := MkState {
  p_config : jsval; p_parameterEnabled : jsval; p_messages : list Message; isLoadingMessages : bool;
  messagesSaveTimer : bool; latestMessages : list Message; hasLoadedMessages : bool;
  load_pending : bool; mounted : bool; store : localStorage;
}.

Definition initial (st : localStorage) : PlaygroundState :=
  MkState (getInitialPlaygroundConfig st) (getInitialParameterEnabled st) [] true false [] false true true st.

Inductive PlaygroundEvent :=
  | LoadTimer (now : nat → Z)
  | SaveTimer
  | UpdateMessages (updater : MessageStateUpdater)
  | ClearMessages
  | UpdateConfig (k : jstr) (v : jsval)
  | UpdateParameterEnabled (k : jstr) (b : bool)
  | ResetConfig
  | Unmount.

Definition set_messages (ms latest : list Message) (timer : bool) (s : PlaygroundState) : PlaygroundState :=
  MkState (p_config s) (p_parameterEnabled s) ms (isLoadingMessages s) timer latest (hasLoadedMessages s) (load_pending s)
    (mounted s) (store s).

Definition set_store (st : localStorage) (s : PlaygroundState) : PlaygroundState :=
  MkState (p_config s) (p_parameterEnabled s) (p_messages s) (isLoadingMessages s) (messagesSaveTimer s) (latestMessages s)
    (hasLoadedMessages s) (load_pending s) (mounted s) st.

Definition clear_timer (s : PlaygroundState) : PlaygroundState := set_messages (p_messages s) (latestMessages s) false s.

(** [persistMessages], inside the updater of [setMessages]. *)
Definition updateMessages (updater : MessageStateUpdater) (s : PlaygroundState) : PlaygroundState :=
  let newMessages := applyMessageStateUpdate (p_messages s) updater in
  set_messages newMessages newMessages (if hasLoadedMessages s then true else messagesSaveTimer s) s.

(** The callback of the first effect. *)
Definition load_timer (now : nat → Z) (s : PlaygroundState) : PlaygroundState :=
  let '(st, loaded) := loadMessages now (store s) in
  let loadedMessages := default [] loaded in
  if negb (mounted s) then
    MkState (p_config s) (p_parameterEnabled s) (p_messages s) (isLoadingMessages s) (messagesSaveTimer s) (latestMessages s)
      (hasLoadedMessages s) false (mounted s) st
  else
    MkState (p_config s) (p_parameterEnabled s) loadedMessages false (messagesSaveTimer s) loadedMessages true false true st.

(** The clean-ups of both effects. *)
Definition unmount (s : PlaygroundState) : PlaygroundState :=
  let s' := if messagesSaveTimer s then set_store (saveMessages (latestMessages s) (store s)) (clear_timer s) else s in
  MkState (p_config s') (p_parameterEnabled s') (p_messages s') (isLoadingMessages s') (messagesSaveTimer s')
    (latestMessages s') (hasLoadedMessages s') (load_pending s') false (store s').

Definition with_config (c p : jsval) (st : localStorage) (s : PlaygroundState) : PlaygroundState :=
  MkState c p (p_messages s) (isLoadingMessages s) (messagesSaveTimer s) (latestMessages s) (hasLoadedMessages s)
    (load_pending s) (mounted s) st.

(** A timer fires only while it is pending, and an unmounted page takes no actions. *)
Definition playground_step (e : PlaygroundEvent) (s : PlaygroundState) : PlaygroundState :=
  match e with
  | LoadTimer now => if load_pending s then load_timer now s else s
  | SaveTimer =>
    if messagesSaveTimer s then set_store (saveMessages (latestMessages s) (store s)) (clear_timer s) else s
  | UpdateMessages updater => if mounted s then updateMessages updater s else s
  | ClearMessages => if mounted s then updateMessages (SetMessages []) s else s
  | UpdateConfig k v =>
    if mounted s then
      let updated := spread (p_config s) (JObj [(k, v)]) in
      with_config updated (p_parameterEnabled s) (saveConfig updated (store s)) s
    else s
  | UpdateParameterEnabled k b =>
    if mounted s then
      let updated := spread (p_parameterEnabled s) (JObj [(k, JBool b)]) in
      with_config (p_config s) updated (saveParameterEnabled updated (store s)) s
    else s
  | ResetConfig =>
    if mounted s then
      with_config DEFAULT_CONFIG DEFAULT_PARAMETER_ENABLED
        (saveParameterEnabled DEFAULT_PARAMETER_ENABLED (saveConfig DEFAULT_CONFIG (store s))) s
    else s
  | Unmount => if mounted s then unmount s else s
  end.

Definition playground_run (es : list PlaygroundEvent) (s : PlaygroundState) : PlaygroundState :=
  foldl (fun s e => playground_step e s) s es.
End storage.

(** ** Lemmas *)

Section hook.
Context `{Zod} (accepts : jstr → jstr → bool) (t : jstr → jstr).
Abbreviation step := (playground_step accepts t).
Abbreviation run := (playground_run accepts t).

(** The text that saving some messages writes, if it writes one. *)
Definition messages_text (ms : list Message) : option jstr :=
  parsed ← parse_messages (messages_value (trimMessages ms));
  text ← JSON_compact (JObj [("version", JNum (num_of_Z STORAGE_VERSION)); ("data", messages_value parsed)]);
  if accepts STORAGE_MESSAGES text then Some text else None.

Lemma save_text ms st text : messages_text ms = Some text → map_get STORAGE_MESSAGES (saveMessages accepts ms st) = Some text.
Proof.
  unfold messages_text, saveMessages, writeStoredValue, written. destruct (parse_messages _) as [parsed|]; [|done].
  cbn [mbind option_bind]. destruct (JSON_compact _) as [text'|]; [|done]. cbn [mbind option_bind].
  destruct (accepts _ _); [|done]. intros [= ->]. exact (map_get_set_eq _ _ _).
Qed.

Lemma save_object_other schema k v st :
  k ≠ STORAGE_MESSAGES → map_get STORAGE_MESSAGES (save_object accepts schema k v st) = map_get STORAGE_MESSAGES st.
Proof.
  intros Hk. unfold save_object, writeStoredValue, written. destruct (schema v); [|done]. destruct (JSON_compact _); [|done].
  destruct (accepts _ _); [|done]. by apply map_get_set_ne.
Qed.

(** What every state the page reaches satisfies. *)
Record PageInv (s : PlaygroundState) : Prop := {
  inv_latest : latestMessages s = p_messages s;
  inv_timer : messagesSaveTimer s = true → hasLoadedMessages s = true ∧ mounted s = true;
  inv_loaded : hasLoadedMessages s = true → load_pending s = false;
}.

Lemma step_inv e s : PageInv s → PageInv (step e s).
Proof.
  intros Hs. pose proof Hs as [Hl Ht Hd]. destruct e; cbn [playground_step].
  - destruct (load_pending s) eqn:El; [|done]. unfold load_timer. destruct (loadMessages _ _ _ _) as [st o].
    destruct (mounted s) eqn:Em; constructor; cbn; try done.
  - destruct (messagesSaveTimer s) eqn:E; [|done]. by constructor.
  - destruct (mounted s) eqn:Em; [|done]. constructor; cbn; [done| |done].
    destruct (hasLoadedMessages s); [done|]. intros Ht'. by destruct (Ht Ht').
  - destruct (mounted s) eqn:Em; [|done]. constructor; cbn; [done| |done].
    destruct (hasLoadedMessages s); [done|]. intros Ht'. by destruct (Ht Ht').
  - destruct (mounted s) eqn:Em; [|done]. by constructor; cbn; rewrite ?Em.
  - destruct (mounted s) eqn:Em; [|done]. by constructor; cbn; rewrite ?Em.
  - destruct (mounted s) eqn:Em; [|done]. by constructor; cbn; rewrite ?Em.
  - destruct (mounted s) eqn:Em; [|done]. unfold unmount. destruct (messagesSaveTimer s) eqn:E; constructor; cbn; try done.
    by rewrite E.
Qed.

Lemma run_inv es s : PageInv s → PageInv (run es s).
Proof. revert s. induction es as [|e es IH]; intros s Hs; [done|]. by apply IH, step_inv. Qed.

Lemma initial_inv st : PageInv (initial st).
Proof. by constructor. Qed.

(** The messages are in the storage, or a timer that stores them is pending. *)
Definition kept (s : PlaygroundState) : Prop :=
  messagesSaveTimer s = true ∨ ∀ text, messages_text (p_messages s) = Some text → map_get STORAGE_MESSAGES (store s) = Some text.

Lemma step_kept e s : PageInv s → hasLoadedMessages s = true → kept s → kept (step e s) ∧ hasLoadedMessages (step e s) = true.
Proof.
  intros [Hl _ Hd] Hload Hk. destruct e; cbn [playground_step].
  - by rewrite Hd.
  - destruct (messagesSaveTimer s) eqn:E; [|done]. split; [|done]. right. cbn. rewrite Hl. intros text. apply save_text.
  - destruct (mounted s); [|done]. split; [|done]. left. cbn. by rewrite Hload.
  - destruct (mounted s); [|done]. split; [|done]. left. cbn. by rewrite Hload.
  - destruct (mounted s); [|done]. split; [|done]. destruct Hk as [Hk|Hk]; [by left|right]. cbn.
    unfold saveConfig. by rewrite save_object_other.
  - destruct (mounted s); [|done]. split; [|done]. destruct Hk as [Hk|Hk]; [by left|right]. cbn.
    unfold saveParameterEnabled. by rewrite save_object_other.
  - destruct (mounted s); [|done]. split; [|done]. destruct Hk as [Hk|Hk]; [by left|right]. cbn.
    unfold saveParameterEnabled, saveConfig. by rewrite !save_object_other.
  - destruct (mounted s); [|done]. unfold unmount. destruct (messagesSaveTimer s) eqn:E; (split; [|done]).
    + right. cbn. rewrite Hl. intros text. apply save_text.
    + destruct Hk as [Hk|Hk]; [by rewrite E in Hk|by right].
Qed.

Lemma run_kept es s : PageInv s → hasLoadedMessages s = true → kept s → kept (run es s).
Proof.
  revert s. induction es as [|e es IH]; intros s Hs Hl Hk; [done|]. destruct (step_kept e s Hs Hl Hk) as [Hk' Hl'].
  apply IH; [by apply step_inv|done|done].
Qed.

(** C15: A change of the conversation reaches the storage: once the stored messages have been
    loaded, after any change and whatever happens next, the messages shown are either in the
    storage in the text that saving them writes, or the page is still there with a pending
    timer that will store them.  So leaving the page loses nothing that the storage accepts. *)
Theorem changes_reach_storage st before_ u after :
  let s0 := run before_ (initial st) in
  hasLoadedMessages s0 = true → mounted s0 = true →
  let s := run (before_ ++ UpdateMessages u :: after) (initial st) in
  (mounted s = true ∧ messagesSaveTimer s = true) ∨
  ∀ text, messages_text (p_messages s) = Some text → map_get STORAGE_MESSAGES (store s) = Some text.
Proof.
  intros s0 Hl Hm s. pose proof (run_inv before_ _ (initial_inv st)) as H0. fold s0 in H0.
  assert (Es : s = run after (step (UpdateMessages u) s0)).
  { unfold s, s0, playground_run. by rewrite foldl_app. }
  assert (Hk : kept s).
  { rewrite Es. apply run_kept; [by apply step_inv|cbn; by rewrite Hm|]. left. cbn. rewrite Hm. cbn. by rewrite Hl. }
  destruct Hk as [Hk|Hk]; [left|by right]. split; [|done].
  eapply inv_timer; [|exact Hk]. rewrite Es. apply run_inv, step_inv, H0.
Qed.
End hook.

(** ** Limits of what is loaded *)

(** *** Texts *)

Definition texts (m : Message) : list jstr :=
  map v_content (versions m) ++ match reasoning m with Some r => [r_content r] | None => [] end.

Definition within (k : N) (m : Message) : Prop := Forall (fun s => (size s ≤ k)%N) (texts m).

Lemma size_app {A} (a b : list A) : size (a ++ b) = (size a + size b)%N.
Proof. unfold size. rewrite length_app. lia. Qed.

Lemma truncate_size s k : (size (truncateText s k) ≤ k)%N.
Proof.
  unfold truncateText. destruct (N.leb_spec (size s) k); [done|]. destruct (N.leb_spec k (size TRUNCATED_CONTENT_SUFFIX)).
  - unfold size. rewrite length_take. lia.
  - rewrite size_app. unfold size at 1. rewrite length_take. lia.
Qed.

Lemma part_join s vis : length (join [] (part s ++ vis)) = length s + length (join [] vis).
Proof.
  destruct s as [|c s]; [done|]. cbn [part app]. destruct vis as [|v vis]; [cbn; lia|].
  rewrite join_cons2, !length_app. cbn. lia.
Qed.

(** What is shown and what is thought fit into the text. *)
Lemma Thought_size s vis reas u :
  Thought s vis reas u → length (join [] vis) + length (join [10; 10]%N reas) ≤ length s.
Proof.
  induction 1 as [s _|a b _ _|a r s vis reas u _ _ _ IH].
  - rewrite <- (app_nil_r (part s)), part_join. cbn. lia.
  - rewrite <- (app_nil_r (part a)), part_join, !length_app. cbn [join length]. lia.
  - rewrite part_join, !length_app. change (length think_open) with 7. change (length think_close) with 8.
    destruct reas as [|r' reas]; [cbn [join] in *; lia|]. rewrite join_cons2, !length_app. cbn [length] in *. lia.
Qed.

Lemma parsed_size s :
  includes think_open s = true → length (visibleContent (parseThinkTags s)) + length (p_reasoning (parseThinkTags s)) ≤ length s.
Proof.
  intros Hi. unfold parseThinkTags. rewrite Hi. cbn [negb].
  destruct (think_loop_spec (S (length s)) s 0 [] []) as (vis & reas & u & HT & Hl); [lia|].
  rewrite drop_0 in HT. cbn [app] in Hl. rewrite Hl. cbn [visibleContent p_reasoning].
  apply Thought_size in HT. pose proof (trim_length (join [] vis)). pose proof (trim_length (join [10; 10]%N reas)). lia.
Qed.

Definition reasoning_text (m : Message) : jstr := default [] (r_content <$> reasoning m).

Lemma completeReasoning_text m now :
  versions (completeReasoningTiming m now) = versions m ∧ reasoning_text (completeReasoningTiming m now) = reasoning_text m.
Proof. unfold completeReasoningTiming, reasoning_text. destruct (reasoning m) as [r|] eqn:E; [|by rewrite E]. destruct (r_durationMs r); by rewrite ?E. Qed.

(** Completing a message shows one version, and adds no text. *)
Lemma finalize_texts m n1 n2 :
  ∃ c, versions (finalizeMessage m None n1 n2) = [Version (v_id (getCurrentVersion m)) c] ∧
    length c ≤ length (getMessageContent m) ∧
    length (reasoning_text (finalizeMessage m None n1 n2)) ≤ length (reasoning_text m) `max` length (getMessageContent m) ∧
    length c + length (reasoning_text (finalizeMessage m None n1 n2)) ≤ length (getMessageContent m) + length (reasoning_text m).
Proof.
  unfold finalizeMessage. cbv zeta. fold (getMessageContent m). set (s := getMessageContent m).
  match goal with |- context [completeReasoningTiming ?x n2] =>
    destruct (completeReasoning_text x n2) as [-> Hr]; rewrite Hr; clear Hr end.
  fold (reasoning_text m). set (R := reasoning_text m). clearbody R.
  cbn [versions with_reasoningStreaming with_reasoning updateCurrentVersionContent with_versions].
  eexists. split; [reflexivity|]. unfold reasoning_text. cbn [reasoning with_reasoningStreaming with_reasoning].
  destruct (includes think_open s) eqn:Ei; cbn.
  - pose proof (parsed_size s Ei). destruct R as [|c r]; cbn; [|lia].
    destruct (p_reasoning (parseThinkTags s)) as [|c r] eqn:Ep; cbn in *; lia.
  - destruct R as [|c r]; cbn; lia.
Qed.

Lemma size_length {A} (s : list A) k : (size s ≤ N.of_nat k)%N ↔ length s ≤ k.
Proof. unfold size. lia. Qed.

Lemma content_within k m : within k m → (size (getMessageContent m) ≤ k)%N ∧ (size (reasoning_text m) ≤ k)%N.
Proof.
  unfold within, texts, getMessageContent, getCurrentVersion, reasoning_text. intros [Hv Hr]%Forall_app. split.
  - destruct (versions m) as [|v vs]; [unfold size; cbn; lia|]. by apply Forall_cons in Hv as [Hv _].
  - destruct (reasoning m) as [r|]; [by apply Forall_cons in Hr as [Hr _]|unfold size; cbn; lia].
Qed.

Lemma within_intro k m :
  Forall (fun v => (size (v_content v) ≤ k)%N) (versions m) → (size (reasoning_text m) ≤ k)%N → within k m.
Proof.
  intros Hv Hr. apply Forall_app. split; [by apply Forall_map|]. unfold reasoning_text in Hr. destruct (reasoning m); [|done].
  by constructor.
Qed.

Lemma finalize_within k m n1 n2 : within k m → within k (finalizeMessage m None n1 n2).
Proof.
  intros [Hc Hr]%content_within. destruct (finalize_texts m n1 n2) as (c & Ev & H1 & H2 & _). unfold size in *.
  apply within_intro; [rewrite Ev; constructor; [|done]|]; unfold size; cbn [v_content]; lia.
Qed.

(** Fields other than the texts. *)
Lemma within_ext k m m' : versions m' = versions m → reasoning m' = reasoning m → within k m → within k m'.
Proof. unfold within, texts. by intros -> ->. Qed.

Lemma normalize_within m n1 n2 n3 : within MAX_LOADED_MESSAGE_CHARS (normalizeStoredMessageForLoad m n1 n2 n3).
Proof.
  unfold normalizeStoredMessageForLoad. cbv zeta. set (m' := with_reasoning _ _).
  assert (Hm : within MAX_LOADED_MESSAGE_CHARS m').
  { apply within_intro; cbn [m' versions with_reasoning with_versions].
    - apply Forall_map, Forall_forall. intros v _. apply truncate_size.
    - unfold reasoning_text. cbn [m' reasoning with_reasoning]. destruct (reasoning m); [apply truncate_size|by cbn]. }
  clearbody m'. case_if; [done|]. case_if; [done|].
  match goal with |- within _ (completeAssistantTiming ?x ?n) => destruct (completeAssistantTiming_frame x n) as (_ & Hv & _ & _ & Hr) end.
  eapply within_ext; [exact Hv|exact Hr|]. apply (within_ext _ (finalizeMessage m' None n2 n3)); [done..|]. by apply finalize_within.
Qed.

Lemma sanitize_within k m n1 n2 n3 t :
  within k m → within (N.max k (size (interrupted_text t))) (sanitize_one t m n1 n2 n3).
Proof.
  intros Hm. apply (finalize_within k m n1 n2) in Hm. unfold sanitize_one. cbv zeta. set (f := finalizeMessage _ _ _ _) in *.
  clearbody f. pose proof (content_within _ _ Hm) as [_ Hr].
  case_if; match goal with |- within _ (completeAssistantTiming ?x ?n) =>
    destruct (completeAssistantTiming_frame x n) as (_ & Hv & _ & _ & Hr') end.
  - eapply within_ext; [exact Hv|exact Hr'|]. apply (within_ext _ f); [done..|].
    eapply Forall_impl; [exact Hm|]. cbn. lia.
  - apply within_intro; [rewrite Hv; cbn; constructor; [cbn; lia|done]|]. unfold reasoning_text in *. rewrite Hr'. cbn. lia.
Qed.

(** *** Sizes *)

Lemma versions_size vs n : foldl (fun total v => total + size (v_content v))%N n vs =
  (n + foldr (fun v total => size (v_content v) + total) 0 vs)%N.
Proof. revert n. induction vs as [|v vs IH]; intros n; cbn; [lia|]. rewrite IH. lia. Qed.

Lemma message_size m :
  getMessageSize m = (foldr (fun v total => size (v_content v) + total) 0 (versions m) + size (reasoning_text m))%N.
Proof. unfold getMessageSize, reasoning_text. rewrite versions_size. by destruct (reasoning m). Qed.

Lemma finalize_size m n1 n2 : (getMessageSize (finalizeMessage m None n1 n2) ≤ getMessageSize m)%N.
Proof.
  rewrite !message_size. destruct (finalize_texts m n1 n2) as (c & Ev & _ & _ & H). rewrite Ev. cbn [foldr v_content].
  unfold getMessageContent, getCurrentVersion, size in *. destruct (versions m) as [|v vs]; cbn in *; lia.
Qed.

Lemma sanitize_size m n1 n2 n3 t :
  (getMessageSize (sanitize_one t m n1 n2 n3) ≤ getMessageSize m + size (interrupted_text t))%N.
Proof.
  pose proof (finalize_size m n1 n2) as Hf. unfold sanitize_one. cbv zeta. set (f := finalizeMessage _ _ _ _) in *. clearbody f.
  case_if; match goal with |- context [completeAssistantTiming ?x ?n] =>
    destruct (completeAssistantTiming_frame x n) as (_ & Hv & _ & _ & Hr) end;
    rewrite message_size; unfold reasoning_text; rewrite Hv, Hr; cbn [versions reasoning with_reasoningStreaming with_status
      updateCurrentVersionContent with_versions foldr v_content]; fold (reasoning_text f); rewrite message_size in Hf.
  - lia.
  - unfold reasoning_text in *. lia.
Qed.

Definition total_size (ms : list Message) : N := foldr (fun m n => getMessageSize m + n)%N 0%N ms.

Lemma total_size_cons m ms : total_size (m :: ms) = (getMessageSize m + total_size ms)%N.
Proof. done. Qed.

(** The loop takes messages from the end as long as they fit; the last is always taken. *)
Lemma size_loop_spec rev_ms : ∀ total result,
  total = total_size result → (length result ≤ 1 ∨ (total ≤ MAX_LOADED_MESSAGES_CHARS)%N) →
  ∃ taken skipped, rev_ms = reverse taken ++ skipped ∧ size_loop rev_ms total result = taken ++ result ∧
    (length (taken ++ result) ≤ 1 ∨ (total_size (taken ++ result) ≤ MAX_LOADED_MESSAGES_CHARS)%N) ∧
    (∀ m skipped', skipped = m :: skipped' → MAX_LOADED_MESSAGES_CHARS < total_size (m :: taken ++ result))%N.
Proof.
  induction rev_ms as [|m rev_ms IH]; intros total result -> Hr; cbn [size_loop].
  { exists [], []. split; [done|]. split; [done|]. split; [done|]. done. }
  destruct ((0 <? length result) && (MAX_LOADED_MESSAGES_CHARS <? total_size result + getMessageSize m)%N) eqn:E.
  - exists [], (m :: rev_ms). split; [done|]. split; [done|]. split; [done|]. intros m' skipped' [= <- <-].
    apply andb_true_iff in E as [_ E%N.ltb_lt]. cbn [app]. rewrite total_size_cons. lia.
  - destruct (IH (total_size result + getMessageSize m)%N (m :: result)) as (taken & skipped & -> & -> & Hb & Hm).
    + rewrite total_size_cons. lia.
    + apply andb_false_iff in E as [E%Nat.ltb_ge|E%N.ltb_ge]; [left|right; lia]. destruct result; cbn in *; lia.
    + exists (taken ++ [m]), skipped. rewrite reverse_app. cbn [app]. split; [done|]. rewrite <- app_assoc. cbn [app]. auto.
Qed.

(** The longest end of the conversation that fits, and at least the last message. *)
Lemma trim_by_size_spec ms :
  ∃ k, trimMessagesByContentSize ms = drop k ms ∧
    (length (drop k ms) ≤ 1 ∨ (total_size (drop k ms) ≤ MAX_LOADED_MESSAGES_CHARS)%N) ∧
    (∀ j, j < k → (MAX_LOADED_MESSAGES_CHARS < total_size (drop j ms))%N).
Proof.
  unfold trimMessagesByContentSize. destruct (size_loop_spec (reverse ms) 0%N []) as (taken & skipped & Erev & E & Hb & Hm); [done|left; cbn; lia|].
  rewrite app_nil_r in *. apply (f_equal reverse) in Erev. rewrite reverse_app, !reverse_involutive in Erev.
  exists (length skipped). rewrite E, Erev, <- (length_reverse skipped), drop_app_length. split; [done|]. split; [done|].
  intros j Hj. rewrite length_reverse in Hj. destruct skipped as [|m skipped]; [cbn in Hj; lia|]. specialize (Hm m skipped eq_refl).
  rewrite reverse_cons, <- app_assoc. assert (Hmono : ∀ l1 l2, (total_size l2 ≤ total_size (l1 ++ l2))%N).
  { induction l1 as [|x l1 IH]; intros l2; [done|]. cbn [app]. rewrite total_size_cons. specialize (IH l2). lia. }
  assert (Hjl : j ≤ length (reverse skipped)) by (rewrite length_reverse; cbn in Hj; lia).
  rewrite drop_app_le by done. eapply N.lt_le_trans; [exact Hm|]. apply (Hmono _ ([m] ++ taken)).
Qed.

Lemma sanitize_spec t ms n1 n2 n3 :
  sanitizeMessagesOnLoad t ms n1 n2 n3 = ms ∨
  ∃ i m, ms !! i = Some m ∧ sanitizeMessagesOnLoad t ms n1 n2 n3 = <[i := sanitize_one t m n1 n2 n3]> ms.
Proof.
  unfold sanitizeMessagesOnLoad. destruct (last_pending ms) as [i|]; [|by left]. destruct (ms !! i) as [m|] eqn:E; [|by left].
  right. by exists i, m.
Qed.

Lemma total_size_insert ms i m m' k :
  ms !! i = Some m → (getMessageSize m' ≤ getMessageSize m + k → total_size (<[i := m']> ms) ≤ total_size ms + k)%N.
Proof.
  intros Hi Hm. revert i Hi. induction ms as [|x ms IH]; intros [|i] Hi; [done|done| |]; cbn [list_insert insert];
    rewrite !total_size_cons.
  - injection Hi as ->. lia.
  - apply (IH i) in Hi. change (list_insert i m' ms) with (<[i := m']> ms) in *. set (a := total_size (<[i := m']> ms)) in *. lia.
Qed.

Lemma normalize_key m n1 n2 n3 : key (normalizeStoredMessageForLoad m n1 n2 n3) = key m.
Proof.
  unfold normalizeStoredMessageForLoad. cbv zeta. case_if; [done|]. case_if; [done|].
  match goal with |- key (completeAssistantTiming ?x ?n) = _ => destruct (completeAssistantTiming_frame x n) as [(-> & _) _] end.
  cbn. match goal with |- key (finalizeMessage ?x ?a ?b ?c) = _ => by destruct (finalizeMessage_frame x a b c) as [(-> & _) _] end.
Qed.

Lemma sanitize_key t m n1 n2 n3 : key (sanitize_one t m n1 n2 n3) = key m.
Proof.
  unfold sanitize_one. cbv zeta. destruct (finalizeMessage_frame m None n1 n2) as [(Hk & _) _].
  case_if; match goal with |- key (completeAssistantTiming ?x ?n) = _ => destruct (completeAssistantTiming_frame x n) as [(-> & _) _] end; done.
Qed.

Lemma drop_length_le {A} k (l : list A) : length (drop k l) ≤ length l.
Proof. rewrite length_drop. lia. Qed.

Lemma trim_messages_drop ms : ∃ k, trimMessages ms = drop k ms ∧ length (trimMessages ms) ≤ MAX_STORED_MESSAGES.
Proof.
  unfold trimMessages. destruct (Nat.leb_spec (length ms) MAX_STORED_MESSAGES); [by exists 0|].
  eexists. split; [done|]. rewrite length_drop. lia.
Qed.

Lemma load_limits t ms n1 n2 n3 :
  Forall (within MAX_LOADED_MESSAGE_CHARS) ms →
  let notice := size (interrupted_text t) in
  let loaded := sanitizeMessagesOnLoad t (trimMessagesByContentSize (trimMessages ms)) n1 n2 n3 in
  length loaded ≤ MAX_STORED_MESSAGES ∧ Forall (within (N.max MAX_LOADED_MESSAGE_CHARS notice)) loaded ∧
  (length loaded ≤ 1 ∨ (total_size loaded ≤ MAX_LOADED_MESSAGES_CHARS + notice)%N) ∧
  ∃ k, map key loaded = drop k (map key ms).
Proof.
  intros Hms notice loaded. destruct (trim_messages_drop ms) as (k1 & E1 & Hl). unfold loaded. clear loaded.
  destruct (trim_by_size_spec (trimMessages ms)) as (k2 & E2 & Hb & _). rewrite E2. pose proof (drop_length_le k2 (trimMessages ms)).
  rewrite E1 in *. rewrite drop_drop in *. set (kept_ms := drop (k1 + k2) ms) in *.
  assert (Hkept : Forall (within MAX_LOADED_MESSAGE_CHARS) kept_ms) by by apply Forall_drop.
  assert (Hweak : Forall (within (N.max MAX_LOADED_MESSAGE_CHARS notice)) kept_ms).
  { eapply Forall_impl; [exact Hkept|]. intros m Hm. eapply Forall_impl; [exact Hm|]. cbn. lia. }
  assert (Hkeys : map key kept_ms = drop (k1 + k2) (map key ms)) by by unfold kept_ms; rewrite fmap_drop.
  destruct (sanitize_spec t kept_ms n1 n2 n3) as [->|(i & m & Hi & ->)].
  { split; [lia|]. split; [done|]. split; [destruct Hb; [by left|right; lia]|by exists (k1 + k2)]. }
  rewrite length_insert. split; [lia|]. split; [|split].
  - apply Forall_insert; [done|]. apply sanitize_within. by eapply Forall_lookup_1.
  - destruct Hb as [Hb|Hb]; [by left|right]. pose proof (total_size_insert kept_ms i m _ _ Hi (sanitize_size m n1 n2 n3 t)).
    unfold notice. lia.
  - exists (k1 + k2). rewrite <- Hkeys. change (map key) with (fmap (M := list) key). rewrite list_fmap_insert, sanitize_key.
    apply list_insert_id. by rewrite list_lookup_fmap, Hi.
Qed.

Section load.
Context `{Zod} (accepts : jstr → jstr → bool) (t : jstr → jstr).

(** C24: Whatever text is stored, what is loaded is bounded: at most a hundred messages, no text
    of a message above 40000 units and, unless there is one message only, 120000 units in all
    (up to the notice put into an interrupted answer); and it is the end of the stored
    conversation. *)
Theorem load_bounded now st st' ms :
  loadMessages accepts t now st = (st', Some ms) →
  let notice := size (interrupted_text t) in
  length ms ≤ MAX_STORED_MESSAGES ∧
  Forall (within (N.max MAX_LOADED_MESSAGE_CHARS notice)) ms ∧
  (length ms ≤ 1 ∨ (total_size ms ≤ MAX_LOADED_MESSAGES_CHARS + notice)%N) ∧
  ∃ text v stored k, map_get STORAGE_MESSAGES st = Some text ∧ JSON_parse text = Some v ∧
    parse_messages (unwrapStoredValue v) = Some stored ∧ map key ms = drop k (map key stored).
Proof.
  unfold loadMessages, readStoredMessagesValue. destruct (map_get STORAGE_MESSAGES st) as [[|c text]|]; [done| |done].
  case_if; [done|]. set (txt := c :: text). destruct (JSON_parse txt) as [v|] eqn:Ej; [|done].
  destruct (negb (val_truthy v)); [done|]. destruct (parse_messages (unwrapStoredValue v)) as [stored|] eqn:Es; [|done].
  cbv zeta. set (normalized := imap _ stored). intros [= _ <-].
  destruct (load_limits t normalized (now (3 * length stored)) (now (3 * length stored + 1)) (now (3 * length stored + 2)))
    as (H1 & H2 & H3 & k & H4).
  { apply Forall_lookup. intros i m (m' & _ & ->)%list_lookup_imap_Some. apply normalize_within. }
  split; [done|]. split; [done|]. split; [done|]. exists txt, v, stored, k. do 3 (split; [done|]). etransitivity; [exact H4|]. f_equal.
  apply list_eq. intros i. unfold normalized. rewrite !list_lookup_fmap, list_lookup_imap.
  destruct (stored !! i); cbn; [by rewrite normalize_key|done].
Qed.
End load.

(** ** What is saved is loaded again *)

Definition safe_time (z : Z) : bool := (0 <=? z)%Z && (z <? 2 ^ 53)%Z.
Definition safe_times (o : option Z) : bool := match o with Some z => safe_time z | None => true end.

(** A message that the schema accepts: it has a version, and times that are safe integers. *)
Definition message_ok (m : Message) : bool :=
  negb (length (versions m) =? 0) && safe_times (createdAt m) && safe_times (startedAt m) && safe_times (completedAt m) &&
  safe_times (durationMs m) &&
  match reasoning m with
  | Some r => safe_time (r_duration r) && safe_times (r_startedAt r) && safe_times (r_completedAt r) && safe_times (r_durationMs r)
  | None => true
  end.

(** The lines of a text: one for each position at the start or after a line end. *)
Definition in_line (c : N) : bool := negb (line_end c).

Fixpoint lines_at (start : bool) (s : jstr) : list jstr :=
  (if start then [(span in_line s).1] else []) ++ match s with [] => [] | c :: s' => lines_at (line_end c) s' end.

Definition heading_lines (s : jstr) : list jstr := List.filter (startsWith "##") (lines_at true s).

Definition occurrences (h : jstr) (l : list jstr) : nat := length (List.filter (jeqb h) l).

(** No line that starts with two hashes stands three times in the text. *)
Definition repeats_no_heading (s : jstr) : bool :=
  forallb (fun h => occurrences h (heading_lines s) <? 3) (heading_lines s).

Definition settled_text (s : jstr) : bool :=
  (size s <=? 40000)%N && ((length s <? 2000) || repeats_no_heading s).

(** A message that is final and fits. *)
Definition settled (m : Message) : bool :=
  message_ok m &&
  match status m with Some Loading | Some Streaming => false | _ => true end &&
  forallb (fun v => settled_text (v_content v)) (versions m) &&
  match reasoning m with Some r => (size (r_content r) <=? 40000)%N | None => true end.

Definition storable (ms : list Message) : bool :=
  (length ms <=? 100) && forallb settled ms && (total_size ms <=? 120000)%N && textual (messages_value ms).

Lemma settled_ok m : settled m = true → message_ok m = true.
Proof. unfold settled. rewrite !andb_true_iff. tauto. Qed.

Lemma settled_not_pending m : settled m = true → isAssistantMessagePending m = false.
Proof.
  unfold settled, isAssistantMessagePending, has_status. rewrite !andb_true_iff. intros [[[_ Hp] _] _].
  by destruct (status m) as [[]|].
Qed.

(** *** Headings *)

Lemma span_parts p s : ∃ w r, span p s = (w, r) ∧ s = w ++ r ∧ forallb p w = true ∧ ∀ c r', r = c :: r' → p c = false.
Proof.
  induction s as [|c s (w & r & E & -> & Hw & Hr)]; [by exists [], []|]. cbn [span]. destruct (p c) eqn:Ec.
  - rewrite E. exists (c :: w), r. cbn [forallb app]. by rewrite Ec.
  - exists [], (c :: w ++ r). split; [done|]. split; [done|]. split; [done|]. by intros ? ? [= <- _].
Qed.

Lemma rmatch_seq a b st k x : rmatch (RSeq a b) st k = Some x → ∃ st1, M a st st1 ∧ rmatch b st1 k = Some x.
Proof. exact (rmatch_sound a st _ x). Qed.

(** A last repetition of a class takes all it can. *)
Lemma rplus_last p st x :
  rmatch (rplus (RUnit p)) st Some = Some x →
  ∃ w, rest st = w ++ rest x ∧ JsRegExp.before x = reverse w ++ JsRegExp.before st ∧ ∀ c r, rest x = c :: r → p c = false.
Proof.
  intros H. destruct (span_parts p (rest st)) as (w & r & _ & E & Hw & Hr). destruct w as [|c w].
  - exfalso. apply rmatch_sound in H as (st' & HM & _). apply M_class in HM as (w & r' & E' & Hw' & Hl & _); [|done].
    destruct w as [|c w]; [cbn in Hl; lia|]. cbn [forallb] in Hw'. apply andb_true_iff in Hw' as [Hc _].
    rewrite E' in E. cbn [app] in E. by rewrite (Hr c (w ++ r')) in Hc by done.
  - destruct st as [bef s cs]. cbn [rest JsRegExp.before] in *. subst s. cbn [rmatch groups] in H.
    rewrite (rep_unit_greedy p _ 1 None (c :: w) r bef cs Some (MState (reverse (c :: w) ++ bef) r cs)) in H;
      [|done|right; by destruct r as [|d r]; [|apply (Hr d r)]|cbn; lia|done|cbn; rewrite length_app; lia|done].
    injection H as <-. exists (c :: w). cbn [rest JsRegExp.before]. done.
Qed.

(** A heading starts with two hashes and is taken to the end of a line. *)
Lemma heading_match bef s st :
  rmatch SECTION_HEADING_LINE_PATTERN (MState bef s []) Some = Some st →
  ∃ h, s = "##" ++ h ++ rest st ∧ JsRegExp.before st = reverse ("##" ++ h) ++ bef ∧ ∀ c r, rest st = c :: r → in_line c = false.
Proof.
  unfold SECTION_HEADING_LINE_PATTERN. intros H. apply rmatch_seq in H as (st1 & M1 & H).
  apply rmatch_seq in H as (st2 & (w2 & E2 & B2)%M_consumes & H). apply rmatch_seq in H as (st3 & (w3 & E3 & B3)%M_consumes & H).
  apply rmatch_seq in H as (st4 & (w4 & E4 & B4)%M_consumes & H). apply rmatch_seq in H as (st5 & (w5 & E5 & B5)%M_consumes & H).
  apply rplus_last in H as (w6 & E6 & B6 & Hend). apply M_class in M1 as (w & r & E & Hw & Hl & _ & ->); [|cbn; lia].
  cbn [rest JsRegExp.before] in *. destruct w as [|a [|b w]]; [cbn in Hl; lia..|]. cbn [forallb] in Hw. apply andb_true_iff in Hw as [Ha Hw].
  apply andb_true_iff in Hw as [Hb _]. assert (Hone : ∀ c, one_of "#" c = true → c = 35%N).
  { intros c Hc. unfold one_of in Hc. cbn [existsb] in Hc. rewrite orb_false_r in Hc. by apply N.eqb_eq in Hc. }
  apply Hone in Ha as ->. apply Hone in Hb as ->. exists (w ++ w2 ++ w3 ++ w4 ++ w5 ++ w6). rewrite <- !app_assoc.
  split; [rewrite E, E2, E3, E4, E5, E6; done|]. split; [|exact Hend].
  rewrite B6, B5, B4, B3, B2. rewrite !reverse_app, <- !app_assoc. do 5 f_equal.
  change (35%N :: 35%N :: w) with ("##" ++ w). by rewrite reverse_app, <- app_assoc.
Qed.

Definition at_start (bef : jstr) : bool := match bef with c :: _ => line_end c | [] => true end.
Definition first_line (h : jstr) : jstr := (span in_line h).1.

Lemma lines_suffix a r bef : ∃ l, lines_at (at_start bef) (a ++ r) = l ++ lines_at (at_start (reverse a ++ bef)) r.
Proof.
  revert bef. induction a as [|c a IH]; intros bef; [by exists []|]. destruct (IH (c :: bef)) as (l & Hl). cbn [app lines_at].
  change (line_end c) with (at_start (c :: bef)). rewrite Hl, reverse_cons, <- app_assoc. cbn [app]. eexists. by rewrite app_assoc.
Qed.

Lemma search_lines_spec bef s m :
  search_lines SECTION_HEADING_LINE_PATTERN bef s = Some m →
  ∃ a h, s = a ++ m_text m ++ rest (m_end m) ∧ m_text m = "##" ++ h ∧ at_start (reverse a ++ bef) = true ∧
    JsRegExp.before (m_end m) = reverse (m_text m) ++ reverse a ++ bef ∧ ∀ c r, rest (m_end m) = c :: r → in_line c = false.
Proof.
  revert bef. induction s as [|c s IH]; intros bef; cbn [search_lines]; fold (at_start bef);
    destruct (if at_start bef then rmatch _ _ _ else None) as [st|] eqn:E; try done.
  - destruct (at_start bef); [|done]. by apply heading_match in E as (h & Es & _).
  - destruct (at_start bef) eqn:Eb; [|done]. apply heading_match in E as (h & Es & Hb & Hend). intros [= <-]. cbn [m_text m_end].
    assert (Et : take (length (c :: s) - length (rest st)) (c :: s) = "##" ++ h).
    { rewrite Es, app_assoc. replace (length _ - length (rest st)) with (length ("##" ++ h)) by (rewrite (length_app _ (rest st)); lia).
      by rewrite take_app_length. }
    exists [], h. change (S (length s)) with (length (c :: s)). rewrite Et.
    split; [by rewrite Es, app_assoc|]. done.
  - intros Hm. apply IH in Hm as (a & h & -> & Ht & Hs & Hb & Hend). exists (c :: a), h. rewrite reverse_cons, <- app_assoc. done.
Qed.

(** Every heading found is, with its first line, one of the heading lines. *)
Lemma headings_sublist fuel bef s :
  sublist (map (fun m => first_line (m_text m)) (match_lines fuel SECTION_HEADING_LINE_PATTERN bef s))
    (List.filter (startsWith "##") (lines_at (at_start bef) s)).
Proof.
  revert bef s. induction fuel as [|fuel IH]; intros bef s; [apply sublist_nil_l|]. cbn [match_lines].
  destruct (search_lines _ bef s) as [m|] eqn:E; [|apply sublist_nil_l].
  apply search_lines_spec in E as (a & h & Es & Ht & Hs & Hb & Hend). destruct (lines_suffix a (m_text m ++ rest (m_end m)) bef) as (l1 & Hl1).
  rewrite Es, Hl1, List.filter_app. apply sublist_inserts_l. clear Hl1. rewrite Hs.
  destruct (lines_suffix (35%N :: h) (rest (m_end m)) (35%N :: reverse a ++ bef)) as (l2 & Hl2).
  assert (Hlines : lines_at true (m_text m ++ rest (m_end m)) =
    first_line (m_text m) :: l2 ++ lines_at (at_start (JsRegExp.before (m_end m))) (rest (m_end m))).
  { assert (Hfirst : first_line (m_text m ++ rest (m_end m)) = first_line (m_text m)) by (unfold first_line; by rewrite span_stop).
    rewrite <- Hfirst, Hb, Ht. change ("##" ++ h) with (35%N :: 35%N :: h). rewrite reverse_cons, <- app_assoc.
    change ([35%N] ++ reverse a ++ bef) with (35%N :: reverse a ++ bef). rewrite <- Hl2. done. }
  rewrite Hlines. cbn [List.filter map].
  assert (Hh : startsWith "##" (first_line (m_text m)) = true).
  { rewrite Ht. unfold first_line. change ("##" ++ h) with (35%N :: 35%N :: h). cbn [span]. change (in_line 35) with true. cbn iota.
    by destruct (span in_line h). }
  rewrite Hh, List.filter_app. apply sublist_skip, sublist_inserts_l, IH.
Qed.

Lemma occurrences_sublist h l l' : sublist l l' → occurrences h l ≤ occurrences h l'.
Proof. unfold occurrences. induction 1; cbn [List.filter]; try (destruct (jeqb h x); cbn [length]); lia. Qed.

Lemma heading_count occ h : default 0 (map_get h (getHeadingCounts occ)) = occurrences h (map fst occ).
Proof.
  unfold getHeadingCounts. assert (Hgen : ∀ counts, default 0 (map_get h (foldl
    (fun counts o => map_set o.1 (default 0 (map_get o.1 counts) + 1) counts) counts occ)) = default 0 (map_get h counts) + occurrences h (map fst occ)).
  { induction occ as [|o occ IH]; intros counts; cbn [foldl map]; [unfold occurrences; cbn; lia|]. rewrite IH. unfold occurrences. cbn [List.filter].
    destruct (jeqb_spec h o.1) as [->|Hne]; cbn [length]; [rewrite map_get_set_eq; cbn; lia|rewrite map_get_set_ne by done; lia]. }
  by rewrite Hgen.
Qed.

Lemma no_heading_repeated s :
  repeats_no_heading s = true → findLastRepeatedSectionRunStart s = None.
Proof.
  intros Hs. unfold findLastRepeatedSectionRunStart. set (occ := getSectionOccurrences s).
  assert (Hlow : ∀ h, occurrences h (map fst occ) < 3).
  { intros h. apply (Nat.le_lt_trans _ (occurrences (first_line h) (heading_lines s))).
    - etransitivity; [|apply occurrences_sublist; exact (headings_sublist (S (length s)) [] s)].
      unfold occ, getSectionOccurrences. rewrite map_map. cbn [fst]. generalize (match_lines (S (length s)) SECTION_HEADING_LINE_PATTERN [] s).
      intros ms. unfold occurrences. induction ms as [|m ms IH]; cbn [map List.filter]; [done|].
      destruct (jeqb_spec h (m_text m)) as [->|_]; [rewrite jeqb_refl; cbn [length]; lia|]. destruct (jeqb _ _); cbn [length]; lia.
    - destruct (decide (first_line h ∈ heading_lines s)) as [Hin|Hout].
      + apply Nat.ltb_lt. exact (forallb_elem _ _ _ Hs Hin).
      + assert (E : occurrences (first_line h) (heading_lines s) = 0); [|lia]. unfold occurrences. clear -Hout.
        induction (heading_lines s) as [|x l IH]; [done|]. cbn [List.filter]. apply not_elem_of_cons in Hout as [Hx Hl].
        rewrite (proj2 (jeqb_false _ _) Hx). by apply IH. }
  assert (Hfold : ∀ l, foldl (repeated_step (getHeadingCounts occ)) ([], []) l = ([], [])).
  { induction l as [|o l IH]; [done|]. cbn [foldl]. assert (E : repeated_step (getHeadingCounts occ) ([], []) o = ([], [])); [|by rewrite E].
    unfold repeated_step. rewrite heading_count. unfold MIN_REPEATED_SECTION_COUNT. by rewrite (proj2 (Nat.ltb_lt _ _) (Hlow o.1)). }
  by rewrite Hfold.
Qed.

Lemma settled_text_kept s : settled_text s = true → truncateText (collapseRepeatedSectionSnapshots s) MAX_LOADED_MESSAGE_CHARS = s.
Proof.
  unfold settled_text. intros [Hs Hr]%andb_true_iff. assert (E : collapseRepeatedSectionSnapshots s = s).
  { unfold collapseRepeatedSectionSnapshots, MIN_PREFIX_COLLAPSE_LENGTH. destruct (length s <? 2000); [done|]. cbn [orb] in Hr.
    by rewrite no_heading_repeated. }
  rewrite E. unfold truncateText, MAX_LOADED_MESSAGE_CHARS. by rewrite Hs.
Qed.

Lemma settled_normalize m n1 n2 n3 : settled m = true → normalizeStoredMessageForLoad m n1 n2 n3 = m.
Proof.
  intros Hm. pose proof (settled_not_pending _ Hm) as Hp. unfold settled in Hm. rewrite !andb_true_iff in Hm. destruct Hm as [[_ Hv] Hr].
  assert (E : with_reasoning (load_reasoning <$> reasoning m) (with_versions (map load_version (versions m)) m) = m).
  { assert (Ev : map load_version (versions m) = versions m).
    { clear -Hv. induction (versions m) as [|[i c] vs IH]; [done|]. cbn [forallb map] in *. apply andb_true_iff in Hv as [Hc Hv].
      rewrite (IH Hv). f_equal. unfold load_version. cbn [v_content v_id] in *. by rewrite settled_text_kept. }
    assert (Er : load_reasoning <$> reasoning m = reasoning m).
    { destruct (reasoning m) as [[c d a b e]|]; [|done]. cbn. f_equal. unfold load_reasoning, truncateText, MAX_LOADED_MESSAGE_CHARS.
      cbn [r_content] in *. by rewrite Hr. }
    rewrite Ev, Er. by destruct m. }
  unfold normalizeStoredMessageForLoad. cbv zeta. by rewrite E, Hp.
Qed.

Lemma settled_last_pending ms : forallb settled ms = true → last_pending ms = None.
Proof.
  induction ms as [|m ms IH]; [done|]. cbn [forallb last_pending]. intros [Hm Hms]%andb_true_iff. rewrite IH by done.
  unfold isPendingAssistantMessage. by rewrite (settled_not_pending _ Hm), andb_false_r.
Qed.

Lemma trim_by_size_id ms : (total_size ms ≤ MAX_LOADED_MESSAGES_CHARS)%N → trimMessagesByContentSize ms = ms.
Proof.
  intros Ht. destruct (trim_by_size_spec ms) as ([|k] & -> & _ & Hk); [done|]. specialize (Hk 0 ltac:(lia)). rewrite drop_0 in Hk. lia.
Qed.

Lemma map_set_twice {V} (k : jstr) (v : V) m : map_set k v (map_set k v m) = map_set k v m.
Proof. induction m as [|[k' v'] m IH]; cbn [map_set]; repeat (case_decide; cbn [map_set]); congruence. Qed.

Lemma save_twice `{Zod} accepts ms st : saveMessages accepts ms (saveMessages accepts ms st) = saveMessages accepts ms st.
Proof.
  unfold saveMessages, writeStoredValue, written. destruct (parse_messages _); [|done]. destruct (JSON_compact _); [|done].
  destruct (accepts _ _); [|done]. apply map_set_twice.
Qed.

(** *** What the schema makes of the messages *)

Section reader.

(** [f] reads what [g] writes. *)
Definition inverse {A} (f : jsval → option A) (g : A → jsval) (x : A) : Prop := f (g x) = Some x ∧ g x ≠ JUndefined.

Lemma map_get_app {V} (k : jstr) (a b : list (jstr * V)) :
  map_get k (a ++ b) = match map_get k a with Some x => Some x | None => map_get k b end.
Proof. induction a as [|[k' v] a IH]; [done|]. cbn. by case_decide. Qed.

Lemma map_get_member {A} (k k' : jstr) (f : A → jsval) o :
  map_get k (member k' f o) = if decide (k = k') then f <$> o else None.
Proof. unfold member. destruct o; cbn; by case_decide. Qed.

Lemma optional_member {A} (f : jsval → option A) g (o : option A) :
  (∀ x, o = Some x → inverse f g x) → optional f (default JUndefined (g <$> o)) = Some o.
Proof.
  intros Ho. destruct o as [x|]; [|done]. destruct (Ho x eq_refl) as [Hf Hg]. unfold optional. cbn.
  destruct (g x) eqn:E; [done|..]; by rewrite Hf.
Qed.

Lemma array_inverse {A} (f : jsval → option A) g l : (∀ x, f (g x) = Some x) → read_array f (JArr (map g l)) = Some l.
Proof. intros Hf. cbn. induction l as [|x l IH]; [done|]. cbn. rewrite Hf. cbn. by rewrite IH. Qed.

Lemma time_inverse z : safe_time z = true → inverse read_time time_value z.
Proof.
  unfold safe_time. intros [H1%Z.leb_le H2%Z.ltb_lt]%andb_true_iff. split; [|done]. cbn. f_equal.
  destruct (decide (z = 0%Z)) as [->|]; [done|]. apply num_of_Z_safe. lia.
Qed.

Lemma times_inverse o : safe_times o = true → ∀ z, o = Some z → inverse read_time time_value z.
Proof. intros Ho z ->. by apply time_inverse. Qed.
End reader.

(** Looks a member up in an object that is written out. *)
Ltac lookup_members :=
  cbn [get]; rewrite !map_get_app, ?map_get_member; cbn [map_get];
  repeat match goal with
  | |- context [decide (?a = ?b)] =>
    let E := fresh in destruct (decide (a = b)) as [E|E]; [try discriminate E|try (exfalso; apply E; reflexivity)]; clear E
  end.

Ltac solve_member :=
  lookup_members; try match goal with |- context [@fmap option ?F ?A ?B ?f ?o] => destruct (@fmap option F A B f o) end; reflexivity.

Lemma reasoning_members r :
  let v := reasoning_value r in
  get "content" v = JStr (r_content r) ∧ get "duration" v = time_value (r_duration r) ∧
  get "startedAt" v = default JUndefined (time_value <$> r_startedAt r) ∧
  get "completedAt" v = default JUndefined (time_value <$> r_completedAt r) ∧
  get "durationMs" v = default JUndefined (time_value <$> r_durationMs r).
Proof. cbv zeta. unfold reasoning_value. do 4 (apply conj; [solve_member|]). solve_member. Qed.

Lemma message_members m :
  let v := message_value m in
  (get "key" v = JStr (key m) ∧ get "from" v = JStr (role_text (from m)) ∧
   get "versions" v = JArr (map version_value (versions m)) ∧
   get "createdAt" v = default JUndefined (time_value <$> createdAt m) ∧
   get "startedAt" v = default JUndefined (time_value <$> startedAt m) ∧
   get "completedAt" v = default JUndefined (time_value <$> completedAt m) ∧
   get "durationMs" v = default JUndefined (time_value <$> durationMs m)) ∧
  get "sources" v = default JUndefined ((fun ss => JArr (map source_value ss)) <$> sources m) ∧
  get "reasoning" v = default JUndefined (reasoning_value <$> reasoning m) ∧
  get "isReasoningStreaming" v = default JUndefined (JBool <$> isReasoningStreaming m) ∧
  get "isReasoningComplete" v = default JUndefined (JBool <$> isReasoningComplete m) ∧
  get "isContentComplete" v = default JUndefined (JBool <$> isContentComplete m) ∧
  get "status" v = default JUndefined ((fun s => JStr (status_text s)) <$> status m) ∧
  get "errorCode" v = default JUndefined (error_value <$> errorCode m).
Proof.
  cbv zeta. unfold message_value. apply conj; [do 6 (apply conj; [solve_member|]); solve_member|].
  do 6 (apply conj; [solve_member|]). solve_member.
Qed.

Lemma read_reasoning_value r :
  safe_time (r_duration r) && safe_times (r_startedAt r) && safe_times (r_completedAt r) && safe_times (r_durationMs r) = true →
  inverse read_reasoning reasoning_value r.
Proof.
  rewrite !andb_true_iff. intros [[[Hd Ha] Hb] He]. split; [|done]. unfold read_reasoning.
  destruct (reasoning_members r) as (-> & -> & -> & -> & ->). cbn [read_string mbind option_bind].
  rewrite (proj1 (time_inverse _ Hd)). cbn [mbind option_bind].
  rewrite (optional_member read_time time_value (r_startedAt r)), (optional_member read_time time_value (r_completedAt r)),
    (optional_member read_time time_value (r_durationMs r)) by (by apply times_inverse). by destruct r.
Qed.

Lemma read_message_value m : message_ok m = true → read_message (message_value m) = Some m.
Proof.
  unfold message_ok. rewrite !andb_true_iff. intros [[[[[Hv H1] H2] H3] H4] Hr]. unfold read_message.
  destruct (message_members m) as [(-> & -> & -> & -> & -> & -> & ->) (-> & -> & -> & -> & -> & -> & ->)].
  cbn [read_string mbind option_bind].
  assert (read_role (JStr (role_text (from m))) = Some (from m)) as -> by by destruct (from m).
  cbn [mbind option_bind]. rewrite array_inverse by by intros []. cbn [mbind option_bind].
  rewrite (optional_member read_time time_value (createdAt m)), (optional_member read_time time_value (startedAt m)),
    (optional_member read_time time_value (completedAt m)), (optional_member read_time time_value (durationMs m))
    by (by apply times_inverse).
  rewrite (optional_member _ (fun ss => JArr (map source_value ss)) (sources m))
    by (intros ss _; split; [apply array_inverse; by intros []|done]).
  rewrite (optional_member read_reasoning reasoning_value (reasoning m))
    by (intros r Er; apply read_reasoning_value; by rewrite Er in Hr).
  rewrite !(optional_member read_bool JBool) by (by intros b _; split).
  rewrite (optional_member read_status (fun s => JStr (status_text s)) (status m)) by (by intros [] _; split).
  rewrite (optional_member read_error error_value (errorCode m)) by (by intros [] _; split). cbn [mbind option_bind].
  by destruct m.
Qed.

Lemma safe_time_finite z : safe_time z = true → isFinite (num_of_Z z) = true.
Proof.
  unfold safe_time. intros [H1%Z.leb_le H2%Z.ltb_lt]%andb_true_iff. destruct (decide (z = 0%Z)) as [->|]; [done|].
  rewrite num_of_Z_rep by lia. done.
Qed.

Lemma filter_member {A} (k : jstr) (f : A → jsval) o kvs :
  (∀ x, f x ≠ JUndefined) →
  List.filter defined ((k, default JUndefined (f <$> o)) :: kvs) = member k f o ++ List.filter defined kvs.
Proof.
  intros Hf. destruct o as [x|]; [|done]. specialize (Hf x). cbn -[defined].
  assert (defined (k, f x) = true) as -> by (unfold defined; cbn; by destruct (f x)). done.
Qed.

Lemma member_defined {A} (k : jstr) (f : A → jsval) o : (∀ x, f x ≠ JUndefined) → forallb defined (member k f o) = true.
Proof. intros Hf. destruct o as [x|]; [|done]. cbn. specialize (Hf x). unfold defined. cbn. by destruct (f x). Qed.

Lemma filter_cons_defined (k : jstr) v kvs : v ≠ JUndefined → List.filter defined ((k, v) :: kvs) = (k, v) :: List.filter defined kvs.
Proof. intros Hv. cbn [List.filter]. by destruct v. Qed.

Section parsing.
Context `{ZodLaws}.

Lemma parse_optional {A} inner (f : A → jsval) (o : option A) :
  (∀ x, o = Some x → zod_parse inner (f x) = Some (f x)) →
  zod_parse (ZOptional inner) (default JUndefined (f <$> o)) = Some (default JUndefined (f <$> o)).
Proof.
  intros Ho. rewrite zod_optional. destruct o as [x|]; [|done]. specialize (Ho x eq_refl). cbn.
  destruct (f x); [done|exact Ho..].
Qed.

Lemma parse_time z : safe_time z = true → zod_parse ZNumber (time_value z) = Some (time_value z).
Proof. intros Hz. rewrite zod_number. unfold time_value. cbn iota. by rewrite safe_time_finite. Qed.

Lemma parse_times o : safe_times o = true →
  zod_parse (ZOptional ZNumber) (default JUndefined (time_value <$> o)) = Some (default JUndefined (time_value <$> o)).
Proof. intros Ho. apply parse_optional. intros z ->. by apply parse_time. Qed.

Lemma parse_flag o : zod_parse (ZOptional ZBoolean) (default JUndefined (JBool <$> o)) = Some (default JUndefined (JBool <$> o)).
Proof. apply parse_optional. intros b _. by rewrite zod_boolean. Qed.

Lemma parse_array {A} item min (f : A → jsval) (l : list A) :
  min ≤ length l → (∀ x, x ∈ l → zod_parse item (f x) = Some (f x)) →
  zod_parse (ZArray item min) (JArr (map f l)) = Some (JArr (map f l)).
Proof.
  intros Hmin Hf. rewrite zod_array. rewrite length_map, (proj2 (Nat.leb_le _ _) Hmin).
  assert (E : mapM (zod_parse item) (map f l) = Some (map f l)); [|by rewrite E].
  clear Hmin. induction l as [|x l IH]; [done|]. cbn [map mapM]. rewrite (Hf x) by (by left). cbn [mbind option_bind].
  rewrite IH; [done|]. intros y Hy. apply Hf. by right.
Qed.

Lemma parse_version v : zod_parse messageVersionSchema (version_value v) = Some (version_value v).
Proof. unfold messageVersionSchema, version_value. rewrite zod_object by done. cbn. by rewrite !zod_string. Qed.

Lemma parse_source s : zod_parse sourceSchema (source_value s) = Some (source_value s).
Proof. unfold sourceSchema, source_value. rewrite zod_object by done. cbn. by rewrite !zod_string. Qed.

Lemma parse_reasoning r :
  safe_time (r_duration r) && safe_times (r_startedAt r) && safe_times (r_completedAt r) && safe_times (r_durationMs r) = true →
  zod_parse reasoningSchema (reasoning_value r) = Some (reasoning_value r).
Proof.
  rewrite !andb_true_iff. intros [[[Hd Ha] Hb] He]. unfold reasoningSchema. unfold reasoning_value at 1.
  rewrite zod_object by (by cbn [forallb app]; rewrite !forallb_app, !member_defined).
  fold (reasoning_value r). destruct (reasoning_members r) as (E1 & E2 & E3 & E4 & E5). cbn [mapM fst snd].
  rewrite E1, E2, E3, E4, E5, zod_string, parse_time, !parse_times by done. cbn [fmap option_fmap option_map mbind option_bind mret option_ret].
  f_equal. unfold reasoning_value. f_equal. rewrite (filter_cons_defined _ (JStr _)), (filter_cons_defined _ (time_value _)) by done.
  by rewrite !filter_member, app_nil_r by done.
Qed.

Lemma parse_errorCode o : zod_parse (ZOptional (ZNullable ZString)) (default JUndefined (error_value <$> o)) = Some (default JUndefined (error_value <$> o)).
Proof. apply parse_optional. intros e _. rewrite zod_nullable. destruct e; [|done]. by rewrite zod_string. Qed.

Lemma parse_message m : message_ok m = true → zod_parse messageSchema (message_value m) = Some (message_value m).
Proof.
  unfold message_ok. rewrite !andb_true_iff. intros [[[[[Hv H1] H2] H3] H4] Hr]. unfold messageSchema. unfold message_value at 1.
  assert (Hne : ∀ e, error_value e ≠ JUndefined) by (by intros []).
  rewrite zod_object by (by rewrite !forallb_app, !member_defined). fold (message_value m).
  destruct (message_members m) as [(E1 & E2 & E3 & E4 & E5 & E6 & E7) (E8 & E9 & E10 & E11 & E12 & E13 & E14)]. cbn [mapM fst snd].
  rewrite E1, E2, E3, E4, E5, E6, E7, E8, E9, E10, E11, E12, E13, E14, zod_string, !parse_times, !parse_flag, parse_errorCode by done.
  assert (Erole : zod_parse messageRoleSchema (JStr (role_text (from m))) = Some (JStr (role_text (from m)))).
  { unfold messageRoleSchema. rewrite zod_enum. by destruct (from m). }
  assert (Evers : zod_parse (ZArray messageVersionSchema 1) (JArr (map version_value (versions m))) = Some (JArr (map version_value (versions m)))).
  { apply parse_array; [by destruct (versions m); [|cbn; lia]|]. intros v _. apply parse_version. }
  rewrite Erole, Evers.
  rewrite (parse_optional (ZArray sourceSchema 0)) by (intros ss _; apply parse_array; [lia|intros x _; apply parse_source]).
  rewrite (parse_optional reasoningSchema) by (intros r Er; apply parse_reasoning; by rewrite Er in Hr).
  rewrite (parse_optional messageStatusSchema) by (intros st _; unfold messageStatusSchema; rewrite zod_enum; by destruct st).
  cbn [fmap option_fmap option_map mbind option_bind mret option_ret]. f_equal. unfold message_value. f_equal.
  rewrite (filter_cons_defined _ (JStr (key m))), (filter_cons_defined _ (JStr (role_text _))), (filter_cons_defined _ (JArr _)) by done.
  rewrite !filter_member by done. cbn [List.filter]. by rewrite app_nil_r.
Qed.

(** The schema returns the messages it was given. *)
Lemma messages_parse_back ms : forallb message_ok ms = true → parse_messages (messages_value ms) = Some ms.
Proof.
  intros Hms. unfold parse_messages, messagesSchema, messages_value.
  rewrite parse_array; [|lia|intros m Hm; apply parse_message; exact (forallb_elem _ _ _ Hms Hm)]. cbn [mbind option_bind].
  unfold read_messages. cbn [read_array]. induction ms as [|m ms IH]; [done|]. cbn [forallb] in Hms. apply andb_true_iff in Hms as [Hm Hms].
  cbn [map mapM]. rewrite read_message_value by done. cbn [mbind option_bind]. by rewrite IH.
Qed.

(** The members of what an object schema returned. *)
Lemma object_parsed shape fs w :
  forallb defined fs = true → NoDup (map fst shape) → zod_parse (ZObject shape) (JObj fs) = Some w →
  ∀ k s, (k, s) ∈ shape → zod_parse s (get k (JObj fs)) = Some (get k w).
Proof.
  intros Hd Hnd. rewrite zod_object by done. set (v := JObj fs). clearbody v. clear Hd fs. intros (kvs & Hk & ->)%fmap_Some. cbn [get].
  assert (Hout : ∀ k shape kvs, k ∉ map fst shape → mapM (fun ks => pair ks.1 <$> zod_parse ks.2 (get ks.1 v)) shape = Some kvs →
    map_get k (List.filter defined kvs) = None).
  { clear. intros k. induction shape as [|[j s] shape IH]; intros kvs Hk; cbn [mapM map fst snd] in *; [by intros [= <-]|].
    apply not_elem_of_cons in Hk as [Hj Hk]. intros (x & Hx & (l & Hl & [= <-])%bind_Some)%bind_Some. apply fmap_Some in Hx as (y & _ & ->).
    cbn [List.filter]. destruct (defined (j, y)); [|by eapply IH]. cbn [map_get]. rewrite decide_False by done. by eapply IH. }
  revert kvs Hk. induction shape as [|[j s'] shape IH]; intros kvs Hk k s Hin; [by apply elem_of_nil in Hin|].
  cbn [mapM map fst snd] in *. apply NoDup_cons in Hnd as [Hj Hnd].
  apply bind_Some in Hk as (x & Hx & (l & Hl & [= <-])%bind_Some). apply fmap_Some in Hx as (y & Hy & ->).
  apply elem_of_cons in Hin as [[= -> ->]|Hin].
  - rewrite Hy. f_equal. cbn [List.filter]. destruct (defined (j, y)) eqn:Ed.
    + cbn [map_get]. by rewrite decide_True.
    + rewrite (Hout j shape) by done. unfold defined in Ed. cbn in Ed. by destruct y.
  - rewrite (IH Hnd l Hl k s Hin). f_equal. cbn [List.filter]. destruct (defined (j, y)); [|done]. cbn [map_get].
    rewrite decide_False; [done|]. intros ->. apply Hj. apply list_elem_of_fmap. by exists (j, s).
Qed.

Lemma read_parsed {A} (f : jsval → option A) s v w :
  (∀ w, zod_parse s v = Some w → is_Some (f w)) → zod_parse (ZOptional s) v = Some w → is_Some (optional f w).
Proof.
  intros Hf. rewrite zod_optional. destruct v; [by intros [= <-]; eexists|..]; intros (x & Hx)%Hf; unfold optional; destruct w; rewrite ?Hx; by eexists.
Qed.

Lemma proper_defined fs : proper (JObj fs) → forallb defined fs = true.
Proof.
  intros [_ Hf]%proper_obj. apply forallb_forall. intros [k v] Hin%list_elem_of_In. rewrite Forall_forall in Hf. specialize (Hf _ Hin).
  unfold defined. cbn in *. by destruct v.
Qed.

Lemma string_read v w : zod_parse ZString v = Some w → is_Some (read_string w).
Proof. rewrite zod_string. destruct v; try done. intros [= <-]. by eexists. Qed.
Lemma number_read v w : zod_parse ZNumber v = Some w → is_Some (read_time w).
Proof. rewrite zod_number. destruct v; try done. case_if; [|done]. intros [= <-]. by eexists. Qed.
Lemma flag_read v w : zod_parse ZBoolean v = Some w → is_Some (read_bool w).
Proof. rewrite zod_boolean. destruct v; try done. intros [= <-]. by eexists. Qed.
Lemma role_read v w : zod_parse messageRoleSchema v = Some w → is_Some (read_role w).
Proof.
  unfold messageRoleSchema. rewrite zod_enum. destruct v; try done. destruct (has _ _) eqn:Eh; [|done]. intros [= <-]. apply has_true in Eh.
  rewrite !elem_of_cons, elem_of_nil in Eh. destruct_or? Eh; subst; by eexists.
Qed.
Lemma status_read v w : zod_parse messageStatusSchema v = Some w → is_Some (read_status w).
Proof.
  unfold messageStatusSchema. rewrite zod_enum. destruct v; try done. destruct (has _ _) eqn:Eh; [|done]. intros [= <-]. apply has_true in Eh.
  rewrite !elem_of_cons, elem_of_nil in Eh. destruct_or? Eh; subst; by eexists.
Qed.
Lemma error_read v w : zod_parse (ZNullable ZString) v = Some w → is_Some (read_error w).
Proof. rewrite zod_nullable. destruct v; rewrite ?zod_string; try done; intros [= <-]; by eexists. Qed.

Lemma array_read {A} (f : jsval → option A) item min v w :
  (∀ v w, proper v → zod_parse item v = Some w → is_Some (f w)) → proper v →
  zod_parse (ZArray item min) v = Some w → is_Some (read_array f w).
Proof.
  intros Hf Hp. rewrite zod_array. destruct v as [| | | | |l|]; try done. case_match; [|done]. intros (ws & Hws & ->)%fmap_Some. cbn [read_array].
  apply proper_arr in Hp. match goal with E : (_ <=? _) = true |- _ => clear E end.
  revert ws Hws. induction l as [|v l IH]; intros ws; cbn [mapM]; [intros [= <-]; by eexists|].
  apply Forall_cons in Hp as [Hv Hl]. intros (x & Hx & (xs & Hxs & [= <-])%bind_Some)%bind_Some. cbn [mapM].
  destruct (Hf v x) as [y ->]; [done|done|]. cbn [mbind option_bind]. destruct (IH Hl xs Hxs) as [ys ->]. by eexists.
Qed.

(** An object schema on a proper value: its members are parsed one by one. *)
Lemma proper_object_parsed shape v w :
  proper v → zod_parse (ZObject shape) v = Some w → NoDup (map fst shape) →
  ∀ k s, (k, s) ∈ shape → zod_parse s (get k v) = Some (get k w) ∧ (get k v = JUndefined ∨ proper (get k v)).
Proof.
  intros Hp Hw Hnd k s Hin. destruct v as [| | | | | |fs]; try by rewrite zod_not_object in Hw.
  split; [by eapply object_parsed; [apply proper_defined| |..]|]. cbn [get]. destruct (map_get k fs) as [x|] eqn:E; [right|by left].
  apply proper_obj in Hp as [_ Hf]. apply map_get_elem in E. rewrite Forall_forall in Hf. exact (Hf _ E).
Qed.

Ltac in_shape := repeat first [apply elem_of_cons; left; reflexivity | apply elem_of_cons; right].
Ltac no_twice := apply (bool_decide_unpack _); vm_compute; exact I.
(** Reads the member [k] of a parsed object with the lemma [L]. *)
Ltac read_member Hm k L :=
  let x := fresh "x" in let E := fresh "E" in let P := fresh "P" in
  destruct (Hm k _ ltac:(in_shape)) as [E P];
  let R := fresh "R" in pose proof L as R; destruct (R E) as [x ->]; cbn [mbind option_bind]; clear R E P.

Lemma version_read v w : proper v → zod_parse messageVersionSchema v = Some w → is_Some (read_version w).
Proof.
  intros Hp Hw. pose proof (proper_object_parsed _ _ _ Hp Hw ltac:(no_twice)) as Hm. unfold read_version.
  read_member Hm "id" (string_read (get "id" v) (get "id" w)). read_member Hm "content" (string_read (get "content" v) (get "content" w)).
  by eexists.
Qed.

Lemma source_read v w : proper v → zod_parse sourceSchema v = Some w → is_Some (read_source w).
Proof.
  intros Hp Hw. pose proof (proper_object_parsed _ _ _ Hp Hw ltac:(no_twice)) as Hm. unfold read_source.
  read_member Hm "href" (string_read (get "href" v) (get "href" w)). read_member Hm "title" (string_read (get "title" v) (get "title" w)).
  by eexists.
Qed.

Lemma time_member v w : zod_parse (ZOptional ZNumber) v = Some w → is_Some (optional read_time w).
Proof. apply read_parsed. intros w'. apply number_read. Qed.
Lemma flag_member v w : zod_parse (ZOptional ZBoolean) v = Some w → is_Some (optional read_bool w).
Proof. apply read_parsed. intros w'. apply flag_read. Qed.

Lemma reasoning_read v w : proper v → zod_parse reasoningSchema v = Some w → is_Some (read_reasoning w).
Proof.
  intros Hp Hw. pose proof (proper_object_parsed _ _ _ Hp Hw ltac:(no_twice)) as Hm. unfold read_reasoning.
  read_member Hm "content" (string_read (get "content" v) (get "content" w)).
  read_member Hm "duration" (number_read (get "duration" v) (get "duration" w)).
  read_member Hm "startedAt" (time_member (get "startedAt" v) (get "startedAt" w)).
  read_member Hm "completedAt" (time_member (get "completedAt" v) (get "completedAt" w)).
  read_member Hm "durationMs" (time_member (get "durationMs" v) (get "durationMs" w)). by eexists.
Qed.

(** An optional member of a proper object. *)
Lemma proper_member {A} (f : jsval → option A) s v w :
  (v = JUndefined ∨ proper v) → (∀ w, proper v → zod_parse s v = Some w → is_Some (f w)) →
  zod_parse (ZOptional s) v = Some w → is_Some (optional f w).
Proof.
  intros [->|Hp] Hf Hw; [rewrite zod_optional in Hw; injection Hw as <-; by eexists|].
  eapply read_parsed; [|exact Hw]. intros w'. by apply Hf.
Qed.

Lemma message_read v w : proper v → zod_parse messageSchema v = Some w → is_Some (read_message w).
Proof.
  intros Hp Hw. pose proof (proper_object_parsed _ _ _ Hp Hw ltac:(no_twice)) as Hm. unfold read_message.
  read_member Hm "key" (string_read (get "key" v) (get "key" w)). read_member Hm "from" (role_read (get "from" v) (get "from" w)).
  destruct (Hm "versions" _ ltac:(in_shape)) as [Ev [Uv|Pv]]; [rewrite Uv, zod_array in Ev; done|].
  destruct (array_read read_version _ _ _ _ version_read Pv Ev) as [vs ->]. cbn [mbind option_bind].
  read_member Hm "createdAt" (time_member (get "createdAt" v) (get "createdAt" w)).
  read_member Hm "startedAt" (time_member (get "startedAt" v) (get "startedAt" w)).
  read_member Hm "completedAt" (time_member (get "completedAt" v) (get "completedAt" w)).
  read_member Hm "durationMs" (time_member (get "durationMs" v) (get "durationMs" w)).
  destruct (Hm "sources" _ ltac:(in_shape)) as [Es Ps].
  destruct (proper_member (read_array read_source) _ _ _ Ps (fun w' P => array_read _ _ _ _ w' source_read P) Es) as [so ->].
  cbn [mbind option_bind]. destruct (Hm "reasoning" _ ltac:(in_shape)) as [Er Pr].
  destruct (proper_member read_reasoning _ _ _ Pr (fun w' P => reasoning_read _ w' P) Er) as [re ->]. cbn [mbind option_bind].
  read_member Hm "isReasoningStreaming" (flag_member (get "isReasoningStreaming" v) (get "isReasoningStreaming" w)).
  read_member Hm "isReasoningComplete" (flag_member (get "isReasoningComplete" v) (get "isReasoningComplete" w)).
  read_member Hm "isContentComplete" (flag_member (get "isContentComplete" v) (get "isContentComplete" w)).
  read_member Hm "status" (read_parsed read_status messageStatusSchema (get "status" v) (get "status" w) (status_read _)).
  read_member Hm "errorCode" (read_parsed read_error (ZNullable ZString) (get "errorCode" v) (get "errorCode" w) (error_read _)).
  by eexists.
Qed.

(** What the schema returns for a JSON text can be read as messages: the typed view loses none. *)
Lemma messages_read text v w :
  JSON_parse text = Some v → zod_parse messagesSchema v = Some w → ∃ ms, parse_messages v = Some ms.
Proof.
  intros Hv%JSON_parse_proper Hw. unfold parse_messages. rewrite Hw. cbn [mbind option_bind].
  exact (array_read read_message _ _ _ _ message_read Hv Hw).
Qed.
End parsing.

Lemma envelope_textual v : textual v = true → textual (JObj [("version", JNum (num_of_Z STORAGE_VERSION)); ("data", v)]) = true.
Proof. intros Hv. cbn [textual forallb fst snd]. rewrite Hv. by vm_compute. Qed.

(** C21: a conversation that is saved is loaded as it was, and loading leaves the storage as it
    was.  This holds for at most a hundred messages with 120000 units of text in all, each with a
    version, no pending status, texts of at most 40000 units and times that are safe integers, where
    a version of 2000 units or more repeats no heading line three times, if the browser stores the
    text and the text is not longer than what loading accepts. *)
Theorem save_load_roundtrip `{ZodLaws} accepts t now ms st text :
  storable ms = true → messages_text accepts ms = Some text → (size text ≤ MAX_STORED_MESSAGES_BYTES)%N →
  loadMessages accepts t now (saveMessages accepts ms st) = (saveMessages accepts ms st, Some ms).
Proof.
  unfold storable. rewrite !andb_true_iff. intros [[[Hl%Nat.leb_le Hs] Ht%N.leb_le] Hx] Htext Hsize.
  assert (Hok : forallb message_ok ms = true).
  { rewrite forallb_forall in *. intros m Hm. by apply settled_ok, Hs. }
  assert (Htrim : trimMessages ms = ms) by (unfold trimMessages, MAX_STORED_MESSAGES; by rewrite (proj2 (Nat.leb_le _ _) Hl)).
  pose proof (messages_parse_back ms Hok) as Hschema.
  assert (Hj : JSON_parse text = Some (JObj [("version", JNum (num_of_Z STORAGE_VERSION)); ("data", messages_value ms)]) ∧ text ≠ []).
  { destruct (JSON_parse_compact _ (envelope_textual _ Hx)) as (text' & Hc & Hne & Hp).
    unfold messages_text in Htext. rewrite Htrim, Hschema in Htext. cbn [mbind option_bind] in Htext. rewrite Hc in Htext.
    cbn [mbind option_bind] in Htext. destruct (accepts _ _); [|done]. injection Htext as <-. done. }
  destruct Hj as [Hj Hne]. unfold loadMessages at 1, readStoredMessagesValue. rewrite (save_text accepts ms st text Htext).
  destruct text as [|c text]; [done|]. rewrite (proj2 (N.ltb_ge _ _) Hsize), Hj. cbn [val_truthy negb].
  assert (Hu : unwrapStoredValue (JObj [("version", JNum (num_of_Z STORAGE_VERSION)); ("data", messages_value ms)]) = messages_value ms)
    by done.
  rewrite Hu, Hschema. cbv zeta.
  assert (Hn : imap (fun i m => normalizeStoredMessageForLoad m (now (3 * i)) (now (3 * i + 1)) (now (3 * i + 2))) ms = ms).
  { apply list_eq. intros i. rewrite list_lookup_imap. destruct (ms !! i) as [m|] eqn:Em; [|done]. cbn. f_equal.
    apply settled_normalize. rewrite forallb_forall in Hs. apply Hs, list_elem_of_In. by eapply list_elem_of_lookup_2. }
  rewrite Hn, Htrim, trim_by_size_id by done. unfold sanitizeMessagesOnLoad. rewrite settled_last_pending by done.
  by rewrite save_twice.
Qed.

(** Saving has no limit on the length of the text, loading has: a conversation that saves to
    more than 1048576 units is deleted when it is loaded. *)
Lemma oversized_conversation_lost `{Zod} accepts t now ms st text :
  messages_text accepts ms = Some text → (MAX_STORED_MESSAGES_BYTES < size text)%N →
  loadMessages accepts t now (saveMessages accepts ms st) = (delete_prop STORAGE_MESSAGES (saveMessages accepts ms st), None).
Proof.
  intros Htext Hsize. unfold loadMessages at 1, readStoredMessagesValue. rewrite (save_text accepts ms st text Htext).
  destruct text as [|c text]; [by vm_compute in Hsize|]. by rewrite (proj2 (N.ltb_lt _ _) Hsize).
Qed.

(** ** A parser for evaluation

    The laws determine it. *)

Fixpoint eval_schema (s : zschema) (v : jsval) : option jsval :=
  match s with
  | ZString => match v with JStr _ => Some v | _ => None end
  | ZNumber => match v with JNum n => if isFinite n then Some v else None | _ => None end
  | ZBoolean => match v with JBool _ => Some v | _ => None end
  | ZEnum values => match v with JStr t => if has t values then Some v else None | _ => None end
  | ZArray item min =>
    match v with JArr l => if min <=? length l then JArr <$> mapM (eval_schema item) l else None | _ => None end
  | ZObject shape =>
    match v with
    | JObj _ =>
      (fun kvs => JObj (List.filter defined kvs)) <$> mapM (fun ks => pair ks.1 <$> eval_schema ks.2 (get ks.1 v)) shape
    | _ => None
    end
  | ZOptional inner => match v with JUndefined => Some v | _ => eval_schema inner v end
  | ZNullable inner => match v with JNull => Some v | _ => eval_schema inner v end
  end.

#[local] Instance eval_zod : Zod := eval_schema.

#[local] Instance eval_laws : ZodLaws.
Proof. split; try done. intros shape v Hv. destruct v; try done. by destruct (Hv fields). Qed.

(** *** Witnesses *)

Definition any_text (k text : jstr) : bool := true.
Definition no_translation (s : jstr) : jstr := s.

Definition demo_answer : Message :=
  MkMessage "m2" RoleAssistant [Version "v2" "hello"] (Some 1000%Z) (Some 1000%Z) (Some 1500%Z) (Some 500%Z) None
    (Some (MkReasoning "thinking" 1 (Some 1000%Z) (Some 1200%Z) (Some 200%Z))) (Some false) None None (Some Complete) None.

Definition demo_messages : list Message := [createUserMessage "m1" "v1" "hi" 990; demo_answer].

Definition demo_saved : localStorage := saveMessages any_text demo_messages [].

Lemma save_load_roundtrip_witness :
  loadMessages any_text no_translation (fun _ => 0%Z) demo_saved = (demo_saved, Some demo_messages).
Proof.
  assert (H1 : storable demo_messages = true) by (vm_compute; reflexivity).
  assert (H2 : ∃ text, messages_text any_text demo_messages = Some text ∧ (size text <=? MAX_STORED_MESSAGES_BYTES)%N = true)
    by (eexists; split; [vm_compute; reflexivity|vm_compute; reflexivity]).
  destruct H2 as (text & H2 & H3). apply N.leb_le in H3.
  exact (save_load_roundtrip any_text no_translation (fun _ => 0%Z) demo_messages [] text H1 H2 H3).
Defined.

Abbreviation demo_page es := (playground_run any_text no_translation es (initial demo_saved)).

Lemma changes_reach_storage_witness :
  let s := demo_page ([LoadTimer (fun _ => 0%Z)] ++ UpdateMessages (UpdateWith (take 1)) :: [ResetConfig; Unmount]) in
  (mounted s = true ∧ messagesSaveTimer s = true) ∨
  ∀ text, messages_text any_text (p_messages s) = Some text → map_get STORAGE_MESSAGES (store s) = Some text.
Proof.
  assert (H1 : hasLoadedMessages (demo_page [LoadTimer (fun _ => 0%Z)]) = true) by (vm_compute; reflexivity).
  assert (H2 : mounted (demo_page [LoadTimer (fun _ => 0%Z)]) = true) by (vm_compute; reflexivity).
  exact (changes_reach_storage any_text no_translation demo_saved [LoadTimer (fun _ => 0%Z)] (UpdateWith (take 1))
    [ResetConfig; Unmount] H1 H2).
Defined.

Lemma load_bounded_witness :
  let notice := size (interrupted_text no_translation) in
  length demo_messages ≤ MAX_STORED_MESSAGES ∧
  Forall (within (N.max MAX_LOADED_MESSAGE_CHARS notice)) demo_messages ∧
  (length demo_messages ≤ 1 ∨ (total_size demo_messages ≤ MAX_LOADED_MESSAGES_CHARS + notice)%N) ∧
  ∃ text v stored k, map_get STORAGE_MESSAGES demo_saved = Some text ∧ JSON_parse text = Some v ∧
    parse_messages (unwrapStoredValue v) = Some stored ∧ map key demo_messages = drop k (map key stored).
Proof.
  assert (H : loadMessages any_text no_translation (fun _ => 0%Z) demo_saved = (demo_saved, Some demo_messages))
    by (vm_compute; reflexivity).
  exact (load_bounded any_text no_translation (fun _ => 0%Z) demo_saved demo_saved demo_messages H).
Defined.
