(* ===== verification/PlaygroundChat.v ===== *)
(** * Playground chat sessions

    Model of the session logic of the playground: the request payload
    ([lib/streaming/payload-builder.ts]), the SSE connection
    ([hooks/use-stream-request.ts]), the chat handler
    ([hooks/use-chat-handler.ts]) and the conversation actions
    ([hooks/use-playground-conversation.ts]).

    The refs and state variables of the hooks are the fields of [ChatState];
    each callback of the hooks is a function on it, and [handle] composes them
    the way the event handlers do.  [Step] lets the environment (the user, the
    server, timers) deliver any event whose source is live: an SSE source
    delivers events until it is closed, the flush timer fires when it is armed,
    a pending request settles once, and the buttons that are disabled while an
    answer is generated do not fire then.  The edit form is not disabled.

    [now i] is the [i]-th reading of the clock while an event is handled;
    [t] is the translation function. *)

From S2P Require Import Prelude PlaygroundMessage.

(** ** The request payload *)

Section payload.
Context {Num : Type}.

Record PlaygroundConfig := MkConfig {
  cfg_model : jstr; cfg_group : jstr;
  cfg_temperature : Num; cfg_top_p : Num; cfg_max_tokens : Num;
  cfg_frequency_penalty : Num; cfg_presence_penalty : Num;
  cfg_seed : option Num; cfg_stream : bool;
}.

Record ParameterEnabled := MkEnabled {
  en_temperature : bool; en_top_p : bool; en_max_tokens : bool;
  en_frequency_penalty : bool; en_presence_penalty : bool; en_seed : bool;
}.

Record ChatCompletionRequest := MkRequest {
  rq_model : jstr; rq_group : jstr; rq_messages : list ChatCompletionMessage; rq_stream : bool;
  rq_temperature : option Num; rq_top_p : option Num; rq_max_tokens : option Num;
  rq_frequency_penalty : option Num; rq_presence_penalty : option Num; rq_seed : option Num;
}.

Definition given (b : bool) (x : Num) : option Num := if b then Some x else None.

Definition buildChatCompletionPayload (ms : list Message) (config : PlaygroundConfig)
    (en : ParameterEnabled) : ChatCompletionRequest :=
  MkRequest (cfg_model config) (cfg_group config)
    (map formatMessageForAPI (filter (fun m => isValidMessage m = true) ms)) (cfg_stream config)
    (given (en_temperature en) (cfg_temperature config))
    (given (en_top_p en) (cfg_top_p config))
    (given (en_max_tokens en) (cfg_max_tokens config))
    (given (en_frequency_penalty en) (cfg_frequency_penalty config))
    (given (en_presence_penalty en) (cfg_presence_penalty config))
    (if en_seed en then cfg_seed config else None).
End payload.

Arguments PlaygroundConfig : clear implicits.
Arguments ChatCompletionRequest : clear implicits.

(** ** State *)

Record ChatState := MkChat {
  messages : list Message;
  pendingContent : jstr;        (* pendingStreamChunksRef.current *)
  pendingReasoning : jstr;
  flushTimer : bool;            (* streamFlushTimerRef.current !== null *)
  isRequesting : bool;
  isStreaming : bool;
  sseSource : option nat;       (* sseSourceRef.current *)
  isStreamComplete : bool;      (* isStreamCompleteRef.current *)
  nextSource : nat;             (* names of fresh SSE objects *)
  requestId : nat;              (* requestIdRef.current *)
  abortController : option nat; (* abortControllerRef.current, by its request *)
  aborted : list nat;           (* requests whose signal is aborted *)
  inflight : list nat;          (* requests not yet settled *)
  editingKey : option jstr;
}.

Definition isGenerating (st : ChatState) : bool := isStreaming st || isRequesting st.

Definition set_messages (ms : list Message) (st : ChatState) : ChatState :=
  MkChat ms (pendingContent st) (pendingReasoning st) (flushTimer st) (isRequesting st)
    (isStreaming st) (sseSource st) (isStreamComplete st) (nextSource st) (requestId st)
    (abortController st) (aborted st) (inflight st) (editingKey st).
Definition set_pending (c r : jstr) (st : ChatState) : ChatState :=
  MkChat (messages st) c r (flushTimer st) (isRequesting st)
    (isStreaming st) (sseSource st) (isStreamComplete st) (nextSource st) (requestId st)
    (abortController st) (aborted st) (inflight st) (editingKey st).
Definition set_timer (b : bool) (st : ChatState) : ChatState :=
  MkChat (messages st) (pendingContent st) (pendingReasoning st) b (isRequesting st)
    (isStreaming st) (sseSource st) (isStreamComplete st) (nextSource st) (requestId st)
    (abortController st) (aborted st) (inflight st) (editingKey st).
Definition set_isRequesting (b : bool) (st : ChatState) : ChatState :=
  MkChat (messages st) (pendingContent st) (pendingReasoning st) (flushTimer st) b
    (isStreaming st) (sseSource st) (isStreamComplete st) (nextSource st) (requestId st)
    (abortController st) (aborted st) (inflight st) (editingKey st).
Definition set_stream (b : bool) (src : option nat) (st : ChatState) : ChatState :=
  MkChat (messages st) (pendingContent st) (pendingReasoning st) (flushTimer st) (isRequesting st)
    b src (isStreamComplete st) (nextSource st) (requestId st)
    (abortController st) (aborted st) (inflight st) (editingKey st).
Definition set_streamComplete (b : bool) (st : ChatState) : ChatState :=
  MkChat (messages st) (pendingContent st) (pendingReasoning st) (flushTimer st) (isRequesting st)
    (isStreaming st) (sseSource st) b (nextSource st) (requestId st)
    (abortController st) (aborted st) (inflight st) (editingKey st).
Definition set_nextSource (n : nat) (st : ChatState) : ChatState :=
  MkChat (messages st) (pendingContent st) (pendingReasoning st) (flushTimer st) (isRequesting st)
    (isStreaming st) (sseSource st) (isStreamComplete st) n (requestId st)
    (abortController st) (aborted st) (inflight st) (editingKey st).
Definition set_request (id : nat) (ctl : option nat) (fl : list nat) (st : ChatState) : ChatState :=
  MkChat (messages st) (pendingContent st) (pendingReasoning st) (flushTimer st) (isRequesting st)
    (isStreaming st) (sseSource st) (isStreamComplete st) (nextSource st) id
    ctl (aborted st) fl (editingKey st).
Definition set_aborted (l : list nat) (st : ChatState) : ChatState :=
  MkChat (messages st) (pendingContent st) (pendingReasoning st) (flushTimer st) (isRequesting st)
    (isStreaming st) (sseSource st) (isStreamComplete st) (nextSource st) (requestId st)
    (abortController st) l (inflight st) (editingKey st).
Definition set_editingKey (k : option jstr) (st : ChatState) : ChatState :=
  MkChat (messages st) (pendingContent st) (pendingReasoning st) (flushTimer st) (isRequesting st)
    (isStreaming st) (sseSource st) (isStreamComplete st) (nextSource st) (requestId st)
    (abortController st) (aborted st) (inflight st) k.

Definition update_messages (f : list Message → list Message) (st : ChatState) : ChatState :=
  set_messages (f (messages st)) st.

(** ** use-chat-handler.ts *)

Section handlers.
Context (t : jstr → jstr) (now : nat → Z).

Definition mergePendingStreamChunk (currentChunk nextChunk : jstr) : jstr :=
  if negb (truthy currentChunk) || negb (startsWith currentChunk nextChunk)
  then currentChunk ++ nextChunk
  else nextChunk.

(** The updater of [flushStreamUpdates]: the reasoning first, then the content. *)
Definition flush_message (content reasoning : jstr) (m : Message) : Message :=
  let m1 := if truthy reasoning
            then applyStreamingChunk m ChunkReasoning reasoning (now 0) (now 1) else m in
  if truthy content then applyStreamingChunk m1 ChunkContent content (now 2) (now 3) else m1.

Definition flushStreamUpdates (st : ChatState) : ChatState :=
  let st := set_timer false st in
  let c := pendingContent st in
  let r := pendingReasoning st in
  if negb (truthy r) && negb (truthy c) then st
  else
    update_messages (fun ms => updateLastAssistantMessage ms (flush_message c r))
      (set_pending [] [] st).

Definition handleStreamUpdate (st : ChatState) (u : StreamChunkType * jstr) : ChatState :=
  let st :=
    match u.1 with
    | ChunkContent =>
      set_pending (mergePendingStreamChunk (pendingContent st) u.2) (pendingReasoning st) st
    | ChunkReasoning =>
      set_pending (pendingContent st) (mergePendingStreamChunk (pendingReasoning st) u.2) st
    end in
  set_timer true st.

Definition complete_unless_final (m : Message) : Message :=
  if isAssistantMessageFinal m then m else completeAssistantMessage m (now 4) (now 5) (now 6).

Definition handleStreamComplete (st : ChatState) : ChatState :=
  update_messages (fun ms => updateLastAssistantMessage ms complete_unless_final)
    (set_isRequesting false (flushStreamUpdates st)).

Definition ERROR_MESSAGES : list jstr :=
  ["Request error occurred"; "Network connection failed or server not responding";
   "Error parsing response data"; "Error establishing connection"; "Connection closed";
   "Generation was interrupted"].

Definition getDisplayError (error : jstr) : jstr :=
  if has error ERROR_MESSAGES then t error
  else if endsWith ": Connection closed" error
  then take (length error - 17) error ++ t "Connection closed"
  else error.

(** The toast shown to the user is not part of the state. *)
Definition handleStreamError (error : jstr) (code : option jstr) (st : ChatState) : ChatState :=
  let st := set_isRequesting false (flushStreamUpdates st) in
  update_messages (fun ms =>
    updateAssistantMessageWithError ms (getDisplayError error) code
      (t "Request error occurred") (now 7)) st.

(** ** use-stream-request.ts *)

Definition closeActiveStream (src : option nat) (st : ChatState) : ChatState :=
  if bool_decide (src = None) || bool_decide (sseSource st = src)
  then set_stream false None st else st.

(** [starts] is whether [source.stream()] returns normally. *)
Definition sendStreamRequest (starts : bool) (st : ChatState) : ChatState :=
  let src := nextSource st in
  let st := set_stream true (Some src) (set_streamComplete false (set_nextSource (S src) st)) in
  if starts then st
  else closeActiveStream (Some src) (handleStreamError "Error establishing connection" None st).

Definition sendStreamingChat (starts : bool) (st : ChatState) : ChatState :=
  sendStreamRequest starts (set_isRequesting true st).

(** [handleError] of one request: ignored once the stream has completed. *)
Definition sse_handleError (src : nat) (error : jstr) (code : option jstr) (st : ChatState) :
    ChatState :=
  if negb (isStreamComplete st)
  then closeActiveStream (Some src) (handleStreamError error code st)
  else st.

(** A message event, after [JSON.parse]: the end marker, the chunks of a
    completion chunk, or data that does not parse. *)
Inductive SseData :=
  | SseDone
  | SseUpdates (us : list (StreamChunkType * jstr))
  | SseUnparsable.

Definition sse_onMessage (src : nat) (d : SseData) (st : ChatState) : ChatState :=
  match d with
  | SseDone =>
    handleStreamComplete (closeActiveStream (Some src) (set_streamComplete true st))
  | SseUpdates us => foldl handleStreamUpdate st us
  | SseUnparsable => sse_handleError src "Error parsing response data" None st
  end.

(** ** Non-streaming requests

    The [await] splits [sendNonStreamingChat] in two: the part before it, and
    the part that runs when the request settles. *)
Definition sendNonStreamingChat (st : ChatState) : ChatState :=
  let id := S (requestId st) in
  set_isRequesting true (set_request id (Some id) (id :: inflight st) st).

Definition settle_finally (id : nat) (st : ChatState) : ChatState :=
  if requestId st =? id
  then set_isRequesting false (set_request id None (inflight st) st)
  else st.

Definition drop_inflight (id : nat) (st : ChatState) : ChatState :=
  set_request (requestId st) (abortController st) (filter (fun j => j ≠ id) (inflight st)) st.

Definition onResponse (id : nat) (choices : option (list ChatCompletionChoice)) (st : ChatState) :
    ChatState :=
  let st := drop_inflight id st in
  settle_finally id
    (if has id (aborted st) then st
     else if negb (hasChatCompletionChoice choices)
     then handleStreamError "Request error occurred" None st
     else update_messages (fun ms =>
            updateLastAssistantMessage ms (fun m =>
              default m (applyChatCompletionResponse m choices (now 0) (now 1) (now 2)))) st).

Definition onRequestFailed (id : nat) (error : jstr) (code : option jstr) (st : ChatState) :
    ChatState :=
  let st := drop_inflight id st in
  settle_finally id
    (if has id (aborted st) then st else handleStreamError error code st).

Definition sendChat (stream starts : bool) (st : ChatState) : ChatState :=
  if stream then sendStreamingChat starts st else sendNonStreamingChat st.

Definition complete_if_pending (m : Message) : Message :=
  if isAssistantMessagePending m
  then completeAssistantMessage m (now 4) (now 5) (now 6) else m.

Definition stopGeneration (st : ChatState) : ChatState :=
  let st := closeActiveStream None st in
  let st := flushStreamUpdates st in
  let st := match abortController st with
            | Some id => set_aborted (id :: aborted st) st
            | None => st
            end in
  let st := set_request (requestId st) None (inflight st) st in
  let st := set_isRequesting false st in
  update_messages (fun ms => updateLastAssistantMessage ms complete_if_pending) st.

(** ** use-playground-conversation.ts *)

(** The fresh identifiers an action may need, and the configuration in force:
    whether to stream, and whether the stream starts. *)
Record Fresh := MkFresh {
  f_k1 : jstr; f_v1 : jstr; f_k2 : jstr; f_v2 : jstr; f_stream : bool; f_starts : bool;
}.

Definition handleSendMessage (text : jstr) (f : Fresh) (st : ChatState) : ChatState :=
  let next := appendUserMessagePair (messages st) text (now 0) (f_k1 f) (f_v1 f) (f_k2 f) (f_v2 f) in
  sendChat (f_stream f) (f_starts f) (set_messages next st).

Definition handleRegenerateMessage (k : jstr) (f : Fresh) (st : ChatState) : ChatState :=
  match createRegeneratedMessages (messages st) k (now 0) (f_k2 f) (f_v2 f) with
  | None => st
  | Some next => sendChat (f_stream f) (f_starts f) (set_messages next st)
  end.

Definition applyEdit (content : jstr) (shouldSubmit : bool) (f : Fresh) (st : ChatState) :
    ChatState :=
  match editingKey st with
  | None => st
  | Some k =>
    if negb (truthy k) then st
    else
      match applyMessageEdit (messages st) k content shouldSubmit (now 0) (f_k2 f) (f_v2 f) with
      | None => st
      | Some (next, send) =>
        let st := set_messages next (set_editingKey None st) in
        if send then sendChat (f_stream f) (f_starts f) st else st
      end
  end.

Definition handleDeleteMessage (k : jstr) (st : ChatState) : ChatState :=
  update_messages (fun ms => removeMessageByKey ms k) st.

(** ** Events and steps *)

Inductive Event :=
  | EvSend (text : jstr) (f : Fresh)
  | EvRegenerate (k : jstr) (f : Fresh)
  | EvEdit (k : jstr)
  | EvCancelEdit
  | EvApplyEdit (content : jstr) (submit : bool) (f : Fresh)
  | EvDelete (k : jstr)
  | EvStop
  | EvSseMessage (src : nat) (d : SseData)
  | EvSseError (src : nat) (closed : bool) (error : jstr) (code : option jstr)
  | EvReadyState (src : nat) (error : option jstr)
  | EvFlush
  | EvResponse (id : nat) (choices : option (list ChatCompletionChoice))
  | EvRequestFailed (id : nat) (error : jstr) (code : option jstr).

Definition handle (ev : Event) (st : ChatState) : ChatState :=
  match ev with
  | EvSend text f => handleSendMessage text f st
  | EvRegenerate k f => handleRegenerateMessage k f st
  | EvEdit k => set_editingKey (Some k) st
  | EvCancelEdit => set_editingKey None st
  | EvApplyEdit content submit f => applyEdit content submit f st
  | EvDelete k => handleDeleteMessage k st
  | EvStop => stopGeneration st
  | EvSseMessage src d => sse_onMessage src d st
  | EvSseError src closed error code =>
    if closed then st else sse_handleError src error code st
  | EvReadyState src error =>
    match error with Some e => sse_handleError src e None st | None => st end
  | EvFlush => flushStreamUpdates st
  | EvResponse id choices => onResponse id choices st
  | EvRequestFailed id error code => onRequestFailed id error code st
  end.
End handlers.

(** When the environment can deliver an event. *)
Definition enabled (ev : Event) (st : ChatState) : bool :=
  match ev with
  | EvSend _ _ | EvRegenerate _ _ | EvEdit _ | EvDelete _ => negb (isGenerating st)
  | EvCancelEdit | EvApplyEdit _ _ _ | EvStop => true
  | EvSseMessage src _ | EvSseError src _ _ _ | EvReadyState src _ =>
    bool_decide (sseSource st = Some src)
  | EvFlush => flushTimer st
  | EvResponse id _ | EvRequestFailed id _ _ => has id (inflight st)
  end.

Inductive Step (t : jstr → jstr) : ChatState → ChatState → Prop :=
  | step_event now ev st : enabled ev st = true → Step t st (handle t now ev st).

Definition not_pending (m : Message) : Prop := isPendingAssistantMessage (Some m) = false.

(** A session starts with a stored conversation that has no unfinished answer. *)
Definition initial (ms : list Message) : ChatState :=
  MkChat ms [] [] false false false None false 0 0 None [] [] None.

Inductive Reachable (t : jstr → jstr) : ChatState → Prop :=
  | reach_init ms : Forall not_pending ms → Reachable t (initial ms)
  | reach_step st st' : Reachable t st → Step t st st' → Reachable t st'.

(** ** The session invariant *)

(** Every message but the last is settled. *)
Definition settled_before_last (ms : list Message) : Prop :=
  ∀ pre l, ms = pre ++ [l] → Forall not_pending pre.

Record Inv (st : ChatState) : Prop := {
  inv_source : isStreaming st = bool_decide (is_Some (sseSource st));
  inv_open : is_Some (sseSource st) → isStreamComplete st = false;
  inv_fresh : ∀ src, sseSource st = Some src → src < nextSource st;
  inv_buffer : pendingContent st ≠ [] ∨ pendingReasoning st ≠ [] → flushTimer st = true;
  inv_timer : flushTimer st = true → isStreaming st = true;
  inv_before : settled_before_last (messages st);
  inv_idle : isGenerating st = false → Forall not_pending (messages st);
  inv_controller : ∀ id, abortController st = Some id → id ≤ requestId st;
  inv_aborted : ∀ id, id ∈ aborted st → id ≤ requestId st;
  inv_stopped : requestId st ∈ aborted st → isStreaming st = false →
                Forall not_pending (messages st);
}.

(** A state in which nothing is buffered and every message is settled. *)
Record quiet (st : ChatState) : Prop := {
  quiet_messages : Forall not_pending (messages st);
  quiet_content : pendingContent st = [];
  quiet_reasoning : pendingReasoning st = [];
  quiet_timer : flushTimer st = false;
}.

(** The fields of the SSE connection, and those of the requests. *)
Definition same_stream (st st' : ChatState) : Prop :=
  isStreaming st' = isStreaming st ∧ sseSource st' = sseSource st ∧
  isStreamComplete st' = isStreamComplete st ∧ nextSource st' = nextSource st.

Definition same_requests (st st' : ChatState) : Prop :=
  requestId st' = requestId st ∧ abortController st' = abortController st ∧
  aborted st' = aborted st.

Definition requests_ok (st : ChatState) : Prop :=
  (∀ id, abortController st = Some id → id ≤ requestId st) ∧
  (∀ id, id ∈ aborted st → id ≤ requestId st).

Lemma settled_all ms : Forall not_pending ms → settled_before_last ms.
Proof. intros H pre l ->. by apply Forall_app in H as [? _]. Qed.

Lemma settled_snoc pre l : Forall not_pending pre → settled_before_last (pre ++ [l]).
Proof. intros H pre' l' [-> _]%app_inj_tail. done. Qed.

Lemma not_pending_role m : from m ≠ RoleAssistant → not_pending m.
Proof.
  intros H. unfold not_pending, isPendingAssistantMessage, is_role.
  by rewrite bool_decide_eq_false_2.
Qed.

Lemma not_pending_status m :
  status m ≠ Some Loading → status m ≠ Some Streaming → not_pending m.
Proof.
  intros H1 H2. unfold not_pending, isPendingAssistantMessage, isAssistantMessagePending, has_status.
  rewrite !bool_decide_eq_false_2 by done. by rewrite andb_false_r.
Qed.

Lemma updateLast_before ms f :
  settled_before_last ms → settled_before_last (updateLastAssistantMessage ms f).
Proof.
  intros H. destruct (updateLastAssistantMessage_spec ms f)
    as [(pre & l & -> & _ & ->)|[_ ->]]; [|done].
  apply settled_snoc. by eapply H.
Qed.

Lemma updateLast_settled ms f :
  settled_before_last ms → (∀ m, from m = RoleAssistant → not_pending (f m)) →
  Forall not_pending (updateLastAssistantMessage ms f).
Proof.
  intros H Hf. destruct (updateLastAssistantMessage_spec ms f)
    as [(pre & l & -> & Hl & ->)|[Hn ->]].
  - apply Forall_app. split; [by eapply H|]. constructor; [by apply Hf|constructor].
  - destruct (last ms) as [l|] eqn:El; [|by apply last_None in El as ->].
    apply last_Some in El as [pre ->]. apply Forall_app.
    split; [by eapply H|]. constructor; [|constructor]. by apply not_pending_role, Hn.
Qed.

Lemma completeAssistantMessage_settled m n1 n2 n3 :
  not_pending (completeAssistantMessage m n1 n2 n3).
Proof.
  unfold completeAssistantMessage.
  match goal with |- not_pending (completeAssistantTiming ?x _) =>
    destruct (completeAssistantTiming_frame x n3) as (_ & _ & Hs & _) end.
  apply not_pending_status; by rewrite Hs.
Qed.

Lemma complete_unless_final_settled now m : not_pending (complete_unless_final now m).
Proof.
  unfold complete_unless_final. destruct (isAssistantMessageFinal m) eqn:E;
    [|apply completeAssistantMessage_settled].
  unfold isAssistantMessageFinal, has_status in E.
  apply orb_true_iff in E as [E|E]; apply bool_decide_eq_true in E;
    apply not_pending_status; by rewrite E.
Qed.

Lemma complete_if_pending_settled now m : not_pending (complete_if_pending now m).
Proof.
  unfold complete_if_pending. destruct (isAssistantMessagePending m) eqn:E;
    [apply completeAssistantMessage_settled|].
  unfold not_pending, isPendingAssistantMessage. by rewrite E, andb_false_r.
Qed.

Lemma response_settled m choices n1 n2 n3 :
  hasChatCompletionChoice choices = true →
  not_pending (default m (applyChatCompletionResponse m choices n1 n2 n3)).
Proof.
  destruct choices as [[|c cs]|]; [done| |done]. intros _.
  cbn [applyChatCompletionResponse from_option]. unfold id, applyChatCompletionChoice.
  match goal with |- not_pending (completeAssistantTiming ?x _) =>
    destruct (completeAssistantTiming_frame x n3) as (_ & _ & Hs & _) end.
  apply not_pending_status; by rewrite Hs.
Qed.

Section invariant.
Context (t : jstr → jstr) (now : nat → Z).

Lemma flush_spec st :
  let st' := flushStreamUpdates now st in
  (settled_before_last (messages st) → settled_before_last (messages st')) ∧
  pendingContent st' = [] ∧ pendingReasoning st' = [] ∧ flushTimer st' = false ∧
  same_stream st st' ∧ same_requests st st'.
Proof.
  unfold flushStreamUpdates, same_stream, same_requests. simpl.
  destruct (pendingReasoning st) eqn:Er, (pendingContent st) eqn:Ec; simpl; rewrite ?Er, ?Ec;
    repeat split; auto; apply updateLast_before.
Qed.

Lemma handleStreamError_spec err code st :
  settled_before_last (messages st) →
  quiet (handleStreamError t now err code st) ∧
  same_stream st (handleStreamError t now err code st) ∧
  same_requests st (handleStreamError t now err code st).
Proof.
  intros H. destruct (flush_spec st) as (Hm & Hc & Hr & Ht & Hs & Hq).
  unfold handleStreamError. split; [|done].
  constructor; simpl; [|done..]. apply updateLast_settled; [by apply Hm|].
  intros m Hrole. unfold completeAssistantTiming, is_role. simpl.
  rewrite bool_decide_eq_true_2 by done. by apply not_pending_status.
Qed.

Lemma handleStreamComplete_spec st :
  settled_before_last (messages st) →
  quiet (handleStreamComplete now st) ∧ same_stream st (handleStreamComplete now st) ∧
  same_requests st (handleStreamComplete now st).
Proof.
  intros H. destruct (flush_spec st) as (Hm & Hc & Hr & Ht & Hs & Hq).
  unfold handleStreamComplete. split; [|done].
  constructor; simpl; [|done..]. apply updateLast_settled; [by apply Hm|].
  intros. apply complete_unless_final_settled.
Qed.

(** A quiet state only needs a consistent connection and consistent requests. *)
Lemma quiet_Inv st :
  quiet st → isStreaming st = bool_decide (is_Some (sseSource st)) →
  (is_Some (sseSource st) → isStreamComplete st = false) →
  (∀ src, sseSource st = Some src → src < nextSource st) → requests_ok st → Inv st.
Proof.
  intros [] ??? []. constructor; try done; try congruence.
  - intros [?|?]; congruence.
  - by apply settled_all.
Qed.

Lemma Inv_requests st : Inv st → requests_ok st.
Proof. intros []. done. Qed.

Lemma requests_same st st' : requests_ok st → same_requests st st' → requests_ok st'.
Proof. unfold requests_ok. intros H (-> & -> & ->). done. Qed.

Lemma close_Inv st src : quiet st → Inv st → Inv (closeActiveStream src st).
Proof.
  intros Hq HI. unfold closeActiveStream.
  destruct (bool_decide (src = None) || bool_decide (sseSource st = src)) eqn:E; [|done].
  apply quiet_Inv; [by destruct Hq; constructor|done|by intros []|done|exact (Inv_requests _ HI)].
Qed.

Lemma quiet_same_Inv st st' :
  Inv st → same_stream st st' → same_requests st st' → quiet st' → Inv st'.
Proof.
  intros HI (H1 & H2 & H3 & H4) Hr Hq.
  apply quiet_Inv; [done|..|eapply requests_same; [by apply Inv_requests|done]];
    rewrite ?H1, ?H2, ?H3, ?H4; apply HI.
Qed.

(** Messages may change freely before the last one as long as they stay settled;
    while an answer is generated nothing more is asked. *)
Lemma set_messages_Inv ms st :
  Inv st → settled_before_last ms →
  (Forall not_pending (messages st) → Forall not_pending ms) → Inv (set_messages ms st).
Proof.
  intros [] ? Hms. constructor; try done; simpl; intros; apply Hms; auto.
Qed.

(** Sending starts from a conversation that may end with an unfinished answer. *)
Lemma sendChat_Inv f ms st :
  Inv st → settled_before_last ms →
  Inv (sendChat t now (f_stream f) (f_starts f) (set_messages ms st)).
Proof.
  intros HI Hb. unfold sendChat. destruct (f_stream f).
  - unfold sendStreamingChat, sendStreamRequest. set (st1 := set_stream true _ _).
    assert (Inv st1) as HI1.
    { destruct HI. constructor; simpl; try done. intros src [= <-]. lia. }
    destruct (f_starts f); [done|].
    destruct (handleStreamError_spec "Error establishing connection" None st1) as (Hq & Hs & Hr);
      [apply HI1|].
    apply close_Inv; [done|]. by eapply quiet_same_Inv.
  - unfold sendNonStreamingChat. destruct HI. constructor; simpl; try done.
    + unfold isGenerating. simpl. by rewrite orb_true_r.
    + intros id [= <-]. done.
    + intros id Hid%inv_aborted0. lia.
    + intros Hid%inv_aborted0. lia.
Qed.

Lemma sse_handleError_Inv src err code st :
  Inv st → Inv (sse_handleError t now src err code st).
Proof.
  intros HI. unfold sse_handleError. destruct (isStreamComplete st); simpl; [done|].
  destruct (handleStreamError_spec err code st) as (Hq & Hs & Hr); [apply HI|].
  apply close_Inv; [done|]. by eapply quiet_same_Inv.
Qed.

Lemma handleStreamUpdate_Inv st u :
  Inv st → isStreaming st = true → Inv (handleStreamUpdate st u) ∧
  isStreaming (handleStreamUpdate st u) = true.
Proof.
  intros [] Hs. destruct u as [[] c]; (split; [|done]); constructor; simpl; done.
Qed.

Lemma handleStreamUpdates_Inv us st :
  Inv st → isStreaming st = true → Inv (foldl handleStreamUpdate st us).
Proof.
  revert st. induction us as [|u us IH]; intros st HI Hs; [done|]. simpl.
  destruct (handleStreamUpdate_Inv st u HI Hs). by apply IH.
Qed.

Lemma sse_done_Inv src st :
  Inv st → sseSource st = Some src → Inv (sse_onMessage t now src SseDone st).
Proof.
  intros HI Hsrc. unfold sse_onMessage, closeActiveStream. simpl. rewrite Hsrc.
  rewrite (bool_decide_eq_true_2 (Some src = Some src)) by done. rewrite ?orb_true_r. simpl.
  match goal with |- Inv (handleStreamComplete now ?x) =>
    destruct (handleStreamComplete_spec x) as (Hq & (H1 & H2 & H3 & H4) & Hr) end; [apply HI|].
  apply quiet_Inv; [done|..|eapply requests_same; [|exact Hr]; apply (Inv_requests _ HI)];
    rewrite ?H1, ?H2, ?H3, ?H4; simpl; [done|by intros []|done].
Qed.

Lemma drop_inflight_Inv id st : Inv st → Inv (drop_inflight id st).
Proof. intros []. by constructor. Qed.

(** Clearing the request flag is fine once every message is settled, or while
    the stream is still open. *)
Lemma settle_Inv id st :
  Inv st → (isStreaming st = true ∨ Forall not_pending (messages st)) → Inv (settle_finally id st).
Proof.
  intros HI Hor. unfold settle_finally. destruct (requestId st =? id) eqn:E; [|done].
  apply Nat.eqb_eq in E. subst id. destruct HI. constructor; simpl; try done.
  - unfold isGenerating. simpl. rewrite orb_false_r. intros Hs. destruct Hor; [congruence|done].
Qed.

(** An aborted request that settles late only clears a flag that is no longer
    needed. *)
Lemma settle_aborted_Inv id st :
  Inv st → has id (aborted st) = true → Inv (settle_finally id st).
Proof.
  intros HI Ha%has_true. destruct (decide (requestId st = id)) as [<-|Hne].
  - apply settle_Inv; [done|]. destruct (isStreaming st) eqn:Es; [by left|right].
    by apply (inv_stopped _ HI).
  - unfold settle_finally. by rewrite (proj2 (Nat.eqb_neq _ _) Hne).
Qed.

Lemma settle_error_Inv id err code st :
  Inv st → Inv (settle_finally id (handleStreamError t now err code st)).
Proof.
  intros HI. destruct (handleStreamError_spec err code st) as (Hq & Hs & Hr); [apply HI|].
  apply settle_Inv; [by eapply quiet_same_Inv|]. right. apply Hq.
Qed.

Lemma stopGeneration_Inv st :
  Inv st → Inv (stopGeneration now st) ∧ quiet (stopGeneration now st) ∧
  isGenerating (stopGeneration now st) = false.
Proof.
  intros HI. unfold stopGeneration. set (st1 := closeActiveStream None st).
  assert (Hst1 : st1 = set_stream false None st) by done.
  destruct (flush_spec st1) as (Hm & Hc & Hr & Ht & (H1 & H2 & H3 & H4) & (R1 & R2 & R3)).
  set (st2 := flushStreamUpdates now st1) in *.
  set (st3 := match abortController st2 with Some id => _ | None => st2 end).
  assert (E : messages st3 = messages st2 ∧ pendingContent st3 = [] ∧ pendingReasoning st3 = [] ∧
    flushTimer st3 = false ∧ same_stream st2 st3).
  { unfold st3, same_stream. by destruct (abortController st2). }
  destruct E as (Em & Ec & Er & Et & (E1 & E2 & E3 & E4)).
  assert (Hq : ∀ st4, messages st4 = updateLastAssistantMessage (messages st3) (complete_if_pending now) →
    pendingContent st4 = pendingContent st3 → pendingReasoning st4 = pendingReasoning st3 →
    flushTimer st4 = flushTimer st3 → quiet st4).
  { intros st4 E0 ???. constructor; [|congruence..]. rewrite E0.
    apply updateLast_settled; [|intros; apply complete_if_pending_settled].
    rewrite Em. apply Hm. rewrite Hst1. apply HI. }
  assert (Hstr : isStreaming st3 = false ∧ sseSource st3 = None).
  { by rewrite E1, E2, H1, H2, Hst1. }
  destruct Hstr as [Hs1 Hs2].
  match goal with |- Inv ?x ∧ _ ∧ _ => assert (quiet x) as Hqx by (by apply Hq) end.
  split; [|split; [done|]].
  - apply quiet_Inv; [done|..]; simpl; rewrite ?Hs2; [done|by intros []|done|].
    assert (requestId st3 = requestId st ∧ ∀ id, id ∈ aborted st3 → id ≤ requestId st) as [Hid Hab].
    { unfold st3. destruct HI. rewrite Hst1 in R1, R2, R3. simpl in R1, R2, R3.
      destruct (abortController st2) eqn:Ea; simpl; rewrite R1, R3; (split; [done|]); [|done].
      intros id [->|?]%elem_of_cons; auto. }
    split; simpl; [done|]. by rewrite Hid.
  - unfold isGenerating. simpl. by rewrite Hs1.
Qed.

Lemma applyEdit_before ms k c submit n k' v' ms' send :
  settled_before_last ms → applyMessageEdit ms k c submit n k' v' = Some (ms', send) →
  settled_before_last ms' ∧ (send = false → Forall not_pending ms → Forall not_pending ms').
Proof.
  intros Hb. unfold applyMessageEdit.
  destruct (find_key k ms) as [i|] eqn:Ek; [|done].
  set (f := fun m0 => if key m0 === k then _ else m0).
  assert (Hf : ∀ m, not_pending m → not_pending (f m)).
  { intros m. unfold f. by destruct (key m === k). }
  assert (Hrole : ∀ m, from (f m) = from m) by (intros m; unfold f; by destruct (key m === k)).
  assert (Hmap : settled_before_last (map f ms)).
  { intros pre l Hpl. destruct (last ms) as [x|] eqn:El.
    2:{ apply last_None in El as ->. symmetry in Hpl. by apply app_nil in Hpl as [_ ?]. }
    apply last_Some in El as [pre0 ->]. rewrite map_app in Hpl. simpl in Hpl.
    apply app_inj_tail in Hpl as [<- _]. specialize (Hb pre0 x eq_refl).
    apply Forall_map. eapply Forall_impl; [exact Hb|]. apply Hf. }
  destruct (map f ms !! i) as [u|] eqn:Eu; [|done].
  destruct (negb submit || negb (is_role RoleUser u)) eqn:Es; intros [= <- <-].
  - split; [done|]. intros _ H. apply Forall_map. eapply Forall_impl; [exact H|]. apply Hf.
  - split; [|done]. apply orb_false_iff in Es as [_ Es]. apply negb_false_iff in Es.
    unfold is_role in Es. apply bool_decide_eq_true in Es.
    apply settled_snoc. rewrite Nat.add_1_r, (take_S_r _ _ _ Eu). apply Forall_app. split.
    + destruct (last (map f ms)) as [x|] eqn:El.
      2:{ apply last_None in El. rewrite El in Eu. by rewrite lookup_nil in Eu. }
      apply last_Some in El as [pre Hpre]. specialize (Hmap pre x Hpre).
      assert (i ≤ length pre) as Hi.
      { apply lookup_lt_Some in Eu. rewrite Hpre, length_app in Eu. simpl in Eu. lia. }
      rewrite Hpre, take_app_le by done. by apply Forall_take.
    + constructor; [|constructor]. apply not_pending_role. congruence.
Qed.

Lemma regenerate_before ms k n k' v' ms' :
  Forall not_pending ms → createRegeneratedMessages ms k n k' v' = Some ms' →
  settled_before_last ms'.
Proof.
  intros Hms. unfold createRegeneratedMessages.
  destruct (find_key k ms) as [i|]; [|done]. destruct (ms !! i); [|done].
  case_if; intros [= <-]; apply settled_snoc; by apply Forall_take.
Qed.

Lemma handle_Inv ev st : Inv st → enabled ev st = true → Inv (handle t now ev st).
Proof.
  intros HI He. destruct ev as [text f|k f|k| |c submit f|k| |src d|src closed e code|src e| |id cs|id e code];
    simpl in *.
  - apply negb_true_iff in He. apply sendChat_Inv; [done|].
    unfold appendUserMessagePair. rewrite cons_middle, app_assoc. apply settled_snoc.
    apply Forall_app. split; [by apply HI|]. constructor; [by apply not_pending_role|constructor].
  - apply negb_true_iff in He. unfold handleRegenerateMessage.
    destruct (createRegeneratedMessages _ _ _ _ _) as [ms'|] eqn:Er; [|done].
    apply sendChat_Inv; [done|]. eapply regenerate_before; [|exact Er]. by apply HI.
  - destruct HI. by constructor.
  - destruct HI. by constructor.
  - unfold applyEdit. destruct (editingKey st) as [k|]; [|done].
    destruct (truthy k); [|done]. simpl.
    destruct (applyMessageEdit _ _ _ _ _ _ _) as [[ms' send]|] eqn:Ea; [|done].
    destruct (applyEdit_before _ _ _ _ _ _ _ _ _ (inv_before _ HI) Ea) as [Hb Hn].
    assert (Inv (set_editingKey None st)) as HI' by (destruct HI; by constructor).
    destruct send; [by apply sendChat_Inv|].
    apply set_messages_Inv; [done..|]. by apply Hn.
  - apply negb_true_iff in He.
    assert (Forall not_pending (removeMessageByKey (messages st) k)).
    { unfold removeMessageByKey. apply Forall_forall. intros m [_ Hm]%list_elem_of_filter.
      pose proof (inv_idle _ HI He) as Hall. rewrite Forall_forall in Hall. by apply Hall. }
    apply set_messages_Inv; [done|by apply settled_all|done].
  - by apply stopGeneration_Inv.
  - apply bool_decide_eq_true in He. destruct d as [|us|].
    + by apply sse_done_Inv.
    + apply handleStreamUpdates_Inv; [done|]. rewrite (inv_source _ HI), He. done.
    + by apply sse_handleError_Inv.
  - destruct closed; [done|]. by apply sse_handleError_Inv.
  - destruct e; [|done]. by apply sse_handleError_Inv.
  - destruct (flush_spec st) as (Hm & Hc & Hr & Ht & (H1 & H2 & H3 & H4) & (R1 & R2 & R3)).
    assert (isStreaming st = true) as Hs by (by apply HI).
    destruct HI. constructor; rewrite ?H1, ?H2, ?H3, ?H4, ?Hc, ?Hr, ?Ht, ?R1, ?R2, ?R3; auto.
    + intros [?|?]; done.
    + unfold isGenerating. rewrite H1, Hs. done.
    + congruence.
  - unfold onResponse. set (st1 := drop_inflight id st).
    assert (Inv st1) as HI1 by (by apply drop_inflight_Inv).
    destruct (has id (aborted st1)) eqn:Ea; [by apply settle_aborted_Inv|].
    destruct (hasChatCompletionChoice cs) eqn:Ec; simpl.
    + assert (Forall not_pending (updateLastAssistantMessage (messages st1) (fun m =>
        default m (applyChatCompletionResponse m cs (now 0) (now 1) (now 2))))).
      { apply updateLast_settled; [apply HI1|]. intros. by apply response_settled. }
      apply settle_Inv; [apply set_messages_Inv; [done|by apply settled_all|done]|by right].
    + by apply settle_error_Inv.
  - unfold onRequestFailed. set (st1 := drop_inflight id st).
    assert (Inv st1) as HI1 by (by apply drop_inflight_Inv).
    destruct (has id (aborted st1)) eqn:Ea; [by apply settle_aborted_Inv|by apply settle_error_Inv].
Qed.
End invariant.

Lemma Reachable_Inv t st : Reachable t st → Inv st.
Proof.
  induction 1 as [ms Hms|st st' _ IH HS]; [|destruct HS; by apply handle_Inv].
  constructor; simpl; auto using settled_all; try done; try by intros [].
  all: by intros ? ?%not_elem_of_nil.
Qed.

(** ** Every generation can end *)

(** Whoever is asked still owes an answer. *)
Definition owed (st : ChatState) : Prop :=
  isRequesting st = true → is_Some (sseSource st) ∨ requestId st ∈ inflight st.

Lemma flush_fields now st :
  let st' := flushStreamUpdates now st in
  isRequesting st' = isRequesting st ∧ sseSource st' = sseSource st ∧ requestId st' = requestId st ∧
  inflight st' = inflight st.
Proof. unfold flushStreamUpdates. cbn. by case_match. Qed.

Lemma idle_owed st : isRequesting st = false → owed st.
Proof. unfold owed. by intros ->. Qed.

Lemma error_idle t now e code st : isRequesting (handleStreamError t now e code st) = false.
Proof. done. Qed.

Lemma close_requesting src st : isRequesting (closeActiveStream src st) = isRequesting st.
Proof. unfold closeActiveStream. by case_match. Qed.

Lemma settle_owed id st : owed st → owed (settle_finally id st).
Proof. intros H. unfold settle_finally. case_match; [by apply idle_owed|done]. Qed.

Lemma sendChat_owed t now stream starts st : owed (sendChat t now stream starts st).
Proof.
  unfold sendChat, sendStreamingChat, sendStreamRequest, sendNonStreamingChat. destruct stream.
  - destruct starts; [intros _; by left|]. apply idle_owed. by rewrite close_requesting.
  - intros _. right. cbn. left.
Qed.

(** The request [id] settles: it no longer counts, unless it is the last one, whose
    end also ends the waiting. *)
Lemma settled_owed id st st' :
  owed st → (isRequesting st' = true → isRequesting st = true ∧ sseSource st' = sseSource st ∧
    requestId st' = requestId st ∧ inflight st' = filter (fun j => j ≠ id) (inflight st)) →
  owed (settle_finally id st').
Proof.
  intros H Hst. unfold settle_finally. destruct (Nat.eqb_spec (requestId st') id) as [E|E]; [by apply idle_owed|].
  intros Hr. destruct (Hst Hr) as (H1 & H2 & H3 & H4). rewrite H2, H3, H4. destruct (H H1) as [Hs|Hin]; [by left|right].
  apply list_elem_of_filter. split; [congruence|done].
Qed.

Lemma handle_owed t now ev st : owed st → owed (handle t now ev st).
Proof.
  intros H. destruct ev as [text f|k f|k| |c submit f|k| |src d|src closed e code|src e| |id cs|id e code]; cbn [handle];
    try done.
  - apply sendChat_owed.
  - unfold handleRegenerateMessage. case_match; [apply sendChat_owed|done].
  - unfold applyEdit. repeat case_match; try done. apply sendChat_owed.
  - destruct d as [|us|]; cbn [sse_onMessage].
    + by apply idle_owed.
    + revert st H. induction us as [|u us IH]; intros st H; [done|]. cbn [foldl]. apply IH.
      unfold handleStreamUpdate. by destruct u as [[] ?].
    + unfold sse_handleError. case_match; [|done]. apply idle_owed. by rewrite close_requesting.
  - case_match; [done|]. unfold sse_handleError. case_match; [|done]. apply idle_owed. by rewrite close_requesting.
  - case_match; [|done]. unfold sse_handleError. case_match; [|done]. apply idle_owed. by rewrite close_requesting.
  - destruct (flush_fields now st) as (H1 & H2 & H3 & H4). unfold owed. by rewrite H1, H2, H3, H4.
  - unfold onResponse. apply (settled_owed id st); [done|]. repeat case_match; done.
  - unfold onRequestFailed. apply (settled_owed id st); [done|]. case_match; done.
Qed.

Lemma Reachable_owed t st : Reachable t st → owed st.
Proof. induction 1 as [|st st' _ IH HS]; [by apply idle_owed|]. destruct HS. by apply handle_owed. Qed.

(** The end marker and an error of the open source end the generation, and so does
    the settling of the current request when nothing is streamed. *)
Lemma done_ends t now src st :
  sseSource st = Some src → isGenerating (sse_onMessage t now src SseDone st) = false.
Proof.
  intros E. cbn [sse_onMessage]. unfold isGenerating, handleStreamComplete. cbn.
  rewrite orb_false_r. unfold closeActiveStream. cbn. rewrite E, (bool_decide_eq_true_2 (Some src = _)) by done.
  match goal with |- isStreaming (flushStreamUpdates _ ?x) = _ =>
    by destruct (flush_spec now x) as (_ & _ & _ & _ & (-> & _) & _) end.
Qed.

Lemma error_ends t now src e code st :
  sseSource st = Some src → isStreamComplete st = false →
  isGenerating (sse_handleError t now src e code st) = false.
Proof.
  intros E Ec. unfold sse_handleError, closeActiveStream. rewrite Ec. cbn [negb].
  destruct (flush_fields now st) as (_ & Hs & _). cbn. rewrite Hs, E, bool_decide_eq_true_2 by done. done.
Qed.

Lemma response_ends t now choices st :
  isStreaming st = false → isGenerating (onResponse t now (requestId st) choices st) = false.
Proof.
  intros E. unfold onResponse, isGenerating.
  destruct (flush_spec now (drop_inflight (requestId st) st)) as (_ & _ & _ & _ & (Hs & _) & (Hr & _)).
  destruct (has _ _); [|destruct (negb _)]; unfold settle_finally, handleStreamError; cbn in *;
    rewrite ?Hr, Nat.eqb_refl; cbn; by rewrite ?Hs, ?E.
Qed.

Lemma failure_ends t now e code st :
  isStreaming st = false → isGenerating (onRequestFailed t now (requestId st) e code st) = false.
Proof.
  intros E. unfold onRequestFailed, isGenerating.
  destruct (flush_spec now (drop_inflight (requestId st) st)) as (_ & _ & _ & _ & (Hs & _) & (Hr & _)).
  destruct (has _ _); unfold settle_finally, handleStreamError; cbn in *; rewrite ?Hr, Nat.eqb_refl; cbn; by rewrite ?Hs, ?E.
Qed.

(** ** One streamed answer *)

Section stream.
Context (t : jstr → jstr) (now : nat → Z).

(** The events of a list that can happen, in order. *)
Definition run (evs : list Event) (st : ChatState) : ChatState :=
  foldl (fun st ev => if enabled ev st then handle t now ev st else st) st evs.

(** While the answer is streamed, the source [src] delivers chunks and the
    flush timer fires at any point. *)
Inductive Delivery := DChunks (us : list (StreamChunkType * jstr)) | DFlush.

Definition delivery_event (src : nat) (d : Delivery) : Event :=
  match d with DChunks us => EvSseMessage src (SseUpdates us) | DFlush => EvFlush end.

Definition contents (us : list (StreamChunkType * jstr)) : list jstr :=
  omap (fun u => match u.1 with ChunkContent => Some u.2 | ChunkReasoning => None end) us.

Definition delivered (ds : list Delivery) : list jstr :=
  concat (map (fun d => match d with DChunks us => contents us | DFlush => [] end) ds).

(** No run of chunks starts with the text of the run just before it. *)
Definition no_repeat (chunks : list jstr) : bool :=
  let n := seq 0 (S (length chunks)) in
  forallb (fun i => forallb (fun j => forallb (fun k =>
    let a := concat (take j (drop i chunks)) in
    let b := concat (take k (drop (i + j) chunks)) in
    negb (truthy a) || bool_decide (k = 0) || negb (startsWith a b)) n) n) n.

Lemma no_repeat_spec chunks pre a b post :
  no_repeat chunks = true → chunks = pre ++ a ++ b ++ post → b ≠ [] →
  negb (truthy (concat a)) || negb (startsWith (concat a) (concat b)) = true.
Proof.
  intros H -> Hb. unfold no_repeat in H. rewrite forallb_forall in H.
  assert (∀ x, x ≤ length (pre ++ a ++ b ++ post) → In x (seq 0 (S (length (pre ++ a ++ b ++ post))))) as Hin.
  { intros x Hx. apply in_seq. lia. }
  rewrite !length_app in Hin.
  specialize (H (length pre) ltac:(rewrite !length_app; apply Hin; lia)).
  rewrite forallb_forall in H.
  specialize (H (length a) ltac:(rewrite !length_app; apply Hin; lia)).
  rewrite forallb_forall in H.
  specialize (H (length b) ltac:(rewrite !length_app; apply Hin; lia)).
  rewrite <- drop_drop, !drop_app_length, !take_app_length in H.
  rewrite bool_decide_eq_false_2 in H by (by destruct b). by rewrite orb_false_r in H.
Qed.

(** The answer under construction: the chunks [done] already belong to the
    message, the chunks [buf] are buffered. *)
Record Streamed (src : nat) (pre : list Message) (m0 : Message) (past buf : list jstr)
    (st : ChatState) : Prop := {
  sm_source : sseSource st = Some src;
  sm_open : isStreamComplete st = false;
  sm_messages : ∃ m, messages st = pre ++ [m] ∧ same_identity m0 m ∧
    isAssistantMessagePending m = true ∧ getMessageContent m = concat past;
  sm_buffer : pendingContent st = concat buf;
  sm_timer : buf ≠ [] → flushTimer st = true;
}.

Lemma pending_no_error m : isAssistantMessagePending m = true → has_status Error m = false.
Proof.
  unfold isAssistantMessagePending, has_status. rewrite orb_true_iff, !bool_decide_eq_true.
  by intros [-> | ->].
Qed.

Lemma streaming_pending m : status m = Some Streaming → isAssistantMessagePending m = true.
Proof. unfold isAssistantMessagePending, has_status. by intros ->. Qed.

Lemma updateLast_snoc pre m f :
  from m = RoleAssistant → updateLastAssistantMessage (pre ++ [m]) f = pre ++ [f m].
Proof.
  intros Hm. destruct (updateLastAssistantMessage_spec (pre ++ [m]) f)
    as [(pre' & l & [-> ->]%app_inj_tail & _ & ->)|[Hn _]]; [done|].
  exfalso. apply (Hn m); [by rewrite last_snoc|done].
Qed.

(** A flush moves the buffered chunks into the message. *)
Lemma flush_message_spec m c r :
  isAssistantMessagePending m = true →
  (negb (truthy (getMessageContent m)) || negb (startsWith (getMessageContent m) c) = true) →
  getMessageContent (flush_message now c r m) = getMessageContent m ++ c ∧
  isAssistantMessagePending (flush_message now c r m) = true ∧
  same_identity m (flush_message now c r m).
Proof.
  intros Hp Hc. unfold flush_message.
  assert (∃ m1, m1 = (if truthy r then applyStreamingChunk m ChunkReasoning r (now 0) (now 1) else m) ∧
    getMessageContent m1 = getMessageContent m ∧ isAssistantMessagePending m1 = true ∧
    same_identity m m1) as (m1 & <- & Hc1 & Hp1 & Hi1).
  { eexists. split; [done|]. destruct (truthy r); [|done].
    destruct (applyStreamingChunk_spec m ChunkReasoning r (now 0) (now 1)) as (? & ? & ?);
      [by apply pending_no_error|]. auto using streaming_pending. }
  destruct c as [|x c]; [by rewrite app_nil_r|]. cbn [truthy].
  destruct (applyStreamingChunk_spec m1 ChunkContent (x :: c) (now 2) (now 3)) as (H1 & H2 & H3);
    [by apply pending_no_error|].
  rewrite H1, Hc1. unfold getAppendableChunk. rewrite Hc.
  split; [done|]. split; [by apply streaming_pending|by eapply same_identity_trans].
Qed.

Lemma flush_Streamed src pre m0 past buf st :
  from m0 = RoleAssistant →
  (buf ≠ [] → negb (truthy (concat past)) || negb (startsWith (concat past) (concat buf)) = true) →
  Streamed src pre m0 past buf st →
  Streamed src pre m0 (past ++ buf) [] (flushStreamUpdates now st).
Proof.
  intros Hrole Hrep [Hs Ho (m & Hm & Hi & Hp & Hc) Hb Ht].
  destruct (flush_spec now st) as (_ & Hc' & _ & Ht' & (_ & Hs' & Ho' & _) & _).
  constructor; [congruence..| |done|done].
  rewrite concat_app.
  assert (Hb' : buf = [] ∨ negb (truthy (concat past)) || negb (startsWith (concat past) (concat buf)) = true)
    by (destruct buf; auto).
  unfold flushStreamUpdates. cbn [set_timer pendingContent pendingReasoning].
  destruct (negb (truthy (pendingReasoning st)) && negb (truthy (pendingContent st))) eqn:E.
  - apply andb_true_iff in E as [_ E]. apply negb_true_iff, truthy_false in E.
    exists m. rewrite <- Hb, E, app_nil_r. done.
  - cbn [update_messages set_messages set_pending messages set_timer]. rewrite Hm.
    rewrite updateLast_snoc by (destruct Hi as (_ & -> & _); done).
    destruct (flush_message_spec m (pendingContent st) (pendingReasoning st) Hp) as (H1 & H2 & H3).
    { rewrite Hc, Hb. destruct Hb' as [->|Hb']; [|done]. simpl.
      by destruct (concat past). }
    eexists. split; [done|]. split; [by eapply same_identity_trans|]. split; [done|].
    by rewrite H1, Hc, Hb.
Qed.

Lemma update_Streamed src pre m0 past buf st ty c :
  (ty = ChunkContent → negb (truthy (concat buf)) || negb (startsWith (concat buf) c) = true) →
  Streamed src pre m0 past buf st →
  Streamed src pre m0 past (buf ++ contents [(ty, c)]) (handleStreamUpdate st (ty, c)).
Proof.
  intros Hrep [Hs Ho Hm Hb Ht]. destruct ty; constructor; try done; simpl.
  - by rewrite app_nil_r.
  - unfold mergePendingStreamChunk. rewrite Hb, Hrep by done.
    rewrite concat_app. simpl. by rewrite app_nil_r.
Qed.

(** The chunks of one event, appended one by one. *)
Lemma updates_Streamed src pre m0 us past buf st rest :
  no_repeat (past ++ buf ++ contents us ++ rest) = true →
  Streamed src pre m0 past buf st →
  Streamed src pre m0 past (buf ++ contents us) (foldl handleStreamUpdate st us).
Proof.
  revert buf st. induction us as [|[ty c] us IH]; intros buf st Hn HS.
  { cbn. by rewrite app_nil_r. }
  assert (contents ((ty, c) :: us) = contents [(ty, c)] ++ contents us) as Hcs by (by destruct ty).
  rewrite Hcs in *. rewrite app_assoc. cbn [foldl]. apply IH.
  - by rewrite <- !app_assoc in *.
  - apply update_Streamed; [|done]. intros ->.
    pose proof (no_repeat_spec _ past buf [c] (contents us ++ rest) Hn) as H.
    cbn [concat] in H. rewrite app_nil_r in H. apply H; [|done]. simpl. by rewrite <- ?app_assoc.
Qed.

Lemma deliveries_Streamed src pre m0 ds past buf st :
  from m0 = RoleAssistant →
  no_repeat (past ++ buf ++ delivered ds) = true →
  Streamed src pre m0 past buf st →
  ∃ past' buf', past' ++ buf' = past ++ buf ++ delivered ds ∧
    Streamed src pre m0 past' buf' (run (map (delivery_event src) ds) st).
Proof.
  intros Hrole. revert past buf st. induction ds as [|d ds IH]; intros past buf st Hn HS.
  { exists past, buf. unfold delivered. simpl. by rewrite app_nil_r. }
  destruct d as [us|].
  - change (delivered (DChunks us :: ds)) with (contents us ++ delivered ds) in *.
    destruct (IH past (buf ++ contents us) (foldl handleStreamUpdate st us)) as (p' & b' & Heq & H).
    { by rewrite <- app_assoc. } { by eapply updates_Streamed. }
    exists p', b'. rewrite Heq, <- app_assoc. split; [done|]. simpl.
    by rewrite bool_decide_eq_true_2 by apply HS.
  - change (delivered (DFlush :: ds)) with (delivered ds) in *. simpl.
    destruct (flushTimer st) eqn:Ef; [|by apply IH].
    destruct (IH (past ++ buf) [] (flushStreamUpdates now st)) as (p' & b' & Heq & H).
    { by rewrite <- app_assoc. }
    { apply flush_Streamed; [done| |done]. intros Hb.
      by apply (no_repeat_spec _ [] past buf (delivered ds) Hn). }
    exists p', b'. rewrite Heq, <- app_assoc. done.
Qed.

Lemma done_Streamed src pre m0 past buf st :
  from m0 = RoleAssistant →
  (buf ≠ [] → negb (truthy (concat past)) || negb (startsWith (concat past) (concat buf)) = true) →
  Streamed src pre m0 past buf st →
  let st' := sse_onMessage t now src SseDone st in
  ∃ m, messages st' = pre ++ [m] ∧ same_identity m0 m ∧ status m = Some Complete ∧
    getMessageContent m = finalVisible (concat (past ++ buf)) ∧ isGenerating st' = false.
Proof.
  intros Hrole Hrep HS. cbv zeta. unfold sse_onMessage, closeActiveStream. simpl.
  rewrite (sm_source _ _ _ _ _ _ HS). rewrite (bool_decide_eq_true_2 (Some src = Some src)) by done.
  rewrite ?orb_true_r. cbn [sseSource]. set (st1 := set_stream false None _).
  assert (∃ m, messages (flushStreamUpdates now st1) = pre ++ [m] ∧ same_identity m0 m ∧
    isAssistantMessagePending m = true ∧ getMessageContent m = concat (past ++ buf))
    as (m & Hm & Hi & Hp & Hc).
  { pose proof (flush_Streamed src pre m0 past buf st Hrole Hrep HS) as [_ _ H _ _].
    unfold flushStreamUpdates in *. simpl in *. by case_if. }
  unfold handleStreamComplete, update_messages. cbn [set_messages set_isRequesting messages].
  rewrite Hm, updateLast_snoc by (destruct Hi as (_ & -> & _); done).
  eexists. split; [done|]. unfold complete_unless_final.
  assert (isAssistantMessageFinal m = false) as ->.
  { unfold isAssistantMessageFinal, isAssistantMessagePending, has_status in *.
    apply orb_true_iff in Hp as [Hp|Hp]; apply bool_decide_eq_true in Hp; by rewrite Hp. }
  unfold completeAssistantMessage.
  destruct (finalizeMessage_frame m None (now 4) (now 5)) as (Fi & Fc & _).
  set (f := finalizeMessage m None (now 4) (now 5)) in *.
  destruct (completeAssistantTiming_frame (with_status Complete f) (now 6)) as (Ai & Av & As & _).
  split; [eapply same_identity_trans; [exact Hi|]; eapply same_identity_trans; [exact Fi|exact Ai]|].
  split; [by rewrite As|]. split.
  - rewrite (content_of_versions _ _ Av). change (getMessageContent f = finalVisible (concat (past ++ buf))).
    by rewrite Fc, Hc.
  - destruct (flush_spec now st1) as (_ & _ & _ & _ & (H1 & _) & _).
    unfold isGenerating. simpl. by rewrite H1.
Qed.
End stream.

(** ** Properties *)

Definition clock0 (n : nat) : Z := Z.of_nat n.
Definition plain (s : jstr) : jstr := s.
Definition fresh_ids (stream : bool) : Fresh := MkFresh "k1" "v1" "k2" "v2" stream true.

(** C2: in every reachable session the connection, the buffer, the timer and the
    conversation agree: the streaming flag is set exactly when a source is open,
    an open source has not completed, buffered text always has an armed flush
    timer, a timer is armed only while streaming, only the last message can be
    an unfinished answer, and no answer is unfinished when nothing is generated. *)
Theorem session_invariant t st :
  Reachable t st →
  isStreaming st = bool_decide (is_Some (sseSource st)) ∧
  (is_Some (sseSource st) → isStreamComplete st = false) ∧
  (pendingContent st ≠ [] ∨ pendingReasoning st ≠ [] →
   flushTimer st = true ∧ isStreaming st = true) ∧
  settled_before_last (messages st) ∧
  (isGenerating st = false → Forall not_pending (messages st)).
Proof. intros []%Reachable_Inv. repeat split; auto. Qed.

Lemma session_invariant_witness :
  let st := handle plain clock0 (EvSend "hi" (fresh_ids true)) (initial []) in
  isGenerating st = true ∧
  isStreaming st = bool_decide (is_Some (sseSource st)) ∧
  (is_Some (sseSource st) → isStreamComplete st = false) ∧
  (pendingContent st ≠ [] ∨ pendingReasoning st ≠ [] →
   flushTimer st = true ∧ isStreaming st = true) ∧
  settled_before_last (messages st) ∧
  (isGenerating st = false → Forall not_pending (messages st)).
Proof.
  intros st. split; [reflexivity|]. apply (session_invariant plain).
  apply (reach_step plain (initial [])); [constructor; constructor|].
  constructor. reflexivity.
Defined.

(** C9: stopping always stops: from every reachable session, [stopGeneration]
    leaves nothing generating, no open source, an empty buffer with no timer, no
    unfinished answer, and the request in flight aborted; text already buffered
    has been moved into the answer. *)
Theorem stopGeneration_stops t now st :
  Reachable t st →
  let st' := stopGeneration now st in
  isGenerating st' = false ∧ sseSource st' = None ∧
  pendingContent st' = [] ∧ pendingReasoning st' = [] ∧ flushTimer st' = false ∧
  Forall not_pending (messages st') ∧ abortController st' = None ∧
  (∀ id, abortController st = Some id → id ∈ aborted st') ∧
  messages st' = updateLastAssistantMessage
    (messages (flushStreamUpdates now (set_stream false None st))) (complete_if_pending now).
Proof.
  intros HR. cbv zeta. destruct (stopGeneration_Inv now st (Reachable_Inv _ _ HR)) as (_ & [] & Hg).
  split; [done|].
  destruct (flush_spec now (set_stream false None st)) as (_ & _ & _ & _ & (_ & Hs & _) & (_ & Hc & _)).
  assert (sseSource (stopGeneration now st) = None ∧
    (∀ id, abortController st = Some id → id ∈ aborted (stopGeneration now st)) ∧
    messages (stopGeneration now st) = updateLastAssistantMessage
      (messages (flushStreamUpdates now (set_stream false None st))) (complete_if_pending now))
    as (? & ? & ?); [|repeat split; auto].
  unfold stopGeneration.
  change (closeActiveStream None st) with (set_stream false None st).
  cbv zeta. rewrite Hc. simpl in *. destruct (abortController st); simpl; rewrite ?Hs;
    repeat split; intros; simplify_eq; try done. left.
Qed.

Lemma stopGeneration_stops_witness :
  let st := run plain clock0
    [EvSend "hi" (fresh_ids true); EvSseMessage 0 (SseUpdates [(ChunkContent, "He")])] (initial []) in
  let st' := stopGeneration clock0 st in
  map getMessageContent (messages st') = ["hi"; "He"] ∧
  (isGenerating st' = false ∧ sseSource st' = None ∧
  pendingContent st' = [] ∧ pendingReasoning st' = [] ∧ flushTimer st' = false ∧
  Forall not_pending (messages st') ∧ abortController st' = None ∧
  (∀ id, abortController st = Some id → id ∈ aborted st') ∧
  messages st' = updateLastAssistantMessage
    (messages (flushStreamUpdates clock0 (set_stream false None st))) (complete_if_pending clock0)).
Proof.
  intros st. split; [reflexivity|]. apply (stopGeneration_stops plain).
  apply (reach_step plain (run plain clock0 [EvSend "hi" (fresh_ids true)] (initial [])));
    [apply (reach_step plain (initial [])); [constructor; constructor|]|];
    apply (step_event plain clock0); reflexivity.
Defined.

(** The events by which an open source ends its answer: the end marker, data that does not
    parse, an error reported while the source is not yet closed, and a closing with a status
    other than 200. *)
Definition source_ends (src : nat) (ev : Event) : Prop :=
  ev = EvSseMessage src SseDone ∨ ev = EvSseMessage src SseUnparsable ∨
  (∃ e code, ev = EvSseError src false e code) ∨ (∃ e, ev = EvReadyState src (Some e)).

(** The current request settles, with a response of any shape or with an error. *)
Definition request_settles (id : nat) (ev : Event) : Prop :=
  (∃ choices, ev = EvResponse id choices) ∨ (∃ e code, ev = EvRequestFailed id e code).

(** C14: no generation waits for nobody.  In every reachable session that is
    generating, an SSE source is open or the current request is in flight.  The end
    marker, unreadable data, an error of the source before it is closed and a closing
    with a status other than 200 each end the generation, and so does the settling of
    the current request, answered or failed, when no source is open: nothing generates
    and no answer is unfinished afterwards.  A source that closes with status 200
    without the end marker, or reports an error once it is closed, changes nothing: the
    session then generates until the user stops it. *)
Theorem generation_ends t st :
  Reachable t st → isGenerating st = true →
  (is_Some (sseSource st) ∨ requestId st ∈ inflight st) ∧
  (∀ now src ev, sseSource st = Some src → source_ends src ev →
     enabled ev st = true ∧ isGenerating (handle t now ev st) = false ∧
     Forall not_pending (messages (handle t now ev st))) ∧
  (∀ now ev, sseSource st = None → request_settles (requestId st) ev →
     enabled ev st = true ∧ isGenerating (handle t now ev st) = false ∧
     Forall not_pending (messages (handle t now ev st))) ∧
  (∀ now src e code, handle t now (EvReadyState src None) st = st ∧ handle t now (EvSseError src true e code) st = st).
Proof.
  intros HR Hg. pose proof (Reachable_Inv _ _ HR) as HI. pose proof (Reachable_owed _ _ HR) as Ho.
  assert (Hsome : is_Some (sseSource st) ∨ requestId st ∈ inflight st).
  { unfold isGenerating in Hg. apply orb_true_iff in Hg as [Hs|Hr]; [left|by apply Ho].
    rewrite (inv_source _ HI) in Hs. by apply bool_decide_eq_true in Hs. }
  assert (Hidle : ∀ now ev, enabled ev st = true → isGenerating (handle t now ev st) = false →
    Forall not_pending (messages (handle t now ev st))).
  { intros now ev He Hi. apply (inv_idle _ (handle_Inv t now ev st HI He)). done. }
  split; [done|]. split; [|split; [|done]].
  - intros now src ev Esrc Hev.
    assert (He : enabled ev st = true).
    { destruct Hev as [->|[->|[(e & code & ->)|(e & ->)]]]; cbn; by rewrite bool_decide_eq_true_2. }
    assert (Hi : isGenerating (handle t now ev st) = false); [|by auto].
    assert (Hopen : isStreamComplete st = false) by (apply (inv_open _ HI); by rewrite Esrc).
    destruct Hev as [->|[->|[(e & code & ->)|(e & ->)]]]; cbn [handle sse_onMessage].
    + by apply (done_ends t).
    + by apply error_ends.
    + by apply error_ends.
    + by apply error_ends.
  - intros now ev Esrc Hev.
    assert (He : enabled ev st = true).
    { assert (Hin : requestId st ∈ inflight st) by (destruct Hsome as [[? E]|Hin]; [congruence|done]).
      destruct Hev as [(c & ->)|(e & code & ->)]; cbn; by apply bool_decide_eq_true_2. }
    assert (Hi : isGenerating (handle t now ev st) = false); [|by auto].
    assert (Hns : isStreaming st = false) by (rewrite (inv_source _ HI), Esrc; done).
    destruct Hev as [(c & ->)|(e & code & ->)]; cbn [handle]; [by apply response_ends|by apply failure_ends].
Qed.

Lemma generation_ends_witness :
  let st := handle plain clock0 (EvSend "hi" (fresh_ids true)) (initial []) in
  let failing := EvReadyState 0 (Some "HTTP 500: Connection closed") in
  isGenerating st = true ∧ sseSource st = Some 0 ∧
  isGenerating (handle plain clock0 failing st) = false ∧ Forall not_pending (messages (handle plain clock0 failing st)).
Proof.
  intros st failing. split; [reflexivity|]. split; [reflexivity|].
  assert (HR : Reachable plain st).
  { apply (reach_step plain (initial [])); [constructor; constructor|]. apply (step_event plain clock0); reflexivity. }
  refine (proj2 (proj1 (proj2 (generation_ends plain st HR eq_refl)) clock0 0 failing eq_refl _)).
  right. right. right. by eexists.
Defined.

(** A stream that closes with status 200 before the end marker leaves the session generating. *)
Example silent_close_keeps_generating :
  let st := handle plain clock0 (EvSend "hi" (fresh_ids true)) (initial []) in
  isGenerating (handle plain clock0 (EvReadyState 0 None) st) = true.
Proof. reflexivity. Qed.

(** C1: a streamed answer arrives whole: from any idle session, sending a text
    and receiving chunks interleaved in any way with the flush timer, up to the
    end marker, appends exactly the user's message and one complete answer whose
    text is what the concatenation of the content chunks shows once its inline
    thinking parts are removed (the concatenation itself when it has no <think>),
    and the session is idle again.  The chunks must be such that no run of them
    starts with the text of the run just before it, and the stream must start. *)
Theorem streamed_answer_whole t now st text f ds :
  Reachable t st → isGenerating st = false → f_stream f = true → f_starts f = true →
  no_repeat (delivered ds) = true →
  let src := nextSource st in
  let st' := run t now (EvSend text f :: map (delivery_event src) ds ++ [EvSseMessage src SseDone]) st in
  ∃ m, messages st' = messages st ++ [createUserMessage (f_k1 f) (f_v1 f) text (now 0); m] ∧
    key m = f_k2 f ∧ from m = RoleAssistant ∧ status m = Some Complete ∧
    getMessageContent m = finalVisible (concat (delivered ds)) ∧
    (includes think_open (concat (delivered ds)) = false → getMessageContent m = concat (delivered ds)) ∧
    isGenerating st' = false.
Proof.
  intros HR%Reachable_Inv Hg Hf1 Hf2 Hn src. cbv zeta.
  set (m0 := createLoadingAssistantMessage (f_k2 f) (f_v2 f) (now 0)).
  set (u := createUserMessage (f_k1 f) (f_v1 f) text (now 0)).
  set (st1 := handle t now (EvSend text f) st).
  assert (Streamed src (messages st ++ [u]) m0 [] [] st1) as HS.
  { unfold st1. simpl. unfold handleSendMessage, sendChat, sendStreamingChat, sendStreamRequest. rewrite Hf1, Hf2.
    constructor; try done; simpl.
    - exists m0. unfold appendUserMessagePair. by rewrite <- app_assoc.
    - destruct (pendingContent st) as [|x c] eqn:Ec; [done|].
      assert (isStreaming st = true) as Hs.
      { apply (inv_timer _ HR), (inv_buffer _ HR). left. by rewrite Ec. }
      unfold isGenerating in Hg. by rewrite Hs in Hg. }
  destruct (deliveries_Streamed t now src _ m0 ds [] [] st1 eq_refl Hn HS) as (past & buf & Heq & HS').
  simpl in Heq.
  destruct (done_Streamed t now src _ m0 past buf _ eq_refl
    ltac:(intros; apply (no_repeat_spec _ [] past buf [] Hn); [by rewrite app_nil_r|done]) HS')
    as (m & Hm & (Hk & Hr & _) & Hst & Hc & Hgen).
  exists m. cbn [run foldl]. cbn [enabled]. rewrite Hg. cbn [negb].
  fold st1. rewrite foldl_app. cbn [foldl enabled].
  fold (run t now (map (delivery_event src) ds) st1).
  rewrite bool_decide_eq_true_2 by apply HS'. cbn [handle].
  rewrite Hm, <- app_assoc, <- Heq. repeat (split; [done|]). split; [|done].
  rewrite Hc. unfold finalVisible, parseThinkTags. by intros ->.
Qed.

Lemma streamed_answer_whole_witness :
  let ds := [DChunks [(ChunkContent, "Hel")]; DFlush;
             DChunks [(ChunkReasoning, "greet"); (ChunkContent, "lo ")];
             DChunks [(ChunkContent, "you")]] in
  let st := initial [] in
  let st' := run plain clock0 (EvSend "hi" (fresh_ids true) ::
               map (delivery_event 0) ds ++ [EvSseMessage 0 SseDone]) st in
  no_repeat (delivered ds) = true ∧
  ∃ m, messages st' = messages st ++ [createUserMessage "k1" "v1" "hi" (clock0 0); m] ∧
    key m = "k2" ∧ from m = RoleAssistant ∧ status m = Some Complete ∧
    getMessageContent m = finalVisible (concat (delivered ds)) ∧
    (includes think_open (concat (delivered ds)) = false → getMessageContent m = concat (delivered ds)) ∧
    isGenerating st' = false.
Proof.
  intros ds st. split; [vm_compute; reflexivity|].
  apply (streamed_answer_whole plain clock0 st "hi" (fresh_ids true) ds);
    [constructor; constructor|reflexivity..|vm_compute; reflexivity].
Defined.

(** A delta that repeats exactly what is buffered since the last flush is
    dropped: after ["Total: "] has been flushed, the deltas ["1"] and ["1"]
    arriving within one flush interval leave the answer ["Total: 1"]. *)
Theorem buffered_repeat_dropped :
  map getMessageContent (messages (run plain clock0
    [EvSend "hi" (fresh_ids true);
     EvSseMessage 0 (SseUpdates [(ChunkContent, "Total: ")]); EvFlush;
     EvSseMessage 0 (SseUpdates [(ChunkContent, "1")]);
     EvSseMessage 0 (SseUpdates [(ChunkContent, "1")]);
     EvSseMessage 0 SseDone] (initial []))) = ["hi"; "Total: 1"].
Proof. vm_compute. reflexivity. Qed.

(** An edit submitted while a non-streaming request is in flight does not
    abort that request: its answer is written into the answer of the edited
    prompt, and stopping then keeps it as the final answer. *)
Theorem stale_response_answers_edit :
  let st := run plain clock0
    [EvEdit "u"; EvSend "second" (fresh_ids false);
     EvApplyEdit "edited" true (MkFresh "k3" "v3" "k4" "v4" false true);
     EvResponse 1 (Some [MkChoice (Some "answer to second") None]); EvStop]
    (initial [createUserMessage "u" "v" "first" 0]) in
  map getMessageContent (messages st) = ["edited"; "answer to second"] ∧
  map status (messages st) = [None; Some Complete] ∧ isGenerating st = false.
Proof. vm_compute. done. Qed.

(** An edit submitted while an answer is streamed does not clear the buffer
    of the old answer: its buffered text is flushed into the answer of the
    edited prompt. *)
Theorem stale_chunk_enters_edit :
  let st := run plain clock0
    [EvEdit "u"; EvSend "second" (fresh_ids true);
     EvSseMessage 0 (SseUpdates [(ChunkContent, "old text, ")]);
     EvApplyEdit "edited" true (MkFresh "k3" "v3" "k4" "v4" true true);
     EvSseMessage 1 (SseUpdates [(ChunkContent, "new text")]); EvSseMessage 1 SseDone]
    (initial [createUserMessage "u" "v" "first" 0]) in
  map getMessageContent (messages st) = ["edited"; "old text, new text"].
Proof. vm_compute. reflexivity. Qed.

(** The request payload holds exactly the conversation's usable messages in
    order (every user and system message that has a version, every assistant
    message with text), each formatted; each optional parameter is present
    exactly when its switch is on, and the seed only when it is also set. *)
Theorem payload_spec {Num} ms (config : PlaygroundConfig Num) en :
  let p := buildChatCompletionPayload ms config en in
  (∃ kept, sublist kept ms ∧ rq_messages p = map formatMessageForAPI kept ∧
     ∀ m, m ∈ kept ↔ m ∈ ms ∧ isValidMessage m = true) ∧
  (is_Some (rq_temperature p) ↔ en_temperature en = true) ∧
  (is_Some (rq_top_p p) ↔ en_top_p en = true) ∧
  (is_Some (rq_max_tokens p) ↔ en_max_tokens en = true) ∧
  (is_Some (rq_frequency_penalty p) ↔ en_frequency_penalty en = true) ∧
  (is_Some (rq_presence_penalty p) ↔ en_presence_penalty en = true) ∧
  (rq_seed p = if en_seed en then cfg_seed config else None).
Proof.
  cbv zeta. unfold buildChatCompletionPayload, given. cbn.
  split; [|repeat split; repeat case_match; naive_solver].
  exists (filter (fun m => isValidMessage m = true) ms). split; [apply sublist_filter|]. split; [done|].
  intros m. rewrite list_elem_of_filter. tauto.
Qed.
